(** * nextpnr: negotiated-congestion router and simulated-annealing placer

    A shallow embedding of the second [Router2] definition (the router with
    the backwards BFS prelude and the forward A* search) and of the
    annealing core of [ParallelRefinementPlacer], followed by the properties
    of both.

    Conventions of the embedding.

    - [int] and [size_t] values are integers of [Z] (indices of vectors are
      [nat]).  Signed overflow is undefined in C++ and the source does not
      rely on it, so no wrap-around is written out, but for the sums and the
      half-perimeter of [setup_nets]: these do overflow for a net without
      users, and there the two's complement result is written out
      ([int_wrap]), as it is for the bound [M] of the annealing schedule.
    - [float] and [double] values are exact rationals of [Q]: the model is
      the real-number reading of the arithmetic, rounding is not modelled.
      Whenever a result is claimed up to that reading this is said in the
      statement's comment.  The annealing schedule of the placer is the
      exception: it cuts a [double] to an [int] and compares rounded values,
      so there every operation is written with its rounding to binary64 or
      binary32 ([Binary]).
    - [std::unordered_map] and [std::unordered_set] are [gmap] and [gset];
      [std::vector] is [list]; [std::queue] is a list whose head is the front.
    - [x.at(k)] throws when [k] is missing, [NPNR_ASSERT] and [log_error]
      throw as well: such functions return a [result], and the kind of the
      exception is kept.
    - Loops whose termination depends on the routing graph take a [fuel]
      argument and report [OutOfFuel] when it runs out.
    - [do_route] is modelled for the queues it routes in one thread; the
      branch on worker threads reports [Threaded].
    - The device model ([Context]) is a record of functions for what is
      immutable (adjacency, delays, locations) and a record of tables for
      what is mutable (the binding tables and the state of the RNG). *)

From Stdlib Require Import ZArith QArith Qround Qpower Bool List Lia Lqa.
From stdpp Require Import base option list gmap fin_maps fin_sets sorting.

Local Open Scope Z_scope.

(** ** Identifiers *)

(** Wires, pips and bels are opaque small integers; the default-constructed
    identifier ([WireId()], [PipId()], [BelId()]) is the null one. *)
Abbreviation WireId := Z (only parsing).
Abbreviation PipId := Z (only parsing).
Abbreviation BelId := Z (only parsing).

Definition WireId_null : WireId := -1.
Definition PipId_null : PipId := -1.
Definition BelId_null : BelId := -1.

(** Modelled from the spec: the strength enum of nextpnr.h, which is not
    part of the sources at hand; the device contract orders it
    WEAK < STRONG < USER. *)
Inductive PlaceStrength := STRENGTH_WEAK | STRENGTH_STRONG | STRENGTH_USER.

Definition strength_rank (s : PlaceStrength) : Z :=
  match s with
  | STRENGTH_WEAK => 1
  | STRENGTH_STRONG => 2
  | STRENGTH_USER => 5
  end.

Definition strength_le (a b : PlaceStrength) : bool :=
  strength_rank a <=? strength_rank b.
Definition strength_gt (a b : PlaceStrength) : bool :=
  strength_rank b <? strength_rank a.

#[global] Instance PlaceStrength_eq_dec : EqDecision PlaceStrength.
Proof. solve_decision. Defined.

(** ** Exceptions *)

Inductive error :=
| OutOfRange        (* std::out_of_range of [at] *)
| AssertionFailure  (* NPNR_ASSERT *)
| LogError          (* log_error *)
| OutOfFuel         (* the model's loop bound was reached *)
| Threaded.         (* the branch of [do_route] on worker threads, which
                       is outside this model *)

Inductive result (A : Type) :=
| Ok (a : A)
| Err (e : error).
Arguments Ok {A} a.
Arguments Err {A} e.

Definition rbind {A B} (m : result A) (k : A → result B) : result B :=
  match m with
  | Ok a => k a
  | Err e => Err e
  end.

#[global] Instance result_bind : MBind result := λ A B k m, rbind m k.
#[global] Instance result_ret : MRet result := λ A a, Ok a.

Definition is_Ok {A} (m : result A) : Prop := ∃ a, m = Ok a.

(** [v.at(i)] on a vector, for a [size_t] index and for an [int] index. *)
Definition vec_at {A} (v : list A) (i : nat) : result A :=
  match v !! i with
  | Some x => Ok x
  | None => Err OutOfRange
  end.

Definition vec_at_int {A} (v : list A) (i : Z) : result A :=
  if i <? 0 then Err OutOfRange else vec_at v (Z.to_nat i).

(** [m.at(k)] on a map. *)
Definition map_at {A} (m : gmap Z A) (k : Z) : result A :=
  match m !! k with
  | Some x => Ok x
  | None => Err OutOfRange
  end.

(** A monadic left fold: the body of a [for] loop that may throw. *)
Fixpoint foldM {A S} (f : S → A → result S) (s : S) (l : list A) : result S :=
  match l with
  | [] => Ok s
  | x :: l' => s' ← f s x; foldM f s' l'
  end.

(** ** Rational helpers *)

Definition Qltb (x y : Q) : bool := negb (Qle_bool y x).
Definition Qmax (x y : Q) : Q := if Qle_bool x y then y else x.

(** ** Machine integers *)

(** The [int] the machine computes where a result can leave the range of
    [int]: the two's complement value, with wrap-around.  Signed overflow is
    undefined in C++; the compiled code wraps, and the set-up of a net that
    has no user does overflow. *)
Definition int_wrap (z : Z) : Z := (z + 2147483648) mod 4294967296 - 2147483648.

(** [std::abs] on an [int]. *)
Definition int_abs (z : Z) : Z := int_wrap (Z.abs z).

(** ** Netlist *)

Record Loc := mkLoc { loc_x : Z; loc_y : Z; loc_z : Z }.

(** The value-initialised [Loc] of nextpnr.h.  The router stores it in the
    queue entry of the source wire and never reads it. *)
Definition Loc_default : Loc := mkLoc (-1) (-1) (-1).

Record ArcBounds := mkArcBounds { x0 : Z; y0 : Z; x1 : Z; y1 : Z }.

Record CellInfo := mkCellInfo { cell_bel : BelId }.

Record PortRef := mkPortRef { port_cell : CellInfo; port_id : Z }.

(** [NetInfo]: the fields the router reads.  [driver_cell] is [None] for
    [driver.cell == nullptr].  The net's bound wires ([net->wires]) live in
    the binding table of the context, see [net_wires]. *)
Record NetInfo := mkNetInfo {
  udata : Z;
  is_global : bool;
  driver_cell : option CellInfo;
  users : list PortRef
}.

(** ** Device model *)

(** The immutable part of [Context]: what the cores query and never change.
    A delay is the [maxDelay()] projection of a [DelayInfo]; [rng_step] is
    one call of [ctx->rng()], from the state of the generator to the value
    returned and the next state, and [sorted_shuffle] likewise from the
    state and a vector to the shuffled vector and the next state. *)
Inductive PortType := PORT_IN | PORT_OUT | PORT_INOUT.

#[global] Instance PortType_eq_dec : EqDecision PortType.
Proof. solve_decision. Defined.

Record BelPin := mkBelPin { bp_bel : BelId; bp_pin : Z }.

Record Context := mkContext {
  ARCH_ECP5 : bool;
  getWires : list WireId;
  getWireBelPins : WireId → list BelPin;
  getBelPinType : BelId → Z → PortType;
  getPipsUphill : WireId → list PipId;
  getPipsDownhill : WireId → list PipId;
  getPipSrcWire : PipId → WireId;
  getPipDstWire : PipId → WireId;
  getPipLocation : PipId → Loc;
  getBelLocation : BelId → Loc;
  getPipDelay : PipId → Z;
  getWireDelay : WireId → Z;
  getDelayEpsilon : Z;
  getDelayNS : Z → Q;
  estimateDelay : WireId → WireId → Z;
  getRouteBoundingBox : WireId → WireId → ArcBounds;
  getNetinfoSourceWire : NetInfo → WireId;
  getNetinfoSinkWire : NetInfo → PortRef → WireId;
  rng_step : Z → Z * Z;
  sorted_shuffle : Z → list Z → list Z * Z
}.

(** The binding of a wire in the device's table: the net (by [udata]), the
    pip that drives the wire for it, and the strength.  This is the entry
    [net->wires.at(wire)] of the net that holds the wire. *)
Record PipMap := mkPipMap {
  pm_net : Z;
  pm_pip : PipId;
  pm_strength : PlaceStrength
}.

(** The mutable part of [Context]: the two binding tables and the state of
    the generator. *)
Record ArchState := mkArchState {
  wire_bind : gmap Z PipMap;
  pip_bind : gmap Z (Z * PlaceStrength);
  rngstate : Z
}.

(** Modelled from the spec: the binding queries of the device contract
    (section 6), whose code belongs to the architecture and is not part of
    the sources at hand.  A wire or a pip is available when the table has no
    entry for it; the bound net is the net of the entry. *)
Definition getBoundWireNet (a : ArchState) (w : WireId) : option Z :=
  pm_net <$> wire_bind a !! w.

(** Modelled from the spec: see [getBoundWireNet]. *)
Definition getBoundPipNet (a : ArchState) (p : PipId) : option Z :=
  fst <$> pip_bind a !! p.

(** Modelled from the spec: see [getBoundWireNet]. *)
Definition checkWireAvail (a : ArchState) (w : WireId) : bool :=
  bool_decide (wire_bind a !! w = None).

(** Modelled from the spec: see [getBoundWireNet]. *)
Definition checkPipAvail (a : ArchState) (p : PipId) : bool :=
  bool_decide (pip_bind a !! p = None).

(** [net->wires]: the wires the table binds to the net. *)
Definition net_wires (a : ArchState) (net : NetInfo) : gmap Z PipMap :=
  filter (λ kv, pm_net kv.2 = udata net) (wire_bind a).

(** Modelled from the spec: [unbindWire] of the device contract (section
    6), whose code belongs to the architecture and is not part of the
    sources at hand.  Unbinding a wire removes its entry and frees the pip
    recorded as driving it. *)
Definition unbindWire (a : ArchState) (w : WireId) : ArchState :=
  match wire_bind a !! w with
  | None => a
  | Some pm =>
      mkArchState (delete w (wire_bind a))
                  (if bool_decide (pm_pip pm = PipId_null) then pip_bind a
                   else delete (pm_pip pm) (pip_bind a))
                  (rngstate a)
  end.

(** Modelled from the spec: [bindWire] of the device contract; the wire is
    entered for the net without a driving pip. *)
Definition bindWire (a : ArchState) (w : WireId) (net : Z) (s : PlaceStrength)
  : ArchState :=
  mkArchState (<[w := mkPipMap net PipId_null s]> (wire_bind a))
              (pip_bind a) (rngstate a).

(** Modelled from the spec: [bindPip] of the device contract; binding a pip
    binds the pip and, driven by it, its destination wire. *)
Definition bindPip (ctx : Context) (a : ArchState) (p : PipId) (net : Z)
    (s : PlaceStrength) : ArchState :=
  mkArchState (<[getPipDstWire ctx p := mkPipMap net p s]> (wire_bind a))
              (<[p := (net, s)]> (pip_bind a)) (rngstate a).

(** * The router *)

Module Router2.

Record PerArcData := mkPerArcData {
  ad_wires : gmap Z PipId;
  ad_bb : ArcBounds
}.

Record PerNetData := mkPerNetData {
  arcs : list PerArcData;
  bb : ArcBounds;
  cx : Z;
  cy : Z;
  hpwl : Z
}.

Record PerWireData := mkPerWireData {
  bound_nets : gmap Z (Z * PipId);
  hist_cong_cost : Q;
  unavailable : bool;
  reserved_net : Z
}.

(** The value-initialised [PerWireData]. *)
Definition PerWireData_default : PerWireData :=
  mkPerWireData ∅ 1%Q false (-1).

Record WireScore := mkWireScore {
  cost : Q;
  togo_cost : Q;
  delay : Z
}.

Definition total (s : WireScore) : Q := (cost s + togo_cost s)%Q.

Record QueuedWire := mkQueuedWire {
  qw_wire : WireId;
  qw_pip : PipId;
  qw_loc : Loc;
  qw_score : WireScore;
  randtag : Z
}.

Record VisitInfo := mkVisitInfo {
  vi_score : WireScore;
  vi_pip : PipId
}.

Record ThreadContext := mkThreadContext {
  route_arcs : list nat;
  queue : list QueuedWire;
  visited : gmap Z VisitInfo;
  processed_sinks : gset Z;
  backwards_queue : list WireId;
  backwards_pip : gmap Z PipId
}.

Inductive ArcRouteResult := ARC_SUCCESS | ARC_RETRY_WITHOUT_BB | ARC_FATAL.

(** The enumerators are numbered from 0 in the order of declaration. *)
Definition ArcRouteResult_value (r : ArcRouteResult) : Z :=
  match r with
  | ARC_SUCCESS => 0
  | ARC_RETRY_WITHOUT_BB => 1
  | ARC_FATAL => 2
  end.

(** The members of [Router2]. *)
Record Router := mkRouter {
  nets_by_udata : list NetInfo;
  nets : list PerNetData;
  wires : gmap Z PerWireData;
  curr_cong_weight : Q;
  hist_cong_weight : Q;
  total_wire_use : Z;
  overused_wires : Z;
  total_overuse : Z;
  route_queue : list Z;
  failed_nets : gset Z;
  arch_fail : Z
}.

Definition set_wires (r : Router) (ws : gmap Z PerWireData) : Router :=
  mkRouter (nets_by_udata r) (nets r) ws (curr_cong_weight r)
    (hist_cong_weight r) (total_wire_use r) (overused_wires r)
    (total_overuse r) (route_queue r) (failed_nets r) (arch_fail r).

Definition set_nets (r : Router) (ns : list PerNetData) : Router :=
  mkRouter (nets_by_udata r) ns (wires r) (curr_cong_weight r)
    (hist_cong_weight r) (total_wire_use r) (overused_wires r)
    (total_overuse r) (route_queue r) (failed_nets r) (arch_fail r).

Definition set_failed_nets (r : Router) (f : gset Z) : Router :=
  mkRouter (nets_by_udata r) (nets r) (wires r) (curr_cong_weight r)
    (hist_cong_weight r) (total_wire_use r) (overused_wires r)
    (total_overuse r) (route_queue r) f (arch_fail r).

Definition set_bound_nets (wd : PerWireData) (b : gmap Z (Z * PipId))
  : PerWireData :=
  mkPerWireData b (hist_cong_cost wd) (unavailable wd) (reserved_net wd).

Definition set_hist_cong_cost (wd : PerWireData) (h : Q) : PerWireData :=
  mkPerWireData (bound_nets wd) h (unavailable wd) (reserved_net wd).

Definition set_ad_wires (ad : PerArcData) (ws : gmap Z PipId) : PerArcData :=
  mkPerArcData ws (ad_bb ad).

Definition set_arcs (nd : PerNetData) (l : list PerArcData) : PerNetData :=
  mkPerNetData l (bb nd) (cx nd) (cy nd) (hpwl nd).

(** [nets.at(uid).arcs.at(user)] read, and written through the reference. *)
Definition arc_at (r : Router) (uid : Z) (user : nat) : result PerArcData :=
  nd ← vec_at_int (nets r) uid; vec_at (arcs nd) user.

Definition arc_update (r : Router) (uid : Z) (user : nat)
    (f : PerArcData → PerArcData) : result Router :=
  nd ← vec_at_int (nets r) uid;
  ad ← vec_at (arcs nd) user;
  Ok (set_nets r (<[Z.to_nat uid := set_arcs nd (<[user := f ad]> (arcs nd))]>
                    (nets r))).

(** ** Cost of the present congestion *)

Definition present_wire_cost (r : Router) (w : PerWireData) (net_uid : Z) : Q :=
  let other_sources := Z.of_nat (size (bound_nets w)) in
  let other_sources :=
    if bool_decide (is_Some (bound_nets w !! net_uid))
    then other_sources - 1 else other_sources in
  if other_sources =? 0 then 1%Q
  else (1 + inject_Z other_sources * curr_cong_weight r)%Q.

(** ** Binding helpers *)

(** [bound_nets[uid]]: [operator[]] inserts a value-initialised pair, a
    count of 0 and the null pip, when the net has no entry. *)
Definition bound_entry (wd : PerWireData) (uid : Z) : Z * PipId :=
  default (0, PipId_null) (bound_nets wd !! uid).

Definition bind_pip_internal (r : Router) (net : NetInfo) (user : nat)
    (wire : WireId) (pip : PipId) : result Router :=
  wd ← map_at (wires r) wire;
  let b := bound_entry wd (udata net) in
  let first := b.1 + 1 in
  second ← (if first =? 1 then Ok pip
            else if bool_decide (b.2 = pip) then Ok b.2
            else Err AssertionFailure);
  let wd' := set_bound_nets wd (<[udata net := (first, second)]> (bound_nets wd)) in
  let r' := set_wires r (<[wire := wd']> (wires r)) in
  arc_update r' (udata net) user
    (λ ad, set_ad_wires ad (<[wire := pip]> (ad_wires ad))).

Definition unbind_pip_internal (r : Router) (net : NetInfo) (user : nat)
    (wire : WireId) (dont_touch_arc : bool) : result Router :=
  wd ← map_at (wires r) wire;
  let b := bound_entry wd (udata net) in
  let first := b.1 - 1 in
  let bn := <[udata net := (first, b.2)]> (bound_nets wd) in
  let bn := if first =? 0 then delete (udata net) bn else bn in
  let r' := set_wires r (<[wire := set_bound_nets wd bn]> (wires r)) in
  if dont_touch_arc then Ok r'
  else arc_update r' (udata net) user
         (λ ad, set_ad_wires ad (delete wire (ad_wires ad))).

Definition ripup_arc (r : Router) (net : NetInfo) (user : nat) : result Router :=
  ad ← arc_at r (udata net) user;
  r' ← foldM (λ r0 wp, unbind_pip_internal r0 net user wp.1 true) r
         (map_to_list (ad_wires ad));
  arc_update r' (udata net) user (λ ad, set_ad_wires ad ∅).


(** ** Cost functions *)

(** [source_uses]: the net's reference count on the wire, 0 without entry. *)
Definition source_uses (wd : PerWireData) (uid : Z) : Z :=
  match bound_nets wd !! uid with
  | Some b => b.1
  | None => 0
  end.

Definition base_cost (ctx : Context) (wire : WireId) (pip : PipId) : Q :=
  getDelayNS ctx (getPipDelay ctx pip + getWireDelay ctx wire
                  + getDelayEpsilon ctx).

Definition bias_cost (ctx : Context) (net : NetInfo) (nd : PerNetData)
    (wire : WireId) (pip : PipId) : Q :=
  if bool_decide (pip ≠ PipId_null) then
    let pl := getPipLocation ctx pip in
    ((1 # 2) * (base_cost ctx wire pip / inject_Z (Z.of_nat (length (users net))))
     * (inject_Z (Z.abs (loc_x pl - cx nd) + Z.abs (loc_y pl - cy nd))
        / inject_Z (hpwl nd)))%Q
  else 0%Q.

Definition score_wire_for_arc (ctx : Context) (r : Router) (net : NetInfo)
    (user : nat) (wire : WireId) (pip : PipId) : result Q :=
  wd ← map_at (wires r) wire;
  nd ← vec_at_int (nets r) (udata net);
  let present_cost := present_wire_cost r wd (udata net) in
  let hist_cost := hist_cong_cost wd in
  Ok (base_cost ctx wire pip * hist_cost * present_cost
        / inject_Z (1 + source_uses wd (udata net))
      + bias_cost ctx net nd wire pip)%Q.

Definition get_togo_cost (ctx : Context) (r : Router) (net : NetInfo)
    (user : nat) (wire sink : WireId) : result Q :=
  wd ← map_at (wires r) wire;
  let ipin_cost := getDelayNS ctx (getWireDelay ctx sink + getDelayEpsilon ctx) in
  Ok (Qmax 0 (getDelayNS ctx (estimateDelay ctx wire sink) - ipin_cost)
        / inject_Z (1 + source_uses wd (udata net))
      + ipin_cost)%Q.

(** ** Set-up of the per-net data *)

Definition INT_MAX : Z := 2147483647.
Definition INT_MIN : Z := -2147483648.

(** [v.resize(n)]: cut, or fill with value-initialised elements. *)
Definition resize {A} (v : list A) (n : nat) (d : A) : list A :=
  take n v ++ replicate (n - length v) d.

Definition ArcBounds_default : ArcBounds := mkArcBounds 0 0 0 0.
Definition PerArcData_default : PerArcData := mkPerArcData ∅ ArcBounds_default.
Definition PerNetData_default : PerNetData :=
  mkPerNetData [] ArcBounds_default 0 0 0.

Definition set_udata (ni : NetInfo) (i : Z) : NetInfo :=
  mkNetInfo i (is_global ni) (driver_cell ni) (users ni).

(** The body of the loop over the users of one net: the two checks, the
    bounding box of the arc, the growth of the net's box and of the sums of
    the centroid. *)
Definition setup_nets_user (ctx : Context) (ni : NetInfo) (nd : PerNetData)
    (j : nat) : result PerNetData :=
  usr ← vec_at (users ni) j;
  let dst_wire := getNetinfoSinkWire ctx ni usr in
  let src_wire := if driver_cell ni is None then dst_wire
                  else getNetinfoSourceWire ctx ni in
  if bool_decide (src_wire = WireId_null) then Err LogError
  else if bool_decide (dst_wire = WireId_null) then Err LogError
  else
    ad ← vec_at (arcs nd) j;
    let abb := getRouteBoundingBox ctx src_wire dst_wire in
    let nbb := mkArcBounds (Z.min (x0 (bb nd)) (x0 abb)) (Z.min (y0 (bb nd)) (y0 abb))
                           (Z.max (x1 (bb nd)) (x1 abb)) (Z.max (y1 (bb nd)) (y1 abb)) in
    let usr_loc := getBelLocation ctx (cell_bel (port_cell usr)) in
    Ok (mkPerNetData (<[j := mkPerArcData (ad_wires ad) abb]> (arcs nd)) nbb
          (int_wrap (cx nd + loc_x usr_loc)) (int_wrap (cy nd + loc_y usr_loc))
          (hpwl nd)).

(** The body of the loop over the nets, for the net of index [i]. *)
Definition setup_nets_net (ctx : Context) (i : nat) (ni : NetInfo)
    (nd : PerNetData) : result PerNetData :=
  let n := length (users ni) in
  let nd0 := mkPerNetData (resize (arcs nd) n PerArcData_default)
               (mkArcBounds INT_MAX INT_MAX INT_MIN INT_MIN) 0 0 (hpwl nd) in
  let nd1 := match driver_cell ni with
             | Some c => let drv_loc := getBelLocation ctx (cell_bel c) in
                         mkPerNetData (arcs nd0) (bb nd0)
                           (int_wrap (cx nd0 + loc_x drv_loc))
                           (int_wrap (cy nd0 + loc_y drv_loc)) (hpwl nd0)
             | None => nd0
             end in
  nd2 ← foldM (setup_nets_user ctx ni) nd1 (seq 0 n);
  let b := bb nd2 in
  Ok (mkPerNetData (arcs nd2) b
        (Z.quot (cx nd2) (Z.of_nat n + 1)) (Z.quot (cy nd2) (Z.of_nat n + 1))
        (Z.max (int_wrap (int_abs (int_wrap (y1 b - y0 b))
                          + int_abs (int_wrap (x1 b - x0 b)))) 1)).

(** The loop over [sorted(ctx->nets)], at index [i], for the nets left. *)
Fixpoint setup_nets_loop (ctx : Context) (i : nat) (l : list NetInfo)
    (r : Router) : result Router :=
  match l with
  | [] => Ok r
  | ni :: l' =>
      let ni' := set_udata ni (Z.of_nat i) in
      nd ← vec_at (nets r) i;
      _ ← vec_at (nets_by_udata r) i;
      let r1 := mkRouter (<[i := ni']> (nets_by_udata r)) (nets r) (wires r)
                  (curr_cong_weight r) (hist_cong_weight r) (total_wire_use r)
                  (overused_wires r) (total_overuse r) (route_queue r)
                  (failed_nets r) (arch_fail r) in
      nd' ← setup_nets_net ctx i ni' nd;
      setup_nets_loop ctx (S i) l' (set_nets r1 (<[i := nd']> (nets r1)))
  end.

(** [ctx_nets] is [sorted(ctx->nets)], the nets of the design in the order
    of their names. *)
Definition setup_nets (ctx : Context) (ctx_nets : list NetInfo) (r : Router)
  : result Router :=
  let n := length ctx_nets in
  let r0 := mkRouter (resize (nets_by_udata r) n (mkNetInfo 0 false None []))
              (resize (nets r) n PerNetData_default) (wires r)
              (curr_cong_weight r) (hist_cong_weight r) (total_wire_use r)
              (overused_wires r) (total_overuse r) (route_queue r)
              (failed_nets r) (arch_fail r) in
  setup_nets_loop ctx 0 ctx_nets r0.

(** ** History update *)

(** The body of the loop of [update_congestion] for one wire. *)
Definition update_congestion_wire (w : WireId) (wd : PerWireData) (r : Router)
  : Router :=
  let n := Z.of_nat (size (bound_nets wd)) in
  let overuse := n - 1 in
  if 0 <? overuse then
    mkRouter (nets_by_udata r) (nets r)
      (<[w := set_hist_cong_cost wd
                (hist_cong_cost wd + inject_Z overuse * hist_cong_weight r)%Q]>
         (wires r))
      (curr_cong_weight r) (hist_cong_weight r)
      (total_wire_use r + n) (overused_wires r + 1) (total_overuse r + overuse)
      (route_queue r) (dom (bound_nets wd) ∪ failed_nets r) (arch_fail r)
  else
    mkRouter (nets_by_udata r) (nets r) (wires r)
      (curr_cong_weight r) (hist_cong_weight r)
      (total_wire_use r + n) (overused_wires r) (total_overuse r)
      (route_queue r) (failed_nets r) (arch_fail r).

Definition update_congestion (r : Router) : Router :=
  let r0 := mkRouter (nets_by_udata r) (nets r) (wires r)
              (curr_cong_weight r) (hist_cong_weight r) 0 0 0
              (route_queue r) ∅ (arch_fail r) in
  map_fold update_congestion_wire r0 (wires r).


(** ** Set-up of the per-wire data *)

Definition set_unavailable (wd : PerWireData) (u : bool) : PerWireData :=
  mkPerWireData (bound_nets wd) (hist_cong_cost wd) u (reserved_net wd).

Definition set_reserved_net (wd : PerWireData) (n : Z) : PerWireData :=
  mkPerWireData (bound_nets wd) (hist_cong_cost wd) (unavailable wd) n.

(** The body of the loop of [setup_wires] for one wire: [wires[wire]]
    inserts a value-initialised entry when the wire has none. *)
Definition setup_wires_wire (a : ArchState) (ws : gmap Z PerWireData)
    (wire : WireId) : gmap Z PerWireData :=
  let wd := default PerWireData_default (ws !! wire) in
  match wire_bind a !! wire with
  | None => <[wire := wd]> ws
  | Some pm =>
      let wd1 := set_bound_nets wd (<[pm_net pm := (1, pm_pip pm)]> (bound_nets wd)) in
      let wd2 := if strength_gt (pm_strength pm) STRENGTH_STRONG
                 then set_unavailable wd1 true else wd1 in
      <[wire := wd2]> ws
  end.

Definition setup_wires (ctx : Context) (a : ArchState) (r : Router) : Router :=
  set_wires r (fold_left (setup_wires_wire a) (getWires ctx) (wires r)).

(** ** Reserved wires *)

Definition is_wire_undriveable (ctx : Context) (wire : WireId) : bool :=
  if existsb (λ bp, negb (bool_decide (getBelPinType ctx (bp_bel bp) (bp_pin bp)
                                        = PORT_IN)))
       (getWireBelPins ctx wire)
  then false
  else match getPipsUphill ctx wire with
       | [] => true
       | _ :: _ => false
       end.

(** The loop over the uphill pips in [reserve_wires_for_arc]: the wire
    [next_cursor] and the flag [done] it ends with. *)
Fixpoint reserve_pick (ctx : Context) (next_cursor : WireId) (pips : list PipId)
  : WireId * bool :=
  match pips with
  | [] => (next_cursor, false)
  | uh :: pips' =>
      let w := getPipSrcWire ctx uh in
      if is_wire_undriveable ctx w then reserve_pick ctx next_cursor pips'
      else if bool_decide (next_cursor ≠ WireId_null) then (next_cursor, true)
      else reserve_pick ctx w pips'
  end.

(** The walk of [reserve_wires_for_arc] from [cursor] on. *)
Fixpoint reserve_walk (fuel : nat) (ctx : Context) (uid : Z) (src : WireId)
    (ws : gmap Z PerWireData) (cursor : WireId) : result (gmap Z PerWireData) :=
  match fuel with
  | O => Err OutOfFuel
  | S fuel' =>
      wd ← map_at ws cursor;
      let ws' := <[cursor := set_reserved_net wd uid]> ws in
      if bool_decide (cursor = src) then Ok ws'
      else
        let '(next_cursor, done) := reserve_pick ctx WireId_null
                                      (getPipsUphill ctx cursor) in
        if bool_decide (next_cursor = WireId_null) then Ok ws'
        else if (done : bool) then Ok ws'
        else reserve_walk fuel' ctx uid src ws' next_cursor
  end.

Definition reserve_wires_for_arc (fuel : nat) (ctx : Context) (r : Router)
    (net : NetInfo) (i : nat) : result Router :=
  let src := getNetinfoSourceWire ctx net in
  usr ← vec_at (users net) i;
  let sink := getNetinfoSinkWire ctx net usr in
  if bool_decide (sink = WireId_null) then Ok r
  else ws ← reserve_walk fuel ctx (udata net) src (wires r) sink;
       Ok (set_wires r ws).

Definition find_all_reserved_wires (fuel : nat) (ctx : Context) (r : Router)
  : result Router :=
  foldM (λ r0 net,
           if bool_decide (getNetinfoSourceWire ctx net = WireId_null) then Ok r0
           else foldM (λ r1 i, reserve_wires_for_arc fuel ctx r1 net i) r0
                  (seq 0 (length (users net))))
    r (nets_by_udata r).

(** ** Route check of one arc *)

(** The loop of [check_arc_routing]: [Some c] is the cursor the loop was
    left with, [None] the [return false] from inside the loop. *)
Fixpoint check_arc_walk (fuel : nat) (ctx : Context) (r : Router)
    (ad : PerArcData) (cursor : WireId) : result (option WireId) :=
  match ad_wires ad !! cursor with
  | None => Ok (Some cursor)
  | Some uh =>
      match fuel with
      | O => Err OutOfFuel
      | S fuel' =>
          wd ← map_at (wires r) cursor;
          if bool_decide (size (bound_nets wd) ≠ 1%nat) then Ok None
          else if bool_decide (uh = PipId_null) then Ok (Some cursor)
          else check_arc_walk fuel' ctx r ad (getPipSrcWire ctx uh)
      end
  end.

Definition check_arc_routing (fuel : nat) (ctx : Context) (r : Router)
    (net : NetInfo) (usr : nat) : result bool :=
  ad ← arc_at r (udata net) usr;
  let src_wire := getNetinfoSourceWire ctx net in
  u ← vec_at (users net) usr;
  let dst_wire := getNetinfoSinkWire ctx net u in
  c ← check_arc_walk fuel ctx r ad dst_wire;
  Ok (match c with
      | Some cursor => bool_decide (cursor = src_wire)
      | None => false
      end).

(** ** Search of one arc *)

Definition bb_margin_x : Z := 4.
Definition bb_margin_y : Z := 4.

Definition hit_test_pip (b : ArcBounds) (l : Loc) : bool :=
  (x0 b - bb_margin_x <=? loc_x l) && (loc_x l <=? x1 b + bb_margin_x)
  && (y0 b - bb_margin_y <=? loc_y l) && (loc_y l <=? y1 b + bb_margin_y).

(** [QueuedWire::Greater]. *)
Definition Greater (lhs rhs : QueuedWire) : bool :=
  let lhs_score := (cost (qw_score lhs) + togo_cost (qw_score lhs))%Q in
  let rhs_score := (cost (qw_score rhs) + togo_cost (qw_score rhs))%Q in
  if Qeq_bool lhs_score rhs_score then randtag rhs <? randtag lhs
  else Qltb rhs_score lhs_score.

(** [top()] followed by [pop()] on the priority queue whose first element is
    [x]: the element no other one is below in the order of [Greater], the
    earliest such in the list, and the elements left. *)
Fixpoint pq_extract (x : QueuedWire) (q : list QueuedWire)
  : QueuedWire * list QueuedWire :=
  match q with
  | [] => (x, [])
  | y :: q' =>
      if Greater x y
      then let '(m, rest) := pq_extract y q' in (m, x :: rest)
      else let '(m, rest) := pq_extract x q' in (m, y :: rest)
  end.

Definition set_queue (t : ThreadContext) (q : list QueuedWire) : ThreadContext :=
  mkThreadContext (route_arcs t) q (visited t) (processed_sinks t)
    (backwards_queue t) (backwards_pip t).
Definition set_visited (t : ThreadContext) (v : gmap Z VisitInfo) : ThreadContext :=
  mkThreadContext (route_arcs t) (queue t) v (processed_sinks t)
    (backwards_queue t) (backwards_pip t).
Definition set_processed_sinks (t : ThreadContext) (p : gset Z) : ThreadContext :=
  mkThreadContext (route_arcs t) (queue t) (visited t) p
    (backwards_queue t) (backwards_pip t).
Definition set_backwards (t : ThreadContext) (q : list WireId) (bp : gmap Z PipId)
  : ThreadContext :=
  mkThreadContext (route_arcs t) (queue t) (visited t) (processed_sinks t) q bp.
Definition set_route_arcs (t : ThreadContext) (l : list nat) : ThreadContext :=
  mkThreadContext l (queue t) (visited t) (processed_sinks t)
    (backwards_queue t) (backwards_pip t).

(** *** Backwards BFS *)

(** The first walk along the net's own routing from [cursor2]: the flag
    [bwd_merge_fail] and the wire the walk ends on. *)
Fixpoint bwd_merge_check (fuel : nat) (ctx : Context) (r : Router) (uid : Z)
    (cursor2 : WireId) : result (bool * WireId) :=
  match fuel with
  | O => Err OutOfFuel
  | S fuel' =>
      wd ← map_at (wires r) cursor2;
      match bound_nets wd !! uid with
      | None => Ok (false, cursor2)
      | Some b =>
          if bool_decide (1 < size (bound_nets wd))%nat then Ok (true, cursor2)
          else if bool_decide (b.2 = PipId_null) then Ok (false, cursor2)
          else bwd_merge_check fuel' ctx r uid (getPipSrcWire ctx b.2)
      end
  end.

(** The second walk, which records the pips of the merge in
    [backwards_pip]. *)
Fixpoint bwd_merge_record (fuel : nat) (ctx : Context) (r : Router) (uid : Z)
    (cursor2 : WireId) (bp : gmap Z PipId) : result (gmap Z PipId) :=
  match fuel with
  | O => Err OutOfFuel
  | S fuel' =>
      wd ← map_at (wires r) cursor2;
      match bound_nets wd !! uid with
      | None => Ok bp
      | Some b =>
          if bool_decide (b.2 = PipId_null) then Ok bp
          else let c := getPipSrcWire ctx b.2 in
               bwd_merge_record fuel' ctx r uid c (<[c := b.2]> bp)
      end
  end.

(** No net but [uid] is bound on the wire. *)
Definition congested_for (wd : PerWireData) (uid : Z) : bool :=
  bool_decide (1 < size (bound_nets wd))%nat
  || (bool_decide (size (bound_nets wd) = 1%nat)
      && negb (bool_decide (is_Some (bound_nets wd !! uid)))).

Definition reserved_for_other (wd : PerWireData) (uid : Z) : bool :=
  negb (reserved_net wd =? -1) && negb (reserved_net wd =? uid).

(** The body of the loop over the uphill pips of [cursor]. *)
Definition bwd_pip (ctx : Context) (a : ArchState) (r : Router) (uid : Z)
    (cpip : PipId) (t : ThreadContext) (uh : PipId) : result ThreadContext :=
  if negb (checkPipAvail a uh) && bool_decide (getBoundPipNet a uh ≠ Some uid)
  then Ok t
  else if bool_decide (cpip ≠ PipId_null) && bool_decide (cpip ≠ uh) then Ok t
  else
    let next := getPipSrcWire ctx uh in
    if bool_decide (is_Some (backwards_pip t !! next)) then Ok t
    else
      wd ← map_at (wires r) next;
      if unavailable wd then Ok t
      else if reserved_for_other wd uid then Ok t
      else if congested_for wd uid then Ok t
      else Ok (set_backwards t (backwards_queue t ++ [next])
                 (<[next := uh]> (backwards_pip t))).

Record BwdState := mkBwdState {
  bs_t : ThreadContext;
  backwards_iter : Z;
  bs_merged : bool      (* the loop was left by the [break] of the merge *)
}.

Definition backwards_limit : Z := 10.

Definition bwd_cond (s : BwdState) : bool :=
  negb (bs_merged s)
  && negb (bool_decide (backwards_queue (bs_t s) = []))
  && (backwards_iter s <? backwards_limit).

(** One round of the backwards loop. *)
Definition bwd_body (fuel : nat) (ctx : Context) (a : ArchState) (r : Router)
    (net : NetInfo) (src_wire : WireId) (s : BwdState) : result BwdState :=
  match backwards_queue (bs_t s) with
  | [] => Ok s
  | cursor :: q =>
      let t := set_backwards (bs_t s) q (backwards_pip (bs_t s)) in
      cwd ← map_at (wires r) cursor;
      let expand (cpip : PipId) :=
        t' ← foldM (bwd_pip ctx a r (udata net) cpip) t (getPipsUphill ctx cursor);
        Ok (mkBwdState t'
              (if bool_decide (getPipsUphill ctx cursor = []) then backwards_iter s
               else backwards_iter s + 1)
              false) in
      match bound_nets cwd !! udata net with
      | None => expand PipId_null
      | Some b =>
          '(bwd_merge_fail, cursor2) ← bwd_merge_check fuel ctx r (udata net) cursor;
          if negb bwd_merge_fail && bool_decide (cursor2 = src_wire) then
            bp ← bwd_merge_record fuel ctx r (udata net) cursor (backwards_pip t);
            Ok (mkBwdState (set_backwards t q bp) (backwards_iter s) true)
          else expand b.2
      end
  end.

Fixpoint bwd_loop (fuel : nat) (ctx : Context) (a : ArchState) (r : Router)
    (net : NetInfo) (src_wire : WireId) (n : nat) (s : BwdState)
  : result BwdState :=
  if bwd_cond s then
    match n with
    | O => Err OutOfFuel
    | S n' =>
        s' ← bwd_body fuel ctx a r net src_wire s;
        bwd_loop fuel ctx a r net src_wire n' s'
    end
  else Ok s.

(** The walk from the source along [backwards_pip], binding every wire. *)
Fixpoint bwd_bind (fuel : nat) (ctx : Context) (r : Router) (net : NetInfo)
    (i : nat) (bp : gmap Z PipId) (cursor_fwd : WireId)
  : result (Router * WireId) :=
  match bp !! cursor_fwd with
  | None => Ok (r, cursor_fwd)
  | Some v =>
      match fuel with
      | O => Err OutOfFuel
      | S fuel' =>
          let c := getPipDstWire ctx v in
          r' ← bind_pip_internal r net i c v;
          bwd_bind fuel' ctx r' net i bp c
      end
  end.


(** *** Forward A* *)

Record FwdState := mkFwdState {
  fs_t : ThreadContext;
  fs_a : ArchState;
  toexplore : Z;
  iter : Z;
  explored : Z
}.

Definition set_rngstate (a : ArchState) (s : Z) : ArchState :=
  mkArchState (wire_bind a) (pip_bind a) s.

(** The body of the loop over the downhill pips of [curr]. *)
Definition astar_pip (ctx : Context) (r : Router) (net : NetInfo) (i : nat)
    (dst_wire : WireId) (is_bb : bool) (abb : ArcBounds) (curr : QueuedWire)
    (s : FwdState) (dh : PipId) : result FwdState :=
  if is_bb && negb (hit_test_pip abb (getPipLocation ctx dh)) then Ok s
  else if negb (checkPipAvail (fs_a s) dh)
          && bool_decide (getBoundPipNet (fs_a s) dh ≠ Some (udata net))
  then Ok s
  else
    let next := getPipDstWire ctx dh in
    nwd ← map_at (wires r) next;
    if unavailable nwd then Ok s
    else if reserved_for_other nwd (udata net) then Ok s
    else if match bound_nets nwd !! udata net with
            | Some b => bool_decide (b.2 ≠ dh)
            | None => false
            end
    then Ok s
    else
      sc ← score_wire_for_arc ctx r net i next dh;
      tg ← get_togo_cost ctx r net i next dst_wire;
      let next_score :=
        mkWireScore (cost (qw_score curr) + sc)%Q ((7 # 4) * tg)%Q
          (delay (qw_score curr) + getPipDelay ctx dh + getWireDelay ctx next) in
      if match visited (fs_t s) !! next with
         | None => true
         | Some v => Qltb (total next_score) (total (vi_score v))
         end
      then
        let '(tag, rs) := rng_step ctx (rngstate (fs_a s)) in
        let t := fs_t s in
        let t' := set_visited
                    (set_queue t (queue t ++ [mkQueuedWire next dh
                                                (getPipLocation ctx dh) next_score tag]))
                    (<[next := mkVisitInfo next_score dh]> (visited t)) in
        Ok (mkFwdState t' (set_rngstate (fs_a s) rs)
              (if bool_decide (next = dst_wire)
               then Z.min (toexplore s) (iter s + 5) else toexplore s)
              (iter s) (explored s + 1))
      else Ok s.

Definition astar_cond (is_bb : bool) (s : FwdState) : bool :=
  negb (bool_decide (queue (fs_t s) = []))
  && (negb is_bb || (iter s <? toexplore s)).

(** One round of the forward loop: take the best wire off the queue and
    look at its downhill pips. *)
Definition astar_body (ctx : Context) (r : Router) (net : NetInfo) (i : nat)
    (dst_wire : WireId) (is_bb : bool) (abb : ArcBounds) (s : FwdState)
  : result FwdState :=
  match queue (fs_t s) with
  | [] => Ok s
  | x :: q =>
      let '(curr, rest) := pq_extract x q in
      let s1 := mkFwdState (set_queue (fs_t s) rest) (fs_a s) (toexplore s)
                  (iter s + 1) (explored s) in
      foldM (astar_pip ctx r net i dst_wire is_bb abb curr) s1
        (getPipsDownhill ctx (qw_wire curr))
  end.

Fixpoint astar_loop (fuel : nat) (ctx : Context) (r : Router) (net : NetInfo)
    (i : nat) (dst_wire : WireId) (is_bb : bool) (abb : ArcBounds)
    (s : FwdState) : result FwdState :=
  if astar_cond is_bb s then
    match fuel with
    | O => Err OutOfFuel
    | S fuel' =>
        s' ← astar_body ctx r net i dst_wire is_bb abb s;
        astar_loop fuel' ctx r net i dst_wire is_bb abb s'
    end
  else Ok s.

(** The walk from the sink along [visited], binding every wire. *)
Fixpoint fwd_bind (fuel : nat) (ctx : Context) (r : Router) (net : NetInfo)
    (i : nat) (vis : gmap Z VisitInfo) (src_wire cursor_bwd : WireId)
  : result Router :=
  match vis !! cursor_bwd with
  | None => Ok r
  | Some v =>
      match fuel with
      | O => Err OutOfFuel
      | S fuel' =>
          r' ← bind_pip_internal r net i cursor_bwd (vi_pip v);
          if bool_decide (vi_pip v = PipId_null) then
            if bool_decide (cursor_bwd = src_wire) then Ok r'
            else Err AssertionFailure
          else fwd_bind fuel' ctx r' net i vis src_wire
                 (getPipSrcWire ctx (vi_pip v))
      end
  end.

(** The state of the forward search when the loop is entered. *)
Definition astar_init (ctx : Context) (a : ArchState) (r : Router)
    (t : ThreadContext) (net : NetInfo) (i : nat) (abb : ArcBounds)
    (src_wire dst_wire : WireId) : result FwdState :=
  tg ← get_togo_cost ctx r net i src_wire dst_wire;
  let base_score := mkWireScore 0 tg (getWireDelay ctx src_wire) in
  let t1 := set_visited
              (set_queue t (queue t ++ [mkQueuedWire src_wire PipId_null
                                          Loc_default base_score 0]))
              {[src_wire := mkVisitInfo base_score PipId_null]} in
  Ok (mkFwdState t1 a
        (25000 * Z.max 1 ((x1 abb - x0 abb) + (y1 abb - y0 abb))) 0 1).

(** The forward part of [route_arc]: from "Normal forwards A* routing" to
    the end of the function. *)
Definition route_arc_forward (fuel : nat) (ctx : Context) (a : ArchState)
    (r : Router) (t : ThreadContext) (net : NetInfo) (i : nat) (is_bb : bool)
    (abb : ArcBounds) (src_wire dst_wire : WireId)
  : result (ArcRouteResult * ArchState * Router * ThreadContext) :=
  s0 ← astar_init ctx a r t net i abb src_wire dst_wire;
  s ← astar_loop fuel ctx r net i dst_wire is_bb abb s0;
  let t' := fs_t s in
  if bool_decide (is_Some (visited t' !! dst_wire)) then
    r' ← fwd_bind fuel ctx r net i (visited t') src_wire dst_wire;
    Ok (ARC_SUCCESS, fs_a s, r',
        set_processed_sinks t' ({[dst_wire]} ∪ processed_sinks t'))
  else Ok (ARC_RETRY_WITHOUT_BB, fs_a s, r, t').

(** [ARC_LOG_ERR]: in a worker thread the arc is given up, otherwise
    [log_error] throws. *)
Definition ARC_LOG_ERR {A} (is_mt : bool) (k : ArcRouteResult → A) : result A :=
  if is_mt then Ok (k ARC_FATAL) else Err LogError.

Definition route_arc (fuel : nat) (ctx : Context) (a : ArchState) (r : Router)
    (t : ThreadContext) (net : NetInfo) (i : nat) (is_mt is_bb : bool)
  : result (ArcRouteResult * ArchState * Router * ThreadContext) :=
  ad ← arc_at r (udata net) i;
  usr ← vec_at (users net) i;
  let src_wire := getNetinfoSourceWire ctx net in
  let dst_wire := getNetinfoSinkWire ctx net usr in
  if bool_decide (src_wire = WireId_null) then ARC_LOG_ERR is_mt (λ e, (e, a, r, t))
  else if bool_decide (dst_wire = WireId_null) then ARC_LOG_ERR is_mt (λ e, (e, a, r, t))
  else if bool_decide (dst_wire ∈ processed_sinks t) then Ok (ARC_SUCCESS, a, r, t)
  else
    (* both queues are emptied, then the backwards queue is seeded *)
    let t0 := set_backwards (set_queue t []) [dst_wire] ∅ in
    b ← bwd_loop fuel ctx a r net src_wire fuel (mkBwdState t0 0 false);
    let t1 := bs_t b in
    if bool_decide (is_Some (backwards_pip t1 !! src_wire)) then
      r1 ← bind_pip_internal r net i src_wire PipId_null;
      '(r2, cursor_fwd) ← bwd_bind fuel ctx r1 net i (backwards_pip t1) src_wire;
      if bool_decide (cursor_fwd = dst_wire) then
        Ok (ARC_SUCCESS, a, r2,
            set_processed_sinks t1 ({[dst_wire]} ∪ processed_sinks t1))
      else Err AssertionFailure
    else
      route_arc_forward fuel ctx a r (set_visited t1 ∅) net i is_bb (ad_bb ad)
        src_wire dst_wire.

(** ** Routing of one net *)

(** A value of the enumeration returned from a function of type [bool]:
    the integral value is converted, zero to [false]. *)
Definition bool_of_ArcRouteResult (x : ArcRouteResult) : bool :=
  negb (ArcRouteResult_value x =? 0).

(** The first loop of [route_net], over the users of indices [idx]: the
    first component is [Some b] for a [return b] from inside the loop. *)
Fixpoint route_net_ripup (fuel : nat) (ctx : Context) (a : ArchState)
    (r : Router) (t : ThreadContext) (net : NetInfo) (idx : list nat)
  : result (option bool * Router * ThreadContext) :=
  match idx with
  | [] => Ok (None, r, t)
  | i :: idx' =>
      ok ← check_arc_routing fuel ctx r net i;
      if (ok : bool) then route_net_ripup fuel ctx a r t net idx'
      else
        usr ← vec_at (users net) i;
        let dst_wire := getNetinfoSinkWire ctx net usr in
        if match net_wires a net !! dst_wire with
           | Some pm => strength_gt (pm_strength pm) STRENGTH_STRONG
           | None => false
           end
        then Ok (Some (bool_of_ArcRouteResult ARC_SUCCESS), r, t)
        else
          r' ← ripup_arc r net i;
          route_net_ripup fuel ctx a r' (set_route_arcs t (route_arcs t ++ [i]))
            net idx'
  end.

(** The second loop of [route_net], over [t.route_arcs]. *)
Fixpoint route_net_arcs (fuel : nat) (ctx : Context) (a : ArchState)
    (r : Router) (t : ThreadContext) (net : NetInfo) (is_mt : bool)
    (have_failures : bool) (todo : list nat)
  : result (bool * ArchState * Router * ThreadContext) :=
  match todo with
  | [] => Ok (negb have_failures, a, r, t)
  | i :: todo' =>
      '(res1, a1, r1, t1) ← route_arc fuel ctx a r t net i is_mt true;
      match res1 with
      | ARC_FATAL => Ok (false, a1, r1, t1)
      | ARC_RETRY_WITHOUT_BB =>
          if is_mt then route_net_arcs fuel ctx a1 r1 t1 net is_mt true todo'
          else
            '(res2, a2, r2, t2) ← route_arc fuel ctx a1 r1 t1 net i is_mt false;
            match res2 with
            | ARC_SUCCESS =>
                route_net_arcs fuel ctx a2 r2 t2 net is_mt have_failures todo'
            | _ => Err LogError
            end
      | ARC_SUCCESS =>
          route_net_arcs fuel ctx a1 r1 t1 net is_mt have_failures todo'
      end
  end.

Definition route_net (fuel : nat) (ctx : Context) (a : ArchState) (r : Router)
    (t : ThreadContext) (net : NetInfo) (is_mt : bool)
  : result (bool * ArchState * Router * ThreadContext) :=
  if ARCH_ECP5 ctx && is_global net then Ok (true, a, r, t)
  else if driver_cell net is None then Ok (true, a, r, t)
  else
    let t0 := set_route_arcs (set_processed_sinks t ∅) [] in
    '(ret, r1, t1) ← route_net_ripup fuel ctx a r t0 net
                       (seq 0 (length (users net)));
    match ret with
    | Some b => Ok (b, a, r1, t1)
    | None => route_net_arcs fuel ctx a r1 t1 net is_mt false (route_arcs t1)
    end.


(** ** Commit to the device *)

(** The loop of [bind_and_check] from the sink towards the source: the pips
    to bind, in the order of [to_bind], and the flag [success]. *)
Fixpoint bind_and_check_walk (fuel : nat) (ctx : Context) (a : ArchState)
    (uid : Z) (ad : PerArcData) (src cursor : WireId) (to_bind : list PipId)
  : result (list PipId * bool) :=
  if bool_decide (cursor = src) then Ok (to_bind, true)
  else
    match fuel with
    | O => Err OutOfFuel
    | S fuel' =>
        if negb (checkWireAvail a cursor)
           && bool_decide (getBoundWireNet a cursor = Some uid)
        then Ok (to_bind, true)
        else if negb (checkWireAvail a cursor) then Ok (to_bind, false)
        else
          match ad_wires ad !! cursor with
          | None => Err LogError
          | Some p =>
              if negb (checkPipAvail a p) then Ok (to_bind, false)
              else bind_and_check_walk fuel' ctx a uid ad src
                     (getPipSrcWire ctx p) (to_bind ++ [p])
          end
    end.

Definition bind_and_check (fuel : nat) (ctx : Context) (a : ArchState)
    (r : Router) (net : NetInfo) (usr_idx : nat)
  : result (bool * ArchState * Router) :=
  if ARCH_ECP5 ctx && is_global net then Ok (true, a, r)
  else
    ad ← arc_at r (udata net) usr_idx;
    usr ← vec_at (users net) usr_idx;
    let src := getNetinfoSourceWire ctx net in
    if bool_decide (src = WireId_null) then Ok (true, a, r)
    else
      let dst := getNetinfoSinkWire ctx net usr in
      if bool_decide (dst = WireId_null)
         || bool_decide (getBoundWireNet a dst = Some (udata net))
      then Ok (true, a, r)
      else if bool_decide (ad_wires ad = ∅) then Ok (true, a, r)
      else
        '(to_bind, success) ← bind_and_check_walk fuel ctx a (udata net) ad src dst [];
        if (success : bool) then
          let a1 := if getBoundWireNet a src is None
                    then bindWire a src (udata net) STRENGTH_WEAK else a in
          Ok (true,
              fold_left (λ a0 tb, bindPip ctx a0 tb (udata net) STRENGTH_WEAK)
                to_bind a1,
              r)
        else
          r' ← ripup_arc r net usr_idx;
          Ok (false, a, set_failed_nets r' ({[udata net]} ∪ failed_nets r')).

(** The wires of the net that [bind_and_check_all] collects in
    [net_wires]. *)
Definition ripup_wires (a : ArchState) (net : NetInfo) : list WireId :=
  (map_to_list (filter (λ kv, strength_le (pm_strength kv.2) STRENGTH_STRONG = true)
                  (net_wires a net))).*1.

(** The unbind phase of [bind_and_check_all] for one net. *)
Definition unbind_net_wires (a : ArchState) (net : NetInfo) : ArchState :=
  fold_left unbindWire (ripup_wires a net) a.

Definition set_arch_fail (r : Router) (n : Z) : Router :=
  mkRouter (nets_by_udata r) (nets r) (wires r) (curr_cong_weight r)
    (hist_cong_weight r) (total_wire_use r) (overused_wires r)
    (total_overuse r) (route_queue r) (failed_nets r) n.

(** The body of the loop of [bind_and_check_all] for one net. *)
Definition bind_and_check_net (fuel : nat) (ctx : Context) (net : NetInfo)
    (s : bool * ArchState * Router) : result (bool * ArchState * Router) :=
  let '(success, a, r) := s in
  if ARCH_ECP5 ctx && is_global net then Ok s
  else
    let a0 := unbind_net_wires a net in
    foldM (λ '(success, a, r) i,
             '(ok, a', r') ← bind_and_check fuel ctx a r net i;
             if (ok : bool) then Ok (success, a', r')
             else Ok (false, a', set_arch_fail r' (arch_fail r' + 1)))
      (success, a0, r) (seq 0 (length (users net))).

Definition bind_and_check_all (fuel : nat) (ctx : Context) (a : ArchState)
    (r : Router) : result (bool * ArchState * Router) :=
  foldM (λ s net, bind_and_check_net fuel ctx net s) (true, a, r)
    (nets_by_udata r).

(** ** One pass of the router *)

Definition ThreadContext_default : ThreadContext :=
  mkThreadContext [] [] ∅ ∅ [] ∅.

Definition set_route_queue (r : Router) (q : list Z) : Router :=
  mkRouter (nets_by_udata r) (nets r) (wires r) (curr_cong_weight r)
    (hist_cong_weight r) (total_wire_use r) (overused_wires r)
    (total_overuse r) q (failed_nets r) (arch_fail r).

Definition set_curr_cong_weight (r : Router) (w : Q) : Router :=
  mkRouter (nets_by_udata r) (nets r) (wires r) w
    (hist_cong_weight r) (total_wire_use r) (overused_wires r)
    (total_overuse r) (route_queue r) (failed_nets r) (arch_fail r).

(** [do_route], for a queue of fewer than 200 nets: every net of the queue
    is routed in turn, in one thread context. *)
Definition do_route (fuel : nat) (ctx : Context) (a : ArchState) (r : Router)
  : result (ArchState * Router) :=
  if (length (route_queue r) <? 200)%nat then
    '(a', r', _) ← foldM (λ '(a0, r0, st) uid,
                            net ← vec_at_int (nets_by_udata r0) uid;
                            '(_, a1, r1, st1) ← route_net fuel ctx a0 r0 st net false;
                            Ok (a1, r1, st1))
                      (a, r, ThreadContext_default) (route_queue r);
    Ok (a', r')
  else Err Threaded.

(** The body of the loop of [router_test].  The failed nets are appended in
    the order of the [std::set], which is ascending. *)
Definition router_iteration (fuel : nat) (ctx : Context) (a : ArchState)
    (r : Router) : result (ArchState * Router) :=
  let '(q, rs) := sorted_shuffle ctx (rngstate a) (route_queue r) in
  '(a1, r1) ← do_route fuel ctx (set_rngstate a rs) (set_route_queue r q);
  let r2 := update_congestion (set_route_queue r1 []) in
  '(a3, r3) ← (if overused_wires r2 =? 0
               then '(_, a', r') ← bind_and_check_all fuel ctx a1 r2; Ok (a', r')
               else Ok (a1, r2));
  let r4 := set_route_queue r3 (route_queue r3
                                ++ merge_sort Z.le (elements (failed_nets r3))) in
  Ok (a3, set_curr_cong_weight r4 (curr_cong_weight r4 * 2)%Q).

(** The weights [router_test] starts the loop with. *)
Definition router_test_weights (r : Router) : Router :=
  mkRouter (nets_by_udata r) (nets r) (wires r) (1 # 2) 1
    (total_wire_use r) (overused_wires r) (total_overuse r) (route_queue r)
    (failed_nets r) (arch_fail r).

End Router2.

(** * Floating-point numbers *)

(** The numbers of IEEE 754 in the formats binary64 ([double]) and binary32
    ([float]), as the rationals they are.  An operation of the machine is the
    exact operation followed by the rounding to the nearest number of the
    format, ties to the even mantissa; this is what the standard prescribes
    and what the code compiled for SSE2 does.  Infinities and NaN are left
    out: no division by zero and no value of [2^128] or more is rounded in
    this file. *)
Module Binary.

(** [⌊log2 x⌋] for a positive [x]. *)
Definition Qlog2 (x : Q) : Z :=
  let e0 := Z.log2 (Qnum x) - Z.log2 (Zpos (Qden x)) in
  if Qle_bool (2 ^ e0) x then e0 else e0 - 1.

(** Rounding to the nearest integer, ties to even. *)
Definition round_half_even (y : Q) : Z :=
  let f := Qfloor y in
  let r := (y - inject_Z f)%Q in
  if Qltb r (1 # 2) then f
  else if Qltb (1 # 2) r then f + 1
  else if Z.even f then f else f + 1.

(** The exponent of the unit in the last place of a positive [x], for a
    format with [prec] bits of precision whose least positive number is
    [2^emin]. *)
Definition ulp_exp (prec emin : Z) (x : Q) : Z :=
  Z.max (Qlog2 x - (prec - 1)) emin.

Definition round_pos (prec emin : Z) (x : Q) : Q :=
  (inject_Z (round_half_even (x / 2 ^ ulp_exp prec emin x))
   * 2 ^ ulp_exp prec emin x)%Q.

(** Rounding to the format, for any [x]; the result is in lowest terms. *)
Definition fl (prec emin : Z) (x : Q) : Q :=
  let x := Qred x in
  match Qnum x with
  | Z0 => 0%Q
  | Zpos _ => Qred (round_pos prec emin x)
  | Zneg _ => Qred (- round_pos prec emin (- x))
  end.

Definition fl64 : Q → Q := fl 53 (-1074).
Definition fl32 : Q → Q := fl 24 (-149).

(** The operations on [double], a literal, and the conversions from and to
    the integer types.  A conversion to an integer type cuts the fraction
    off; for a value outside the type, which C++ leaves undefined, it is the
    least value of the type, as the conversion instruction of x86-64 has
    it. *)
Definition dadd (x y : Q) : Q := fl64 (x + y).
Definition dsub (x y : Q) : Q := fl64 (x - y).
Definition dmul (x y : Q) : Q := fl64 (x * y).
Definition ddiv (x y : Q) : Q := fl64 (x / y).
Definition dlit (q : Q) : Q := fl64 q.
Definition double_of_int (z : Z) : Q := fl64 (inject_Z z).

(** [int(x)] for a floating-point [x]: the fraction is cut off, towards
    zero. *)
Definition Qtrunc (q : Q) : Z := Z.quot (Qnum q) (Zpos (Qden q)).

Definition int_of_double (x : Q) : Z :=
  let t := Qtrunc x in
  if (-2147483648 <=? t) && (t <=? 2147483647) then t else -2147483648.

Definition int64_of_double (x : Q) : Z :=
  let t := Qtrunc x in
  if (- 2 ^ 63 <=? t) && (t <? 2 ^ 63) then t else - 2 ^ 63.

End Binary.

(** * The placer *)

Module Placer.
Import Binary.

(** The placement of a cell: its bel and the strength of the binding
    ([cell->bel], [cell->belStrength]); a cell that is not bound has no
    entry. *)
Record Placer := mkPlacer {
  bel_to_cell : gmap Z Z;
  cells : gmap Z (BelId * PlaceStrength);
  rngstate : Z;
  temp : Q;
  lambda : Q;
  constraintWeight : Q;
  diameter : Z;
  max_x : Z;
  max_y : Z;
  n_move : Z;
  n_accept : Z;
  last_wirelen_cost : Z;
  curr_wirelen_cost : Z;
  last_timing_cost : Q;
  curr_timing_cost : Q
}.

(** What [try_swap_position] calls and this source does not define, or
    defines over tables that are left out here: the constraint predicates
    of the cells, the legality check of the architecture, the evaluation of
    the cost changes of a move, [std::exp] and the generator of the
    context.  [cost_changes p cell oldBel other newBel] is the pair of
    [moveChange.timing_delta] and [moveChange.wirelen_delta] that
    [add_move_cell] and [compute_cost_changes] produce in the placement
    [p]. *)
Record Env := mkEnv {
  is_constrained : Z → bool;
  get_constraints_distance : Placer → Z → Z;
  isBelLocationValid : Placer → BelId → bool;
  cost_changes : Placer → Z → BelId → option Z → BelId → Q * Z;
  std_exp : Q → Q;
  rng_step : Z → Z * Z
}.

Definition set_binding (p : Placer) (b2c : gmap Z Z)
    (cs : gmap Z (BelId * PlaceStrength)) : Placer :=
  mkPlacer b2c cs (rngstate p) (temp p) (lambda p) (constraintWeight p)
    (diameter p) (max_x p) (max_y p) (n_move p) (n_accept p)
    (last_wirelen_cost p) (curr_wirelen_cost p) (last_timing_cost p)
    (curr_timing_cost p).

(** Modelled from the spec: [getBoundBelCell] of the device contract, the
    cell the table of bels has for the bel. *)
Definition getBoundBelCell (p : Placer) (bel : BelId) : option Z :=
  bel_to_cell p !! bel.

(** [cell->bel], the null bel for a cell that is not bound. *)
Definition cell_bel_of (p : Placer) (cell : Z) : BelId :=
  match cells p !! cell with
  | Some bs => bs.1
  | None => BelId_null
  end.

(** Modelled from the spec: [bindBel] of the device contract (section 6),
    whose code belongs to the architecture and is not part of the sources at
    hand.  Binding records the cell on the bel, and the bel and the strength
    on the cell. *)
Definition bindBel (p : Placer) (bel : BelId) (cell : Z) (s : PlaceStrength)
  : Placer :=
  set_binding p (<[bel := cell]> (bel_to_cell p)) (<[cell := (bel, s)]> (cells p)).

(** Modelled from the spec: [unbindBel] of the device contract; unbinding
    clears the cell of the bel and the bel of that cell. *)
Definition unbindBel (p : Placer) (bel : BelId) : Placer :=
  match bel_to_cell p !! bel with
  | Some cell => set_binding p (delete bel (bel_to_cell p)) (delete cell (cells p))
  | None => p
  end.

Definition set_rng (p : Placer) (s : Z) : Placer :=
  mkPlacer (bel_to_cell p) (cells p) s (temp p) (lambda p) (constraintWeight p)
    (diameter p) (max_x p) (max_y p) (n_move p) (n_accept p)
    (last_wirelen_cost p) (curr_wirelen_cost p) (last_timing_cost p)
    (curr_timing_cost p).

(** [commit_cost_changes], for the two running totals. *)
Definition commit_cost_changes (p : Placer) (timing_delta : Q) (wirelen_delta : Z)
  : Placer :=
  mkPlacer (bel_to_cell p) (cells p) (rngstate p) (temp p) (lambda p)
    (constraintWeight p) (diameter p) (max_x p) (max_y p) (n_move p)
    (n_accept p) (last_wirelen_cost p) (curr_wirelen_cost p + wirelen_delta)
    (last_timing_cost p) (curr_timing_cost p + timing_delta)%Q.

Definition epsilon : Q := 1 # 100000000000000000000.

(** The cost change [delta] of [try_swap_position], from the deltas of the
    move and the constraint distances before and after. *)
Definition swap_delta (p : Placer) (timing_delta : Q) (wirelen_delta : Z)
    (old_dist new_dist : Z) : Q :=
  let delta :=
    (lambda p * (timing_delta / Qmax (last_timing_cost p) epsilon)
     + (1 - lambda p)
       * (inject_Z wirelen_delta / Qmax (inject_Z (last_wirelen_cost p)) epsilon))%Q in
  (delta + (constraintWeight p / temp p) * inject_Z (new_dist - old_dist)
           / inject_Z (last_wirelen_cost p))%Q.

(** [ctx->rng() / float(0x3fffffff)] *)
Definition rng_unit (v : Z) : Q := (inject_Z v / inject_Z 1073741823)%Q.

(** The acceptance test of the annealer.  The generator is advanced only
    when the second operand of [||] is evaluated up to the call. *)
Definition sa_accept (e : Env) (p : Placer) (delta : Q) : bool * Placer :=
  if Qltb delta 0 then (true, p)
  else if Qltb (1 # 100000000) (temp p) then
    let '(v, s) := rng_step e (rngstate p) in
    (Qle_bool (rng_unit v) (std_exp e (- delta / temp p)), set_rng p s)
  else (false, p).

(** The code after the label [swap_fail]. *)
Definition swap_fail (p : Placer) (cell : Z) (oldBel newBel : BelId)
    (other_cell : option Z) : Placer :=
  let p1 := bindBel p oldBel cell STRENGTH_WEAK in
  match other_cell with
  | Some oc => bindBel p1 newBel oc STRENGTH_WEAK
  | None => p1
  end.

Definition try_swap_position (e : Env) (p : Placer) (cell : Z) (newBel : BelId)
  : bool * Placer :=
  if is_constrained e cell then (false, p)
  else
    let oldBel := cell_bel_of p cell in
    let other_cell := getBoundBelCell p newBel in
    if match other_cell with
       | Some oc => is_constrained e oc
                    || match cells p !! oc with
                       | Some bs => strength_gt bs.2 STRENGTH_WEAK
                       | None => false
                       end
       | None => false
       end
    then (false, p)
    else
      let dist (q : Placer) :=
        get_constraints_distance e q cell
        + match other_cell with
          | Some oc => get_constraints_distance e q oc
          | None => 0
          end in
      let old_dist := dist p in
      let p1 := unbindBel p oldBel in
      let p2 := if other_cell is Some _ then unbindBel p1 newBel else p1 in
      let p3 := bindBel p2 newBel cell STRENGTH_WEAK in
      let p4 := match other_cell with
                | Some oc => bindBel p3 oldBel oc STRENGTH_WEAK
                | None => p3
                end in
      if negb (isBelLocationValid e p4 newBel)
         || (bool_decide (is_Some other_cell) && negb (isBelLocationValid e p4 oldBel))
      then
        let p5 := unbindBel p4 newBel in
        let p6 := if other_cell is Some _ then unbindBel p5 oldBel else p5 in
        (false, swap_fail p6 cell oldBel newBel other_cell)
      else
        let '(timing_delta, wirelen_delta) :=
          cost_changes e p4 cell oldBel other_cell newBel in
        let new_dist := dist p4 in
        let delta := swap_delta p4 timing_delta wirelen_delta old_dist new_dist in
        let '(acc, p5) := sa_accept e p4 delta in
        if acc then (true, commit_cost_changes p5 timing_delta wirelen_delta)
        else
          let p6 := if other_cell is Some _ then unbindBel p5 oldBel else p5 in
          let p7 := unbindBel p6 newBel in
          (false, swap_fail p7 cell oldBel newBel other_cell).

(** ** The annealing schedule *)

(** The block of [place] that follows a window of moves: from
    [double Raccept] to the end of the [if] on the running average.
    [avg_wirelen] is a local variable of [place], of the integer type
    [wirelen_t] (64 bits); the new value of it is returned with the placer.
    [Raccept] and [diam_next] are of type [double], [temp] is of type
    [float]: [temp *= c] multiplies in [double] and rounds the product to
    [float].  A window without a move, where [Raccept] is not a number, is
    outside the model. *)
Definition place_schedule (p : Placer) (avg_wirelen : Z) : Placer * Z :=
  let Raccept := ddiv (double_of_int (n_accept p)) (double_of_int (n_move p)) in
  let M := int_wrap (Z.max (max_x p) (max_y p) + 1) in
  if Qltb (double_of_int (curr_wirelen_cost p))
          (dmul (dlit (95 # 100)) (double_of_int avg_wirelen))
  then
    (p, int64_of_double
          (dadd (dmul (dlit (8 # 10)) (double_of_int avg_wirelen))
                (dmul (dlit (2 # 10)) (double_of_int (curr_wirelen_cost p)))))
  else
    let diam_next := dmul (double_of_int (diameter p))
                       (dadd (dsub 1 (dlit (44 # 100))) Raccept) in
    let diameter' :=
      Z.max 1 (Z.min M (int_of_double (dadd diam_next (dlit (1 # 2))))) in
    let cool c := fl32 (dmul (temp p) (dlit c)) in
    let temp' :=
      if Qltb (dlit (96 # 100)) Raccept then cool (5 # 10)
      else if Qltb (dlit (8 # 10)) Raccept then cool (9 # 10)
      else if Qltb (dlit (15 # 100)) Raccept && (1 <? diameter')
           then cool (95 # 100)
      else cool (8 # 10) in
    (mkPlacer (bel_to_cell p) (cells p) (rngstate p) temp' (lambda p)
       (constraintWeight p) diameter' (max_x p) (max_y p) (n_move p)
       (n_accept p) (last_wirelen_cost p) (curr_wirelen_cost p)
       (last_timing_cost p) (curr_timing_cost p),
     avg_wirelen).

End Placer.

(** * The partition of the nets between the worker threads *)

Module Router2Threads.
Import Router2.

(** The two split points, members of [Router2] that [partition_nets] sets
    and [do_route] reads. *)
Record Partition := mkPartition { mid_x : Z; mid_y : Z }.

(** [++m[k]] on a [std::map<int, int>]. *)
Definition count_up (m : gmap Z Z) (k : Z) : gmap Z Z :=
  <[k := default 0 (m !! k) + 1]> m.

(** The histogram of the centres of the nets along one axis; a net without
    a centre ([-1]) is left out. *)
Definition histogram (c : PerNetData → Z) (ns : list PerNetData) : gmap Z Z :=
  fold_left (λ m n, if bool_decide (c n ≠ -1) then count_up m (c n) else m)
    ns ∅.

(** The entries of a [std::map] in the order of its iteration, by
    ascending key. *)
Definition in_order (m : gmap Z Z) : list (Z * Z) :=
  (λ k, (k, default 0 (m !! k))) <$> merge_sort Z.le (elements (dom m)).

(** A step of the scan for a split point: the split point so far and the
    number of nets counted, and an entry of the histogram. *)
Definition split_scan (halfway : Z) (s : Z * Z) (p : Z * Z) : Z * Z :=
  ((if (s.2 <? halfway) && (halfway <=? s.2 + p.2) then p.1 else s.1),
   s.2 + p.2).

Definition split_point (halfway mid : Z) (h : list (Z * Z)) : Z :=
  (fold_left (split_scan halfway) h (mid, 0)).1.

(** [partition_nets]: the two split points are set from the histograms of
    the centres; a split point for which the scan finds no entry keeps its
    value.  The count of the nets in the five bins is logged only. *)
Definition partition_nets (pt : Partition) (r : Router) : Partition :=
  let halfway := Z.of_nat (length (nets r)) ÷ 2 in
  mkPartition
    (split_point halfway (mid_x pt) (in_order (histogram cx (nets r))))
    (split_point halfway (mid_y pt) (in_order (histogram cy (nets r)))).

(** The number of worker threads of [do_route]; the thread context of
    index [N] is the one of the nets that are routed in the main thread. *)
Definition N : nat := 4.

(** The bin [do_route] chooses for a net, from the bounding box of the net
    and the split points brought in or out by the margins. *)
Definition net_bin (pt : Partition) (nd : PerNetData) : nat :=
  let le_x := mid_x pt - bb_margin_x in
  let rs_x := mid_x pt + bb_margin_x in
  let le_y := mid_y pt - bb_margin_y in
  let rs_y := mid_y pt + bb_margin_y in
  let b := bb nd in
  if (x0 b <? le_x) && (x1 b <? le_x) && (y0 b <? le_y) && (y1 b <? le_y)
  then 0%nat
  else if (rs_x <=? x0 b) && (rs_x <=? x1 b) && (y0 b <? le_y) && (y1 b <? le_y)
  then 1%nat
  else if (x0 b <? le_x) && (x1 b <? le_x) && (rs_y <=? y0 b) && (rs_y <=? y1 b)
  then 2%nat
  else if (rs_x <=? x0 b) && (rs_x <=? x1 b) && (rs_y <=? y0 b) && (rs_y <=? y1 b)
  then 3%nat
  else N.

(** The first loop of the threaded branch of [do_route]: the nets of the
    queue are handed to the thread contexts; the result is the vector
    [route_nets] of each of the [N + 1] contexts. *)
Definition do_route_bins (pt : Partition) (r : Router)
  : result (list (list NetInfo)) :=
  foldM (λ tcs n,
           nd ← vec_at_int (nets r) n;
           ni ← vec_at_int (nets_by_udata r) n;
           let bin := net_bin pt nd in
           route_nets ← vec_at tcs bin;
           Ok (<[bin := route_nets ++ [ni]]> tcs))
    (replicate (N + 1) []) (route_queue r).

(** [router_thread]: the nets of a thread context are routed in turn, with
    [is_mt] set; the nets for which [route_net] returns false are collected
    in [failed_nets], in the order in which they were tried. *)
Definition router_thread (fuel : nat) (ctx : Context)
    (s : ArchState * Router * ThreadContext) (route_nets : list NetInfo)
  : result (ArchState * Router * ThreadContext * list NetInfo) :=
  foldM (λ '(a, r, t, failed) n,
           '(result, a', r', t') ← route_net fuel ctx a r t n true;
           Ok (a', r', t', if (result : bool) then failed else failed ++ [n]))
    (s, []) route_nets.

End Router2Threads.

(** * The end of a pass of the router *)

Module Router2Pass.
Import Router2.

(** The body of the loop of [router_test] from the statement after the call
    of [do_route] on: the queue is cleared, the congestion is updated, the
    routes are committed to the device when no wire is overused, the failed
    nets are queued, in the ascending order of the [std::set], and the
    weight of the present congestion is doubled.  [a1] and [r1] are the
    device and the router as [do_route] has left them, in whichever of its
    branches. *)
Definition router_pass_rest (fuel : nat) (ctx : Context) (a1 : ArchState)
    (r1 : Router) : result (ArchState * Router) :=
  let r2 := update_congestion (set_route_queue r1 []) in
  '(a3, r3) ← (if overused_wires r2 =? 0
               then '(_, a', r') ← bind_and_check_all fuel ctx a1 r2; Ok (a', r')
               else Ok (a1, r2));
  let r4 := set_route_queue r3 (route_queue r3
                                ++ merge_sort Z.le (elements (failed_nets r3))) in
  Ok (a3, set_curr_cong_weight r4 (curr_cong_weight r4 * 2)%Q).

End Router2Pass.

(** * The workers of the placer *)

Module PlacerWorkers.

(** ** The generator of a worker *)

(** A value of type [uint64_t]: the arithmetic is modulo [2^64]. *)
Definition u64 (z : Z) : Z := z mod 2 ^ 64.

(** The state a worker starts from for a cell: the seed of the batch, the
    index of the cell's name (an [int], converted) and the checksum of the
    cell's bel (a [uint32_t], converted and shifted). *)
Definition rng_seed (seed name_index checksum : Z) : Z :=
  Z.lxor (Z.lxor seed (u64 name_index)) (u64 (Z.shiftl (checksum mod 2 ^ 32) 32)).

(** [rng64]: the value returned and the next state. *)
Definition rng64 (rngstate : Z) : Z * Z :=
  let retval := u64 (rngstate * 0x2545F4914F6CDD1D) in
  let s1 := Z.lxor rngstate (Z.shiftr rngstate 12) in
  let s2 := Z.lxor s1 (u64 (Z.shiftl s1 25)) in
  let s3 := Z.lxor s2 (Z.shiftr s2 27) in
  (retval, s3).

(** The five calls that warm the generator up. *)
Definition rng_warm_up (rngstate : Z) : Z :=
  Nat.iter 5 (λ s, (rng64 s).2) rngstate.

(** The bound of [rng] rounded up to a power of two: the bits of [n - 1]
    are smeared downwards and 1 is added. *)
Definition rng_round_up (n : Z) : Z :=
  let m := n - 1 in
  let m := Z.lor m (Z.shiftr m 1) in
  let m := Z.lor m (Z.shiftr m 2) in
  let m := Z.lor m (Z.shiftr m 4) in
  let m := Z.lor m (Z.shiftr m 8) in
  let m := Z.lor m (Z.shiftr m 16) in
  m + 1.

(** The loop of [rng]: values are drawn until one is below [n]. *)
Fixpoint rng_loop (fuel : nat) (n m rngstate : Z) : result (Z * Z) :=
  match fuel with
  | O => Err OutOfFuel
  | S fuel' =>
      let '(v, s) := rng64 rngstate in
      let x := Z.land v (m - 1) in
      if x <? n then Ok (x, s) else rng_loop fuel' n m s
  end.

(** [rng(n)]: the value returned and the next state.  The [assert] is the
    one of a build with assertions. *)
Definition rng (fuel : nat) (n : Z) (rngstate : Z) : result (Z * Z) :=
  if 0 <? n then rng_loop fuel n (rng_round_up n) rngstate
  else Err AssertionFailure.

(** ** The batches of [run_threadpool] *)

(** The number of cells of a batch. *)
Definition batch_size : nat := 32.

(** The cells that the worker [j] of [threads] workers is given from the
    batch that starts at the cell of index [i]: [evalCells] after the loop
    that fills it. *)
Definition eval_cells (autoplaced : list Z) (threads i j : nat)
  : result (list (Z * BelId)) :=
  let lb := i in
  let ub := ((i + batch_size) `min` length autoplaced)%nat in
  let jlb := (lb + (j * (ub - lb)) `div` threads)%nat in
  let jub := (lb + ((j + 1) * (ub - lb)) `div` threads)%nat in
  foldM (λ evalCells k, c ← vec_at autoplaced k; Ok (evalCells ++ [(c, BelId_null)]))
    [] (seq jlb (jub - jlb)).

End PlacerWorkers.

(** * Moves of chains *)

Module PlacerMoves.
Import Placer.

(** The strength with which [swap_cell_bels] binds a cell: STRONG for a
    cell under a relative constraint, WEAK otherwise. *)
Definition swap_strength (e : Env) (cell : Z) : PlaceStrength :=
  if is_constrained e cell then STRENGTH_STRONG else STRENGTH_WEAK.

(** [swap_cell_bels]: the cell goes to [newBel] and the cell that is bound
    there, if any, to the bel that the cell leaves; the bel the cell has
    left is returned. *)
Definition swap_cell_bels (e : Env) (p : Placer) (cell : Z) (newBel : BelId)
  : BelId * Placer :=
  let oldBel := cell_bel_of p cell in
  let bound := getBoundBelCell p newBel in
  let p1 := if bound is Some _ then unbindBel p newBel else p in
  let p2 := unbindBel p1 oldBel in
  let p3 := bindBel p2 newBel cell (swap_strength e cell) in
  let p4 := match bound with
            | Some b => bindBel p3 oldBel b (swap_strength e b)
            | None => p3
            end in
  (oldBel, p4).

End PlacerMoves.

(** * The cost of a placement *)

(** The wirelength and timing costs of the placer and their incremental
    update for a move.  Cells are known by the index of their name; the bel
    of a cell is the one of the placement ([Placer]).  [operator[]] of a
    vector beyond its size is undefined in C++; the model reports
    [OutOfRange] there, as for [at], so that a result [Ok] is the result of
    a run without it. *)
Module PlacerCost.
Import Placer.

Record BoundingBox := mkBoundingBox { x0 : Z; x1 : Z; y0 : Z; y1 : Z }.

(** The value-initialised box. *)
Definition BoundingBox_default : BoundingBox := mkBoundingBox 0 0 0 0.

Definition is_inside_inc (b : BoundingBox) (x y : Z) : bool :=
  (x0 b <=? x) && (x <=? x1 b) && (y0 b <=? y) && (y <=? y1 b).

Definition touches_bounds (b : BoundingBox) (x y : Z) : bool :=
  (x =? x0 b) || (x =? x1 b) || (y =? y0 b) || (y =? y1 b).

Definition hpwl (b : BoundingBox) : Z := (x1 b - x0 b) + (y1 b - y0 b).

(** [PortRef] and [NetInfo] as the placer reads them: the cell of a port,
    the name of the port, the budget of a user; the name of a net, its
    index [udata], its driver if it has one, and its users. *)
Record PortRef := mkPortRef { pr_cell : Z; pr_port : Z; pr_budget : Z }.

Record NetInfo := mkNetInfo {
  net_name : Z;
  net_udata : Z;
  net_driver : option PortRef;
  net_users : list PortRef
}.

(** A port of a cell: its name, its net if it is connected, its type. *)
Record PortInfo := mkPortInfo {
  port_name : Z;
  port_net : option NetInfo;
  port_type : PortType
}.

(** What the cost functions read and this source does not define: the
    netlist ([cell->ports], in the order of the iteration), the queries of
    the architecture, the configuration, the criticalities of the timing
    analysis, and the functions [exp] and [pow] of the C library.
    [port_timing_ignored cell port] is whether [getPortTimingClass] gives
    [TMG_IGNORE]. *)
Record CostEnv := mkCostEnv {
  cell_ports : Z → list PortInfo;
  getBelGlobalBuf : BelId → bool;
  getBelPinWire : BelId → Z → WireId;
  predictDelay : NetInfo → PortRef → Z;
  port_timing_ignored : Z → Z → bool;
  timing_driven : bool;
  timingFanoutThresh : Z;
  budgetBased : bool;
  net_crit : gmap Z (list Q);
  c_exp : Q → Q;
  c_pow : Q → Q → Q;
  net_by_udata : list NetInfo;
  fast_port_to_user : gmap (Z * Z) nat
}.

(** The cost tables of the placer, and the two running totals. *)
Record Costs := mkCosts {
  net_bounds : list BoundingBox;
  net_arc_tcost : list (list Q);
  curr_wirelen_cost : Z;
  curr_timing_cost : Q
}.

Record MoveChangeData := mkMoveChangeData {
  bounds_changed_nets : list Z;
  changed_arcs : list (Z * nat);
  already_bounds_changed : list bool;
  already_changed_arcs : list (list bool);
  new_net_bounds : list (Z * BoundingBox);
  new_arc_costs : list (Z * nat * Q);
  wirelen_delta : Z;
  timing_delta : Q
}.

(** [v[i] = x] on a vector, for an [int] index. *)
Definition vec_set {A} (v : list A) (i : Z) (x : A) : result (list A) :=
  _ ← vec_at_int v i; Ok (<[Z.to_nat i := x]> v).

(** [v[i][j] = x] on a vector of vectors. *)
Definition vec_set2 {A} (v : list (list A)) (i : Z) (j : nat) (x : A)
  : result (list (list A)) :=
  row ← vec_at_int v i; _ ← vec_at row j;
  Ok (<[Z.to_nat i := <[j := x]> row]> v).

(** [MoveChangeData::reset]. *)
Definition reset (mc : MoveChangeData) : result MoveChangeData :=
  abc ← foldM (λ abc bc, vec_set abc bc false) (already_bounds_changed mc)
         (bounds_changed_nets mc);
  aca ← foldM (λ aca tc, vec_set2 aca tc.1 tc.2 false) (already_changed_arcs mc)
         (changed_arcs mc);
  Ok (mkMoveChangeData [] [] abc aca [] [] 0 0).

(** [ignore_net]: the net has no driver, or its driver is not placed or
    sits on a global buffer. *)
Definition ignore_net (e : CostEnv) (p : Placer) (net : NetInfo) : bool :=
  match net_driver net with
  | None => true
  | Some d =>
      bool_decide (cell_bel_of p (pr_cell d) = BelId_null)
      || getBelGlobalBuf e (cell_bel_of p (pr_cell d))
  end.

(** [cell_bel]: the bel a cell has been moved to, or its own. *)
Definition cell_bel (p : Placer) (cell : Z) (movedCells : gmap Z BelId) : BelId :=
  match movedCells !! cell with
  | Some b => b
  | None => cell_bel_of p cell
  end.

(** The box grown to hold a location. *)
Definition extend (b : BoundingBox) (l : Loc) : BoundingBox :=
  mkBoundingBox (Z.min (x0 b) (loc_x l)) (Z.max (x1 b) (loc_x l))
    (Z.min (y0 b) (loc_y l)) (Z.max (y1 b) (loc_y l)).

Definition get_net_bounds (ctx : Context) (p : Placer) (net : NetInfo)
    (movedCells : gmap Z BelId) : result BoundingBox :=
  match net_driver net with
  | None => Err AssertionFailure
  | Some d =>
      let dloc := getBelLocation ctx (cell_bel p (pr_cell d) movedCells) in
      Ok (fold_left
            (λ bb user,
               if bool_decide (cell_bel_of p (pr_cell user) = BelId_null) then bb
               else extend bb (getBelLocation ctx
                                 (cell_bel p (pr_cell user) movedCells)))
            (net_users net)
            (mkBoundingBox (loc_x dloc) (loc_x dloc) (loc_y dloc) (loc_y dloc)))
  end.

Definition Qmin (x y : Q) : Q := if Qle_bool y x then y else x.

(** The exponent of the criticality, a member that is never written. *)
Definition crit_exp : Q := 8.

Definition get_timing_cost (e : CostEnv) (ctx : Context) (p : Placer)
    (net : NetInfo) (user : nat) (movedCells : gmap Z BelId) : result Q :=
  match net_driver net with
  | None => Ok 0%Q
  | Some d =>
      if port_timing_ignored e (pr_cell d) (pr_port d) then Ok 0%Q
      else if budgetBased e then
        usr ← vec_at (net_users net) user;
        let delay := getDelayNS ctx (predictDelay e net usr) in
        Ok (Qmin 10 (c_exp e (delay - getDelayNS ctx (pr_budget usr))))
      else
        match net_crit e !! net_name net with
        | None => Ok 0%Q
        | Some criticality =>
            if bool_decide (criticality = []) then Ok 0%Q
            else
              usr ← vec_at (net_users net) user;
              let delay :=
                if bool_decide (is_Some (movedCells !! pr_cell d))
                   || bool_decide (is_Some (movedCells !! pr_cell usr))
                then
                  let src := cell_bel p (pr_cell d) movedCells in
                  let dest := cell_bel p (pr_cell usr) movedCells in
                  getDelayNS ctx (estimateDelay ctx
                                    (getBelPinWire e src (pr_port d))
                                    (getBelPinWire e dest (pr_port usr)))
                else getDelayNS ctx (predictDelay e net usr) in
              c ← vec_at criticality user;
              Ok (delay * c_pow e c crit_exp)%Q
        end
  end.

(** The body of the loop of [setup_costs] for one net. *)
Definition setup_costs_net (e : CostEnv) (ctx : Context) (p : Placer)
    (c : Costs) (ni : NetInfo) : result Costs :=
  if ignore_net e p ni then Ok c
  else
    b ← get_net_bounds ctx p ni ∅;
    nb ← vec_set (net_bounds c) (net_udata ni) b;
    tc ← (if timing_driven e
             && (Z.of_nat (length (net_users ni)) <? timingFanoutThresh e)
          then foldM (λ tc i, cost ← get_timing_cost e ctx p ni i ∅;
                              vec_set2 tc (net_udata ni) i cost)
                 (net_arc_tcost c) (seq 0 (length (net_users ni)))
          else Ok (net_arc_tcost c));
    Ok (mkCosts nb tc (curr_wirelen_cost c) (curr_timing_cost c)).

(** [setup_costs], for the nets of the design in the order of their
    names. *)
Definition setup_costs (e : CostEnv) (ctx : Context) (p : Placer)
    (ctx_nets : list NetInfo) (c : Costs) : result Costs :=
  foldM (setup_costs_net e ctx p) c ctx_nets.

Definition total_wirelen_cost (c : Costs) : Z :=
  fold_left (λ cost net, cost + hpwl net) (net_bounds c) 0.

Definition total_timing_cost (c : Costs) : Q :=
  fold_left (λ cost net, fold_left (λ cost arc_cost, cost + arc_cost)%Q net cost)
    (net_arc_tcost c) 0%Q.

(** The net [n] is entered in [bounds_changed_nets], once. *)
Definition mark_bounds (mc : MoveChangeData) (n : Z) : result MoveChangeData :=
  f ← vec_at_int (already_bounds_changed mc) n;
  if (f : bool) then Ok mc
  else Ok (mkMoveChangeData (bounds_changed_nets mc ++ [n]) (changed_arcs mc)
             (<[Z.to_nat n := true]> (already_bounds_changed mc))
             (already_changed_arcs mc) (new_net_bounds mc) (new_arc_costs mc)
             (wirelen_delta mc) (timing_delta mc)).

(** The arc [i] of the net [n] is entered in [changed_arcs], once. *)
Definition mark_arc (mc : MoveChangeData) (n : Z) (i : nat)
  : result MoveChangeData :=
  row ← vec_at_int (already_changed_arcs mc) n;
  f ← vec_at row i;
  if (f : bool) then Ok mc
  else Ok (mkMoveChangeData (bounds_changed_nets mc) (changed_arcs mc ++ [(n, i)])
             (already_bounds_changed mc)
             (<[Z.to_nat n := <[i := true]> row]> (already_changed_arcs mc))
             (new_net_bounds mc) (new_arc_costs mc)
             (wirelen_delta mc) (timing_delta mc)).

(** The body of the loop of [add_move_cell] for one port of the cell. *)
Definition add_move_port (e : CostEnv) (p : Placer) (c : Costs) (cell : Z)
    (curr_loc old_loc : Loc) (mc : MoveChangeData) (port : PortInfo)
  : result MoveChangeData :=
  match port_net port with
  | None => Ok mc
  | Some pn =>
      if ignore_net e p pn then Ok mc
      else
        curr_bounds ← vec_at_int (net_bounds c) (net_udata pn);
        mc1 ← (if touches_bounds curr_bounds (loc_x old_loc) (loc_y old_loc)
                  || negb (is_inside_inc curr_bounds (loc_x curr_loc) (loc_y curr_loc))
               then mark_bounds mc (net_udata pn)
               else Ok mc);
        if timing_driven e
           && (Z.of_nat (length (net_users pn)) <? timingFanoutThresh e)
        then
          match port_type port with
          | PORT_OUT =>
              if port_timing_ignored e cell (port_name port) then Ok mc1
              else foldM (λ m i, mark_arc m (net_udata pn) i) mc1
                     (seq 0 (length (net_users pn)))
          | PORT_IN =>
              match fast_port_to_user e !! (cell, port_name port) with
              | None => Err OutOfRange
              | Some usr => mark_arc mc1 (net_udata pn) usr
              end
          | PORT_INOUT => Ok mc1
          end
        else Ok mc1
  end.

Definition add_move_cell (e : CostEnv) (ctx : Context) (p : Placer) (c : Costs)
    (mc : MoveChangeData) (cell : Z) (old_bel : BelId)
    (movedCells : gmap Z BelId) : result MoveChangeData :=
  let curr_loc := getBelLocation ctx (cell_bel p cell movedCells) in
  let old_loc := getBelLocation ctx old_bel in
  foldM (add_move_port e p c cell curr_loc old_loc) mc (cell_ports e cell).

(** The first loop of [compute_cost_changes], for one net. *)
Definition compute_bounds_change (e : CostEnv) (ctx : Context) (p : Placer)
    (c : Costs) (movedCells : gmap Z BelId) (md : MoveChangeData) (bc : Z)
  : result MoveChangeData :=
  old ← vec_at_int (net_bounds c) bc;
  net ← vec_at_int (net_by_udata e) bc;
  bounds ← get_net_bounds ctx p net movedCells;
  abc ← vec_set (already_bounds_changed md) bc false;
  Ok (mkMoveChangeData (bounds_changed_nets md) (changed_arcs md) abc
        (already_changed_arcs md) (new_net_bounds md ++ [(bc, bounds)])
        (new_arc_costs md) (wirelen_delta md + (hpwl bounds - hpwl old))
        (timing_delta md)).

(** The second loop of [compute_cost_changes], for one arc. *)
Definition compute_arc_change (e : CostEnv) (ctx : Context) (p : Placer)
    (c : Costs) (movedCells : gmap Z BelId) (md : MoveChangeData) (tc : Z * nat)
  : result MoveChangeData :=
  row ← vec_at_int (net_arc_tcost c) tc.1;
  old_cost ← vec_at row tc.2;
  net ← vec_at_int (net_by_udata e) tc.1;
  new_cost ← get_timing_cost e ctx p net tc.2 movedCells;
  aca ← vec_set2 (already_changed_arcs md) tc.1 tc.2 false;
  Ok (mkMoveChangeData (bounds_changed_nets md) (changed_arcs md)
        (already_bounds_changed md) aca (new_net_bounds md)
        (new_arc_costs md ++ [(tc, new_cost)]) (wirelen_delta md)
        (timing_delta md + (new_cost - old_cost))%Q).

Definition compute_cost_changes (e : CostEnv) (ctx : Context) (p : Placer)
    (c : Costs) (md : MoveChangeData) (movedCells : gmap Z BelId)
  : result MoveChangeData :=
  md1 ← foldM (compute_bounds_change e ctx p c movedCells) md
          (bounds_changed_nets md);
  if timing_driven e
  then foldM (compute_arc_change e ctx p c movedCells) md1 (changed_arcs md1)
  else Ok md1.

Definition commit_cost_changes (c : Costs) (md : MoveChangeData) : result Costs :=
  nb ← foldM (λ nb bc, vec_set nb bc.1 bc.2) (net_bounds c) (new_net_bounds md);
  tc ← foldM (λ tc a, vec_set2 tc a.1.1 a.1.2 a.2) (net_arc_tcost c)
         (new_arc_costs md);
  Ok (mkCosts nb tc (curr_wirelen_cost c + wirelen_delta md)
        (curr_timing_cost c + timing_delta md)%Q).

End PlacerCost.

(** * Sample data

    A small design on which the statements below are tried out: one net
    with one user, its driver on wire 1 and its sink on wire 5, and a
    router that knows both wires. *)

Module Sample.
Import Router2.

Definition net0 : NetInfo :=
  mkNetInfo 0 false (Some (mkCellInfo 1)) [mkPortRef (mkCellInfo 2) 0].

Definition router0 : Router :=
  mkRouter [net0]
    [mkPerNetData [PerArcData_default] (mkArcBounds 0 0 3 3) 1 1 6]
    {[1 := PerWireData_default; 5 := PerWireData_default]}
    (1 # 2) 1 0 0 0 [] ∅ 0.

(** A device of six wires in a row, wire [w] driving wire [w + 1] through
    pip [w]; every delay is 100 and a delay unit is a thousandth. *)
Definition ctx0 : Context :=
  mkContext false [0; 1; 2; 3; 4; 5]
    (λ w, if bool_decide (w = 1) then [mkBelPin 1 0]
          else if bool_decide (w = 5) then [mkBelPin 2 0] else [])
    (λ b _, if bool_decide (b = 1) then PORT_OUT else PORT_IN)
    (λ w, if bool_decide (1 ≤ w ≤ 5) then [w - 1] else [])
    (λ w, if bool_decide (0 ≤ w ≤ 4) then [w] else [])
    (λ p, p) (λ p, p + 1)
    (λ p, mkLoc p 0 0) (λ b, mkLoc b 0 0)
    (λ _, 100) (λ _, 100) 1 (λ d, inject_Z d / 1000)%Q
    (λ a b, 100 * Z.abs (b - a))
    (λ a b, mkArcBounds (Z.min a b) 0 (Z.max a b) 0)
    (λ _, 1) (λ _ _, 5)
    (λ s, (s, s + 1)) (λ s l, (l, s + 1)).

(** The same device when the pin of the driver has no wire. *)
Definition ctx_nosrc : Context :=
  mkContext false (getWires ctx0) (getWireBelPins ctx0) (getBelPinType ctx0)
    (getPipsUphill ctx0) (getPipsDownhill ctx0) (getPipSrcWire ctx0)
    (getPipDstWire ctx0) (getPipLocation ctx0) (getBelLocation ctx0)
    (getPipDelay ctx0) (getWireDelay ctx0) (getDelayEpsilon ctx0)
    (getDelayNS ctx0) (estimateDelay ctx0) (getRouteBoundingBox ctx0)
    (λ _, WireId_null) (getNetinfoSinkWire ctx0) (rng_step ctx0)
    (sorted_shuffle ctx0).

(** A driven net without users. *)
Definition net_nousers : NetInfo := mkNetInfo 0 false (Some (mkCellInfo 1)) [].

(** The router as constructed, before any set-up. *)
Definition router_empty : Router :=
  mkRouter [] [] ∅ 0 0 0 0 0 [] ∅ 0.

Definition arch0 : ArchState := mkArchState ∅ ∅ 0.

(** The binding table when the sink wire of [net0] is bound to it by the
    user. *)
Definition arch_prerouted : ArchState :=
  mkArchState {[5 := mkPipMap 0 4 STRENGTH_USER]} ∅ 0.

(** The binding table when wire 5 is bound to net 0 with strength STRONG
    and wire 3 with strength USER. *)
Definition arch_strong : ArchState :=
  mkArchState {[5 := mkPipMap 0 4 STRENGTH_STRONG; 3 := mkPipMap 0 2 STRENGTH_USER]}
    {[4 := (0, STRENGTH_STRONG); 2 := (0, STRENGTH_USER)]} 0.

(** A router whose only net has no user. *)
Definition router_nousers : Router :=
  mkRouter [net_nousers] [mkPerNetData [] (mkArcBounds 0 0 0 0) 0 0 1]
    {[1 := PerWireData_default; 5 := PerWireData_default]}
    (1 # 2) 1 0 0 0 [] ∅ 0.

(** A router that knows the six wires of [ctx0]. *)
Definition router_line : Router :=
  mkRouter [net0]
    [mkPerNetData [mkPerArcData ∅ (mkArcBounds 1 0 5 0)] (mkArcBounds 1 0 5 0) 3 0 4]
    (list_to_map ((λ w, (w, PerWireData_default)) <$> [0; 1; 2; 3; 4; 5]))
    (1 # 2) 1 0 0 0 [] ∅ 0.

(** The same, the sink wire of [net0] reserved for a net of [udata] 7. *)
Definition router_reserved : Router :=
  set_wires router_line
    (<[5 := mkPerWireData ∅ 1 false 7]> (wires router_line)).

(** [router_line] with [net0] in the queue, and with two nets on wire 3. *)
Definition router_queued : Router := set_route_queue router_line [0].

Definition router_contended : Router :=
  set_wires router_line
    (<[3 := mkPerWireData {[0 := (1, 2); 1 := (1, 2)]} 1 false (-1)]>
       (wires router_line)).

Definition tc0 : ThreadContext := mkThreadContext [] [] ∅ ∅ [] ∅.

End Sample.

(** A device with a pinch point.  Wires 1 and 2 are the outputs of two
    cells, wire 5 is the input of a third and wire 6 the input of a fourth;
    pips 10 and 11 lead from the wires 1 and 2 to wire 5, and pip 12 from
    wire 5 to wire 6, which has no other driver.  Net [net_n] goes from wire
    1 to wire 5, net [net_m] from wire 2 to wire 6. *)
Module SamplePinch.
Import Router2.

Definition ctx : Context :=
  mkContext false [1; 2; 5; 6]
    (λ w, if bool_decide (w = 1) then [mkBelPin 1 0]
          else if bool_decide (w = 2) then [mkBelPin 3 0]
          else if bool_decide (w = 5) then [mkBelPin 2 0]
          else if bool_decide (w = 6) then [mkBelPin 4 0] else [])
    (λ b _, if bool_decide (b = 1 ∨ b = 3) then PORT_OUT else PORT_IN)
    (λ w, if bool_decide (w = 5) then [10; 11]
          else if bool_decide (w = 6) then [12] else [])
    (λ w, if bool_decide (w = 1) then [10]
          else if bool_decide (w = 2) then [11]
          else if bool_decide (w = 5) then [12] else [])
    (λ p, if bool_decide (p = 10) then 1 else if bool_decide (p = 11) then 2 else 5)
    (λ p, if bool_decide (p = 12) then 6 else 5)
    (λ p, mkLoc 0 0 0) (λ b, mkLoc 0 0 0)
    (λ _, 100) (λ _, 100) 1 (λ d, inject_Z d / 1000)%Q
    (λ _ _, 100)
    (λ _ _, mkArcBounds 0 0 0 0)
    (λ net, if bool_decide (udata net = 0) then 1 else 2)
    (λ _ usr, if bool_decide (cell_bel (port_cell usr) = 2) then 5 else 6)
    (λ s, (s, s + 1)) (λ s l, (l, s + 1)).

Definition net_n : NetInfo :=
  mkNetInfo 0 false (Some (mkCellInfo 1)) [mkPortRef (mkCellInfo 2) 0].
Definition net_m : NetInfo :=
  mkNetInfo 1 false (Some (mkCellInfo 3)) [mkPortRef (mkCellInfo 4) 0].

(** The router after the set-up of [router_test]: the nets, the wires, the
    reserved wires. *)
Definition router_setup : result Router :=
  r0 ← setup_nets ctx [net_n; net_m] Sample.router_empty;
  find_all_reserved_wires 10 ctx (setup_wires ctx Sample.arch0 r0).

End SamplePinch.

Module SamplePlacer.
Import Placer.

(** Two cells on two bels, weakly bound, in the state of the spec's
    scenario: temperature 10, diameter 35, half of the moves accepted. *)
Definition placer0 : Placer :=
  mkPlacer {[10 := 1; 20 := 2]}
    {[1 := (10, STRENGTH_WEAK); 2 := (20, STRENGTH_WEAK)]}
    0 10 (1 # 2) 10 35 50 50 2 1 100 100 1 1.

(** The same placement with a diameter of 50 after 59 accepted moves of
    100, on a grid of 100 by 100: [diameter * (1 - 0.44 + R)] is 57.5. *)
Definition placer_tie : Placer :=
  mkPlacer {[10 := 1; 20 := 2]}
    {[1 := (10, STRENGTH_WEAK); 2 := (20, STRENGTH_WEAK)]}
    0 10 (1 # 2) 10 50 100 100 100 59 100 100 1 1.

(** The same placement when the annealer has cooled below 1e-8. *)
Definition placer_cold : Placer :=
  mkPlacer {[10 := 1; 20 := 2]}
    {[1 := (10, STRENGTH_WEAK); 2 := (20, STRENGTH_WEAK)]}
    0 (1 # 1000000000) (1 # 2) 10 35 50 50 2 1 100 100 1 1.

(** A stand-in for [std::exp]: the Taylor polynomial of degree 4, which is
    exact at 0. *)
Definition exp_series (x : Q) : Q :=
  (1 + x + x * x / 2 + x * x * x / 6 + x * x * x * x / 24)%Q.

(** An architecture without constraints in which every location is valid
    and no move changes the cost; the generator returns 0. *)
Definition env0 : Env :=
  mkEnv (λ _, false) (λ _ _, 0) (λ _ _, true) (λ _ _ _ _ _, (0%Q, 0))
    exp_series (λ s, (0, s + 1)).

End SamplePlacer.

(** The sample design after its net was routed: the arc of [net0] runs
    over the wires 1 to 5 of [ctx0], each driven by the pip from the wire
    before it, and the net is bound once on each of them. *)
Module SampleRouted.
Import Router2.

Definition arc_routed : PerArcData :=
  mkPerArcData {[1 := PipId_null; 2 := 1; 3 := 2; 4 := 3; 5 := 4]}
    (mkArcBounds 1 0 5 0).

Definition wire_routed (p : PipId) : PerWireData :=
  mkPerWireData {[0 := (1, p)]} 1 false (-1).

Definition router_routed : Router :=
  mkRouter [Sample.net0]
    [mkPerNetData [arc_routed] (mkArcBounds 1 0 5 0) 3 0 4]
    {[0 := PerWireData_default; 1 := wire_routed PipId_null;
      2 := wire_routed 1; 3 := wire_routed 2; 4 := wire_routed 3;
      5 := wire_routed 4]}
    (1 # 2) 1 0 0 0 [] ∅ 0.

(** The same with the net in the queue. *)
Definition router_routed_queued : Router := set_route_queue router_routed [0].

End SampleRouted.

(** A net for the cost model of the placer: the net of index 0 from cell 1
    to cell 2 of [SamplePlacer.placer0], with its box and the cost of its
    arc, and the move of cell 1 from bel 10 to bel 5. *)
Module SampleCost.
Import Placer PlacerCost.

Definition net_a : NetInfo :=
  mkNetInfo 7 0 (Some (mkPortRef 1 0 0)) [mkPortRef 2 0 0].

Definition env : CostEnv :=
  mkCostEnv
    (λ c, if bool_decide (c = 1) then [mkPortInfo 0 (Some net_a) PORT_OUT]
          else if bool_decide (c = 2) then [mkPortInfo 0 (Some net_a) PORT_IN]
          else [])
    (λ _, false) (λ b _, b) (λ _ _, 100) (λ _ _, false)
    true 10 true ∅ SamplePlacer.exp_series (λ x _, x)
    [net_a] {[(2, 0) := 0%nat]}.

Definition costs0 : Costs := mkCosts [mkBoundingBox 10 20 0 0] [[0%Q]] 10 0.

Definition moved : gmap Z BelId := {[1 := 5]}.

(** The move before anything is marked, and with the net and its arc
    marked. *)
Definition md0 : MoveChangeData :=
  mkMoveChangeData [] [] [false] [[false]] [] [] 0 0.
Definition md_marked : MoveChangeData :=
  mkMoveChangeData [0] [(0, 0%nat)] [true] [[true]] [] [] 0 0.

End SampleCost.

(** * Vocabulary of the specification

    The predicates and functions in which the properties of the two cores
    are stated: the readings of the claims, the runs of the two search loops
    and the invariants of the proofs. *)

Module Router2Spec.
Import Router2.

(** Every entry of [bound_nets] counts at least one arc: with the count of
    a missing entry read as 0, an entry exists exactly when the count is at
    least 1. *)
Definition refcount_ok (wd : PerWireData) : Prop :=
  ∀ uid, is_Some (bound_nets wd !! uid) ↔ 1 ≤ source_uses wd uid.

(** The claim's reading of the present cost: the number of nets other than
    [uid] that are bound on the wire. *)
Definition other_sources_spec (wd : PerWireData) (uid : Z) : Z :=
  Z.of_nat (size (bound_nets wd))
  - (if bool_decide (is_Some (bound_nets wd !! uid)) then 1 else 0).

Definition no_other_net (wd : PerWireData) (uid : Z) : Prop :=
  ∀ m, is_Some (bound_nets wd !! m) → m = uid.

(** What [update_congestion] does to one wire. *)
Definition congest (hcw : Q) (wd : PerWireData) : PerWireData :=
  let k := Z.of_nat (size (bound_nets wd)) in
  if 1 <? k
  then set_hist_cong_cost wd (hist_cong_cost wd + inject_Z (k - 1) * hcw)%Q
  else wd.

(** The history of every wire, and the weight of the history, are in [r']
    what they are in [r]. *)
Definition same_hist (r r' : Router) : Prop :=
  hist_cong_weight r' = hist_cong_weight r
  ∧ ∀ w, hist_cong_cost <$> wires r' !! w = hist_cong_cost <$> wires r !! w.

(** No wire is lost and no history has gone down from [r] to [r']. *)
Definition hist_le (r r' : Router) : Prop :=
  ∀ w wd, wires r !! w = Some wd →
          ∃ wd', wires r' !! w = Some wd'
                 ∧ (hist_cong_cost wd <= hist_cong_cost wd')%Q.

(** The two wires of an arc as [setup_nets] takes them: for a net without
    driver the sink stands in for the source. *)
Definition arc_dst_wire (ctx : Context) (ni : NetInfo) (usr : PortRef) : WireId :=
  getNetinfoSinkWire ctx ni usr.
Definition arc_src_wire (ctx : Context) (ni : NetInfo) (usr : PortRef) : WireId :=
  if driver_cell ni is None then arc_dst_wire ctx ni usr
  else getNetinfoSourceWire ctx ni.

(** An arc one of whose ends has no wire. *)
Definition arc_no_wire (ctx : Context) (ni : NetInfo) (usr : PortRef) : Prop :=
  arc_src_wire ctx ni usr = WireId_null ∨ arc_dst_wire ctx ni usr = WireId_null.

(** The driver port of a driven net has no wire. *)
Definition driver_no_wire (ctx : Context) (ni : NetInfo) : Prop :=
  driver_cell ni ≠ None ∧ getNetinfoSourceWire ctx ni = WireId_null.

(** Sums of the coordinates of the driver and of the users from a list. *)
Definition users_sum (ctx : Context) (proj : Loc → Z) (us : list PortRef) : Z :=
  foldr (λ u acc, proj (getBelLocation ctx (cell_bel (port_cell u))) + acc) 0 us.

Definition driver_coord (ctx : Context) (proj : Loc → Z) (ni : NetInfo) : Z :=
  match driver_cell ni with
  | Some c => proj (getBelLocation ctx (cell_bel c))
  | None => 0
  end.

Definition box_within (inner outer : ArcBounds) : Prop :=
  x0 outer ≤ x0 inner ∧ y0 outer ≤ y0 inner
  ∧ x1 inner ≤ x1 outer ∧ y1 inner ≤ y1 outer.

(** The value is one of an [int]. *)
Definition in_int (z : Z) : Prop := INT_MIN ≤ z ≤ INT_MAX.

(** The per-net data [setup_nets] leaves for the net [ni].  The sums of
    the centroid and the half-perimeter are those of [int] arithmetic; they
    are the plain ones where these fit an [int].  A net without users is
    left with the box the loop starts from, for which the half-perimeter
    overflows and comes out as 2. *)
Definition net_populated (ctx : Context) (ni : NetInfo) (nd : PerNetData) : Prop :=
  length (arcs nd) = length (users ni)
  ∧ (∀ j usr, users ni !! j = Some usr →
       ∃ ad, arcs nd !! j = Some ad
         ∧ ad_bb ad = getRouteBoundingBox ctx (arc_src_wire ctx ni usr)
                        (arc_dst_wire ctx ni usr)
         ∧ box_within (ad_bb ad) (bb nd))
  ∧ cx nd = Z.quot (int_wrap (driver_coord ctx loc_x ni
                              + users_sum ctx loc_x (users ni)))
                   (Z.of_nat (length (users ni)) + 1)
  ∧ cy nd = Z.quot (int_wrap (driver_coord ctx loc_y ni
                              + users_sum ctx loc_y (users ni)))
                   (Z.of_nat (length (users ni)) + 1)
  ∧ hpwl nd = Z.max (int_wrap (int_abs (int_wrap (y1 (bb nd) - y0 (bb nd)))
                               + int_abs (int_wrap (x1 (bb nd) - x0 (bb nd))))) 1
  ∧ 1 ≤ hpwl nd ≤ INT_MAX
  ∧ (in_int (driver_coord ctx loc_x ni + users_sum ctx loc_x (users ni)) →
     cx nd = Z.quot (driver_coord ctx loc_x ni + users_sum ctx loc_x (users ni))
                    (Z.of_nat (length (users ni)) + 1))
  ∧ (in_int (driver_coord ctx loc_y ni + users_sum ctx loc_y (users ni)) →
     cy nd = Z.quot (driver_coord ctx loc_y ni + users_sum ctx loc_y (users ni))
                    (Z.of_nat (length (users ni)) + 1))
  ∧ (in_int (Z.abs (y1 (bb nd) - y0 (bb nd)) + Z.abs (x1 (bb nd) - x0 (bb nd))) →
     hpwl nd = Z.max (Z.abs (y1 (bb nd) - y0 (bb nd))
                      + Z.abs (x1 (bb nd) - x0 (bb nd))) 1)
  ∧ (users ni = [] →
     bb nd = mkArcBounds INT_MAX INT_MAX INT_MIN INT_MIN ∧ hpwl nd = 2).

#[export] Instance arc_no_wire_dec ctx ni usr : Decision (arc_no_wire ctx ni usr).
Proof. unfold arc_no_wire. apply _. Defined.

(** Some arc of the nets [l], numbered from [i], has an end without wire. *)
Definition some_arc_no_wire (ctx : Context) (i : nat) (l : list NetInfo) : Prop :=
  ∃ k ni j usr, l !! k = Some ni ∧ users ni !! j = Some usr
    ∧ arc_no_wire ctx (set_udata ni (Z.of_nat (i + k))) usr.

(** [n] rounds of the forward loop, each entered with the loop condition
    true. *)
Inductive astar_run (ctx : Context) (r : Router) (net : NetInfo) (i : nat)
    (dst_wire : WireId) (is_bb : bool) (abb : ArcBounds)
  : nat → FwdState → FwdState → Prop :=
| astar_run_O s : astar_run ctx r net i dst_wire is_bb abb 0 s s
| astar_run_S n s s' s'' :
    astar_run ctx r net i dst_wire is_bb abb n s s' →
    astar_cond is_bb s' = true →
    astar_body ctx r net i dst_wire is_bb abb s' = Ok s'' →
    astar_run ctx r net i dst_wire is_bb abb (S n) s s''.

(** What one pip, and so one round, may do to the budget: the count of
    rounds is kept, the budget does not grow, wires stay visited, and a sink
    that becomes visited cuts the budget to five rounds more. *)
Definition budget_step (dst_wire : WireId) (s s' : FwdState) : Prop :=
  iter s' = iter s
  ∧ toexplore s' ≤ toexplore s
  ∧ (∀ w, is_Some (visited (fs_t s) !! w) → is_Some (visited (fs_t s') !! w))
  ∧ (visited (fs_t s) !! dst_wire = None →
     is_Some (visited (fs_t s') !! dst_wire) →
     toexplore s' ≤ iter s + 5).

(** The wire is reserved for a net other than [uid]. *)
Definition reserved_elsewhere (r : Router) (uid : Z) (w : WireId) : Prop :=
  ∃ wd, wires r !! w = Some wd ∧ reserved_net wd ≠ -1 ∧ reserved_net wd ≠ uid.

(** The net [uid] has an entry on the wire. *)
Definition bound_to (r : Router) (uid : Z) (w : WireId) : Prop :=
  ∃ wd, wires r !! w = Some wd ∧ is_Some (bound_nets wd !! uid).

(** [n] rounds of the backwards loop, each entered with the loop condition
    true. *)
Inductive bwd_run (fuel : nat) (ctx : Context) (a : ArchState) (r : Router)
    (net : NetInfo) (src_wire : WireId) : nat → BwdState → BwdState → Prop :=
| bwd_run_O s : bwd_run fuel ctx a r net src_wire 0 s s
| bwd_run_S n s s' s'' :
    bwd_run fuel ctx a r net src_wire n s s' →
    bwd_cond s' = true →
    bwd_body fuel ctx a r net src_wire s' = Ok s'' →
    bwd_run fuel ctx a r net src_wire (S n) s s''.

(** The wires in the queue and in [visited] are the source wire or wires
    not reserved for another net. *)
Definition fwd_unreserved (r : Router) (uid : Z) (src_wire : WireId)
    (t : ThreadContext) : Prop :=
  (∀ q, q ∈ queue t →
        qw_wire q = src_wire ∨ ¬ reserved_elsewhere r uid (qw_wire q))
  ∧ (∀ w, is_Some (visited t !! w) →
          w = src_wire ∨ ¬ reserved_elsewhere r uid w).

(** The wires in the backwards queue are the sink wire or wires not
    reserved for another net. *)
Definition bwd_unreserved (r : Router) (uid : Z) (dst_wire : WireId)
    (t : ThreadContext) : Prop :=
  ∀ w, w ∈ backwards_queue t →
       w = dst_wire ∨ ¬ reserved_elsewhere r uid w.

(** Every uphill pip of a wire has that wire as its destination. *)
Definition adjacency_consistent (ctx : Context) : Prop :=
  ∀ w uh, uh ∈ getPipsUphill ctx w → getPipDstWire ctx uh = w.

(** The pip recorded for the net on a wire drives that wire. *)
Definition driving_pips_consistent (ctx : Context) (r : Router) (uid : Z) : Prop :=
  ∀ w wd b, wires r !! w = Some wd → bound_nets wd !! uid = Some b →
            b.2 ≠ PipId_null → getPipDstWire ctx b.2 = w.

(** A wire the search may bind: an end of the arc, a wire the net holds
    already, or a wire that is not reserved for another net. *)
Definition may_bind (r : Router) (uid : Z) (src_wire dst_wire w : WireId) : Prop :=
  w = src_wire ∨ w = dst_wire ∨ bound_to r uid w ∨ ¬ reserved_elsewhere r uid w.

Definition bwd_pips_ok (ctx : Context) (r : Router) (uid : Z)
    (src_wire dst_wire : WireId) (bp : gmap Z PipId) : Prop :=
  ∀ k v, bp !! k = Some v → may_bind r uid src_wire dst_wire (getPipDstWire ctx v).

End Router2Spec.

Module PlacerSpec.
Import Binary Placer.

(** Rounding to the nearest integer, halves upwards. *)
Definition round_nearest (q : Q) : Z := Qfloor (q + (1 # 2)).

(** [clamp lo hi v]: [v] brought into the range from [lo] to [hi]. *)
Definition clamp (lo hi v : Z) : Z :=
  if v <? lo then lo else if hi <? v then hi else v.

(** The factor by which the schedule cools, for the acceptance ratio
    [R] and the diameter [d]. *)
Definition cooling_factor (R : Q) (d : Z) : Q :=
  if Qltb (96 # 100) R then 1 # 2
  else if Qltb (8 # 10) R then 9 # 10
  else if Qltb (15 # 100) R && (1 <? d) then 95 # 100
  else 8 # 10.

(** The temperature [t'] is what [temp *= c] makes of the [float] [t]
    for the literal [c]: the product with the [double] nearest to [c],
    rounded to [double] and then to [float]. *)
Definition cooled (c t t' : Q) : Prop := t' = fl32 (fl64 (t * fl64 c)).

(** The distance from a half-integer below which the rounding of
    [diam_next] may go either way, and the error of the running average
    before it is cut to an integer. *)
Definition tie_margin : Q := 1 # 524288.
Definition average_margin : Q := 1 # 1024.

(** The distance of a cooled temperature from the exact product with the
    factor, for the temperature [t] before: [2^-23] of it, and [2^-98]. *)
Definition rounding_error (t : Q) : Q :=
  (t * (1 # 8388608) + (1 # 316912650057057350374175801344))%Q.

(** Every bel knows its cell and every cell its bel. *)
Definition placement_ok (p : Placer) : Prop :=
  ∀ b c, bel_to_cell p !! b = Some c ↔ ∃ s, cells p !! c = Some (b, s).

(** The cell on the target bel, if any, may be moved: it is not constrained
    and its binding is not above WEAK. *)
Definition other_movable (e : Env) (p : Placer) (newBel : BelId) : Prop :=
  match getBoundBelCell p newBel with
  | Some oc => is_constrained e oc = false
               ∧ match cells p !! oc with
                 | Some bs => strength_gt bs.2 STRENGTH_WEAK = false
                 | None => True
                 end
  | None => True
  end.

(** The placement with the swap applied, as [try_swap_position] has it
    when it checks the legality and evaluates the cost. *)
Definition swapped (p : Placer) (cell : Z) (newBel : BelId) : Placer :=
  let oldBel := cell_bel_of p cell in
  let other_cell := getBoundBelCell p newBel in
  let p1 := unbindBel p oldBel in
  let p2 := if other_cell is Some _ then unbindBel p1 newBel else p1 in
  let p3 := bindBel p2 newBel cell STRENGTH_WEAK in
  match other_cell with
  | Some oc => bindBel p3 oldBel oc STRENGTH_WEAK
  | None => p3
  end.

(** The sum of the constraint distances of the cells of the swap. *)
Definition swap_dist (e : Env) (q p : Placer) (cell : Z) (newBel : BelId) : Z :=
  get_constraints_distance e q cell
  + match getBoundBelCell p newBel with
    | Some oc => get_constraints_distance e q oc
    | None => 0
    end.

(** The legality check of the swap. *)
Definition swap_legal (e : Env) (p : Placer) (cell : Z) (newBel : BelId) : Prop :=
  isBelLocationValid e (swapped p cell newBel) newBel = true
  ∧ (is_Some (getBoundBelCell p newBel) →
     isBelLocationValid e (swapped p cell newBel) (cell_bel_of p cell) = true).

(** The combined cost change [delta] of the swap. *)
Definition swap_cost_delta (e : Env) (p : Placer) (cell : Z) (newBel : BelId) : Q :=
  let p4 := swapped p cell newBel in
  let c := cost_changes e p4 cell (cell_bel_of p cell)
             (getBoundBelCell p newBel) newBel in
  swap_delta p4 c.1 c.2 (swap_dist e p p cell newBel)
    (swap_dist e p4 p cell newBel).

(** The random draw of the acceptance test, in the range from 0 to 1. *)
Definition swap_draw (e : Env) (p : Placer) : Q :=
  rng_unit (rng_step e (rngstate p)).1.

(** The cells are on the bels they were on in [p]. *)
Definition reverted (p p' : Placer) : Prop :=
  bel_to_cell p' = bel_to_cell p
  ∧ ∀ c, cell_bel_of p' c = cell_bel_of p c.

Definition same_binding (q q' : Placer) : Prop :=
  bel_to_cell q = bel_to_cell q' ∧ cells q = cells q'.

End PlacerSpec.
(** * Further vocabulary for the router *)

Module Router2Inv.
Import Router2 Router2Spec.

(** The data of a wire when one arc of the net [uid] has been taken off
    it. *)
Definition released (uid : Z) (wd : PerWireData) : PerWireData :=
  set_bound_nets wd
    (if source_uses wd uid - 1 =? 0 then delete uid (bound_nets wd)
     else <[uid := (source_uses wd uid - 1, (bound_entry wd uid).2)]>
            (bound_nets wd)).

(** The fields of a wire that the binding helpers never write. *)
Definition same_static (wd wd' : PerWireData) : Prop :=
  hist_cong_cost wd' = hist_cong_cost wd
  ∧ unavailable wd' = unavailable wd
  ∧ reserved_net wd' = reserved_net wd.

(** The pips recorded for the arc lead from a wire back to [src] over
    wires of the arc on which one net only is bound.  The walk ends on
    [src] when [src] is not a wire of the arc or has the null pip; the index
    counts the wires of the arc on the way. *)
Inductive arc_chain (ctx : Context) (r : Router) (ad : PerArcData)
    (src : WireId) : nat → WireId → Prop :=
| arc_chain_out :
    ad_wires ad !! src = None → arc_chain ctx r ad src 0 src
| arc_chain_end wd :
    ad_wires ad !! src = Some PipId_null →
    wires r !! src = Some wd → size (bound_nets wd) = 1%nat →
    arc_chain ctx r ad src 1 src
| arc_chain_step n w uh wd :
    ad_wires ad !! w = Some uh → uh ≠ PipId_null →
    wires r !! w = Some wd → size (bound_nets wd) = 1%nat →
    arc_chain ctx r ad src n (getPipSrcWire ctx uh) →
    arc_chain ctx r ad src (S n) w.

(** The data [setup_wires] gives a wire that had the data [wd]: the net
    that the device binds on the wire is entered with a count of 1 and the
    pip of the device, and a binding above STRONG locks the wire. *)
Definition seeded (a : ArchState) (w : WireId) (wd : PerWireData) : PerWireData :=
  match wire_bind a !! w with
  | None => wd
  | Some pm =>
      mkPerWireData (<[pm_net pm := (1, pm_pip pm)]> (bound_nets wd))
        (hist_cong_cost wd)
        (if strength_gt (pm_strength pm) STRENGTH_STRONG then true
         else unavailable wd)
        (reserved_net wd)
  end.

(** From the table [ws] to [ws'] nothing has happened but that wires were
    reserved for the net [uid]. *)
Definition reserved_more (uid : Z) (ws ws' : gmap Z PerWireData) : Prop :=
  ∀ w, ws' !! w = ws !! w
       ∨ ∃ wd, ws !! w = Some wd ∧ ws' !! w = Some (set_reserved_net wd uid).

(** From the table [ws] to [ws'] nothing has happened but that wires were
    reserved, each for a net whose [udata] satisfies [P]. *)
Definition reserved_by (P : Z → Prop) (ws ws' : gmap Z PerWireData) : Prop :=
  ∀ w, ws' !! w = ws !! w
       ∨ ∃ wd uid, P uid ∧ ws !! w = Some wd
                   ∧ ws' !! w = Some (set_reserved_net wd uid).

(** The uphill pips that come from a wire that can be driven. *)
Definition driveable_pips (ctx : Context) (pips : list PipId) : list PipId :=
  filter (λ uh, is_wire_undriveable ctx (getPipSrcWire ctx uh) = false) pips.

(** The router with what the search writes taken out: no net on any wire
    and no wire in any arc.  Two routers that agree on this differ in the
    routes only. *)
Definition unrouted_wire (wd : PerWireData) : PerWireData := set_bound_nets wd ∅.
Definition unrouted_arc (ad : PerArcData) : PerArcData := set_ad_wires ad ∅.
Definition unrouted_net (nd : PerNetData) : PerNetData :=
  set_arcs nd (unrouted_arc <$> arcs nd).
Definition unrouted (r : Router) : Router :=
  set_nets (set_wires r (unrouted_wire <$> wires r)) (unrouted_net <$> nets r).

(** The exception is one that a worker thread may raise: not the one of
    [log_error]. *)
Definition thread_safe_error (e : error) : Prop := e ≠ LogError ∧ e ≠ Threaded.

(** What the commit of arcs to the device does to the flag [success] and
    to the router, from one point of [bind_and_check_all] to a later one:
    the flag stays true only while the router is untouched, and it falls
    with a failed arc, which is counted and whose net is entered among the
    failed nets. *)
Definition commit_step (s s' : bool * Router) : Prop :=
  arch_fail s.2 ≤ arch_fail s'.2
  ∧ failed_nets s.2 ⊆ failed_nets s'.2
  ∧ nets_by_udata s'.2 = nets_by_udata s.2
  ∧ route_queue s'.2 = route_queue s.2
  ∧ curr_cong_weight s'.2 = curr_cong_weight s.2
  ∧ (s'.1 = true → s.1 = true ∧ s'.2 = s.2)
  ∧ (s.1 = false → s'.1 = false)
  ∧ (s'.1 = false → s.1 = false ∨ (arch_fail s.2 < arch_fail s'.2
                                    ∧ failed_nets s'.2 ≠ ∅)).

(** The pips in the table [ws] of an arc lead from a wire back to [src],
    on which the null pip is recorded. *)
Inductive routed_chain (ctx : Context) (ws : gmap Z PipId) (src : WireId)
  : WireId → Prop :=
| routed_chain_src :
    ws !! src = Some PipId_null → routed_chain ctx ws src src
| routed_chain_step w p :
    ws !! w = Some p → p ≠ PipId_null →
    routed_chain ctx ws src (getPipSrcWire ctx p) →
    routed_chain ctx ws src w.

(** Every downhill pip of a wire has that wire as its source, and no
    uphill pip of a wire is the null pip. *)
Definition downhill_consistent (ctx : Context) : Prop :=
  ∀ w dh, dh ∈ getPipsDownhill ctx w → getPipSrcWire ctx dh = w.
Definition uphill_pips_valid (ctx : Context) : Prop :=
  ∀ w uh, uh ∈ getPipsUphill ctx w → uh ≠ PipId_null.

(** No wire has a negative count for the net. *)
Definition counts_nonneg (r : Router) (uid : Z) : Prop :=
  ∀ w wd, wires r !! w = Some wd → 0 ≤ source_uses wd uid.

(** The arc has the pip [p] on the wire [w], and the wire has [p] as the
    pip that drives it for the net, with a count of at least 1. *)
Definition pinned (r : Router) (uid : Z) (i : nat) (w : WireId) (p : PipId)
  : Prop :=
  (∃ ad, arc_at r uid i = Ok ad ∧ ad_wires ad !! w = Some p)
  ∧ ∃ wd k, wires r !! w = Some wd ∧ bound_nets wd !! uid = Some (k, p) ∧ 1 ≤ k.

(** A chain of pinned wires from a wire back to [src]. *)
Inductive pinned_chain (ctx : Context) (r : Router) (uid : Z) (i : nat)
    (src : WireId) : WireId → Prop :=
| pinned_chain_src :
    pinned r uid i src PipId_null → pinned_chain ctx r uid i src src
| pinned_chain_step w p :
    pinned r uid i w p → p ≠ PipId_null →
    pinned_chain ctx r uid i src (getPipSrcWire ctx p) →
    pinned_chain ctx r uid i src w.

(** The wires that were visited by the forward search were reached from
    visited wires, and the wires in the queue were visited. *)
Definition visited_closed (ctx : Context) (t : ThreadContext) : Prop :=
  (∀ w v, visited t !! w = Some v → vi_pip v ≠ PipId_null →
          is_Some (visited t !! getPipSrcWire ctx (vi_pip v)))
  ∧ ∀ q, q ∈ queue t → is_Some (visited t !! qw_wire q).

(** Every pip recorded by the backwards search is recorded on the wire it
    comes from, and none is the null pip. *)
Definition backwards_pip_ok (ctx : Context) (bp : gmap Z PipId) : Prop :=
  ∀ k v, bp !! k = Some v → getPipSrcWire ctx v = k ∧ v ≠ PipId_null.

(** The window of the forward search of an arc with the bounding box
    [b]: the locations that [hit_test_pip] lets through. *)
Definition in_window (b : ArcBounds) (l : Loc) : Prop := hit_test_pip b l = true.

(** The centres of the nets along one axis, for the nets that have one,
    and how many of them lie below a position, or at most at it. *)
Definition centres (c : PerNetData → Z) (ns : list PerNetData) : list Z :=
  filter (λ x, x ≠ -1) (c <$> ns).
Definition below (k : Z) (cs : list Z) : Z :=
  Z.of_nat (length (filter (λ c, c < k) cs)).
Definition upto (k : Z) (cs : list Z) : Z :=
  Z.of_nat (length (filter (λ c, c ≤ k) cs)).

(** The number of times a position is among the centres, and the sum of
    the counts of a list of entries of a histogram. *)
Definition count_of (k : Z) (cs : list Z) : Z :=
  Z.of_nat (length (filter (λ c, c = k) cs)).
Definition total_of (h : list (Z * Z)) : Z :=
  foldr (λ (p : Z * Z) acc, p.2 + acc) 0 h.

(** [mid] is the position of one of the centres, fewer than [halfway]
    centres lie below it and at least [halfway] lie below it or at it. *)
Definition is_split (halfway : Z) (cs : list Z) (mid : Z) : Prop :=
  mid ∈ cs ∧ below mid cs < halfway ≤ upto mid cs.

End Router2Inv.

(** * Further vocabulary for the placer *)

Module PlacerCostSpec.
Import Placer PlacerCost.

(** The locations that the bounding box of a net is taken over: the one
    of the driver and those of the users that are placed, each at the bel it
    has been moved to if it has been moved. *)
Definition net_locs (ctx : Context) (p : Placer) (net : NetInfo) (d : PortRef)
    (movedCells : gmap Z BelId) : list Loc :=
  getBelLocation ctx (cell_bel p (pr_cell d) movedCells)
  :: ((λ u, getBelLocation ctx (cell_bel p (pr_cell u) movedCells))
      <$> filter (λ u, cell_bel_of p (pr_cell u) ≠ BelId_null) (net_users net)).

(** The box holds the locations [ls], and each of its four edges goes
    through one of them. *)
Definition bounding_box_of (ls : list Loc) (b : BoundingBox) : Prop :=
  (∀ l, l ∈ ls → is_inside_inc b (loc_x l) (loc_y l) = true)
  ∧ (∃ l, l ∈ ls ∧ loc_x l = x0 b) ∧ (∃ l, l ∈ ls ∧ loc_x l = x1 b)
  ∧ (∃ l, l ∈ ls ∧ loc_y l = y0 b) ∧ (∃ l, l ∈ ls ∧ loc_y l = y1 b).

(** The flags of a move agree with its lists: a net is flagged exactly
    when it is in [bounds_changed_nets], an arc exactly when it is in
    [changed_arcs], and neither list has an entry twice. *)
Definition flags_ok (mc : MoveChangeData) : Prop :=
  NoDup (bounds_changed_nets mc)
  ∧ (∀ n, n ∈ bounds_changed_nets mc
          ↔ 0 ≤ n ∧ already_bounds_changed mc !! Z.to_nat n = Some true)
  ∧ NoDup (changed_arcs mc)
  ∧ (∀ n i, (n, i) ∈ changed_arcs mc
            ↔ 0 ≤ n ∧ ∃ row, already_changed_arcs mc !! Z.to_nat n = Some row
                             ∧ row !! i = Some true).

(** No net is flagged, and no arc. *)
Definition bounds_flags_clear (mc : MoveChangeData) : Prop :=
  ∀ k, already_bounds_changed mc !! k ≠ Some true.
Definition arc_flags_clear (mc : MoveChangeData) : Prop :=
  ∀ k row i, already_changed_arcs mc !! k = Some row → row !! i ≠ Some true.

(** The vectors of flags have the sizes they had. *)
Definition same_shape (mc mc' : MoveChangeData) : Prop :=
  length (already_bounds_changed mc') = length (already_bounds_changed mc)
  ∧ length <$> already_changed_arcs mc' = length <$> already_changed_arcs mc.

(** From [mc] to [mc'] nets and arcs were marked and nothing else was
    done: the lists have grown at the end, the results of the evaluation are
    untouched. *)
Definition marks_only (mc mc' : MoveChangeData) : Prop :=
  (∃ l, bounds_changed_nets mc' = bounds_changed_nets mc ++ l)
  ∧ (∃ l, changed_arcs mc' = changed_arcs mc ++ l)
  ∧ new_net_bounds mc' = new_net_bounds mc
  ∧ new_arc_costs mc' = new_arc_costs mc
  ∧ wirelen_delta mc' = wirelen_delta mc
  ∧ timing_delta mc' = timing_delta mc
  ∧ same_shape mc mc'.

(** The sum of the half perimeters of a vector of boxes. *)
Definition sum_hpwl (l : list BoundingBox) : Z :=
  foldr (λ b acc, hpwl b + acc) 0 l.

(** The change of the half perimeters when the boxes [nbs] replace those
    of their nets in [cur]. *)
Definition delta_of (cur : list BoundingBox) (nbs : list (Z * BoundingBox)) : Z :=
  foldr (λ nb acc,
           hpwl nb.2 - hpwl (default BoundingBox_default (cur !! Z.to_nat nb.1))
           + acc) 0 nbs.

End PlacerCostSpec.

(** * Auxiliary lemmas *)

Lemma bind_Ok {A B} (m : result A) (k : A → result B) b :
  (m ≫= k) = Ok b → ∃ a, m = Ok a ∧ k a = Ok b.
Proof. destruct m as [a|e]; simpl; [eauto | discriminate]. Qed.

Lemma map_at_Ok {A} (m : gmap Z A) k x : map_at m k = Ok x ↔ m !! k = Some x.
Proof. unfold map_at. destruct (m !! k); split; congruence. Qed.

Lemma vec_at_Ok {A} (v : list A) i x : vec_at v i = Ok x ↔ v !! i = Some x.
Proof. unfold vec_at. destruct (v !! i); split; congruence. Qed.

Lemma vec_at_int_Ok {A} (v : list A) i x :
  vec_at_int v i = Ok x ↔ 0 ≤ i ∧ v !! Z.to_nat i = Some x.
Proof.
  unfold vec_at_int. destruct (Z.ltb_spec i 0).
  - split; [discriminate | lia].
  - rewrite vec_at_Ok. intuition.
Qed.

Lemma foldM_inv {A S} (f : S → A → result S) (R : S → S → Prop) :
  (∀ s, R s s) → (∀ s1 s2 s3, R s1 s2 → R s2 s3 → R s1 s3) →
  (∀ s x s', f s x = Ok s' → R s s') →
  ∀ l s s', foldM f s l = Ok s' → R s s'.
Proof.
  intros Hrefl Htrans Hstep. induction l as [|x l IH]; intros s s' H; simpl in H.
  - injection H as <-. apply Hrefl.
  - apply bind_Ok in H as (s1 & H1 & H2). eauto.
Qed.

Lemma foldM_Err {A S} (f : S → A → result S) (P : error → Prop) :
  (∀ s x e, f s x = Err e → P e) →
  ∀ l s e, foldM f s l = Err e → P e.
Proof.
  intros Hstep. induction l as [|x l IH]; intros s e H; simpl in H; [done|].
  destruct (f s x) as [s1|e1] eqn:E; simpl in H.
  - eauto.
  - injection H as <-. eauto.
Qed.

Lemma bind_Err {A B} (m : result A) (k : A → result B) e :
  (m ≫= k) = Err e → m = Err e ∨ ∃ a, m = Ok a ∧ k a = Err e.
Proof. destruct m as [a|e']; simpl; [eauto | intros [= <-]; eauto]. Qed.

Lemma foldM_preserves {A S} (f : S → A → result S) (P : S → Prop) l :
  (∀ s x s', x ∈ l → P s → f s x = Ok s' → P s') →
  ∀ s s', P s → foldM f s l = Ok s' → P s'.
Proof.
  induction l as [|x l IH]; intros Hstep s s' HP H; simpl in H.
  - by injection H as <-.
  - apply bind_Ok in H as (s1 & H1 & H2).
    eapply (IH (λ s x s' Hx, Hstep s x s' (list_elem_of_further _ _ _ Hx)));
      [|exact H2].
    eapply Hstep; [apply list_elem_of_here | exact HP | exact H1].
Qed.

Lemma Qltb_lt x y : Qltb x y = true ↔ (x < y)%Q.
Proof.
  unfold Qltb. rewrite negb_true_iff. split.
  - intros H. apply Qnot_le_lt. intros Hle.
    apply Qle_bool_iff in Hle. congruence.
  - intros H. destruct (Qle_bool y x) eqn:E; [|done].
    apply Qle_bool_iff in E. exfalso. eapply Qlt_not_le; eauto.
Qed.

Lemma Qltb_ge x y : Qltb x y = false ↔ (y <= x)%Q.
Proof.
  unfold Qltb. rewrite negb_false_iff. apply Qle_bool_iff.
Qed.

(** * Properties of the router *)

Import Router2 Router2Spec.

(** ** Reference counts of the bound nets *)

Lemma arc_update_Ok r uid user f r' :
  arc_update r uid user f = Ok r' →
  ∃ nd ad, 0 ≤ uid ∧ nets r !! Z.to_nat uid = Some nd ∧ arcs nd !! user = Some ad
    ∧ r' = set_nets r (<[Z.to_nat uid := set_arcs nd (<[user := f ad]> (arcs nd))]>
                         (nets r)).
Proof.
  unfold arc_update. intros H.
  apply bind_Ok in H as (nd & Hnd & H). apply bind_Ok in H as (ad & Had & H).
  apply vec_at_int_Ok in Hnd as [? ?]. apply vec_at_Ok in Had.
  injection H as <-. eauto 10.
Qed.

Lemma arc_update_wires r uid user f r' :
  arc_update r uid user f = Ok r' → wires r' = wires r.
Proof. intros (? & ? & ? & ? & ? & ->)%arc_update_Ok. done. Qed.

Lemma arc_at_Ok r uid user ad :
  arc_at r uid user = Ok ad ↔
  ∃ nd, 0 ≤ uid ∧ nets r !! Z.to_nat uid = Some nd ∧ arcs nd !! user = Some ad.
Proof.
  unfold arc_at. split.
  - intros (nd & [? ?]%vec_at_int_Ok & ?%vec_at_Ok)%bind_Ok. eauto.
  - intros (nd & ? & Hnd & Had).
    rewrite (proj2 (vec_at_int_Ok _ _ _) (conj H Hnd)). simpl.
    by apply vec_at_Ok.
Qed.

Lemma arc_update_is_Ok r uid user f :
  is_Ok (arc_at r uid user) → is_Ok (arc_update r uid user f).
Proof.
  intros [ad (nd & ? & Hnd & Had)%arc_at_Ok]. unfold arc_update.
  rewrite (proj2 (vec_at_int_Ok _ _ _) (conj H Hnd)). simpl.
  rewrite (proj2 (vec_at_Ok _ _ _) Had). simpl. by eexists.
Qed.

(** An arc that was updated is still there. *)
Lemma arc_at_after_update r uid user f r' :
  arc_update r uid user f = Ok r' → is_Ok (arc_at r' uid user).
Proof.
  intros (nd & ad & Huid & Hnd & Had & ->)%arc_update_Ok.
  eexists. apply arc_at_Ok. eexists. split; [done|]. simpl. split.
  - apply list_lookup_insert_eq. by eapply lookup_lt_Some.
  - simpl. apply list_lookup_insert_eq. by eapply lookup_lt_Some.
Qed.

Lemma unbind_pip_internal_is_Ok r net user wire d :
  is_Some (wires r !! wire) → is_Ok (arc_at r (udata net) user) →
  is_Ok (unbind_pip_internal r net user wire d).
Proof.
  intros [wd Hwd] Harc. unfold unbind_pip_internal.
  rewrite (proj2 (map_at_Ok _ _ _) Hwd). simpl.
  destruct d; [by eexists|]. by apply arc_update_is_Ok.
Qed.

Lemma source_uses_entry wd uid :
  source_uses wd uid = (default (0, PipId_null) (bound_nets wd !! uid)).1.
Proof. unfold source_uses. by destruct (bound_nets wd !! uid). Qed.

(** What [bind_pip_internal] does to the wire. *)
Lemma bind_pip_internal_wire r net user wire pip r1 :
  bind_pip_internal r net user wire pip = Ok r1 →
  ∃ wd, wires r !! wire = Some wd
    ∧ (source_uses wd (udata net) = 0 ∨ (bound_entry wd (udata net)).2 = pip)
    ∧ wires r1 =
        <[wire := set_bound_nets wd
                    (<[udata net := (source_uses wd (udata net) + 1,
                                     if source_uses wd (udata net) =? 0 then pip
                                     else (bound_entry wd (udata net)).2)]>
                       (bound_nets wd))]> (wires r).
Proof.
  unfold bind_pip_internal. intros H.
  apply bind_Ok in H as (wd & Hwd%map_at_Ok & H).
  apply bind_Ok in H as (second & Hsec & H).
  apply arc_update_wires in H. simpl in H.
  exists wd. split; [done|]. rewrite source_uses_entry. unfold bound_entry in *.
  set (b := default (0, PipId_null) (bound_nets wd !! udata net)) in *.
  destruct (Z.eqb_spec (b.1 + 1) 1) as [E|E].
  - injection Hsec as <-. assert (b.1 = 0) as E0 by lia.
    rewrite E0. simpl. split; [by left|]. by rewrite H, E0.
  - case_bool_decide as Hp; [|discriminate]. injection Hsec as <-.
    split; [by right|]. rewrite H.
    destruct (Z.eqb_spec b.1 0); [lia|]. done.
Qed.

(** What [unbind_pip_internal] does to the wire. *)
Lemma unbind_pip_internal_wire r net user wire d r1 :
  unbind_pip_internal r net user wire d = Ok r1 →
  ∃ wd, wires r !! wire = Some wd
    ∧ wires r1 =
        <[wire := set_bound_nets wd
                    (if source_uses wd (udata net) - 1 =? 0
                     then delete (udata net) (bound_nets wd)
                     else <[udata net := (source_uses wd (udata net) - 1,
                                          (bound_entry wd (udata net)).2)]>
                            (bound_nets wd))]> (wires r).
Proof.
  unfold unbind_pip_internal. intros H.
  apply bind_Ok in H as (wd & Hwd%map_at_Ok & H).
  exists wd. split; [done|]. rewrite source_uses_entry. unfold bound_entry in *.
  set (b := default (0, PipId_null) (bound_nets wd !! udata net)) in *.
  assert (wires r1 = <[wire:=set_bound_nets wd
            (if b.1 - 1 =? 0
             then delete (udata net) (<[udata net:=(b.1 - 1, b.2)]> (bound_nets wd))
             else <[udata net:=(b.1 - 1, b.2)]> (bound_nets wd))]> (wires r)) as ->.
  { destruct d; [by injection H as <-|]. by apply arc_update_wires in H. }
  destruct (b.1 - 1 =? 0); [|done]. by rewrite delete_insert_eq.
Qed.

Lemma refcount_ok_insert wd uid c p :
  refcount_ok wd → 1 ≤ c →
  refcount_ok (set_bound_nets wd (<[uid := (c, p)]> (bound_nets wd))).
Proof.
  intros Hok Hc uid'. unfold source_uses. simpl.
  destruct (decide (uid = uid')) as [->|Hne].
  - rewrite lookup_insert_eq. simpl. split; [done | eauto].
  - rewrite lookup_insert_ne by done. apply Hok.
Qed.

Lemma refcount_ok_delete wd uid :
  refcount_ok wd →
  refcount_ok (set_bound_nets wd (delete uid (bound_nets wd))).
Proof.
  intros Hok uid'. unfold source_uses. simpl.
  destruct (decide (uid = uid')) as [->|Hne].
  - rewrite lookup_delete_eq. split; [by intros [? ?] | lia].
  - rewrite lookup_delete_ne by done. apply Hok.
Qed.

(** C10.  On a wire whose entries all count at least one arc, binding adds
    one to the net's count, records the pip with the first arc and keeps it
    with the later ones, which must come with the same pip (the assertion
    fails otherwise); unbinding takes one off the count and erases the entry
    exactly when the count reaches 0; both keep the entries at a count of at
    least 1, and unbinding right after binding gives the wires back as they
    were. *)
Theorem refcount_bind_unbind (r : Router) (net : NetInfo) (user : nat)
    (wire : WireId) (pip : PipId) (wd : PerWireData) :
  wires r !! wire = Some wd →
  refcount_ok wd →
  (∀ r1, bind_pip_internal r net user wire pip = Ok r1 →
     ∃ wd1, wires r1 !! wire = Some wd1
       ∧ refcount_ok wd1
       ∧ source_uses wd1 (udata net) = source_uses wd (udata net) + 1
       ∧ (bound_nets wd !! udata net = None →
          bound_nets wd1 !! udata net = Some (1, pip))
       ∧ (∀ c p, bound_nets wd !! udata net = Some (c, p) →
          p = pip ∧ bound_nets wd1 !! udata net = Some (c + 1, p))
       ∧ (∀ uid, uid ≠ udata net → bound_nets wd1 !! uid = bound_nets wd !! uid)
       ∧ (∀ d, ∃ r2, unbind_pip_internal r1 net user wire d = Ok r2
                     ∧ wires r2 = wires r))
  ∧ (∀ c p, bound_nets wd !! udata net = Some (c, p) → p ≠ pip →
       bind_pip_internal r net user wire pip = Err AssertionFailure)
  ∧ (∀ d r1, is_Some (bound_nets wd !! udata net) →
       unbind_pip_internal r net user wire d = Ok r1 →
       ∃ wd1, wires r1 !! wire = Some wd1
         ∧ refcount_ok wd1
         ∧ source_uses wd1 (udata net) = source_uses wd (udata net) - 1
         ∧ (bound_nets wd1 !! udata net = None ↔ source_uses wd (udata net) = 1)
         ∧ (∀ uid, uid ≠ udata net →
            bound_nets wd1 !! uid = bound_nets wd !! uid)).
Proof.
  intros Hwd Hok. set (uid := udata net).
  assert (∀ c p, bound_nets wd !! uid = Some (c, p) → 1 ≤ c) as Hge.
  { intros c p E. specialize (Hok uid). unfold source_uses in Hok.
    rewrite E in Hok. simpl in Hok. apply Hok. eauto. }
  split; [|split].
  - intros r1 Hb.
    pose proof Hb as (wd' & Hwd' & Hpip & Hw)%bind_pip_internal_wire.
    rewrite Hwd in Hwd'. injection Hwd' as <-. fold uid in Hpip, Hw.
    eexists. split; [by rewrite Hw, lookup_insert_eq|].
    assert (0 ≤ source_uses wd uid) as Hnn.
    { unfold source_uses. destruct (bound_nets wd !! uid) as [[c p]|];
        [specialize (Hge _ _ eq_refl); simpl; lia | lia]. }
    split; [apply refcount_ok_insert; [done | lia]|].
    split; [unfold source_uses at 1; simpl; by rewrite lookup_insert_eq|].
    split; [|split; [|split]].
    + intros E. simpl. rewrite lookup_insert_eq. unfold source_uses. by rewrite E.
    + intros c p E. simpl. rewrite lookup_insert_eq.
      pose proof (Hge _ _ E) as Hc1.
      unfold source_uses, bound_entry in *. rewrite E in *. simpl in *.
      destruct Hpip as [?|?]; [lia|].
      split; [done|]. destruct (Z.eqb_spec c 0); [lia | done].
    + intros uid' Hne. simpl. by rewrite lookup_insert_ne.
    + intros d.
      assert (is_Ok (unbind_pip_internal r1 net user wire d)) as [r2 Hu].
      { apply unbind_pip_internal_is_Ok; [rewrite Hw, lookup_insert_eq; eauto|].
        unfold bind_pip_internal in Hb.
        apply bind_Ok in Hb as (? & _ & Hb). apply bind_Ok in Hb as (? & _ & Hb).
        by apply arc_at_after_update in Hb. }
      exists r2. split; [done|].
      pose proof Hu as (wd1 & Hwd1 & Hw2)%unbind_pip_internal_wire.
      rewrite Hw, lookup_insert_eq in Hwd1. injection Hwd1 as <-.
      rewrite Hw2, Hw. rewrite insert_insert_eq. fold uid.
      unfold source_uses at 1 3. simpl. rewrite lookup_insert_eq. simpl.
      apply insert_id. rewrite Hwd. f_equal.
      destruct wd as [bn h u rn]. unfold set_bound_nets. simpl in *. f_equal.
      destruct (Z.eqb_spec (source_uses (mkPerWireData bn h u rn) uid + 1 - 1) 0)
        as [E0|E0].
      * rewrite delete_insert_eq. symmetry. apply delete_id.
        unfold source_uses in E0. simpl in E0.
        destruct (bn !! uid) as [[c p]|]; [|done].
        specialize (Hge _ _ eq_refl). simpl in E0. lia.
      * rewrite insert_insert_eq. symmetry. apply insert_id.
        unfold source_uses, bound_entry in *. simpl in *.
        destruct (bn !! uid) as [[c p]|]; simpl in *; [|lia].
        specialize (Hge _ _ eq_refl). destruct (Z.eqb_spec c 0); [lia|].
        rewrite lookup_insert_eq. simpl. f_equal. f_equal. lia.
  - intros c p E Hne. pose proof (Hge _ _ E).
    unfold bind_pip_internal. rewrite (proj2 (map_at_Ok _ _ _) Hwd). simpl.
    unfold bound_entry. fold uid. rewrite E. simpl.
    destruct (Z.eqb_spec (c + 1) 1); [lia|].
    case_bool_decide; [done|]. reflexivity.
  - intros d r1 [[c p] E] Hu. pose proof (Hge _ _ E).
    pose proof Hu as (wd' & Hwd' & Hw)%unbind_pip_internal_wire.
    rewrite Hwd in Hwd'. injection Hwd' as <-. fold uid in Hw.
    eexists. split; [by rewrite Hw, lookup_insert_eq|].
    assert (source_uses wd uid = c) as Hc by (unfold source_uses; by rewrite E).
    rewrite Hc. destruct (Z.eqb_spec (c - 1) 0) as [E0|E0].
    + split; [by apply refcount_ok_delete|].
      unfold source_uses at 1. simpl. rewrite lookup_delete_eq.
      split; [lia|]. split; [split; [lia | done]|].
      intros uid' Hne. by rewrite lookup_delete_ne.
    + split; [apply refcount_ok_insert; [done | lia]|].
      unfold source_uses at 1. simpl. rewrite lookup_insert_eq.
      split; [done|]. split; [split; [done | lia]|].
      intros uid' Hne. by rewrite lookup_insert_ne.
Qed.

Lemma refcount_ok_default : refcount_ok PerWireData_default.
Proof.
  intros uid. unfold source_uses. simpl. rewrite lookup_empty.
  split; [by intros [? ?] | lia].
Qed.

Lemma refcount_bind_unbind_witness :
  ∃ r1, bind_pip_internal Sample.router0 Sample.net0 0 5 7 = Ok r1
        ∧ ∃ r2, unbind_pip_internal r1 Sample.net0 0 5 false = Ok r2
                ∧ wires r2 = wires Sample.router0.
Proof.
  destruct (refcount_bind_unbind Sample.router0 Sample.net0 0 5 7
              PerWireData_default eq_refl refcount_ok_default) as [Hbind _].
  eexists. split; [reflexivity|].
  destruct (Hbind _ eq_refl) as (wd1 & _ & _ & _ & _ & _ & _ & Hround).
  exact (Hround false).
Defined.

(** ** Cost of a wire for an arc *)

Lemma other_sources_delete wd uid :
  other_sources_spec wd uid = Z.of_nat (size (delete uid (bound_nets wd))).
Proof.
  unfold other_sources_spec. rewrite map_size_delete.
  case_bool_decide as H.
  - destruct H as [b Hb]. rewrite Hb.
    assert (size (bound_nets wd) ≠ 0%nat).
    { apply map_size_non_empty_iff. intros E. by rewrite E in Hb. }
    lia.
  - destruct (bound_nets wd !! uid); [exfalso; eauto | simpl; lia].
Qed.

Lemma other_sources_zero wd uid :
  other_sources_spec wd uid = 0 ↔ no_other_net wd uid.
Proof.
  rewrite other_sources_delete. split.
  - intros H m [b Hb]. destruct (decide (m = uid)) as [|Hne]; [done|].
    assert (size (delete uid (bound_nets wd)) = 0%nat) as E%map_size_empty_iff
      by lia.
    assert (delete uid (bound_nets wd) !! m = Some b) as Hm
      by (by rewrite lookup_delete_ne).
    by rewrite E in Hm.
  - intros H. enough (delete uid (bound_nets wd) = ∅) as -> by done.
    apply map_empty. intros m. destruct (decide (m = uid)) as [->|Hne].
    + apply lookup_delete_eq.
    + rewrite lookup_delete_ne by done.
      destruct (bound_nets wd !! m) eqn:E; [|done].
      exfalso. apply Hne, H. eauto.
Qed.

Lemma present_wire_cost_spec r wd uid :
  present_wire_cost r wd uid =
    if other_sources_spec wd uid =? 0 then 1%Q
    else (1 + inject_Z (other_sources_spec wd uid) * curr_cong_weight r)%Q.
Proof.
  unfold present_wire_cost, other_sources_spec.
  case_bool_decide; by rewrite ?Z.sub_0_r.
Qed.

(** C2.  For a wire and a net the router knows, [score_wire_for_arc] returns
    [base_cost * hist_cong_cost * present_cost / (1 + su) + bias_cost], with
    [su] the count of the net's arcs on the wire (0 without entry) and
    [present_cost] the value of [present_wire_cost]: 1 when no other net is
    bound on the wire, else [1 + other_sources * curr_cong_weight], where
    [other_sources] is the size of [bound_nets] less 1 if the net itself is
    present.  (Real-number reading of the floating-point arithmetic.) *)
Theorem score_wire_for_arc_formula (ctx : Context) (r : Router) (net : NetInfo)
    (user : nat) (wire : WireId) (pip : PipId) (wd : PerWireData)
    (nd : PerNetData) :
  wires r !! wire = Some wd →
  0 ≤ udata net →
  nets r !! Z.to_nat (udata net) = Some nd →
  let su := default 0 (fst <$> bound_nets wd !! udata net) in
  let other_sources :=
    Z.of_nat (size (bound_nets wd))
    - (if bool_decide (is_Some (bound_nets wd !! udata net)) then 1 else 0) in
  let present_cost := present_wire_cost r wd (udata net) in
  score_wire_for_arc ctx r net user wire pip
  = Ok (base_cost ctx wire pip * hist_cong_cost wd * present_cost
          / inject_Z (1 + su)
        + bias_cost ctx net nd wire pip)%Q
  ∧ (no_other_net wd (udata net) → present_cost = 1%Q)
  ∧ (¬ no_other_net wd (udata net) →
     present_cost = (1 + inject_Z other_sources * curr_cong_weight r)%Q).
Proof.
  intros Hwd Huid Hnd su other_sources present_cost. split; [|split].
  - unfold score_wire_for_arc.
    rewrite (proj2 (map_at_Ok _ _ _) Hwd). simpl.
    rewrite (proj2 (vec_at_int_Ok _ _ _) (conj Huid Hnd)). simpl.
    do 4 f_equal. unfold source_uses, su.
    by destruct (bound_nets wd !! udata net).
  - intros H%other_sources_zero. unfold present_cost.
    rewrite present_wire_cost_spec, H. done.
  - intros H. unfold present_cost. rewrite present_wire_cost_spec.
    destruct (Z.eqb_spec (other_sources_spec wd (udata net)) 0) as [E|E]; [|done].
    by apply other_sources_zero in E.
Qed.

Lemma score_wire_for_arc_formula_witness :
  score_wire_for_arc Sample.ctx0 Sample.router0 Sample.net0 0 5 4
  = Ok ((201 # 1000) * 1 * 1 / 1 + (1 # 2) * ((201 # 1000) / 1) * (4 / 6))%Q.
Proof.
  destruct (score_wire_for_arc_formula Sample.ctx0 Sample.router0 Sample.net0
              0 5 4 PerWireData_default
              (mkPerNetData [PerArcData_default] (mkArcBounds 0 0 3 3) 1 1 6)
              eq_refl ltac:(simpl; lia) eq_refl) as [H _].
  rewrite H. vm_compute. reflexivity.
Defined.

(** ** History of the congestion *)

Lemma update_congestion_spec (r : Router) :
  let r' := update_congestion r in
  hist_cong_weight r' = hist_cong_weight r
  ∧ (∀ w, wires r' !! w = congest (hist_cong_weight r) <$> wires r !! w)
  ∧ (∀ n, n ∈ failed_nets r' ↔
          ∃ w wd, wires r !! w = Some wd ∧ (1 < size (bound_nets wd))%nat
                  ∧ is_Some (bound_nets wd !! n)).
Proof.
  unfold update_congestion.
  set (r0 := mkRouter _ _ _ _ _ _ _ _ _ _ _).
  set (P := λ (acc : Router) (m : gmap Z PerWireData),
    m ⊆ wires r →
    hist_cong_weight acc = hist_cong_weight r
    ∧ (∀ w, wires acc !! w =
            match m !! w with
            | Some wd => Some (congest (hist_cong_weight r) wd)
            | None => wires r !! w
            end)
    ∧ (∀ n, n ∈ failed_nets acc ↔
            ∃ w wd, m !! w = Some wd ∧ (1 < size (bound_nets wd))%nat
                    ∧ is_Some (bound_nets wd !! n))).
  assert (P (map_fold update_congestion_wire r0 (wires r)) (wires r)) as H.
  { apply (map_fold_weak_ind P); unfold P; clear P.
    - intros _. split; [done|]. split.
      + intros w. by rewrite lookup_empty.
      + intros n. simpl. split; [set_solver|].
        intros (w & wd & Hw & _). by rewrite lookup_empty in Hw.
    - intros i x m acc Hi IH Hsub.
      assert (m ⊆ wires r) as Hm.
      { etrans; [|exact Hsub]. by apply insert_subseteq. }
      assert (wires r !! i = Some x) as Hx.
      { eapply lookup_weaken; [|exact Hsub]. apply lookup_insert_eq. }
      destruct (IH Hm) as (Hw & Hws & Hf).
      unfold update_congestion_wire, congest.
      destruct (Z.ltb_spec 0 (Z.of_nat (size (bound_nets x)) - 1)) as [Ho|Ho].
      + replace (1 <? Z.of_nat (size (bound_nets x))) with true
          by (symmetry; apply Z.ltb_lt; lia).
        simpl. split; [done|]. split.
        * intros w. destruct (decide (i = w)) as [->|Hne].
          -- rewrite !lookup_insert_eq, Hw.
             destruct (Z.ltb_spec 1 (Z.of_nat (size (bound_nets x)))); [done|lia].
          -- rewrite !lookup_insert_ne by done. apply Hws.
        * intros n. rewrite elem_of_union, elem_of_dom, Hf. split.
          -- intros [Hn|(w & wd & Hwm & Hk & Hn)].
             ++ exists i, x. rewrite lookup_insert_eq.
                split; [done|]. split; [lia | done].
             ++ exists w, wd. rewrite lookup_insert_ne; [done|].
                intros ->. by rewrite Hi in Hwm.
          -- intros (w & wd & Hwm & Hk & Hn).
             destruct (decide (i = w)) as [->|Hne].
             ++ rewrite lookup_insert_eq in Hwm. injection Hwm as <-. by left.
             ++ rewrite lookup_insert_ne in Hwm by done. right. eauto.
      + replace (1 <? Z.of_nat (size (bound_nets x))) with false
          by (symmetry; apply Z.ltb_ge; lia).
        simpl. split; [done|]. split.
        * intros w. destruct (decide (i = w)) as [->|Hne].
          -- rewrite lookup_insert_eq, Hws, Hi, Hx.
             destruct (Z.ltb_spec 1 (Z.of_nat (size (bound_nets x)))); [lia|done].
          -- rewrite lookup_insert_ne by done. apply Hws.
        * intros n. rewrite Hf. split.
          -- intros (w & wd & Hwm & Hk & Hn). exists w, wd.
             rewrite lookup_insert_ne; [done|]. intros ->. by rewrite Hi in Hwm.
          -- intros (w & wd & Hwm & Hk & Hn).
             destruct (decide (i = w)) as [->|Hne].
             ++ rewrite lookup_insert_eq in Hwm. injection Hwm as <-. lia.
             ++ rewrite lookup_insert_ne in Hwm by done. eauto. }
  destruct (H (reflexivity _)) as (Hw & Hws & Hf).
  split; [done|]. split; [|done].
  intros w. rewrite Hws. by destruct (wires r !! w).
Qed.

(** *** What else a pass does to the history *)

Lemma same_hist_refl r : same_hist r r.
Proof. by split. Qed.

Lemma same_hist_trans r1 r2 r3 :
  same_hist r1 r2 → same_hist r2 r3 → same_hist r1 r3.
Proof.
  intros [H1 H2] [H3 H4]. split; [congruence|].
  intros w. by rewrite H4, H2.
Qed.

Lemma same_hist_le r r' : same_hist r r' → hist_le r r'.
Proof.
  intros [_ H] w wd Hw. specialize (H w). rewrite Hw in H.
  destruct (wires r' !! w) as [wd'|]; [|done]. injection H as H.
  exists wd'. split; [done|]. rewrite H. apply Qle_refl.
Qed.

Lemma hist_le_trans r1 r2 r3 : hist_le r1 r2 → hist_le r2 r3 → hist_le r1 r3.
Proof.
  intros H1 H2 w wd Hw. destruct (H1 w wd Hw) as (wd2 & Hw2 & Hle2).
  destruct (H2 w wd2 Hw2) as (wd3 & Hw3 & Hle3).
  exists wd3. split; [done|]. by eapply Qle_trans.
Qed.

Lemma same_hist_insert r r' w wd bn :
  wires r !! w = Some wd →
  hist_cong_weight r' = hist_cong_weight r →
  wires r' = <[w := set_bound_nets wd bn]> (wires r) →
  same_hist r r'.
Proof.
  intros Hw Hhw Hws. split; [done|]. intros w'. rewrite Hws.
  destruct (decide (w = w')) as [<-|Hne].
  - by rewrite lookup_insert_eq, Hw.
  - by rewrite lookup_insert_ne.
Qed.

Lemma arc_update_weight r uid user f r' :
  arc_update r uid user f = Ok r' → hist_cong_weight r' = hist_cong_weight r.
Proof. intros (? & ? & ? & ? & ? & ->)%arc_update_Ok. done. Qed.

Lemma arc_update_hist r uid user f r' :
  arc_update r uid user f = Ok r' → same_hist r r'.
Proof.
  intros H. split; [by eapply arc_update_weight|].
  intros w. by rewrite (arc_update_wires _ _ _ _ _ H).
Qed.

Lemma bind_pip_internal_hist r net user wire pip r' :
  bind_pip_internal r net user wire pip = Ok r' → same_hist r r'.
Proof.
  intros H. pose proof H as (wd & Hwd & _ & Hws)%bind_pip_internal_wire.
  eapply same_hist_insert; [exact Hwd| |exact Hws].
  unfold bind_pip_internal in H.
  apply bind_Ok in H as (? & _ & H). apply bind_Ok in H as (? & _ & H).
  by apply arc_update_weight in H.
Qed.

Lemma unbind_pip_internal_hist r net user wire d r' :
  unbind_pip_internal r net user wire d = Ok r' → same_hist r r'.
Proof.
  intros H. pose proof H as (wd & Hwd & Hws)%unbind_pip_internal_wire.
  eapply same_hist_insert; [exact Hwd| |exact Hws].
  unfold unbind_pip_internal in H.
  apply bind_Ok in H as (? & _ & H).
  destruct d; [by injection H as <-|]. by apply arc_update_weight in H.
Qed.

Lemma ripup_arc_hist r net user r' :
  ripup_arc r net user = Ok r' → same_hist r r'.
Proof.
  unfold ripup_arc. intros (ad & _ & H)%bind_Ok.
  apply bind_Ok in H as (r1 & Hf & H).
  eapply same_hist_trans; [|by eapply arc_update_hist].
  eapply (foldM_inv _ same_hist); [apply same_hist_refl | apply same_hist_trans
                                   | | exact Hf].
  intros r0 wp r2 H0. simpl in H0. by eapply unbind_pip_internal_hist.
Qed.

Lemma bwd_bind_hist ctx net i bp : ∀ fuel r cursor r' c',
  bwd_bind fuel ctx r net i bp cursor = Ok (r', c') → same_hist r r'.
Proof.
  induction fuel as [|fuel IH]; intros r cursor r' c' H; simpl in H.
  - destruct (bp !! cursor); [done|]. injection H as <- <-. apply same_hist_refl.
  - destruct (bp !! cursor); [|injection H as <- <-; apply same_hist_refl].
    apply bind_Ok in H as (r1 & Hb & H).
    eapply same_hist_trans; [by eapply bind_pip_internal_hist | by eapply IH].
Qed.

Lemma fwd_bind_hist ctx net i vis src_wire : ∀ fuel r cursor r',
  fwd_bind fuel ctx r net i vis src_wire cursor = Ok r' → same_hist r r'.
Proof.
  induction fuel as [|fuel IH]; intros r cursor r' H; simpl in H.
  - destruct (vis !! cursor); [done|]. injection H as <-. apply same_hist_refl.
  - destruct (vis !! cursor); [|injection H as <-; apply same_hist_refl].
    apply bind_Ok in H as (r1 & Hb%bind_pip_internal_hist & H).
    case_bool_decide.
    + case_bool_decide; [|done]. by injection H as <-.
    + eapply same_hist_trans; [done | by eapply IH].
Qed.

Lemma route_arc_hist fuel ctx a r t net i is_mt is_bb res a' r' t' :
  route_arc fuel ctx a r t net i is_mt is_bb = Ok (res, a', r', t') →
  same_hist r r'.
Proof.
  unfold route_arc. intros (ad & _ & H)%bind_Ok.
  apply bind_Ok in H as (usr & _ & H).
  case_bool_decide.
  { unfold ARC_LOG_ERR in H. destruct is_mt; [|done].
    injection H as <- <- <- <-. apply same_hist_refl. }
  case_bool_decide.
  { unfold ARC_LOG_ERR in H. destruct is_mt; [|done].
    injection H as <- <- <- <-. apply same_hist_refl. }
  case_bool_decide; [injection H as <- <- <- <-; apply same_hist_refl|].
  apply bind_Ok in H as (b & _ & H). case_bool_decide.
  - apply bind_Ok in H as (r1 & Hb1%bind_pip_internal_hist & H).
    apply bind_Ok in H as ([r2 c] & Hb2%bwd_bind_hist & H).
    case_bool_decide; [|done]. injection H as <- <- <- <-.
    by eapply same_hist_trans.
  - unfold route_arc_forward in H.
    apply bind_Ok in H as (s0 & _ & H). apply bind_Ok in H as (s & _ & H).
    case_bool_decide.
    + apply bind_Ok in H as (r1 & Hb%fwd_bind_hist & H).
      by injection H as <- <- <- <-.
    + injection H as <- <- <- <-. apply same_hist_refl.
Qed.

Lemma route_net_ripup_hist fuel ctx a net : ∀ idx r t ret r' t',
  route_net_ripup fuel ctx a r t net idx = Ok (ret, r', t') → same_hist r r'.
Proof.
  induction idx as [|i idx IH]; intros r t ret r' t' H; simpl in H.
  - injection H as <- <- <-. apply same_hist_refl.
  - apply bind_Ok in H as (ok & _ & H). destruct ok; [by eapply IH|].
    apply bind_Ok in H as (usr & _ & H).
    destruct (match net_wires a net !! _ with Some _ => _ | None => _ end).
    + injection H as <- <- <-. apply same_hist_refl.
    + apply bind_Ok in H as (r1 & Hr%ripup_arc_hist & H).
      eapply same_hist_trans; [done | by eapply IH].
Qed.

Lemma route_net_arcs_hist fuel ctx net is_mt : ∀ todo a r t hf b a' r' t',
  route_net_arcs fuel ctx a r t net is_mt hf todo = Ok (b, a', r', t') →
  same_hist r r'.
Proof.
  induction todo as [|i todo IH]; intros a r t hf b a' r' t' H; simpl in H.
  - injection H as <- <- <- <-. apply same_hist_refl.
  - apply bind_Ok in H as ([[[res1 a1] r1] t1] & H1%route_arc_hist & H).
    destruct res1.
    + eapply same_hist_trans; [done | by eapply IH].
    + destruct is_mt.
      * eapply same_hist_trans; [done | by eapply IH].
      * apply bind_Ok in H as ([[[res2 a2] r2] t2] & H2%route_arc_hist & H).
        destruct res2; try done.
        eapply same_hist_trans; [done|].
        eapply same_hist_trans; [done | by eapply IH].
    + by injection H as <- <- <- <-.
Qed.

Lemma route_net_hist fuel ctx a r t net is_mt b a' r' t' :
  route_net fuel ctx a r t net is_mt = Ok (b, a', r', t') → same_hist r r'.
Proof.
  unfold route_net. intros H.
  destruct (ARCH_ECP5 ctx && is_global net);
    [injection H as <- <- <- <-; apply same_hist_refl|].
  destruct (driver_cell net);
    [|injection H as <- <- <- <-; apply same_hist_refl].
  apply bind_Ok in H as ([[ret r1] t1] & H1%route_net_ripup_hist & H).
  destruct ret as [b0|].
  - by injection H as <- <- <- <-.
  - eapply same_hist_trans; [done | by eapply route_net_arcs_hist].
Qed.

Lemma do_route_hist fuel ctx a r a' r' :
  do_route fuel ctx a r = Ok (a', r') → same_hist r r'.
Proof.
  unfold do_route. destruct (_ <? _)%nat; [|done].
  intros ([[a1 r1] st] & Hf & H)%bind_Ok. injection H as <- <-.
  apply (foldM_inv _ (λ s s' : ArchState * Router * ThreadContext,
                        same_hist s.1.2 s'.1.2)) in Hf; [done | | |].
  - intros ?. apply same_hist_refl.
  - intros ? ? ? ? ?. by eapply same_hist_trans.
  - intros [[a0 r0] st0] uid [[a2 r2] st2] H. simpl.
    apply bind_Ok in H as (net & _ & H).
    apply bind_Ok in H as ([[[b a3] r3] st3] & Hr%route_net_hist & H).
    by injection H as <- <- <-.
Qed.

Lemma bind_and_check_hist fuel ctx a r net i b a' r' :
  bind_and_check fuel ctx a r net i = Ok (b, a', r') → same_hist r r'.
Proof.
  unfold bind_and_check. intros H.
  destruct (ARCH_ECP5 ctx && is_global net);
    [injection H as <- <- <-; apply same_hist_refl|].
  apply bind_Ok in H as (ad & _ & H). apply bind_Ok in H as (usr & _ & H).
  case_bool_decide; [injection H as <- <- <-; apply same_hist_refl|].
  destruct (_ || _); [injection H as <- <- <-; apply same_hist_refl|].
  case_bool_decide; [injection H as <- <- <-; apply same_hist_refl|].
  apply bind_Ok in H as ([to_bind success] & _ & H). destruct success.
  - injection H as <- <- <-. apply same_hist_refl.
  - apply bind_Ok in H as (r1 & Hr%ripup_arc_hist & H).
    injection H as <- <- <-. destruct Hr as [Hr1 Hr2]. by split.
Qed.

Lemma bind_and_check_all_hist fuel ctx a r b a' r' :
  bind_and_check_all fuel ctx a r = Ok (b, a', r') → same_hist r r'.
Proof.
  unfold bind_and_check_all. intros Hf.
  apply (foldM_inv _ (λ s s' : bool * ArchState * Router,
                        same_hist s.2 s'.2)) in Hf; [done | | |].
  - intros ?. apply same_hist_refl.
  - intros ? ? ? ? ?. by eapply same_hist_trans.
  - intros [[b0 a0] r0] net [[b1 a1] r1] H. simpl.
    unfold bind_and_check_net in H.
    destruct (ARCH_ECP5 ctx && is_global net);
      [injection H as <- <- <-; apply same_hist_refl|].
    apply (foldM_inv _ (λ s s' : bool * ArchState * Router,
                          same_hist s.2 s'.2)) in H; [done | | |].
    + intros ?. apply same_hist_refl.
    + intros ? ? ? ? ?. by eapply same_hist_trans.
    + intros [[b2 a2] r2] i [[b3 a3] r3] Hi. simpl.
      apply bind_Ok in Hi as ([[ok a4] r4] & Hc%bind_and_check_hist & Hi).
      destruct ok; injection Hi as <- <- <-; [done|].
      destruct Hc as [Hc1 Hc2]. by split.
Qed.

Lemma update_congestion_hist_le r :
  (0 <= hist_cong_weight r)%Q →
  hist_le r (update_congestion r)
  ∧ hist_cong_weight (update_congestion r) = hist_cong_weight r.
Proof.
  intros Hhw. destruct (update_congestion_spec r) as (Hw & Hws & _).
  split; [|done]. intros w wd Hwd. rewrite Hws, Hwd. simpl.
  eexists. split; [done|]. unfold congest.
  destruct (Z.ltb_spec 1 (Z.of_nat (size (bound_nets wd)))); simpl; [|lra].
  assert (0 <= inject_Z (Z.of_nat (size (bound_nets wd)) - 1)
               * hist_cong_weight r)%Q.
  { apply Qmult_le_0_compat; [|done].
    change 0%Q with (inject_Z 0). rewrite <- Zle_Qle. lia. }
  lra.
Qed.

(** Over one pass of the router no history goes down, and the weight of the
    history is kept. *)
Lemma router_iteration_hist fuel ctx a r a' r' :
  (0 <= hist_cong_weight r)%Q →
  router_iteration fuel ctx a r = Ok (a', r') →
  hist_le r r' ∧ hist_cong_weight r' = hist_cong_weight r.
Proof.
  intros Hhw. unfold router_iteration.
  destruct (sorted_shuffle ctx (rngstate a) (route_queue r)) as [q rs].
  intros ([a1 r1] & [Hw1 Hh1]%do_route_hist & H)%bind_Ok.
  simpl in Hw1, Hh1.
  set (r2 := update_congestion (set_route_queue r1 [])) in *.
  destruct (update_congestion_hist_le (set_route_queue r1 []))
    as [Hle2 Hw2]; [simpl; by rewrite Hw1|]. fold r2 in Hle2, Hw2.
  simpl in Hw2.
  assert (hist_le r r2) as Hle.
  { eapply hist_le_trans; [|exact Hle2]. apply same_hist_le. by split. }
  apply bind_Ok in H as ([a3 r3] & H3 & H). injection H as <- <-. simpl.
  destruct (overused_wires r2 =? 0).
  - apply bind_Ok in H3 as ([[b a4] r4] & [Hw4 Hh4]%bind_and_check_all_hist & H3).
    injection H3 as <- <-. split; [|congruence].
    eapply hist_le_trans; [exact Hle|]. apply same_hist_le. by split.
  - injection H3 as <- <-. split; [done | congruence].
Qed.

Lemma router_test_weights_hist r :
  hist_cong_weight (router_test_weights r) = 1%Q
  ∧ (0 <= hist_cong_weight (router_test_weights r))%Q.
Proof. split; [done|]. simpl. lra. Qed.

(** C1.  After [update_congestion], a wire with [k > 1] bound nets has its
    [hist_cong_cost] raised by exactly [(k - 1) * hist_cong_weight] and every
    net bound on it is in the set of failed nets; a wire with [k <= 1] keeps
    its [hist_cong_cost]; nothing else of the wire changes.  With a weight
    that is not negative (the router sets it to 1 and never changes it) the
    cost of no wire goes down, in [update_congestion] and over a whole pass
    of the router (shuffle, routing of the queue in one thread, update of the
    congestion, commit, refill of the queue), which keeps the weight.
    (Real-number reading of the floating-point sum.) *)
Theorem update_congestion_history (r : Router) (w : WireId) (wd : PerWireData) :
  wires r !! w = Some wd →
  let k := Z.of_nat (size (bound_nets wd)) in
  (∃ wd', wires (update_congestion r) !! w = Some wd'
     ∧ bound_nets wd' = bound_nets wd
     ∧ unavailable wd' = unavailable wd
     ∧ reserved_net wd' = reserved_net wd
     ∧ (1 < k →
        hist_cong_cost wd'
        = (hist_cong_cost wd + inject_Z (k - 1) * hist_cong_weight r)%Q
        ∧ ∀ n, is_Some (bound_nets wd !! n) →
               n ∈ failed_nets (update_congestion r))
     ∧ (k ≤ 1 → hist_cong_cost wd' = hist_cong_cost wd)
     ∧ ((0 <= hist_cong_weight r)%Q →
        (hist_cong_cost wd <= hist_cong_cost wd')%Q))
  ∧ ((0 <= hist_cong_weight r)%Q →
     ∀ fuel ctx a a' r',
       router_iteration fuel ctx a r = Ok (a', r') →
       hist_cong_weight r' = hist_cong_weight r
       ∧ ∃ wd', wires r' !! w = Some wd'
                ∧ (hist_cong_cost wd <= hist_cong_cost wd')%Q).
Proof.
  intros Hwd k. split.
  - destruct (update_congestion_spec r) as (_ & Hws & Hf).
    exists (congest (hist_cong_weight r) wd).
    split; [by rewrite Hws, Hwd|].
    unfold congest. fold k. destruct (Z.ltb_spec 1 k) as [Hk|Hk]; simpl.
    + do 3 (split; [done|]). split; [|split; [lia|]].
      * intros _. split; [done|]. intros n Hn. apply Hf.
        exists w, wd. split; [done|]. split; [lia | done].
      * intros Hhw.
        assert (0 <= inject_Z (k - 1) * hist_cong_weight r)%Q.
        { apply Qmult_le_0_compat; [|done].
          change 0%Q with (inject_Z 0). rewrite <- Zle_Qle. lia. }
        lra.
    + do 3 (split; [done|]). split; [lia|]. split; [done|]. intros _. lra.
  - intros Hhw fuel ctx a a' r' Hit.
    destruct (router_iteration_hist _ _ _ _ _ _ Hhw Hit) as [Hle Hw].
    split; [done|]. by apply Hle.
Qed.

Lemma update_congestion_history_witness :
  ∃ wd', wires (update_congestion Sample.router0) !! 5 = Some wd'
         ∧ hist_cong_cost wd' = 1%Q.
Proof.
  destruct (update_congestion_history Sample.router0 5 PerWireData_default
              eq_refl) as [(wd' & Hw & _ & _ & _ & _ & Hkeep & _) _].
  exists wd'. split; [exact Hw|]. apply Hkeep. vm_compute. discriminate.
Defined.

(** Two nets on one wire: the history of the wire goes from 1 to 2 and both
    nets have failed. *)
Example update_congestion_contended :
  hist_cong_cost <$> wires (update_congestion Sample.router_contended) !! 3
  = Some (1 + inject_Z 1 * 1)%Q
  ∧ failed_nets (update_congestion Sample.router_contended) = {[0; 1]}
  ∧ overused_wires (update_congestion Sample.router_contended) = 1
  ∧ total_overuse (update_congestion Sample.router_contended) = 1.
Proof.
  split; [vm_compute; reflexivity|]. split; [vm_compute; reflexivity|].
  split; vm_compute; reflexivity.
Qed.

(** One pass over the sample design routes its net along the five wires
    from the source to the sink and commits the route to the device. *)
Example router_iteration_sample :
  ∃ a' r', router_iteration 20 Sample.ctx0 Sample.arch0 Sample.router_queued
           = Ok (a', r')
           ∧ overused_wires r' = 0 ∧ total_wire_use r' = 5
           ∧ route_queue r' = []
           ∧ pm_net <$> wire_bind a' !! 5 = Some 0.
Proof.
  eexists _, _. split; [vm_compute; reflexivity|].
  split; [vm_compute; reflexivity|]. split; [vm_compute; reflexivity|].
  split; vm_compute; reflexivity.
Qed.

(** ** Set-up of the nets *)

Lemma classic_arc_no_wire ctx ni usr :
  arc_no_wire ctx ni usr ∨ ¬ arc_no_wire ctx ni usr.
Proof. destruct (decide (arc_no_wire ctx ni usr)); auto. Qed.

Lemma length_resize {A} (v : list A) n d : length (resize v n d) = n.
Proof. unfold resize. rewrite length_app, length_take, length_replicate. lia. Qed.

Lemma int_wrap_range z : INT_MIN ≤ int_wrap z ≤ INT_MAX.
Proof.
  unfold int_wrap, INT_MIN, INT_MAX.
  pose proof (Z.mod_pos_bound (z + 2147483648) 4294967296). lia.
Qed.

Lemma int_wrap_small z : in_int z → int_wrap z = z.
Proof.
  unfold in_int, int_wrap, INT_MIN, INT_MAX. intros H.
  rewrite Z.mod_small by lia. lia.
Qed.

Lemma int_wrap_idem z : int_wrap (int_wrap z) = int_wrap z.
Proof. apply int_wrap_small, int_wrap_range. Qed.

Lemma int_wrap_add_l a b : int_wrap (int_wrap a + b) = int_wrap (a + b).
Proof.
  unfold int_wrap. f_equal.
  replace ((a + 2147483648) mod 4294967296 - 2147483648 + b + 2147483648)
    with ((a + 2147483648) mod 4294967296 + b) by lia.
  rewrite Zplus_mod_idemp_l. f_equal. lia.
Qed.

Lemma setup_nets_user_Err ctx ni nd j usr :
  users ni !! j = Some usr → arc_no_wire ctx ni usr →
  setup_nets_user ctx ni nd j = Err LogError.
Proof.
  intros Hu Hno. unfold setup_nets_user.
  rewrite (proj2 (vec_at_Ok _ _ _) Hu). simpl.
  unfold arc_no_wire, arc_src_wire, arc_dst_wire in Hno.
  case_bool_decide as Hs; [done|]. case_bool_decide as Hd; [done|].
  destruct Hno; contradiction.
Qed.

Lemma setup_nets_user_Ok ctx ni nd j usr ad :
  users ni !! j = Some usr → arcs nd !! j = Some ad →
  ¬ arc_no_wire ctx ni usr →
  let abb := getRouteBoundingBox ctx (arc_src_wire ctx ni usr)
               (arc_dst_wire ctx ni usr) in
  let usr_loc := getBelLocation ctx (cell_bel (port_cell usr)) in
  setup_nets_user ctx ni nd j =
    Ok (mkPerNetData (<[j := mkPerArcData (ad_wires ad) abb]> (arcs nd))
          (mkArcBounds (Z.min (x0 (bb nd)) (x0 abb)) (Z.min (y0 (bb nd)) (y0 abb))
                       (Z.max (x1 (bb nd)) (x1 abb)) (Z.max (y1 (bb nd)) (y1 abb)))
          (int_wrap (cx nd + loc_x usr_loc)) (int_wrap (cy nd + loc_y usr_loc))
          (hpwl nd)).
Proof.
  intros Hu Had Hno. unfold setup_nets_user.
  rewrite (proj2 (vec_at_Ok _ _ _) Hu). simpl.
  unfold arc_no_wire, arc_src_wire, arc_dst_wire in *.
  case_bool_decide as Hs; [tauto|]. case_bool_decide as Hd; [tauto|].
  rewrite (proj2 (vec_at_Ok _ _ _) Had). reflexivity.
Qed.

(** The loop over the users, from index [k] on. *)
Lemma setup_nets_users_Ok ctx ni : ∀ m k nd,
  (k + m = length (users ni))%nat →
  length (arcs nd) = length (users ni) →
  int_wrap (cx nd) = cx nd → int_wrap (cy nd) = cy nd →
  (∀ j usr, users ni !! j = Some usr → ¬ arc_no_wire ctx ni usr) →
  ∃ nd', foldM (setup_nets_user ctx ni) nd (seq k m) = Ok nd'
    ∧ length (arcs nd') = length (users ni)
    ∧ hpwl nd' = hpwl nd
    ∧ cx nd' = int_wrap (cx nd + users_sum ctx loc_x (drop k (users ni)))
    ∧ cy nd' = int_wrap (cy nd + users_sum ctx loc_y (drop k (users ni)))
    ∧ (m = 0%nat → bb nd' = bb nd)
    ∧ box_within (bb nd) (bb nd')
    ∧ (∀ j, (j < k)%nat → arcs nd' !! j = arcs nd !! j)
    ∧ (∀ j usr, (k ≤ j)%nat → users ni !! j = Some usr →
         ∃ ad, arcs nd' !! j = Some ad
           ∧ ad_bb ad = getRouteBoundingBox ctx (arc_src_wire ctx ni usr)
                          (arc_dst_wire ctx ni usr)
           ∧ box_within (ad_bb ad) (bb nd')).
Proof.
  induction m as [|m IH]; intros k nd Hk Hlen Hwx Hwy Hall.
  - exists nd. simpl. rewrite drop_ge by lia. simpl.
    rewrite !Z.add_0_r, Hwx, Hwy.
    repeat split; try lia; try done.
    intros j usr Hj Hu. apply lookup_lt_Some in Hu. lia.
  - destruct (lookup_lt_is_Some_2 (users ni) k) as [usr Hu]; [lia|].
    destruct (lookup_lt_is_Some_2 (arcs nd) k) as [ad Had]; [lia|].
    simpl. rewrite (setup_nets_user_Ok _ _ _ _ _ _ Hu Had (Hall _ _ Hu)). simpl.
    set (abb := getRouteBoundingBox ctx _ _).
    set (nd1 := mkPerNetData _ _ _ _ _).
    destruct (IH (S k) nd1)
      as (nd' & Hf & Hl & Hh & Hcx & Hcy & _ & Hbb & Hlt & Hge).
    { lia. } { simpl. by rewrite length_insert. }
    { simpl. apply int_wrap_idem. }
    { simpl. apply int_wrap_idem. }
    { done. }
    exists nd'. split; [done|]. split; [done|]. split; [done|].
    rewrite (drop_S _ _ _ Hu). simpl.
    split; [rewrite Hcx; simpl; rewrite int_wrap_add_l; f_equal; lia|].
    split; [rewrite Hcy; simpl; rewrite int_wrap_add_l; f_equal; lia|].
    split; [done|].
    assert (box_within (bb nd) (bb nd1) ∧ box_within abb (bb nd1)) as [Hb1 Hb2].
    { unfold box_within. simpl. lia. }
    split; [unfold box_within in *; lia|].
    split.
    + intros j Hj. rewrite Hlt by lia. simpl.
      apply list_lookup_insert_ne. lia.
    + intros j usr' Hj Hu'. destruct (decide (j = k)) as [->|Hne].
      * rewrite Hu in Hu'. injection Hu' as <-.
        exists (mkPerArcData (ad_wires ad) abb). split.
        -- rewrite Hlt by lia. simpl. apply list_lookup_insert_eq.
           by eapply lookup_lt_Some.
        -- split; [done|]. simpl. unfold box_within in *. lia.
      * apply Hge; [lia | done].
Qed.

Lemma setup_nets_users_Err ctx ni : ∀ m k nd j usr,
  (k + m = length (users ni))%nat →
  length (arcs nd) = length (users ni) →
  (k ≤ j)%nat → users ni !! j = Some usr → arc_no_wire ctx ni usr →
  foldM (setup_nets_user ctx ni) nd (seq k m) = Err LogError.
Proof.
  induction m as [|m IH]; intros k nd j usr Hk Hlen Hj Hu Hno.
  - apply lookup_lt_Some in Hu. lia.
  - destruct (lookup_lt_is_Some_2 (users ni) k) as [usr0 Hu0]; [lia|].
    destruct (lookup_lt_is_Some_2 (arcs nd) k) as [ad Had]; [lia|].
    simpl. destruct (classic_arc_no_wire ctx ni usr0) as [Hno0|Hok0].
    + by rewrite (setup_nets_user_Err _ _ _ _ _ Hu0 Hno0).
    + rewrite (setup_nets_user_Ok _ _ _ _ _ _ Hu0 Had Hok0). simpl.
      destruct (decide (j = k)) as [->|Hne].
      * rewrite Hu in Hu0. injection Hu0 as <-. contradiction.
      * eapply (IH (S k)); [lia | | | exact Hu | exact Hno].
        -- simpl. by rewrite length_insert.
        -- lia.
Qed.

Lemma setup_nets_net_Ok ctx i ni nd :
  (∀ j usr, users ni !! j = Some usr → ¬ arc_no_wire ctx ni usr) →
  ∃ nd', setup_nets_net ctx i ni nd = Ok nd' ∧ net_populated ctx ni nd'.
Proof.
  intros Hall. unfold setup_nets_net.
  set (n := length (users ni)).
  set (nd1 := match driver_cell ni with Some _ => _ | None => _ end).
  assert (length (arcs nd1) = n
          ∧ cx nd1 = int_wrap (driver_coord ctx loc_x ni)
          ∧ cy nd1 = int_wrap (driver_coord ctx loc_y ni)
          ∧ bb nd1 = mkArcBounds INT_MAX INT_MAX INT_MIN INT_MIN)
    as (Hl1 & Hcx1 & Hcy1 & Hbb1).
  { unfold nd1, driver_coord. destruct (driver_cell ni); simpl;
      rewrite length_resize; done. }
  destruct (setup_nets_users_Ok ctx ni n 0 nd1)
    as (nd2 & Hf & Hl & _ & Hcx & Hcy & Hbb0 & _ & _ & Harcs); [done | done | | | done |].
  { rewrite Hcx1. apply int_wrap_idem. }
  { rewrite Hcy1. apply int_wrap_idem. }
  rewrite Hf. simpl. eexists. split; [reflexivity|].
  unfold net_populated. simpl. rewrite drop_0 in Hcx, Hcy.
  rewrite Hcx1, int_wrap_add_l in Hcx. rewrite Hcy1, int_wrap_add_l in Hcy.
  split; [done|]. split.
  { intros j usr Hu. apply (Harcs j usr); [lia | done]. }
  fold n. rewrite Hcx, Hcy.
  pose proof (int_wrap_range
                (int_abs (int_wrap (y1 (bb nd2) - y0 (bb nd2)))
                 + int_abs (int_wrap (x1 (bb nd2) - x0 (bb nd2))))) as Hr.
  unfold INT_MIN, INT_MAX in Hr.
  split; [done|]. split; [done|]. split; [done|].
  split; [unfold INT_MAX; lia|].
  split; [by intros ->%int_wrap_small|].
  split; [by intros ->%int_wrap_small|]. split.
  - intros Hfit. unfold in_int, INT_MIN, INT_MAX in Hfit. unfold int_abs.
    rewrite (int_wrap_small (y1 (bb nd2) - y0 (bb nd2)))
      by (unfold in_int, INT_MIN, INT_MAX; lia).
    rewrite (int_wrap_small (x1 (bb nd2) - x0 (bb nd2)))
      by (unfold in_int, INT_MIN, INT_MAX; lia).
    rewrite (int_wrap_small (Z.abs (y1 (bb nd2) - y0 (bb nd2))))
      by (unfold in_int, INT_MIN, INT_MAX; lia).
    rewrite (int_wrap_small (Z.abs (x1 (bb nd2) - x0 (bb nd2))))
      by (unfold in_int, INT_MIN, INT_MAX; lia).
    rewrite int_wrap_small by (unfold in_int, INT_MIN, INT_MAX; lia). done.
  - intros Hnil. assert (n = 0%nat) as Hn0 by (unfold n; by rewrite Hnil).
    rewrite (Hbb0 Hn0), Hbb1. split; [done|]. reflexivity.
Qed.

Lemma setup_nets_net_Err ctx i ni nd j usr :
  users ni !! j = Some usr → arc_no_wire ctx ni usr →
  setup_nets_net ctx i ni nd = Err LogError.
Proof.
  intros Hu Hno. unfold setup_nets_net.
  set (n := length (users ni)).
  set (nd1 := match driver_cell ni with Some _ => _ | None => _ end).
  rewrite (setup_nets_users_Err ctx ni n 0 nd1 j usr); [done | done | | lia | done..].
  unfold nd1. destruct (driver_cell ni); simpl; by rewrite length_resize.
Qed.

Lemma some_arc_no_wire_cons ctx i ni l :
  some_arc_no_wire ctx i (ni :: l) ↔
  (∃ j usr, users ni !! j = Some usr
            ∧ arc_no_wire ctx (set_udata ni (Z.of_nat i)) usr)
  ∨ some_arc_no_wire ctx (S i) l.
Proof.
  unfold some_arc_no_wire. split.
  - intros (k & ni' & j & usr & Hk & Hu & Hno). destruct k as [|k].
    + injection Hk as <-. left. exists j, usr.
      by rewrite Nat.add_0_r in Hno.
    + right. exists k, ni', j, usr. simpl in Hk.
      replace (S i + k)%nat with (i + S k)%nat by lia. done.
  - intros [(j & usr & Hu & Hno)|(k & ni' & j & usr & Hk & Hu & Hno)].
    + exists 0%nat, ni, j, usr. by rewrite Nat.add_0_r.
    + exists (S k), ni', j, usr.
      replace (i + S k)%nat with (S i + k)%nat by lia. done.
Qed.

Lemma net_arcs_dec ctx ni :
  (∃ j usr, users ni !! j = Some usr ∧ arc_no_wire ctx ni usr)
  ∨ (∀ j usr, users ni !! j = Some usr → ¬ arc_no_wire ctx ni usr).
Proof.
  destruct (decide (Exists (arc_no_wire ctx ni) (users ni))) as [H|H].
  - left. apply Exists_exists in H as (usr & [j Hj]%list_elem_of_lookup & Hno).
    eauto.
  - right. intros j usr Hu Hno. apply H, Exists_exists.
    exists usr. split; [|done]. apply list_elem_of_lookup. eauto.
Qed.

Lemma setup_nets_loop_Err ctx : ∀ l i r,
  (i + length l = length (nets r))%nat →
  length (nets_by_udata r) = length (nets r) →
  some_arc_no_wire ctx i l →
  setup_nets_loop ctx i l r = Err LogError.
Proof.
  induction l as [|ni l IH]; intros i r Hlen Hlen2 Hno.
  - by destruct Hno as (k & ? & ? & ? & Hk & _).
  - simpl in Hlen. simpl.
    destruct (lookup_lt_is_Some_2 (nets r) i) as [nd Hnd]; [lia|].
    destruct (lookup_lt_is_Some_2 (nets_by_udata r) i) as [ni0 Hni0]; [lia|].
    rewrite (proj2 (vec_at_Ok _ _ _) Hnd). simpl.
    rewrite (proj2 (vec_at_Ok _ _ _) Hni0). simpl.
    destruct (net_arcs_dec ctx (set_udata ni (Z.of_nat i)))
      as [(j & usr & Hu & Hbad)|Hgood].
    + by rewrite (setup_nets_net_Err ctx i _ nd j usr Hu Hbad).
    + destruct (setup_nets_net_Ok ctx i _ nd Hgood) as (nd' & -> & _). simpl.
      apply some_arc_no_wire_cons in Hno as [(j & usr & Hu & Hno)|Hno].
      * exfalso. by eapply Hgood.
      * apply IH; simpl; rewrite ?length_insert; [lia | done | done].
Qed.

Lemma setup_nets_loop_Ok ctx : ∀ l i r,
  (i + length l = length (nets r))%nat →
  length (nets_by_udata r) = length (nets r) →
  ¬ some_arc_no_wire ctx i l →
  ∃ r', setup_nets_loop ctx i l r = Ok r'
    ∧ length (nets r') = length (nets r)
    ∧ wires r' = wires r
    ∧ (∀ k, (k < i)%nat → nets r' !! k = nets r !! k
                          ∧ nets_by_udata r' !! k = nets_by_udata r !! k)
    ∧ (∀ k ni, l !! k = Some ni →
         nets_by_udata r' !! (i + k)%nat = Some (set_udata ni (Z.of_nat (i + k)))
         ∧ ∃ nd, nets r' !! (i + k)%nat = Some nd
                 ∧ net_populated ctx (set_udata ni (Z.of_nat (i + k))) nd).
Proof.
  induction l as [|ni l IH]; intros i r Hlen Hlen2 Hno.
  - exists r. simpl. repeat split; try done.
  - simpl in Hlen. simpl.
    destruct (lookup_lt_is_Some_2 (nets r) i) as [nd Hnd]; [lia|].
    destruct (lookup_lt_is_Some_2 (nets_by_udata r) i) as [ni0 Hni0]; [lia|].
    rewrite (proj2 (vec_at_Ok _ _ _) Hnd). simpl.
    rewrite (proj2 (vec_at_Ok _ _ _) Hni0). simpl.
    rewrite some_arc_no_wire_cons in Hno.
    destruct (setup_nets_net_Ok ctx i (set_udata ni (Z.of_nat i)) nd)
      as (nd' & -> & Hpop).
    { intros j usr Hu Hbad. apply Hno. left. eauto. }
    simpl. set (r1 := set_nets _ _).
    destruct (IH (S i) r1) as (r' & Hr' & Hl & Hw & Hlt & Hge).
    { unfold r1. simpl. rewrite length_insert. lia. }
    { unfold r1. simpl. by rewrite !length_insert. }
    { tauto. }
    exists r'. split; [done|]. split; [by rewrite Hl; unfold r1; simpl;
                                         rewrite length_insert|].
    split; [done|]. split.
    + intros k Hk. destruct (Hlt k) as [-> ->]; [lia|]. unfold r1. simpl.
      rewrite !list_lookup_insert_ne by lia. done.
    + intros [|k] ni' Hk.
      * injection Hk as <-. rewrite Nat.add_0_r.
        destruct (Hlt i) as [-> ->]; [lia|]. unfold r1. simpl.
        rewrite !list_lookup_insert_eq by (by eapply lookup_lt_Some). eauto.
      * simpl in Hk. replace (i + S k)%nat with (S i + k)%nat by lia.
        by apply Hge.
Qed.

(** C9, as the code has it.  [setup_nets] fails with the error of
    [log_error] when some arc has an end without wire: the port of a user,
    or the port of the driver of a driven net that has that user.  Otherwise
    it succeeds and leaves, for every net, the net with its index as [udata]
    and per-net data with one arc per user, each arc with its bounding box,
    the box of the net around the boxes of its arcs, the centroid, and a
    half-perimeter of at least 1.  The centroid and the half-perimeter are
    computed in [int]: they are the plain sums and quotients where these
    fit an [int].  A net without users is never checked; its box stays the
    one the loop starts from, (INT_MAX, INT_MAX, INT_MIN, INT_MIN), whose
    half-perimeter overflows and comes out as 2. *)
Theorem setup_nets_arcs (ctx : Context) (ctx_nets : list NetInfo) (r : Router) :
  (some_arc_no_wire ctx 0 ctx_nets →
   setup_nets ctx ctx_nets r = Err LogError)
  ∧ (¬ some_arc_no_wire ctx 0 ctx_nets →
     ∃ r', setup_nets ctx ctx_nets r = Ok r'
       ∧ length (nets r') = length ctx_nets
       ∧ wires r' = wires r
       ∧ ∀ k ni, ctx_nets !! k = Some ni →
           nets_by_udata r' !! k = Some (set_udata ni (Z.of_nat k))
           ∧ ∃ nd, nets r' !! k = Some nd
                   ∧ net_populated ctx (set_udata ni (Z.of_nat k)) nd).
Proof.
  unfold setup_nets. set (r0 := mkRouter _ _ _ _ _ _ _ _ _ _ _).
  assert (length (nets r0) = length ctx_nets) as Hl
    by (unfold r0; simpl; apply length_resize).
  assert (length (nets_by_udata r0) = length (nets r0)) as Hl2
    by (unfold r0; simpl; by rewrite !length_resize).
  split.
  - intros Hno. apply setup_nets_loop_Err; [by rewrite Hl | done | done].
  - intros Hno.
    destruct (setup_nets_loop_Ok ctx ctx_nets 0 r0)
      as (r' & Hr' & Hlen & Hw & _ & Hall); [by rewrite Hl | done | done |].
    exists r'. split; [done|]. split; [by rewrite Hlen|]. split; [done|].
    intros k ni Hk. apply (Hall k ni Hk).
Qed.

Lemma setup_nets_arcs_witness :
  setup_nets Sample.ctx_nosrc [Sample.net0] Sample.router_empty = Err LogError
  ∧ ∃ r', setup_nets Sample.ctx0 [Sample.net0] Sample.router_empty = Ok r'
          ∧ length (nets r') = 1%nat.
Proof.
  split.
  - apply (setup_nets_arcs Sample.ctx_nosrc [Sample.net0] Sample.router_empty).
    exists 0%nat, Sample.net0, 0%nat, (mkPortRef (mkCellInfo 2) 0).
    split; [reflexivity|]. split; [reflexivity|]. left. reflexivity.
  - destruct (setup_nets_arcs Sample.ctx0 [Sample.net0] Sample.router_empty)
      as [_ H].
    destruct H as (r' & Hr' & Hlen & _).
    + intros (k & ni & j & usr & Hk & Hu & Hno).
      destruct k as [|k]; [|discriminate]. injection Hk as <-.
      destruct j as [|j]; [|discriminate]. injection Hu as <-.
      destruct Hno as [Hno|Hno]; vm_compute in Hno; discriminate.
    + exists r'. split; [exact Hr' | exact Hlen].
Defined.

(** A net without users on the sample device: the box is the initial one
    and the half-perimeter is 2, the value of the overflowing [int]
    arithmetic. *)
Example setup_nets_nousers_hpwl :
  ∃ r' nd, setup_nets Sample.ctx0 [Sample.net_nousers] Sample.router_empty = Ok r'
           ∧ nets r' !! 0%nat = Some nd
           ∧ bb nd = mkArcBounds INT_MAX INT_MAX INT_MIN INT_MIN
           ∧ hpwl nd = 2.
Proof. eexists _, _. split_and!; vm_compute; reflexivity. Qed.

(** The claim C9 as it is written fails on a driven net that has no user:
    the port of its driver has no wire, and [setup_nets] succeeds. *)
Lemma setup_nets_driver_unchecked :
  driver_no_wire Sample.ctx_nosrc Sample.net_nousers
  ∧ (∃ ni, ni ∈ [Sample.net_nousers] ∧ driver_no_wire Sample.ctx_nosrc ni)
  ∧ ∃ r', setup_nets Sample.ctx_nosrc [Sample.net_nousers] Sample.router_empty
          = Ok r'.
Proof.
  assert (driver_no_wire Sample.ctx_nosrc Sample.net_nousers) as H
    by (split; [discriminate | reflexivity]).
  split; [exact H|]. split.
  - exists Sample.net_nousers. split; [apply list_elem_of_here | exact H].
  - eexists. vm_compute. reflexivity.
Qed.

(** ** Routing of a net with a pre-routed arc *)

Lemma route_net_ripup_prerouted fuel ctx a r net i usr pm :
  users net !! i = Some usr →
  check_arc_routing fuel ctx r net i = Ok false →
  net_wires a net !! getNetinfoSinkWire ctx net usr = Some pm →
  strength_gt (pm_strength pm) STRENGTH_STRONG = true →
  ∀ m k t,
    (k ≤ i < k + m)%nat →
    (∀ j, (k ≤ j < i)%nat → check_arc_routing fuel ctx r net j = Ok true) →
    route_net_ripup fuel ctx a r t net (seq k m) = Ok (Some false, r, t).
Proof.
  intros Hu Hchk Hpm Hgt. induction m as [|m IH]; intros k t Hk Hbefore; [lia|].
  simpl. destruct (decide (k = i)) as [->|Hne].
  - rewrite Hchk. simpl. rewrite (proj2 (vec_at_Ok _ _ _) Hu). simpl.
    rewrite Hpm, Hgt. reflexivity.
  - rewrite Hbefore by lia. simpl. apply IH; [lia|].
    intros j Hj. apply Hbefore. lia.
Qed.

(** C4, what the code does.  When the first arc of a driven net that is not
    already routed has its sink wire bound in the net with a strength above
    STRONG, [route_net] returns [false]: the value returned is the
    enumerator [ARC_SUCCESS], whose integral value 0 converts to [false].
    Nothing is ripped up and no arc is routed. *)
Theorem route_net_prerouted_returns_false (fuel : nat) (ctx : Context)
    (a : ArchState) (r : Router) (t : ThreadContext) (net : NetInfo)
    (is_mt : bool) (i : nat) (usr : PortRef) (pm : PipMap) :
  ARCH_ECP5 ctx && is_global net = false →
  driver_cell net ≠ None →
  users net !! i = Some usr →
  (∀ j, (j < i)%nat → check_arc_routing fuel ctx r net j = Ok true) →
  check_arc_routing fuel ctx r net i = Ok false →
  net_wires a net !! getNetinfoSinkWire ctx net usr = Some pm →
  strength_gt (pm_strength pm) STRENGTH_STRONG = true →
  route_net fuel ctx a r t net is_mt
  = Ok (false, a, r, set_route_arcs (set_processed_sinks t ∅) []).
Proof.
  intros Hg Hd Hu Hbefore Hchk Hpm Hgt. unfold route_net. rewrite Hg.
  destruct (driver_cell net); [|done].
  rewrite (route_net_ripup_prerouted fuel ctx a r net i usr pm Hu Hchk Hpm Hgt).
  - reflexivity.
  - apply lookup_lt_Some in Hu. lia.
  - intros j Hj. apply Hbefore. lia.
Qed.

Lemma route_net_prerouted_returns_false_witness :
  route_net 10 Sample.ctx0 Sample.arch_prerouted Sample.router0 Sample.tc0
    Sample.net0 false
  = Ok (false, Sample.arch_prerouted, Sample.router0,
        set_route_arcs (set_processed_sinks Sample.tc0 ∅) []).
Proof.
  apply (route_net_prerouted_returns_false 10 Sample.ctx0 Sample.arch_prerouted
           Sample.router0 Sample.tc0 Sample.net0 false 0
           (mkPortRef (mkCellInfo 2) 0) (mkPipMap 0 4 STRENGTH_USER)).
  - reflexivity.
  - discriminate.
  - reflexivity.
  - intros j Hj. lia.
  - reflexivity.
  - reflexivity.
  - reflexivity.
Defined.

(** ** The unbind phase of the commit *)

Lemma unbindWire_lookup a w w' :
  wire_bind (unbindWire a w) !! w' =
    if decide (w = w') then None else wire_bind a !! w'.
Proof.
  unfold unbindWire. destruct (wire_bind a !! w) as [pm|] eqn:E; simpl.
  - case_decide as Hd; [subst; apply lookup_delete_eq|].
    by apply lookup_delete_ne.
  - case_decide as Hd; [by subst | done].
Qed.

Lemma unbindWire_fold_lookup l : ∀ a w,
  wire_bind (fold_left unbindWire l a) !! w =
    if decide (w ∈ l) then None else wire_bind a !! w.
Proof.
  induction l as [|x l IH]; intros a w; cbn [fold_left].
  - rewrite decide_False; [done | apply not_elem_of_nil].
  - rewrite IH, unbindWire_lookup.
    destruct (decide (w ∈ l)) as [Hl|Hl].
    + rewrite decide_True by (by right). done.
    + destruct (decide (x = w)) as [->|Hne].
      * rewrite decide_True by (by left). done.
      * rewrite decide_False; [done|].
        intros [->|?]%elem_of_cons; contradiction.
Qed.

Lemma elem_of_ripup_wires a net w :
  w ∈ ripup_wires a net ↔
  ∃ pm, wire_bind a !! w = Some pm ∧ pm_net pm = udata net
        ∧ strength_le (pm_strength pm) STRENGTH_STRONG = true.
Proof.
  unfold ripup_wires, net_wires. rewrite list_elem_of_fmap. split.
  - intros ([w' pm] & -> & H). apply elem_of_map_to_list in H.
    apply map_lookup_filter_Some in H as [H Hs].
    apply map_lookup_filter_Some in H as [H Hn]. simpl in *. eauto.
  - intros (pm & Hw & Hn & Hs). exists (w, pm). split; [done|].
    apply elem_of_map_to_list. apply map_lookup_filter_Some. split; [|done].
    apply map_lookup_filter_Some. done.
Qed.

(** C5, as the code has it.  The unbind phase of [bind_and_check_all] for a
    net takes off the binding table exactly the wires bound to the net with
    a strength of at most STRONG, so those bound WEAK and those bound
    STRONG; a wire bound to the net with a strength above STRONG stays
    bound as it was, and so does every wire of another net. *)
Theorem unbind_net_wires_strength (a : ArchState) (net : NetInfo) (w : WireId)
    (pm : PipMap) :
  wire_bind a !! w = Some pm →
  (pm_net pm = udata net →
   strength_le (pm_strength pm) STRENGTH_STRONG = true →
   wire_bind (unbind_net_wires a net) !! w = None)
  ∧ (pm_net pm = udata net →
     strength_gt (pm_strength pm) STRENGTH_STRONG = true →
     wire_bind (unbind_net_wires a net) !! w = Some pm)
  ∧ (pm_net pm ≠ udata net →
     wire_bind (unbind_net_wires a net) !! w = Some pm).
Proof.
  intros Hw. unfold unbind_net_wires. rewrite unbindWire_fold_lookup.
  split; [|split].
  - intros Hn Hs. rewrite decide_True; [done|].
    apply elem_of_ripup_wires. eauto.
  - intros Hn Hs. rewrite decide_False; [done|].
    intros (pm' & Hw' & _ & Hs')%elem_of_ripup_wires.
    rewrite Hw in Hw'. injection Hw' as <-.
    unfold strength_le, strength_gt in *.
    apply Z.leb_le in Hs'. apply Z.ltb_lt in Hs. lia.
  - intros Hn. rewrite decide_False; [done|].
    intros (pm' & Hw' & Hn' & _)%elem_of_ripup_wires.
    rewrite Hw in Hw'. injection Hw' as <-. contradiction.
Qed.

Lemma unbind_net_wires_strength_witness :
  wire_bind (unbind_net_wires Sample.arch_strong Sample.net0) !! 3
  = Some (mkPipMap 0 2 STRENGTH_USER).
Proof.
  destruct (unbind_net_wires_strength Sample.arch_strong Sample.net0 3
              (mkPipMap 0 2 STRENGTH_USER) eq_refl) as (_ & H & _).
  apply H; reflexivity.
Defined.

(** The claim C5 as it is written fails on a wire bound with strength
    STRONG: the commit of a net without users leaves the wire unbound, while
    the wire bound by the user is kept. *)
Lemma bind_and_check_all_unbinds_strong :
  wire_bind Sample.arch_strong !! 5 = Some (mkPipMap 0 4 STRENGTH_STRONG)
  ∧ ∃ a' r', bind_and_check_all 10 Sample.ctx0 Sample.arch_strong
               Sample.router_nousers = Ok (true, a', r')
             ∧ wire_bind a' !! 5 = None
             ∧ wire_bind a' !! 3 = Some (mkPipMap 0 2 STRENGTH_USER).
Proof.
  split; [reflexivity|].
  eexists _, _. split; [vm_compute; reflexivity|].
  split; reflexivity.
Qed.

(** ** The forward search: budget *)

Lemma budget_step_refl dst_wire s : budget_step dst_wire s s.
Proof.
  unfold budget_step. repeat split; [lia | done |].
  intros H [? H']. congruence.
Qed.

Lemma budget_step_trans dst_wire s1 s2 s3 :
  budget_step dst_wire s1 s2 → budget_step dst_wire s2 s3 →
  budget_step dst_wire s1 s3.
Proof.
  intros (Hi1 & Ht1 & Hv1 & Hd1) (Hi2 & Ht2 & Hv2 & Hd2).
  unfold budget_step. split; [lia|]. split; [lia|]. split; [eauto|].
  intros Hn Hs. destruct (visited (fs_t s2) !! dst_wire) eqn:E.
  - assert (toexplore s2 ≤ iter s1 + 5) by (apply Hd1; eauto). lia.
  - rewrite <- Hi1. by apply Hd2.
Qed.

Lemma astar_pip_budget ctx r net i dst_wire is_bb abb curr s dh s' :
  astar_pip ctx r net i dst_wire is_bb abb curr s dh = Ok s' →
  budget_step dst_wire s s'.
Proof.
  unfold astar_pip. intros H.
  repeat match type of H with
  | (if ?c then _ else _) = _ =>
      destruct c; [injection H as <-; apply budget_step_refl|]
  | (_ ≫= _) = Ok _ => apply bind_Ok in H as (? & _ & H)
  end.
  match type of H with
  | (if ?c then _ else _) = _ =>
      destruct c eqn:Hc; [|injection H as <-; apply budget_step_refl]
  end.
  destruct (rng_step ctx (rngstate (fs_a s))) as [tag rs].
  injection H as <-. unfold budget_step. simpl.
  split; [done|]. split; [case_bool_decide; lia|]. split.
  - intros w Hw. destruct (decide (getPipDstWire ctx dh = w)) as [->|Hne].
    + rewrite lookup_insert_eq. eauto.
    + by rewrite lookup_insert_ne.
  - intros Hn Hs. case_bool_decide as Hd; [lia|].
    rewrite lookup_insert_ne in Hs by done. destruct Hs. congruence.
Qed.

Lemma astar_body_budget ctx r net i dst_wire is_bb abb s s' :
  astar_cond is_bb s = true →
  astar_body ctx r net i dst_wire is_bb abb s = Ok s' →
  iter s' = iter s + 1
  ∧ toexplore s' ≤ toexplore s
  ∧ (∀ w, is_Some (visited (fs_t s) !! w) → is_Some (visited (fs_t s') !! w))
  ∧ (visited (fs_t s) !! dst_wire = None →
     is_Some (visited (fs_t s') !! dst_wire) →
     toexplore s' ≤ iter s' + 5).
Proof.
  unfold astar_body. intros Hc H.
  destruct (queue (fs_t s)) as [|x q] eqn:Eq.
  { unfold astar_cond in Hc. rewrite Eq in Hc. done. }
  destruct (pq_extract x q) as [curr rest].
  apply (foldM_inv _ (budget_step dst_wire)) in H;
    [| apply budget_step_refl | apply budget_step_trans
     | intros ????; by eapply astar_pip_budget].
  destruct H as (Hi & Ht & Hv & Hd). simpl in *.
  rewrite Hi. repeat split; [done | done |]. intros Hn Hs.
  specialize (Hd Hn Hs). lia.
Qed.

Lemma astar_run_budget ctx r net i dst_wire abb n s0 s :
  astar_run ctx r net i dst_wire true abb n s0 s →
  iter s = iter s0 + Z.of_nat n
  ∧ toexplore s ≤ toexplore s0
  ∧ (n ≠ 0%nat → iter s ≤ toexplore s0).
Proof.
  induction 1 as [s|n s s' s'' Hrun IH Hc Hb].
  - split; [lia|]. split; [lia | done].
  - destruct IH as (Hi & Ht & _).
    destruct (astar_body_budget _ _ _ _ _ _ _ _ _ Hc Hb) as (Hi' & Ht' & _).
    unfold astar_cond in Hc. apply andb_true_iff in Hc as [_ Hc].
    simpl in Hc. apply Z.ltb_lt in Hc.
    split; [lia|]. split; [lia|]. intros _. lia.
Qed.

(** With the bounding box on, fuel for the budget is fuel enough. *)
Lemma astar_loop_fuel ctx r net i dst_wire abb : ∀ fuel s,
  (Z.to_nat (toexplore s - iter s) ≤ fuel)%nat →
  astar_loop fuel ctx r net i dst_wire true abb s ≠ Err OutOfFuel.
Proof.
  assert (∀ s e, astar_body ctx r net i dst_wire true abb s = Err e →
                 e = OutOfRange) as Hbody.
  { intros s e. unfold astar_body. destruct (queue (fs_t s)); [done|].
    destruct (pq_extract _ _) as [curr rest].
    apply (foldM_Err _ (λ e, e = OutOfRange)). clear. intros s x e.
    unfold astar_pip, score_wire_for_arc, get_togo_cost, map_at, vec_at_int, vec_at.
    intros H.
    repeat match type of H with
    | (if ?c then _ else _) = _ => destruct c; try discriminate
    | (match ?c with _ => _ end) = _ => destruct c; try discriminate
    | (_ ≫= _) = Err _ => apply bind_Err in H as [H|(? & _ & H)]
    | Err _ = Err _ => injection H as <-
    | Ok _ = Err _ => discriminate
    end; try done. }
  induction fuel as [|fuel IH]; intros s Hf; simpl.
  - destruct (astar_cond true s) eqn:Hc; [|done].
    unfold astar_cond in Hc. apply andb_true_iff in Hc as [_ Hc].
    simpl in Hc. apply Z.ltb_lt in Hc. lia.
  - destruct (astar_cond true s) eqn:Hc; [|done].
    destruct (astar_body ctx r net i dst_wire true abb s) as [s'|e] eqn:Hb; simpl.
    + destruct (astar_body_budget _ _ _ _ _ _ _ _ _ Hc Hb) as (Hi & Ht & _).
      apply IH. unfold astar_cond in Hc. apply andb_true_iff in Hc as [_ Hc].
      simpl in Hc. apply Z.ltb_lt in Hc. lia.
    + apply Hbody in Hb. by subst.
Qed.

Lemma astar_init_Ok ctx a r t net i abb src_wire dst_wire s0 :
  astar_init ctx a r t net i abb src_wire dst_wire = Ok s0 →
  iter s0 = 0
  ∧ toexplore s0 = 25000 * Z.max 1 ((x1 abb - x0 abb) + (y1 abb - y0 abb))
  ∧ fs_a s0 = a
  ∧ ∃ sc, visited (fs_t s0) = {[src_wire := mkVisitInfo sc PipId_null]}
          ∧ queue (fs_t s0)
            = queue t ++ [mkQueuedWire src_wire PipId_null Loc_default sc 0].
Proof.
  unfold astar_init. intros (tg & _ & H)%bind_Ok. injection H as <-. simpl.
  repeat split. eauto.
Qed.

(** C3.  In [route_arc] with the bounding box on, the forward loop runs at
    most [25000 * max(1, (bb.x1 - bb.x0) + (bb.y1 - bb.y0))] rounds, and the
    model's fuel for that many rounds is never used up; in the round in which
    the sink wire first enters [visited] the budget drops to at most the
    count of rounds so far plus 5, so that at most 5 rounds follow; and when
    the loop ends with the sink wire absent from [visited] the function
    returns [ARC_RETRY_WITHOUT_BB], the router left as it was. *)
Theorem astar_iteration_budget (ctx : Context) (a : ArchState) (r : Router)
    (t : ThreadContext) (net : NetInfo) (i : nat) (abb : ArcBounds)
    (src_wire dst_wire : WireId) (s0 : FwdState) :
  astar_init ctx a r t net i abb src_wire dst_wire = Ok s0 →
  let budget := 25000 * Z.max 1 ((x1 abb - x0 abb) + (y1 abb - y0 abb)) in
  (∀ n s, astar_run ctx r net i dst_wire true abb n s0 s →
     Z.of_nat n ≤ budget ∧ iter s = Z.of_nat n)
  ∧ (∀ fuel, (Z.to_nat budget ≤ fuel)%nat →
       astar_loop fuel ctx r net i dst_wire true abb s0 ≠ Err OutOfFuel)
  ∧ (∀ n s s', astar_run ctx r net i dst_wire true abb n s0 s →
       astar_cond true s = true →
       astar_body ctx r net i dst_wire true abb s = Ok s' →
       visited (fs_t s) !! dst_wire = None →
       is_Some (visited (fs_t s') !! dst_wire) →
       toexplore s' ≤ iter s' + 5
       ∧ ∀ m s'', astar_run ctx r net i dst_wire true abb m s' s'' →
                  (m ≤ 5)%nat)
  ∧ (∀ fuel is_bb s,
       astar_loop fuel ctx r net i dst_wire is_bb abb s0 = Ok s →
       visited (fs_t s) !! dst_wire = None →
       route_arc_forward fuel ctx a r t net i is_bb abb src_wire dst_wire
       = Ok (ARC_RETRY_WITHOUT_BB, fs_a s, r, fs_t s)).
Proof.
  intros Hinit budget.
  destruct (astar_init_Ok _ _ _ _ _ _ _ _ _ _ Hinit) as (Hi0 & Ht0 & _).
  fold budget in Ht0. split; [|split; [|split]].
  - intros n s Hrun.
    destruct (astar_run_budget _ _ _ _ _ _ _ _ _ Hrun) as (Hi & _ & Hle).
    split; [|lia]. destruct n; [unfold budget; lia|].
    specialize (Hle ltac:(done)). lia.
  - intros fuel Hf. apply astar_loop_fuel. rewrite Hi0, Ht0. lia.
  - intros n s s' Hrun Hc Hb Hn Hs.
    destruct (astar_body_budget _ _ _ _ _ _ _ _ _ Hc Hb) as (_ & _ & _ & Hd).
    specialize (Hd Hn Hs). split; [done|]. intros m s'' Hrun'.
    destruct (astar_run_budget _ _ _ _ _ _ _ _ _ Hrun') as (Hi & _ & Hle).
    destruct m; [lia|]. specialize (Hle ltac:(done)). lia.
  - intros fuel is_bb s Hloop Hn. unfold route_arc_forward.
    rewrite Hinit. simpl. rewrite Hloop. simpl.
    rewrite bool_decide_eq_false_2; [done|]. rewrite Hn. by intros [? ?].
Qed.

Lemma astar_iteration_budget_witness :
  ∃ s0, astar_init Sample.ctx0 Sample.arch0 Sample.router_line Sample.tc0
          Sample.net0 0 (mkArcBounds 1 0 5 0) 1 5 = Ok s0
        ∧ astar_loop (Z.to_nat 100000) Sample.ctx0 Sample.router_line Sample.net0 0 5 true
            (mkArcBounds 1 0 5 0) s0 ≠ Err OutOfFuel.
Proof.
  eexists. split; [reflexivity|].
  refine (proj1 (proj2 (astar_iteration_budget Sample.ctx0 Sample.arch0
            Sample.router_line Sample.tc0 Sample.net0 0 (mkArcBounds 1 0 5 0)
            1 5 _ eq_refl)) (Z.to_nat 100000) _).
  apply Nat.le_refl.
Defined.

(** [route_arc] reaches its forward part when both ends of the arc have a
    wire, the sink was not yet routed in this pass and the backwards search
    did not reach the source. *)
Lemma route_arc_enters_forward fuel ctx a r t net i is_mt is_bb ad usr b :
  arc_at r (udata net) i = Ok ad →
  users net !! i = Some usr →
  getNetinfoSourceWire ctx net ≠ WireId_null →
  getNetinfoSinkWire ctx net usr ≠ WireId_null →
  getNetinfoSinkWire ctx net usr ∉ processed_sinks t →
  bwd_loop fuel ctx a r net (getNetinfoSourceWire ctx net) fuel
    (mkBwdState (set_backwards (set_queue t []) [getNetinfoSinkWire ctx net usr] ∅)
       0 false) = Ok b →
  backwards_pip (bs_t b) !! getNetinfoSourceWire ctx net = None →
  route_arc fuel ctx a r t net i is_mt is_bb
  = route_arc_forward fuel ctx a r (set_visited (bs_t b) ∅) net i is_bb (ad_bb ad)
      (getNetinfoSourceWire ctx net) (getNetinfoSinkWire ctx net usr).
Proof.
  intros Had Hu Hs Hd Hp Hb Hn. unfold route_arc.
  rewrite Had. simpl. rewrite (proj2 (vec_at_Ok _ _ _) Hu). simpl.
  rewrite !bool_decide_eq_false_2 by done. rewrite Hb. simpl.
  rewrite bool_decide_eq_false_2; [done|]. rewrite Hn. by intros [? ?].
Qed.

(** ** Reserved wires *)

Lemma reserved_for_other_false r uid w wd :
  wires r !! w = Some wd → reserved_for_other wd uid = false →
  ¬ reserved_elsewhere r uid w.
Proof.
  intros Hw Hr (wd' & Hw' & H1 & H2). rewrite Hw in Hw'. injection Hw' as <-.
  unfold reserved_for_other in Hr.
  destruct (Z.eqb_spec (reserved_net wd) (-1)); [done|].
  destruct (Z.eqb_spec (reserved_net wd) uid); done.
Qed.

(** *** The forward queue *)

Lemma pq_extract_elem : ∀ q x m rest,
  pq_extract x q = (m, rest) → ∀ y, y ∈ m :: rest → y ∈ x :: q.
Proof.
  induction q as [|z q IH]; intros x m rest H y Hy; simpl in H.
  - by injection H as <- <-.
  - destruct (Greater x z).
    + destruct (pq_extract z q) as [m' rest'] eqn:E. injection H as <- <-.
      specialize (IH z m' rest' E).
      apply elem_of_cons in Hy as [->|Hy].
      * apply list_elem_of_further, IH, list_elem_of_here.
      * apply elem_of_cons in Hy as [->|Hy]; [apply list_elem_of_here|].
        apply list_elem_of_further, IH. by apply list_elem_of_further.
    + destruct (pq_extract x q) as [m' rest'] eqn:E. injection H as <- <-.
      specialize (IH x m' rest' E).
      assert (∀ y, y ∈ m' :: rest' → y ∈ x :: z :: q) as IH'.
      { intros y' [->|Hy']%IH%elem_of_cons; [apply list_elem_of_here|].
        by do 2 apply list_elem_of_further. }
      apply elem_of_cons in Hy as [->|Hy]; [apply IH', list_elem_of_here|].
      apply elem_of_cons in Hy as [->|Hy].
      * apply list_elem_of_further, list_elem_of_here.
      * apply IH'. by apply list_elem_of_further.
Qed.

Lemma astar_pip_unreserved ctx r net i dst_wire is_bb abb curr src_wire s dh s' :
  astar_pip ctx r net i dst_wire is_bb abb curr s dh = Ok s' →
  fwd_unreserved r (udata net) src_wire (fs_t s) →
  fwd_unreserved r (udata net) src_wire (fs_t s').
Proof.
  unfold astar_pip. intros H Hinv.
  destruct (is_bb && _); [by injection H as <-|].
  destruct (negb _ && _); [by injection H as <-|].
  apply bind_Ok in H as (nwd & Hnwd%map_at_Ok & H).
  destruct (unavailable nwd); [by injection H as <-|].
  destruct (reserved_for_other nwd (udata net)) eqn:Hres; [by injection H as <-|].
  destruct (match bound_nets nwd !! udata net with Some _ => _ | None => _ end);
    [by injection H as <-|].
  apply bind_Ok in H as (sc & _ & H). apply bind_Ok in H as (tg & _ & H).
  destruct (match visited (fs_t s) !! getPipDstWire ctx dh with
            | Some _ => _ | None => _ end); [|by injection H as <-].
  destruct (rng_step ctx (rngstate (fs_a s))) as [tag rs]. injection H as <-.
  pose proof (reserved_for_other_false _ _ _ _ Hnwd Hres) as Hok.
  destruct Hinv as [Hq Hv]. split; simpl.
  - intros q [Hin|Hin]%elem_of_app; [by apply Hq|].
    apply list_elem_of_singleton in Hin as ->. simpl. by right.
  - intros w Hw. destruct (decide (getPipDstWire ctx dh = w)) as [<-|Hne].
    + by right.
    + rewrite lookup_insert_ne in Hw by done. by apply Hv.
Qed.

Lemma astar_body_unreserved ctx r net i dst_wire is_bb abb src_wire s s' :
  astar_body ctx r net i dst_wire is_bb abb s = Ok s' →
  fwd_unreserved r (udata net) src_wire (fs_t s) →
  fwd_unreserved r (udata net) src_wire (fs_t s').
Proof.
  unfold astar_body. intros H Hinv.
  destruct (queue (fs_t s)) as [|x q] eqn:Eq; [by injection H as <-|].
  destruct (pq_extract x q) as [curr rest] eqn:Ep.
  eapply (foldM_preserves _ (λ s, fwd_unreserved r (udata net) src_wire (fs_t s)));
    [| |exact H].
  - intros s1 dh s2 _ H1 H2. by eapply astar_pip_unreserved.
  - destruct Hinv as [Hq Hv]. split; simpl; [|done].
    intros y Hy. apply Hq. rewrite Eq.
    eapply pq_extract_elem; [exact Ep|]. by apply list_elem_of_further.
Qed.

Lemma astar_run_unreserved ctx r net i dst_wire is_bb abb src_wire n s0 s :
  astar_run ctx r net i dst_wire is_bb abb n s0 s →
  fwd_unreserved r (udata net) src_wire (fs_t s0) →
  fwd_unreserved r (udata net) src_wire (fs_t s).
Proof.
  induction 1 as [s|n s s' s'' Hrun IH Hc Hb]; [done|].
  intros H0. eapply astar_body_unreserved; eauto.
Qed.

Lemma astar_loop_run ctx r net i dst_wire is_bb abb : ∀ fuel s s',
  astar_loop fuel ctx r net i dst_wire is_bb abb s = Ok s' →
  ∃ n, astar_run ctx r net i dst_wire is_bb abb n s s'.
Proof.
  induction fuel as [|fuel IH]; intros s s' H; simpl in H.
  - destruct (astar_cond is_bb s); [done|]. injection H as <-.
    exists 0%nat. constructor.
  - destruct (astar_cond is_bb s) eqn:Hc.
    + apply bind_Ok in H as (s1 & Hb & H). apply IH in H as [n Hrun].
      exists (S n). clear IH. revert Hrun.
      assert (astar_run ctx r net i dst_wire is_bb abb 1 s s1) as H1
        by (econstructor; [constructor | done | done]).
      clear Hb Hc. intros Hrun. revert s H1.
      induction Hrun as [s2|m s2 s3 s4 Hrun IH Hc Hb]; intros s H1; [done|].
      econstructor; [by apply IH | done | done].
    + injection H as <-. exists 0%nat. constructor.
Qed.

Lemma astar_init_unreserved ctx a r t net i abb src_wire dst_wire s0 :
  astar_init ctx a r t net i abb src_wire dst_wire = Ok s0 →
  queue t = [] →
  fwd_unreserved r (udata net) src_wire (fs_t s0).
Proof.
  intros (_ & _ & _ & sc & Hv & Hq)%astar_init_Ok Ht.
  rewrite Ht in Hq. split.
  - intros q. rewrite Hq. intros ->%list_elem_of_singleton. by left.
  - intros w. rewrite Hv. intros [v Hw].
    apply lookup_singleton_Some in Hw as [<- _]. by left.
Qed.

(** *** The backwards queue *)

Lemma bwd_pip_Ok ctx a r uid cpip t uh t' :
  bwd_pip ctx a r uid cpip t uh = Ok t' →
  t' = t
  ∨ ∃ wd, wires r !! getPipSrcWire ctx uh = Some wd
       ∧ reserved_for_other wd uid = false
       ∧ t' = set_backwards t (backwards_queue t ++ [getPipSrcWire ctx uh])
                (<[getPipSrcWire ctx uh := uh]> (backwards_pip t)).
Proof.
  unfold bwd_pip. intros H.
  destruct (negb _ && _); [left; by injection H as <-|].
  destruct (bool_decide _ && _); [left; by injection H as <-|].
  destruct (bool_decide (is_Some _)); [left; by injection H as <-|].
  apply bind_Ok in H as (wd & Hwd%map_at_Ok & H).
  destruct (unavailable wd); [left; by injection H as <-|].
  destruct (reserved_for_other wd uid) eqn:Hres; [left; by injection H as <-|].
  destruct (congested_for wd uid); [left; by injection H as <-|].
  injection H as <-. right. eauto.
Qed.

Lemma bwd_pip_unreserved ctx a r uid cpip dst_wire t uh t' :
  bwd_pip ctx a r uid cpip t uh = Ok t' →
  bwd_unreserved r uid dst_wire t → bwd_unreserved r uid dst_wire t'.
Proof.
  intros [->|(wd & Hwd & Hres & ->)]%bwd_pip_Ok Hinv; [done|].
  intros w. simpl. intros [Hw|Hw]%elem_of_app; [by apply Hinv|].
  apply list_elem_of_singleton in Hw as ->. right.
  by eapply reserved_for_other_false.
Qed.

Lemma bwd_body_unreserved fuel ctx a r net src_wire dst_wire s s' :
  bwd_body fuel ctx a r net src_wire s = Ok s' →
  bwd_unreserved r (udata net) dst_wire (bs_t s) →
  bwd_unreserved r (udata net) dst_wire (bs_t s').
Proof.
  unfold bwd_body. intros H Hinv.
  destruct (backwards_queue (bs_t s)) as [|cursor q] eqn:Eq;
    [by injection H as <-|].
  set (t := set_backwards (bs_t s) q _) in *.
  assert (bwd_unreserved r (udata net) dst_wire t) as Ht.
  { intros w Hw. apply Hinv. rewrite Eq. by apply list_elem_of_further. }
  assert (∀ cpip s',
    (foldM (bwd_pip ctx a r (udata net) cpip) t (getPipsUphill ctx cursor)
     ≫= λ t', Ok (mkBwdState t'
                    (if bool_decide (getPipsUphill ctx cursor = [])
                     then backwards_iter s else backwards_iter s + 1) false))
    = Ok s' → bwd_unreserved r (udata net) dst_wire (bs_t s')) as Hexp.
  { intros cpip s1 (t' & Hf & H1)%bind_Ok. injection H1 as <-. simpl.
    eapply (foldM_preserves _ (bwd_unreserved r (udata net) dst_wire));
      [|exact Ht|exact Hf].
    intros ? ? ? _ ? ?. by eapply bwd_pip_unreserved. }
  apply bind_Ok in H as (cwd & _ & H).
  destruct (bound_nets cwd !! udata net) as [b|]; [|by eapply Hexp].
  apply bind_Ok in H as ([fail cursor2] & _ & H).
  destruct (negb fail && _); [|by eapply Hexp].
  apply bind_Ok in H as (bp & _ & H). injection H as <-. simpl.
  intros w Hw. apply Ht. done.
Qed.

Lemma bwd_run_unreserved fuel ctx a r net src_wire dst_wire n s0 s :
  bwd_run fuel ctx a r net src_wire n s0 s →
  bwd_unreserved r (udata net) dst_wire (bs_t s0) →
  bwd_unreserved r (udata net) dst_wire (bs_t s).
Proof.
  induction 1 as [s|n s s' s'' Hrun IH Hc Hb]; [done|].
  intros H0. eapply bwd_body_unreserved; eauto.
Qed.

Lemma bwd_loop_run fuel ctx a r net src_wire : ∀ n s s',
  bwd_loop fuel ctx a r net src_wire n s = Ok s' →
  ∃ m, bwd_run fuel ctx a r net src_wire m s s'.
Proof.
  induction n as [|n IH]; intros s s' H; simpl in H.
  - destruct (bwd_cond s); [done|]. injection H as <-.
    exists 0%nat. constructor.
  - destruct (bwd_cond s) eqn:Hc.
    + apply bind_Ok in H as (s1 & Hb & H). apply IH in H as [m Hrun].
      exists (S m). clear IH.
      assert (bwd_run fuel ctx a r net src_wire 1 s s1) as H1
        by (econstructor; [constructor | done | done]).
      clear Hb Hc. revert s H1.
      induction Hrun as [s2|k s2 s3 s4 Hrun IH Hc Hb]; intros s H1; [done|].
      econstructor; [by apply IH | done | done].
    + injection H as <-. exists 0%nat. constructor.
Qed.

(** *** The wires bound by the search *)

Lemma bwd_merge_record_ok ctx r uid src_wire dst_wire :
  driving_pips_consistent ctx r uid →
  ∀ fuel cursor2 bp bp',
    bwd_merge_record fuel ctx r uid cursor2 bp = Ok bp' →
    bwd_pips_ok ctx r uid src_wire dst_wire bp →
    bwd_pips_ok ctx r uid src_wire dst_wire bp'.
Proof.
  intros Hcons. induction fuel as [|fuel IH]; intros cursor2 bp bp' H Hinv;
    simpl in H; [done|].
  apply bind_Ok in H as (wd & Hwd%map_at_Ok & H).
  destruct (bound_nets wd !! uid) as [b|] eqn:Eb; [|by injection H as <-].
  case_bool_decide as Hnull; [by injection H as <-|].
  eapply IH; [exact H|]. intros k v Hk.
  destruct (decide (getPipSrcWire ctx b.2 = k)) as [<-|Hne].
  - rewrite lookup_insert_eq in Hk. injection Hk as <-.
    rewrite (Hcons _ _ _ Hwd Eb Hnull). right. right. left.
    exists wd. eauto.
  - rewrite lookup_insert_ne in Hk by done. by eapply Hinv.
Qed.

Lemma bwd_body_pips_ok fuel ctx a r net src_wire dst_wire s s' :
  adjacency_consistent ctx →
  driving_pips_consistent ctx r (udata net) →
  bwd_body fuel ctx a r net src_wire s = Ok s' →
  bwd_unreserved r (udata net) dst_wire (bs_t s) →
  bwd_pips_ok ctx r (udata net) src_wire dst_wire (backwards_pip (bs_t s)) →
  bwd_pips_ok ctx r (udata net) src_wire dst_wire (backwards_pip (bs_t s')).
Proof.
  intros Hadj Hcons H Hq Hinv. unfold bwd_body in H.
  destruct (backwards_queue (bs_t s)) as [|cursor q] eqn:Eq;
    [by injection H as <-|].
  set (t := set_backwards (bs_t s) q _) in *.
  assert (may_bind r (udata net) src_wire dst_wire cursor) as Hcur.
  { destruct (Hq cursor) as [->|Hc]; [rewrite Eq; apply list_elem_of_here| |].
    - right. by left.
    - by do 3 right. }
  assert (∀ cpip s',
    (foldM (bwd_pip ctx a r (udata net) cpip) t (getPipsUphill ctx cursor)
     ≫= λ t', Ok (mkBwdState t'
                    (if bool_decide (getPipsUphill ctx cursor = [])
                     then backwards_iter s else backwards_iter s + 1) false))
    = Ok s' →
    bwd_pips_ok ctx r (udata net) src_wire dst_wire (backwards_pip (bs_t s')))
    as Hexp.
  { intros cpip s1 (t' & Hf & H1)%bind_Ok. injection H1 as <-. simpl.
    eapply (λ Hstep, foldM_preserves _
              (λ t, bwd_pips_ok ctx r (udata net) src_wire dst_wire
                      (backwards_pip t)) _ Hstep t t' Hinv Hf).
    intros t1 uh t2 Huh Ht1 [->|(wd & _ & _ & ->)]%bwd_pip_Ok; [done|].
    simpl. intros k v Hk.
    destruct (decide (getPipSrcWire ctx uh = k)) as [<-|Hne].
    - rewrite lookup_insert_eq in Hk. injection Hk as <-.
      by rewrite (Hadj _ _ Huh).
    - rewrite lookup_insert_ne in Hk by done. by eapply Ht1. }
  apply bind_Ok in H as (cwd & _ & H).
  destruct (bound_nets cwd !! udata net) as [b|]; [|by eapply Hexp].
  apply bind_Ok in H as ([fail cursor2] & _ & H).
  destruct (negb fail && _); [|by eapply Hexp].
  apply bind_Ok in H as (bp & Hrec & H). injection H as <-. simpl.
  by eapply bwd_merge_record_ok.
Qed.

Lemma bwd_run_pips_ok fuel ctx a r net src_wire dst_wire n s0 s :
  adjacency_consistent ctx →
  driving_pips_consistent ctx r (udata net) →
  bwd_run fuel ctx a r net src_wire n s0 s →
  bwd_unreserved r (udata net) dst_wire (bs_t s0) →
  bwd_pips_ok ctx r (udata net) src_wire dst_wire (backwards_pip (bs_t s0)) →
  bwd_pips_ok ctx r (udata net) src_wire dst_wire (backwards_pip (bs_t s)).
Proof.
  intros Hadj Hcons. induction 1 as [s|n s s' s'' Hrun IH Hc Hb]; [done|].
  intros Hq Hp. eapply bwd_body_pips_ok; eauto.
  eapply bwd_run_unreserved; eauto.
Qed.

(** The backwards search leaves the priority queue alone. *)
Lemma bwd_run_queue fuel ctx a r net src_wire n s0 s :
  bwd_run fuel ctx a r net src_wire n s0 s →
  queue (bs_t s) = queue (bs_t s0).
Proof.
  induction 1 as [s|n s s' s'' Hrun IH Hc Hb]; [done|].
  rewrite <- IH. clear IH Hrun Hc. unfold bwd_body in Hb.
  destruct (backwards_queue (bs_t s')) as [|cursor q]; [by injection Hb as <-|].
  set (t := set_backwards (bs_t s') q _) in *.
  assert (∀ cpip s1,
    (foldM (bwd_pip ctx a r (udata net) cpip) t (getPipsUphill ctx cursor)
     ≫= λ t', Ok (mkBwdState t'
                    (if bool_decide (getPipsUphill ctx cursor = [])
                     then backwards_iter s' else backwards_iter s' + 1) false))
    = Ok s1 → queue (bs_t s1) = queue (bs_t s')) as Hexp.
  { intros cpip s1 (t' & Hf & H1)%bind_Ok. injection H1 as <-. simpl.
    eapply (λ Hstep, foldM_preserves _ (λ t, queue t = queue (bs_t s')) _ Hstep
                       t t' eq_refl Hf).
    intros t1 uh t2 _ Ht1 [->|(wd & _ & _ & ->)]%bwd_pip_Ok; done. }
  apply bind_Ok in Hb as (cwd & _ & H).
  destruct (bound_nets cwd !! udata net) as [b|]; [|by eapply Hexp].
  apply bind_Ok in H as ([fail cursor2] & _ & H).
  destruct (negb fail && _); [|by eapply Hexp].
  apply bind_Ok in H as (bp & _ & H). by injection H as <-.
Qed.

Lemma bind_pip_internal_arc r net i w pip r' ad :
  bind_pip_internal r net i w pip = Ok r' →
  arc_at r (udata net) i = Ok ad →
  arc_at r' (udata net) i = Ok (set_ad_wires ad (<[w := pip]> (ad_wires ad))).
Proof.
  unfold bind_pip_internal. intros H Had.
  apply bind_Ok in H as (wd & _ & H). apply bind_Ok in H as (second & _ & H).
  apply arc_update_Ok in H as (nd & ad0 & Huid & Hnd & Had0 & ->).
  apply arc_at_Ok in Had as (nd' & _ & Hnd' & Had'). simpl in Hnd.
  rewrite Hnd in Hnd'. injection Hnd' as <-. rewrite Had0 in Had'.
  injection Had' as <-. apply arc_at_Ok.
  eexists. split; [done|]. simpl. split.
  - apply list_lookup_insert_eq. by eapply lookup_lt_Some.
  - simpl. apply list_lookup_insert_eq. by eapply lookup_lt_Some.
Qed.

Lemma bwd_bind_arc ctx net i bp : ∀ fuel r cursor r' c' ad,
  bwd_bind fuel ctx r net i bp cursor = Ok (r', c') →
  arc_at r (udata net) i = Ok ad →
  ∃ ad', arc_at r' (udata net) i = Ok ad'
    ∧ ∀ w, is_Some (ad_wires ad' !! w) →
           is_Some (ad_wires ad !! w)
           ∨ ∃ k v, bp !! k = Some v ∧ w = getPipDstWire ctx v.
Proof.
  induction fuel as [|fuel IH]; intros r cursor r' c' ad H Had; simpl in H.
  - destruct (bp !! cursor); [done|]. injection H as <- <-. eauto.
  - destruct (bp !! cursor) as [v|] eqn:Ev; [|injection H as <- <-; eauto].
    apply bind_Ok in H as (r1 & Hb & H).
    pose proof (bind_pip_internal_arc _ _ _ _ _ _ _ Hb Had) as Had1.
    destruct (IH _ _ _ _ _ H Had1) as (ad' & Had' & Hw).
    exists ad'. split; [done|]. intros w [Hs|Hs]%Hw; [|by right].
    simpl in Hs. destruct (decide (getPipDstWire ctx v = w)) as [<-|Hne].
    + right. eauto.
    + rewrite lookup_insert_ne in Hs by done. by left.
Qed.

Lemma fwd_bind_arc ctx net i vis src_wire : ∀ fuel r cursor r' ad,
  fwd_bind fuel ctx r net i vis src_wire cursor = Ok r' →
  arc_at r (udata net) i = Ok ad →
  ∃ ad', arc_at r' (udata net) i = Ok ad'
    ∧ ∀ w, is_Some (ad_wires ad' !! w) →
           is_Some (ad_wires ad !! w) ∨ is_Some (vis !! w).
Proof.
  induction fuel as [|fuel IH]; intros r cursor r' ad H Had; simpl in H.
  - destruct (vis !! cursor); [done|]. injection H as <-. eauto.
  - destruct (vis !! cursor) as [v|] eqn:Ev; [|injection H as <-; eauto].
    apply bind_Ok in H as (r1 & Hb & H).
    pose proof (bind_pip_internal_arc _ _ _ _ _ _ _ Hb Had) as Had1.
    assert (∀ w, is_Some (ad_wires (set_ad_wires ad
                   (<[cursor := vi_pip v]> (ad_wires ad))) !! w) →
                 is_Some (ad_wires ad !! w) ∨ is_Some (vis !! w)) as Hstep.
    { intros w Hs. simpl in Hs.
      destruct (decide (cursor = w)) as [<-|Hne]; [right; eauto|].
      rewrite lookup_insert_ne in Hs by done. by left. }
    case_bool_decide.
    + case_bool_decide; [|done]. injection H as <-. eauto.
    + destruct (IH _ _ _ _ H Had1) as (ad' & Had' & Hw).
      exists ad'. split; [done|]. intros w [Hs|Hs]%Hw; [|by right].
      by apply Hstep.
Qed.

Lemma route_arc_forward_binds fuel ctx a r t net i is_bb abb src_wire dst_wire
    res a' r' t' ad ad' w :
  queue t = [] →
  route_arc_forward fuel ctx a r t net i is_bb abb src_wire dst_wire
  = Ok (res, a', r', t') →
  arc_at r (udata net) i = Ok ad → arc_at r' (udata net) i = Ok ad' →
  is_Some (ad_wires ad' !! w) →
  is_Some (ad_wires ad !! w) ∨ w = src_wire ∨ ¬ reserved_elsewhere r (udata net) w.
Proof.
  intros Hq H Had Had' Hw. unfold route_arc_forward in H.
  apply bind_Ok in H as (s0 & Hinit & H). apply bind_Ok in H as (s & Hloop & H).
  apply astar_loop_run in Hloop as [n Hrun].
  pose proof (astar_run_unreserved _ _ _ _ _ _ _ src_wire _ _ _ Hrun
                (astar_init_unreserved _ _ _ _ _ _ _ _ _ _ Hinit Hq)) as [_ Hv].
  case_bool_decide.
  - apply bind_Ok in H as (r1 & Hbind & H). injection H as <- <- <- <-.
    destruct (fwd_bind_arc _ _ _ _ _ _ _ _ _ _ Hbind Had) as (ad1 & Had1 & Hsub).
    rewrite Had' in Had1. injection Had1 as <-.
    destruct (Hsub w Hw) as [?|Hvis]; [by left|]. right. by apply Hv.
  - injection H as <- <- <- <-. rewrite Had in Had'. injection Had' as <-.
    by left.
Qed.

(** C6, as the code has it.  In [route_arc] for a net, a wire reserved for
    another net is in the backwards queue only as the sink wire, with which
    the queue is seeded, and in the forward priority queue only as the source
    wire, with which that queue is seeded: no uphill or downhill step of the
    search adds such a wire.  When the device's adjacency and the pips
    recorded for the net are consistent, a wire reserved for another net that
    [route_arc] adds to the arc is an end of the arc or a wire the net holds
    already. *)
Theorem route_arc_reserved_wires (fuel : nat) (ctx : Context) (a : ArchState)
    (r : Router) (t : ThreadContext) (net : NetInfo) (i : nat)
    (is_mt is_bb : bool) (usr : PortRef) :
  users net !! i = Some usr →
  let src_wire := getNetinfoSourceWire ctx net in
  let dst_wire := getNetinfoSinkWire ctx net usr in
  let bwd0 := mkBwdState (set_backwards (set_queue t []) [dst_wire] ∅) 0 false in
  (∀ n s w, bwd_run fuel ctx a r net src_wire n bwd0 s →
            w ∈ backwards_queue (bs_t s) →
            reserved_elsewhere r (udata net) w → w = dst_wire)
  ∧ (∀ t1 abb s0 n s q,
       queue t1 = [] →
       astar_init ctx a r t1 net i abb src_wire dst_wire = Ok s0 →
       astar_run ctx r net i dst_wire is_bb abb n s0 s →
       q ∈ queue (fs_t s) →
       reserved_elsewhere r (udata net) (qw_wire q) → qw_wire q = src_wire)
  ∧ (adjacency_consistent ctx →
     driving_pips_consistent ctx r (udata net) →
     ∀ res a' r' t' ad ad' w,
       route_arc fuel ctx a r t net i is_mt is_bb = Ok (res, a', r', t') →
       arc_at r (udata net) i = Ok ad → arc_at r' (udata net) i = Ok ad' →
       is_Some (ad_wires ad' !! w) →
       reserved_elsewhere r (udata net) w →
       is_Some (ad_wires ad !! w) ∨ w = src_wire ∨ w = dst_wire
       ∨ bound_to r (udata net) w).
Proof.
  intros Hu src_wire dst_wire bwd0.
  assert (bwd_unreserved r (udata net) dst_wire (bs_t bwd0)) as Hq0.
  { intros w. simpl. intros ->%list_elem_of_singleton. by left. }
  split; [|split].
  - intros n s w Hrun Hw Hres.
    destruct (bwd_run_unreserved _ _ _ _ _ _ dst_wire _ _ _ Hrun Hq0 w Hw);
      [done | contradiction].
  - intros t1 abb s0 n s q Hq Hinit Hrun Hin Hres.
    destruct (astar_run_unreserved _ _ _ _ _ _ _ src_wire _ _ _ Hrun
                (astar_init_unreserved _ _ _ _ _ _ _ _ _ _ Hinit Hq)) as [Hqs _].
    destruct (Hqs q Hin); [done | contradiction].
  - intros Hadj Hcons res a' r' t' ad ad' w H Had Had' Hw Hres.
    unfold route_arc in H. rewrite Had in H. simpl in H.
    rewrite (proj2 (vec_at_Ok _ _ _) Hu) in H. simpl in H.
    fold src_wire dst_wire in H.
    assert (r' = r → is_Some (ad_wires ad !! w)) as Hsame.
    { intros ->. rewrite Had in Had'. by injection Had' as <-. }
    case_bool_decide as Hs.
    { unfold ARC_LOG_ERR in H. destruct is_mt; [|done].
      injection H as <- <- <- <-. left. by apply Hsame. }
    case_bool_decide as Hd.
    { unfold ARC_LOG_ERR in H. destruct is_mt; [|done].
      injection H as <- <- <- <-. left. by apply Hsame. }
    case_bool_decide as Hp.
    { injection H as <- <- <- <-. left. by apply Hsame. }
    apply bind_Ok in H as (b & Hloop & H).
    apply bwd_loop_run in Hloop as [n Hrun]. fold bwd0 in Hrun.
    case_bool_decide as Hreach.
    + apply bind_Ok in H as (r1 & Hb1 & H).
      apply bind_Ok in H as ([r2 cursor_fwd] & Hb2 & H).
      case_bool_decide; [|done]. injection H as <- <- <- <-.
      pose proof (bind_pip_internal_arc _ _ _ _ _ _ _ Hb1 Had) as Had1.
      destruct (bwd_bind_arc _ _ _ _ _ _ _ _ _ _ Hb2 Had1) as (ad2 & Had2 & Hsub).
      rewrite Had' in Had2. injection Had2 as <-.
      destruct (Hsub w Hw) as [H1|(k & v & Hk & ->)].
      * simpl in H1. destruct (decide (src_wire = w)) as [<-|Hne]; [by right; left|].
        rewrite lookup_insert_ne in H1 by done. by left.
      * assert (bwd_pips_ok ctx r (udata net) src_wire dst_wire
                  (backwards_pip (bs_t b))) as Hok.
        { eapply bwd_run_pips_ok; eauto. intros ? ? Hx.
          simpl in Hx. by rewrite lookup_empty in Hx. }
        destruct (Hok k v Hk) as [?|[?|[?|?]]]; auto. contradiction.
    + pose proof (bwd_run_queue _ _ _ _ _ _ _ _ _ Hrun) as Hqueue.
      simpl in Hqueue.
      assert (queue (set_visited (bs_t b) ∅) = []) as Hq1 by done.
      destruct (route_arc_forward_binds fuel ctx a r _ net i is_bb _ _ _
                  res a' r' t' ad ad' w Hq1 H Had Had' Hw) as [?|[?|?]]; auto.
      contradiction.
Qed.

Lemma adjacency_consistent_sample : adjacency_consistent Sample.ctx0.
Proof.
  intros w uh. simpl. case_bool_decide; [|by intros ?%not_elem_of_nil].
  intros ->%list_elem_of_singleton. lia.
Qed.

Lemma driving_pips_consistent_sample :
  driving_pips_consistent Sample.ctx0 Sample.router_reserved 0.
Proof.
  assert (map_Forall (λ _ wd, bound_nets wd = ∅) (wires Sample.router_reserved))
    as Hall by (apply (bool_decide_unpack _); vm_compute; exact I).
  intros w wd b Hw Hb. apply Hall in Hw. simpl in Hw. rewrite Hw in Hb.
  by rewrite lookup_empty in Hb.
Qed.

Lemma reserved_elsewhere_sample : reserved_elsewhere Sample.router_reserved 0 5.
Proof. eexists. split; [reflexivity|]. simpl. split; lia. Qed.

Lemma route_arc_reserved_wires_witness :
  is_Some ((∅ : gmap Z Z) !! 5) ∨ 5 = 1 ∨ 5 = 5
  ∨ bound_to Sample.router_reserved 0 5.
Proof.
  destruct (route_arc_reserved_wires 20 Sample.ctx0 Sample.arch0
              Sample.router_reserved Sample.tc0 Sample.net0 0 false true
              (mkPortRef (mkCellInfo 2) 0) eq_refl) as (_ & _ & H).
  refine (H adjacency_consistent_sample driving_pips_consistent_sample
            _ _ _ _ (mkPerArcData ∅ (mkArcBounds 1 0 5 0)) _ 5 _ eq_refl _ _
            reserved_elsewhere_sample).
  - vm_compute. reflexivity.
  - vm_compute. reflexivity.
  - eexists. vm_compute. reflexivity.
Defined.

(** The claim C6 as it is written fails on the sink wire.  On the device
    with the pinch point the set-up of the router reserves wire 5, the sink
    of the net of [udata] 0, for the net of [udata] 1, whose only way leads
    through it; [route_arc] for the first net seeds the backwards queue with
    wire 5 and binds it to the arc. *)
Lemma route_arc_binds_reserved_sink :
  ∃ r, SamplePinch.router_setup = Ok r
    ∧ reserved_elsewhere r (udata SamplePinch.net_n) 5
    ∧ getNetinfoSinkWire SamplePinch.ctx SamplePinch.net_n
        (mkPortRef (mkCellInfo 2) 0) = 5
    ∧ bwd_run 10 SamplePinch.ctx Sample.arch0 r SamplePinch.net_n 1 0
        (mkBwdState (set_backwards (set_queue Sample.tc0 []) [5] ∅) 0 false)
        (mkBwdState (set_backwards (set_queue Sample.tc0 []) [5] ∅) 0 false)
    ∧ 5 ∈ backwards_queue (set_backwards (set_queue Sample.tc0 []) [5] ∅)
    ∧ ∃ a' r' t' ad',
        route_arc 10 SamplePinch.ctx Sample.arch0 r Sample.tc0
          SamplePinch.net_n 0 false true = Ok (ARC_SUCCESS, a', r', t')
        ∧ arc_at r' (udata SamplePinch.net_n) 0 = Ok ad'
        ∧ ad_wires ad' !! 5 = Some 10.
Proof.
  eexists. split; [vm_compute; reflexivity|].
  split.
  { eexists. split; [vm_compute; reflexivity|]. simpl. split; lia. }
  split; [reflexivity|].
  split; [constructor|]. split; [apply list_elem_of_here|].
  eexists _, _, _, _. split; [vm_compute; reflexivity|].
  split; [vm_compute; reflexivity|]. vm_compute. reflexivity.
Qed.

(** * Further properties of the router *)

Import Router2Inv.
Import Sample SampleRouted.

(** ** Rip-up of an arc *)

Lemma released_source_uses uid wd :
  source_uses (released uid wd) uid = source_uses wd uid - 1.
Proof.
  unfold released, source_uses at 1. simpl.
  destruct (Z.eqb_spec (source_uses wd uid - 1) 0) as [E|E].
  - rewrite lookup_delete_eq. lia.
  - by rewrite lookup_insert_eq.
Qed.

Lemma released_other uid wd m :
  m ≠ uid → bound_nets (released uid wd) !! m = bound_nets wd !! m.
Proof.
  intros Hm. unfold released. simpl.
  destruct (source_uses wd uid - 1 =? 0).
  - by rewrite lookup_delete_ne.
  - by rewrite lookup_insert_ne.
Qed.

Lemma released_refcount_ok uid wd :
  refcount_ok wd → is_Some (bound_nets wd !! uid) → refcount_ok (released uid wd).
Proof.
  intros Hok Hsome. unfold released.
  destruct (Z.eqb_spec (source_uses wd uid - 1) 0) as [E|E].
  - by apply refcount_ok_delete.
  - apply refcount_ok_insert; [done|]. apply Hok in Hsome. lia.
Qed.

Lemma elem_of_map_keys {A} (m : gmap Z A) w :
  w ∈ (map_to_list m).*1 ↔ is_Some (m !! w).
Proof.
  rewrite list_elem_of_fmap. split.
  - intros ([k x] & -> & H%elem_of_map_to_list). eauto.
  - intros [x H]. exists (w, x). split; [done|]. by apply elem_of_map_to_list.
Qed.

(** The loop of [ripup_arc] over the wires [l] of the arc. *)
Lemma ripup_arc_loop net user : ∀ (l : list (Z * PipId)) r,
  NoDup l.*1 → (∀ w, w ∈ l.*1 → is_Some (wires r !! w)) →
  ∃ r', foldM (λ r0 wp, unbind_pip_internal r0 net user wp.1 true) r l = Ok r'
    ∧ nets r' = nets r
    ∧ ∀ w, wires r' !! w = if decide (w ∈ l.*1)
                           then released (udata net) <$> wires r !! w
                           else wires r !! w.
Proof.
  induction l as [|[w0 p0] l IH]; intros r Hnd Hin; simpl.
  - exists r. split; [done|]. split; [done|]. intros w.
    done.
  - apply NoDup_cons in Hnd as [Hw0 Hnd].
    destruct (Hin w0) as [wd0 Hwd0]; [apply list_elem_of_here|].
    destruct (unbind_pip_internal r net user w0 true) as [r1|e] eqn:E1.
    2:{ unfold unbind_pip_internal in E1.
        rewrite (proj2 (map_at_Ok _ _ _) Hwd0) in E1. discriminate. }
    pose proof (unbind_pip_internal_wire _ _ _ _ _ _ E1) as (wd & Hwd & Hws).
    assert (wd = wd0) as -> by congruence.
    assert (nets r1 = nets r) as Hn1.
    { unfold unbind_pip_internal in E1.
      rewrite (proj2 (map_at_Ok _ _ _) Hwd0) in E1. simpl in E1.
      by injection E1 as <-. }
    destruct (IH r1 Hnd) as (r' & Hf & Hn & Hw).
    { intros w Hwl. rewrite Hws.
      destruct (decide (w = w0)) as [->|Hne].
      - rewrite lookup_insert_eq. eauto.
      - rewrite lookup_insert_ne by done. apply Hin. by apply list_elem_of_further. }
    exists r'. simpl. split; [exact Hf|]. split; [congruence|].
    intros w. rewrite Hw, Hws.
    destruct (decide (w = w0)) as [->|Hne].
    + rewrite (decide_False (P := w0 ∈ l.*1)) by done.
      rewrite decide_True by apply list_elem_of_here.
      rewrite lookup_insert_eq, Hwd0. done.
    + rewrite lookup_insert_ne by done.
      destruct (decide (w ∈ l.*1)) as [Hl|Hl].
      * rewrite decide_True; [done | by apply list_elem_of_further].
      * rewrite decide_False; [done|]. rewrite not_elem_of_cons. done.
Qed.

(** X1.  [ripup_arc] succeeds on an arc all of whose wires the router
    knows.  It leaves the arc without wires; on every wire of the arc the
    count of the net goes down by exactly one, on every other wire it stays;
    the entries of the other nets, the history, the lock and the
    reservation of every wire are kept, and so are counts of at least 1 on a
    wire on which the net had an entry. *)
Theorem ripup_arc_releases (r : Router) (net : NetInfo) (user : nat)
    (ad : PerArcData) :
  arc_at r (udata net) user = Ok ad →
  (∀ w, is_Some (ad_wires ad !! w) → is_Some (wires r !! w)) →
  ∃ r', ripup_arc r net user = Ok r'
    ∧ arc_at r' (udata net) user = Ok (set_ad_wires ad ∅)
    ∧ ∀ w wd, wires r !! w = Some wd →
        ∃ wd', wires r' !! w = Some wd'
          ∧ source_uses wd' (udata net)
            = source_uses wd (udata net)
              - (if decide (is_Some (ad_wires ad !! w)) then 1 else 0)
          ∧ (∀ m, m ≠ udata net → bound_nets wd' !! m = bound_nets wd !! m)
          ∧ same_static wd wd'
          ∧ (refcount_ok wd → is_Some (bound_nets wd !! udata net) →
             refcount_ok wd').
Proof.
  intros Harc Hknown. unfold ripup_arc. rewrite Harc. simpl.
  destruct (ripup_arc_loop net user (map_to_list (ad_wires ad)) r)
    as (r1 & Hf & Hn & Hw).
  { apply NoDup_fst_map_to_list. }
  { intros w Hw%elem_of_map_keys. by apply Hknown. }
  rewrite Hf. simpl.
  apply arc_at_Ok in Harc as (nd & Huid & Hnd & Had).
  unfold arc_update. rewrite <- Hn in Hnd.
  rewrite (proj2 (vec_at_int_Ok _ _ _) (conj Huid Hnd)). simpl.
  rewrite (proj2 (vec_at_Ok _ _ _) Had). simpl.
  eexists. split; [done|]. split.
  { apply arc_at_Ok. eexists. split; [done|]. simpl. split.
    - apply list_lookup_insert_eq. by eapply lookup_lt_Some.
    - simpl. apply list_lookup_insert_eq. by eapply lookup_lt_Some. }
  intros w wd Hwd. simpl. rewrite Hw, Hwd.
  destruct (decide (w ∈ (map_to_list (ad_wires ad)).*1)) as [Hin|Hin].
  - exists (released (udata net) wd). split; [done|].
    apply elem_of_map_keys in Hin.
    rewrite decide_True by done.
    split; [apply released_source_uses|].
    split; [intros; by apply released_other|].
    split; [done|]. apply released_refcount_ok.
  - exists wd. split; [done|].
    rewrite decide_False.
    2:{ intros Hp. apply Hin. by apply elem_of_map_keys. }
    split; [lia|]. split; [done|]. split; [done|]. done.
Qed.

Lemma routed_wires_known_sample w :
  is_Some (ad_wires arc_routed !! w) → is_Some (wires router_routed !! w).
Proof.
  assert (dom (ad_wires arc_routed) ⊆ dom (wires router_routed)) as Hsub
    by (apply (bool_decide_unpack _); vm_compute; exact I).
  intros H%elem_of_dom. by apply elem_of_dom, Hsub.
Qed.

Lemma ripup_arc_releases_witness :
  ∃ r', ripup_arc router_routed net0 0 = Ok r'
        ∧ arc_at r' (udata net0) 0 = Ok (set_ad_wires arc_routed ∅).
Proof.
  destruct (ripup_arc_releases router_routed net0 0 arc_routed eq_refl
              routed_wires_known_sample) as (r' & H1 & H2 & _).
  exists r'. split; [exact H1 | exact H2].
Defined.

(** ** The route check of an arc *)

Lemma check_arc_walk_chain ctx r ad src : ∀ fuel cursor,
  check_arc_walk fuel ctx r ad cursor = Ok (Some src)
  ↔ ∃ n, (n ≤ fuel)%nat ∧ arc_chain ctx r ad src n cursor.
Proof.
  induction fuel as [|fuel IH]; intros cursor.
  - simpl. destruct (ad_wires ad !! cursor) as [uh|] eqn:E.
    + split; [discriminate|]. intros (n & Hn & Hc).
      assert (n = 0%nat) as -> by lia. inversion Hc; congruence.
    + split.
      * intros [= <-]. exists 0%nat. split; [done|]. by constructor.
      * intros (n & Hn & Hc). inversion Hc; congruence.
  - simpl. destruct (ad_wires ad !! cursor) as [uh|] eqn:E.
    + destruct (wires r !! cursor) as [wd|] eqn:Ew.
      2:{ unfold map_at. rewrite Ew. simpl. split; [discriminate|].
          intros (n & Hn & Hc). inversion Hc; congruence. }
      rewrite (proj2 (map_at_Ok _ _ _) Ew). simpl.
      case_bool_decide as Hsz.
      { split; [discriminate|]. intros (n & Hn & Hc).
        inversion Hc; subst; congruence. }
      case_bool_decide as Huh.
      { subst uh. split.
        - intros [= <-]. exists 1%nat. split; [lia|]. by econstructor.
        - intros (n & Hn & Hc). inversion Hc; subst; congruence. }
      rewrite IH. split.
      * intros (n & Hn & Hc). exists (S n). split; [lia|]. by econstructor.
      * intros (n & Hn & Hc). inversion Hc; subst; try congruence.
        exists n0. split; [lia|]. congruence.
    + split.
      * intros [= <-]. exists 0%nat. split; [lia|]. by constructor.
      * intros (n & Hn & Hc). inversion Hc; congruence.
Qed.

(** X2.  [check_arc_routing] returns true exactly when the pips recorded
    for the arc lead from the sink wire back to the source wire over wires
    of the arc that carry one net only (and the walk takes no more steps
    than the model's bound).  For an arc without wires the answer is
    whether sink and source are the same wire. *)
Theorem check_arc_routing_chain (fuel : nat) (ctx : Context) (r : Router)
    (net : NetInfo) (usr : nat) (ad : PerArcData) (u : PortRef) :
  arc_at r (udata net) usr = Ok ad →
  users net !! usr = Some u →
  (check_arc_routing fuel ctx r net usr = Ok true
   ↔ ∃ n, (n ≤ fuel)%nat
          ∧ arc_chain ctx r ad (getNetinfoSourceWire ctx net) n
              (getNetinfoSinkWire ctx net u))
  ∧ (ad_wires ad = ∅ →
     check_arc_routing fuel ctx r net usr
     = Ok (bool_decide (getNetinfoSinkWire ctx net u
                        = getNetinfoSourceWire ctx net))).
Proof.
  intros Harc Hu. unfold check_arc_routing. rewrite Harc. simpl.
  rewrite (proj2 (vec_at_Ok _ _ _) Hu). simpl. split.
  - rewrite <- check_arc_walk_chain.
    destruct (check_arc_walk fuel ctx r ad (getNetinfoSinkWire ctx net u))
      as [[c|]|e]; simpl.
    + case_bool_decide; split; congruence.
    + split; discriminate.
    + split; discriminate.
  - intros Hempty.
    assert (check_arc_walk fuel ctx r ad (getNetinfoSinkWire ctx net u)
            = Ok (Some (getNetinfoSinkWire ctx net u))) as ->.
    { destruct fuel; simpl; by rewrite Hempty, lookup_empty. }
    done.
Qed.

Lemma check_arc_routing_chain_witness :
  ∃ n, (n ≤ 10)%nat
       ∧ arc_chain ctx0 router_routed arc_routed
           (getNetinfoSourceWire ctx0 net0) n
           (getNetinfoSinkWire ctx0 net0 (mkPortRef (mkCellInfo 2) 0)).
Proof.
  apply (proj1 (check_arc_routing_chain 10 ctx0 router_routed net0 0
                  arc_routed (mkPortRef (mkCellInfo 2) 0) eq_refl eq_refl)).
  vm_compute. reflexivity.
Defined.

(** ** The order of the priority queue *)

Lemma Greater_spec lhs rhs :
  Greater lhs rhs = true
  ↔ (total (qw_score rhs) < total (qw_score lhs))%Q
    ∨ ((total (qw_score lhs) == total (qw_score rhs))%Q
       ∧ randtag rhs < randtag lhs).
Proof.
  unfold Greater, total.
  destruct (Qeq_bool _ _) eqn:E.
  - apply Qeq_bool_iff in E. rewrite Z.ltb_lt. split.
    + intros H. right. done.
    + intros [H|[_ H]]; [lra | done].
  - rewrite Qltb_lt. split; [by left|]. intros [H|[H _]]; [done|].
    apply Qeq_bool_iff in H. congruence.
Qed.

Lemma Greater_neg a b :
  Greater a b = false
  ↔ (total (qw_score a) < total (qw_score b))%Q
    ∨ ((total (qw_score a) == total (qw_score b))%Q ∧ randtag a ≤ randtag b).
Proof.
  rewrite <- not_true_iff_false, Greater_spec. split.
  - intros H.
    destruct (Q_dec (total (qw_score a)) (total (qw_score b))) as [[Hlt|Hgt]|Heq].
    + by left.
    + destruct H. by left.
    + right. split; [done|].
      destruct (Z_lt_le_dec (randtag b) (randtag a)); [|done].
      destruct H. right. done.
  - intros [H|[H1 H2]] [H'|[H1' H2']]; [lra | lra | lra | lia].
Qed.

Lemma Greater_irrefl x : Greater x x = false.
Proof. apply Greater_neg. right. split; [reflexivity | lia]. Qed.

Lemma Greater_trans x y z :
  Greater x y = true → Greater y z = true → Greater x z = true.
Proof.
  rewrite !Greater_spec. intros [H1|[H1 H1']] [H2|[H2 H2']].
  - left. lra.
  - left. lra.
  - left. lra.
  - right. split; [lra | lia].
Qed.

Lemma Greater_neg_trans x y z :
  Greater x y = false → Greater y z = false → Greater x z = false.
Proof.
  rewrite !Greater_neg. intros [H1|[H1 H1']] [H2|[H2 H2']].
  - left. lra.
  - left. lra.
  - left. lra.
  - right. split; [lra | lia].
Qed.

(** X3.  [QueuedWire::Greater] is a strict weak ordering, as the priority
    queue requires of its comparison: no entry is above itself, the order
    is transitive, and so is being not above.  Two entries of which neither
    is above the other have the same total score and the same tag.  This is
    for scores read as exact numbers. *)
Theorem Greater_strict_weak_order (x y z : QueuedWire) :
  Greater x x = false
  ∧ (Greater x y = true → Greater y z = true → Greater x z = true)
  ∧ (Greater x y = false → Greater y z = false → Greater x z = false)
  ∧ (Greater x y = false → Greater y x = false →
     (total (qw_score x) == total (qw_score y))%Q ∧ randtag x = randtag y).
Proof.
  split; [apply Greater_irrefl|].
  split; [apply Greater_trans|].
  split; [apply Greater_neg_trans|].
  rewrite !Greater_neg. intros [H1|[H1 H1']] [H2|[H2 H2']].
  - lra.
  - lra.
  - lra.
  - split; [done | lia].
Qed.

(** What [pq_extract] takes off the queue is an entry that is above no
    entry left, and the entries are the same ones. *)
Lemma pq_extract_least : ∀ q x m rest,
  pq_extract x q = (m, rest) →
  m :: rest ≡ₚ x :: q ∧ Greater m x = false
  ∧ ∀ y, y ∈ rest → Greater m y = false.
Proof.
  induction q as [|y q IH]; intros x m rest H; simpl in H.
  - injection H as <- <-. split; [done|]. split; [apply Greater_irrefl|].
    intros y Hy. by apply not_elem_of_nil in Hy.
  - destruct (Greater x y) eqn:G.
    + destruct (pq_extract y q) as [m' rest'] eqn:E. injection H as <- <-.
      destruct (IH _ _ _ E) as (Hp & Hy & Hl).
      assert (Greater m' x = false) as Hx.
      { destruct (Greater m' x) eqn:G'; [|done].
        by rewrite (Greater_trans _ _ _ G' G) in Hy. }
      split; [|split; [done|]].
      * rewrite (Permutation_swap x m' rest'). by rewrite Hp.
      * intros z [->|Hz]%elem_of_cons; [done | by apply Hl].
    + destruct (pq_extract x q) as [m' rest'] eqn:E. injection H as <- <-.
      destruct (IH _ _ _ E) as (Hp & Hx & Hl).
      split; [|split; [done|]].
      * rewrite (Permutation_swap y m' rest'), Hp. apply Permutation_swap.
      * intros z [->|Hz]%elem_of_cons; [|by apply Hl].
        by apply (Greater_neg_trans _ x).
Qed.

Lemma astar_pip_queue ctx r net i dst_wire is_bb abb curr s dh s' :
  astar_pip ctx r net i dst_wire is_bb abb curr s dh = Ok s' →
  iter s' = iter s ∧ ∃ new, queue (fs_t s') = queue (fs_t s) ++ new.
Proof.
  unfold astar_pip. intros H.
  repeat (match type of H with
          | (if ?c then _ else _) = _ => destruct c eqn:?
          | (_ ≫= _) = _ => apply bind_Ok in H as (? & ? & H)
          | (let '(_, _) := ?x in _) = _ => destruct x eqn:?
          | Ok _ = Ok _ => injection H as <-
          end; simpl in *);
    try (split; [done|]; exists []; by rewrite app_nil_r).
  split; [done|]. eauto.
Qed.

(** X4.  A round of the forward loop takes off the queue an entry of least
    total score (among those of least score, one of least tag): no entry
    left in the queue is below it.  The round counts one iteration, looks at
    the downhill pips of that entry's wire, and only adds to the entries
    left. *)
Theorem astar_body_expands_least (ctx : Context) (r : Router) (net : NetInfo)
    (i : nat) (dst_wire : WireId) (is_bb : bool) (abb : ArcBounds)
    (s s' : FwdState) :
  queue (fs_t s) ≠ [] →
  astar_body ctx r net i dst_wire is_bb abb s = Ok s' →
  ∃ curr rest new,
    queue (fs_t s) ≡ₚ curr :: rest
    ∧ (∀ y, y ∈ queue (fs_t s) →
         (total (qw_score curr) <= total (qw_score y))%Q
         ∧ ((total (qw_score curr) == total (qw_score y))%Q →
            randtag curr ≤ randtag y))
    ∧ foldM (astar_pip ctx r net i dst_wire is_bb abb curr)
        (mkFwdState (set_queue (fs_t s) rest) (fs_a s) (toexplore s)
           (iter s + 1) (explored s))
        (getPipsDownhill ctx (qw_wire curr)) = Ok s'
    ∧ iter s' = iter s + 1
    ∧ queue (fs_t s') = rest ++ new.
Proof.
  intros Hne H. unfold astar_body in H.
  destruct (queue (fs_t s)) as [|x q] eqn:Eq; [done|].
  destruct (pq_extract x q) as [curr rest] eqn:E.
  destruct (pq_extract_least _ _ _ _ E) as (Hp & Hx & Hl).
  assert (iter s' = iter s + 1 ∧ ∃ new, queue (fs_t s') = rest ++ new) as [Hi [new Hq]].
  { eapply (foldM_inv _ (λ s1 s2, iter s2 = iter s1
                           ∧ ∃ new, queue (fs_t s2) = queue (fs_t s1) ++ new))
      in H; [exact H| | |].
    - intros s0. split; [done|]. exists []. by rewrite app_nil_r.
    - intros s1 s2 s3 [H1 [n1 Hn1]] [H2 [n2 Hn2]]. split; [congruence|].
      exists (n1 ++ n2). by rewrite Hn2, Hn1, app_assoc.
    - intros s1 dh s2 Hs. by eapply astar_pip_queue. }
  exists curr, rest, new. split; [by rewrite Hp|].
  split; [|done].
  intros y Hy. rewrite <- Hp in Hy.
  assert (Greater curr y = false) as G.
  { apply elem_of_cons in Hy as [->|Hy]; [apply Greater_irrefl | by apply Hl]. }
  apply Greater_neg in G as [G|[G1 G2]]; split; try lra; try done.
Qed.

Lemma astar_body_expands_least_witness :
  ∃ s0 s', astar_init ctx0 arch0 router_line tc0 net0 0 (mkArcBounds 1 0 5 0) 1 5
           = Ok s0
         ∧ astar_body ctx0 router_line net0 0 5 true (mkArcBounds 1 0 5 0) s0
           = Ok s'
         ∧ iter s' = iter s0 + 1.
Proof.
  eexists _, _. split; [vm_compute; reflexivity|].
  split; [vm_compute; reflexivity|].
  match goal with
  | |- iter ?s' = iter ?s0 + 1 =>
      assert (queue (fs_t s0) ≠ []) as Hq by (vm_compute; discriminate);
      assert (astar_body ctx0 router_line net0 0 5 true (mkArcBounds 1 0 5 0) s0
              = Ok s') as Hb by (vm_compute; reflexivity);
      destruct (astar_body_expands_least ctx0 router_line net0 0 5 true
                  (mkArcBounds 1 0 5 0) s0 s' Hq Hb)
        as (curr & rest & new & _ & _ & _ & Hit & _)
  end.
  exact Hit.
Defined.

(** ** Set-up of the wires *)

Lemma setup_wires_wire_seeded a ws w :
  setup_wires_wire a ws w
  = <[w := seeded a w (default PerWireData_default (ws !! w))]> ws.
Proof.
  unfold setup_wires_wire, seeded.
  destruct (wire_bind a !! w) as [pm|]; [|done].
  by destruct (strength_gt _ _).
Qed.

Lemma seeded_idemp a w wd : seeded a w (seeded a w wd) = seeded a w wd.
Proof.
  unfold seeded. destruct (wire_bind a !! w) as [pm|]; [|done].
  simpl. rewrite insert_insert_eq.
  by destruct (strength_gt _ _).
Qed.

Lemma setup_wires_fold a : ∀ l ws w,
  fold_left (setup_wires_wire a) l ws !! w
  = if decide (w ∈ l)
    then Some (seeded a w (default PerWireData_default (ws !! w)))
    else ws !! w.
Proof.
  induction l as [|w0 l IH]; intros ws w; cbn [fold_left].
  - destruct (decide _) as [Hw|Hw]; [by apply not_elem_of_nil in Hw | done].
  - rewrite IH, setup_wires_wire_seeded.
    destruct (decide (w = w0)) as [->|Hne].
    + rewrite lookup_insert_eq. simpl.
      rewrite (decide_True (P := w0 ∈ w0 :: l)) by apply list_elem_of_here.
      destruct (decide (w0 ∈ l)); [by rewrite seeded_idemp | done].
    + rewrite lookup_insert_ne by done.
      destruct (decide (w ∈ l)) as [Hl|Hl].
      * rewrite decide_True; [done | by apply list_elem_of_further].
      * rewrite decide_False; [done|]. rewrite not_elem_of_cons. done.
Qed.

(** X5.  From an empty table [setup_wires] gives an entry to the wires of
    the device and to no other.  A wire the device binds to no net has the
    initial data; a wire bound to a net has that net as its only entry,
    with a count of 1 and the pip of the device, and is locked exactly when
    the binding is above STRONG.  No wire is reserved and every history cost
    is 1. *)
Theorem setup_wires_table (ctx : Context) (a : ArchState) (r : Router)
    (w : WireId) :
  wires r = ∅ →
  wires (setup_wires ctx a r) !! w
  = if decide (w ∈ getWires ctx)
    then Some match wire_bind a !! w with
              | None => PerWireData_default
              | Some pm =>
                  mkPerWireData {[pm_net pm := (1, pm_pip pm)]} 1
                    (strength_gt (pm_strength pm) STRENGTH_STRONG) (-1)
              end
    else None.
Proof.
  intros Hempty. unfold setup_wires. simpl.
  rewrite setup_wires_fold, Hempty, lookup_empty. simpl.
  destruct (decide _); [|done]. f_equal.
  unfold seeded. destruct (wire_bind a !! w) as [pm|]; [|done]. simpl.
  rewrite insert_empty. by destruct (strength_gt _ _).
Qed.

Lemma setup_wires_table_witness :
  wires (setup_wires ctx0 arch_prerouted router_empty) !! 5
  = if decide (5 ∈ getWires ctx0)
    then Some match wire_bind arch_prerouted !! 5 with
              | None => PerWireData_default
              | Some pm =>
                  mkPerWireData {[pm_net pm := (1, pm_pip pm)]} 1
                    (strength_gt (pm_strength pm) STRENGTH_STRONG) (-1)
              end
    else None.
Proof. exact (setup_wires_table ctx0 arch_prerouted router_empty 5 eq_refl). Defined.

(** ** Reserved wires *)

Lemma reserved_more_refl uid ws : reserved_more uid ws ws.
Proof. intros w. by left. Qed.

Lemma reserved_more_trans uid ws1 ws2 ws3 :
  reserved_more uid ws1 ws2 → reserved_more uid ws2 ws3 →
  reserved_more uid ws1 ws3.
Proof.
  intros H1 H2 w. destruct (H2 w) as [E2|(wd2 & E2 & E2')].
  - rewrite E2. apply H1.
  - destruct (H1 w) as [E1|(wd1 & E1 & E1')].
    + right. exists wd2. split; congruence.
    + right. exists wd1. split; [done|]. rewrite E2'.
      assert (wd2 = set_reserved_net wd1 uid) as -> by congruence. done.
Qed.

Lemma reserved_more_insert uid ws w wd :
  ws !! w = Some wd → reserved_more uid ws (<[w := set_reserved_net wd uid]> ws).
Proof.
  intros Hw w'. destruct (decide (w' = w)) as [->|Hne].
  - right. exists wd. by rewrite lookup_insert_eq.
  - left. by rewrite lookup_insert_ne.
Qed.

Lemma reserved_more_keeps uid ws ws' w wd :
  reserved_more uid ws ws' → ws !! w = Some wd → reserved_net wd = uid →
  ∃ wd', ws' !! w = Some wd' ∧ reserved_net wd' = uid.
Proof.
  intros H Hw Hr. destruct (H w) as [E|(wd1 & E & E')].
  - exists wd. split; congruence.
  - eexists. split; [exact E'|]. done.
Qed.

Lemma reserve_walk_more ctx uid src : ∀ fuel ws cursor ws',
  reserve_walk fuel ctx uid src ws cursor = Ok ws' →
  reserved_more uid ws ws'
  ∧ ∃ wd, ws' !! cursor = Some wd ∧ reserved_net wd = uid.
Proof.
  induction fuel as [|fuel IH]; intros ws cursor ws' H; simpl in H; [done|].
  apply bind_Ok in H as (wd & Hwd%map_at_Ok & H).
  pose proof (reserved_more_insert uid ws cursor wd Hwd) as Hins.
  assert (∃ wd', <[cursor := set_reserved_net wd uid]> ws !! cursor = Some wd'
                 ∧ reserved_net wd' = uid) as Hcur.
  { eexists. by rewrite lookup_insert_eq. }
  case_bool_decide; [by injection H as <-|].
  destruct (reserve_pick _ _ _) as [next_cursor done].
  case_bool_decide; [by injection H as <-|].
  destruct done; [by injection H as <-|].
  apply IH in H as [Hm _]. split.
  - by eapply reserved_more_trans.
  - destruct Hcur as (wd' & Hc & Hr). by eapply reserved_more_keeps.
Qed.

(** X6.  [reserve_wires_for_arc] writes nothing but reservations for the
    net of the arc: every wire keeps its data or has its data with
    [reserved_net] set to the net; nets, histories, locks and bound nets are
    as before.  The sink wire of the arc is always among the wires reserved,
    and an arc whose user port has no wire reserves nothing. *)
Theorem reserve_wires_for_arc_frame (fuel : nat) (ctx : Context) (r r' : Router)
    (net : NetInfo) (i : nat) (usr : PortRef) :
  users net !! i = Some usr →
  reserve_wires_for_arc fuel ctx r net i = Ok r' →
  r' = set_wires r (wires r')
  ∧ reserved_more (udata net) (wires r) (wires r')
  ∧ (getNetinfoSinkWire ctx net usr = WireId_null → r' = r)
  ∧ (getNetinfoSinkWire ctx net usr ≠ WireId_null →
     ∃ wd, wires r' !! getNetinfoSinkWire ctx net usr = Some wd
           ∧ reserved_net wd = udata net).
Proof.
  intros Hu H. unfold reserve_wires_for_arc in H.
  rewrite (proj2 (vec_at_Ok _ _ _) Hu) in H. simpl in H.
  case_bool_decide as Hsink.
  - injection H as <-. split; [by destruct r|].
    split; [apply reserved_more_refl|]. done.
  - apply bind_Ok in H as (ws & Hw & H). injection H as <-.
    apply reserve_walk_more in Hw as [Hm Hs]. simpl.
    split; [done|]. split; [done|]. split; done.
Qed.

Lemma reserve_wires_for_arc_frame_witness :
  ∃ r', reserve_wires_for_arc 10 ctx0 router_line net0 0 = Ok r'
        ∧ reserved_more (udata net0) (wires router_line) (wires r').
Proof.
  eexists. split; [vm_compute; reflexivity|].
  refine (proj1 (proj2 (reserve_wires_for_arc_frame 10 ctx0 router_line _ net0 0
                          (mkPortRef (mkCellInfo 2) 0) eq_refl _))).
  vm_compute. reflexivity.
Defined.

Lemma reserve_pick_found ctx nc : ∀ pips,
  nc ≠ WireId_null →
  reserve_pick ctx nc pips
  = (nc, bool_decide (driveable_pips ctx pips ≠ [])).
Proof.
  intros pips Hnc. induction pips as [|uh pips IH]; simpl; [done|].
  unfold driveable_pips. rewrite filter_cons.
  destruct (is_wire_undriveable ctx (getPipSrcWire ctx uh)) eqn:E.
  - rewrite decide_False by done. exact IH.
  - rewrite decide_True by done.
    rewrite (bool_decide_true (nc ≠ WireId_null)) by done.
    by rewrite bool_decide_true.
Qed.

(** X7.  The look at the uphill pips of a wire in [reserve_wires_for_arc]
    finds whether the way back is forced.  With no pip from a driveable
    wire the walk ends; with exactly one it goes on to the wire that pip
    comes from; with two or more it ends at the branch, and it does so also
    when the pips come from one and the same wire. *)
Theorem reserve_pick_branch (ctx : Context) (pips : list PipId) :
  (∀ uh, uh ∈ driveable_pips ctx pips → getPipSrcWire ctx uh ≠ WireId_null) →
  reserve_pick ctx WireId_null pips
  = match driveable_pips ctx pips with
    | [] => (WireId_null, false)
    | [uh] => (getPipSrcWire ctx uh, false)
    | uh :: _ :: _ => (getPipSrcWire ctx uh, true)
    end.
Proof.
  induction pips as [|uh pips IH]; intros Hsrc; simpl; [done|].
  unfold driveable_pips in *. rewrite filter_cons in *.
  destruct (is_wire_undriveable ctx (getPipSrcWire ctx uh)) eqn:E.
  - rewrite decide_False in * by done. by apply IH.
  - rewrite decide_True in * by done.
    rewrite reserve_pick_found by (apply Hsrc, list_elem_of_here).
    unfold driveable_pips.
    destruct (filter _ pips); [by rewrite bool_decide_false by (intros H; by apply H)|].
    by rewrite bool_decide_true.
Qed.

Lemma reserve_pick_branch_witness :
  reserve_pick SamplePinch.ctx WireId_null [10; 11]
  = match driveable_pips SamplePinch.ctx [10; 11] with
    | [] => (WireId_null, false)
    | [uh] => (getPipSrcWire SamplePinch.ctx uh, false)
    | uh :: _ :: _ => (getPipSrcWire SamplePinch.ctx uh, true)
    end.
Proof.
  apply reserve_pick_branch. apply Forall_forall.
  apply (bool_decide_unpack _). vm_compute. exact I.
Defined.

Lemma reserved_by_refl P ws : reserved_by P ws ws.
Proof. intros w. by left. Qed.

Lemma reserved_by_trans P ws1 ws2 ws3 :
  reserved_by P ws1 ws2 → reserved_by P ws2 ws3 → reserved_by P ws1 ws3.
Proof.
  intros H1 H2 w. destruct (H2 w) as [E2|(wd2 & u2 & Hu2 & E2 & E2')].
  - rewrite E2. apply H1.
  - destruct (H1 w) as [E1|(wd1 & u1 & Hu1 & E1 & E1')].
    + right. exists wd2, u2. split; [done|]. split; congruence.
    + right. exists wd1, u2. split; [done|]. split; [done|]. rewrite E2'.
      assert (wd2 = set_reserved_net wd1 u1) as -> by congruence. done.
Qed.

Lemma reserved_more_by (P : Z → Prop) uid ws ws' :
  P uid → reserved_more uid ws ws' → reserved_by P ws ws'.
Proof.
  intros HP H w. destruct (H w) as [E|(wd & E & E')]; [by left|].
  right. by exists wd, uid.
Qed.

Lemma reserve_wires_for_arc_more fuel ctx r net i r' :
  reserve_wires_for_arc fuel ctx r net i = Ok r' →
  r' = set_wires r (wires r') ∧ reserved_more (udata net) (wires r) (wires r').
Proof.
  intros H. unfold reserve_wires_for_arc in H.
  apply bind_Ok in H as (usr & _ & H).
  case_bool_decide as Hsink.
  - injection H as <-. split; [by destruct r | apply reserved_more_refl].
  - apply bind_Ok in H as (ws & Hw & H). injection H as <-.
    apply reserve_walk_more in Hw as [Hm _]. by split.
Qed.

(** X29.  [find_all_reserved_wires] writes nothing but reservations, and
    only for nets that have a source wire: every wire keeps its data or has
    its data with [reserved_net] set to the [udata] of a net of the design
    whose source wire is not null; where the walks of two nets meet, the
    wire is left reserved for one of them.  No wire is added or lost and
    nothing else in the router changes. *)
Theorem find_all_reserved_wires_frame (fuel : nat) (ctx : Context)
    (r r' : Router) :
  find_all_reserved_wires fuel ctx r = Ok r' →
  r' = set_wires r (wires r')
  ∧ dom (wires r') = dom (wires r)
  ∧ reserved_by
      (λ uid, ∃ net, net ∈ nets_by_udata r ∧ udata net = uid
                     ∧ getNetinfoSourceWire ctx net ≠ WireId_null)
      (wires r) (wires r').
Proof.
  unfold find_all_reserved_wires.
  set (P := λ uid, ∃ net, net ∈ nets_by_udata r ∧ udata net = uid
                          ∧ getNetinfoSourceWire ctx net ≠ WireId_null).
  assert (∀ l r0 r1,
    (∀ net, net ∈ l → net ∈ nets_by_udata r) →
    foldM (λ r0 net,
             if bool_decide (getNetinfoSourceWire ctx net = WireId_null) then Ok r0
             else foldM (λ r1 i, reserve_wires_for_arc fuel ctx r1 net i) r0
                    (seq 0 (length (users net)))) r0 l = Ok r1 →
    r1 = set_wires r0 (wires r1) ∧ reserved_by P (wires r0) (wires r1)) as Hgen.
  { induction l as [|net l IH]; intros r0 r1 Hl H; simpl in H.
    - injection H as <-. split; [by destruct r0 | apply reserved_by_refl].
    - apply bind_Ok in H as (r2 & H2 & H).
      apply IH in H as [E1 E2];
        [|intros n Hn; by apply Hl, list_elem_of_further].
      assert (r2 = set_wires r0 (wires r2) ∧ reserved_by P (wires r0) (wires r2))
        as [F1 F2].
      { case_bool_decide as Hsrc.
        - injection H2 as <-. split; [by destruct r0 | apply reserved_by_refl].
        - assert (P (udata net)) as HP.
          { exists net. split; [apply Hl, list_elem_of_here | done]. }
          clear -H2 HP. revert r0 r2 H2.
          induction (seq 0 (length (users net))) as [|i l0 IHi];
            intros r0 r2 H2; simpl in H2.
          + injection H2 as <-. split; [by destruct r0 | apply reserved_by_refl].
          + apply bind_Ok in H2 as (r3 & H3 & H2).
            apply reserve_wires_for_arc_more in H3 as [G1 G2].
            apply IHi in H2 as [G3 G4]. split.
            * rewrite G3. rewrite G1 at 1. done.
            * eapply reserved_by_trans; [|exact G4].
              by eapply reserved_more_by. }
      split.
      + rewrite E1. rewrite F1 at 1. done.
      + by eapply reserved_by_trans. }
  intros H. apply Hgen in H as [E1 E2]; [|done].
  split; [done|]. split; [|done].
  apply set_eq. intros w. rewrite !elem_of_dom.
  destruct (E2 w) as [E|(wd & uid & _ & E & E')]; [by rewrite E|].
  rewrite E, E'. split; intros _; by eexists.
Qed.

Lemma find_all_reserved_wires_frame_witness :
  ∃ r', find_all_reserved_wires 10 ctx0 router_line = Ok r'
        ∧ dom (wires r') = dom (wires router_line).
Proof.
  eexists. split; [vm_compute; reflexivity|].
  refine (proj1 (proj2 (find_all_reserved_wires_frame 10 ctx0 router_line _ _))).
  vm_compute. reflexivity.
Defined.

(** ** The search writes routes only *)

Lemma unrouted_set_wires r ws :
  unrouted_wire <$> ws = unrouted_wire <$> wires r →
  unrouted (set_wires r ws) = unrouted r.
Proof. unfold unrouted. simpl. by intros ->. Qed.

Lemma unrouted_insert_wire r w wd bn :
  wires r !! w = Some wd →
  unrouted (set_wires r (<[w := set_bound_nets wd bn]> (wires r))) = unrouted r.
Proof.
  intros Hw. apply unrouted_set_wires. rewrite fmap_insert.
  apply insert_id. by rewrite lookup_fmap, Hw.
Qed.

Lemma arc_update_unrouted r uid user g r' :
  arc_update r uid user (λ ad, set_ad_wires ad (g ad)) = Ok r' →
  unrouted r' = unrouted r.
Proof.
  intros (nd & ad & Huid & Hnd & Had & ->)%arc_update_Ok.
  unfold unrouted. simpl. f_equal.
  rewrite list_fmap_insert. apply list_insert_id.
  rewrite list_lookup_fmap, Hnd. simpl. f_equal.
  unfold unrouted_net. simpl. destruct nd as [arcs0 ? ? ? ?]. simpl in *.
  unfold set_arcs. simpl. f_equal. symmetry.
  rewrite list_fmap_insert. apply list_insert_id.
  by rewrite list_lookup_fmap, Had.
Qed.

Lemma bind_pip_internal_unrouted r net user wire pip r' :
  bind_pip_internal r net user wire pip = Ok r' → unrouted r' = unrouted r.
Proof.
  unfold bind_pip_internal. intros (wd & Hwd%map_at_Ok & H)%bind_Ok.
  apply bind_Ok in H as (second & _ & H).
  apply arc_update_unrouted in H. rewrite H. by apply unrouted_insert_wire.
Qed.

Lemma unbind_pip_internal_unrouted r net user wire d r' :
  unbind_pip_internal r net user wire d = Ok r' → unrouted r' = unrouted r.
Proof.
  unfold unbind_pip_internal. intros (wd & Hwd%map_at_Ok & H)%bind_Ok.
  destruct d.
  - injection H as <-. by apply unrouted_insert_wire.
  - apply (arc_update_unrouted _ _ _ (λ ad, delete wire (ad_wires ad))) in H.
    rewrite H. by apply unrouted_insert_wire.
Qed.

Lemma ripup_arc_unrouted r net user r' :
  ripup_arc r net user = Ok r' → unrouted r' = unrouted r.
Proof.
  unfold ripup_arc. intros (ad & _ & H)%bind_Ok.
  apply bind_Ok in H as (r1 & Hf & H).
  apply (arc_update_unrouted _ _ _ (λ _, ∅)) in H. rewrite H.
  eapply (foldM_inv _ (λ r1 r2, unrouted r2 = unrouted r1)) in Hf; [done | | |].
  - done.
  - intros. congruence.
  - intros r0 wp r2 Hu. by eapply unbind_pip_internal_unrouted.
Qed.

Lemma bwd_bind_unrouted ctx net i bp : ∀ fuel r cursor r' c',
  bwd_bind fuel ctx r net i bp cursor = Ok (r', c') → unrouted r' = unrouted r.
Proof.
  induction fuel as [|fuel IH]; intros r cursor r' c' H; simpl in H.
  - destruct (bp !! cursor); [done|]. by injection H as <- <-.
  - destruct (bp !! cursor); [|by injection H as <- <-].
    apply bind_Ok in H as (r1 & Hb%bind_pip_internal_unrouted & H).
    apply IH in H. congruence.
Qed.

Lemma fwd_bind_unrouted ctx net i vis src_wire : ∀ fuel r cursor r',
  fwd_bind fuel ctx r net i vis src_wire cursor = Ok r' →
  unrouted r' = unrouted r.
Proof.
  induction fuel as [|fuel IH]; intros r cursor r' H; simpl in H.
  - destruct (vis !! cursor); [done|]. by injection H as <-.
  - destruct (vis !! cursor); [|by injection H as <-].
    apply bind_Ok in H as (r1 & Hb%bind_pip_internal_unrouted & H).
    case_bool_decide.
    + case_bool_decide; [|done]. by injection H as <-.
    + apply IH in H. congruence.
Qed.

(** The device tables after the forward search are those before it. *)
Lemma astar_pip_arch ctx r net i dst_wire is_bb abb curr s dh s' :
  astar_pip ctx r net i dst_wire is_bb abb curr s dh = Ok s' →
  wire_bind (fs_a s') = wire_bind (fs_a s)
  ∧ pip_bind (fs_a s') = pip_bind (fs_a s).
Proof.
  unfold astar_pip. intros H.
  repeat (match type of H with
          | (if ?c then _ else _) = _ => destruct c eqn:?
          | (_ ≫= _) = _ => apply bind_Ok in H as (? & ? & H)
          | (let '(_, _) := ?x in _) = _ => destruct x eqn:?
          | Ok _ = Ok _ => injection H as <-
          end; simpl in *); done.
Qed.

Lemma astar_loop_arch ctx r net i dst_wire is_bb abb : ∀ fuel s s',
  astar_loop fuel ctx r net i dst_wire is_bb abb s = Ok s' →
  wire_bind (fs_a s') = wire_bind (fs_a s)
  ∧ pip_bind (fs_a s') = pip_bind (fs_a s).
Proof.
  induction fuel as [|fuel IH]; intros s s' H; simpl in H.
  - destruct (astar_cond is_bb s); [done|]. by injection H as <-.
  - destruct (astar_cond is_bb s); [|by injection H as <-].
    apply bind_Ok in H as (s1 & Hb & H). apply IH in H as [H1 H2].
    rewrite H1, H2. unfold astar_body in Hb.
    destruct (queue (fs_t s)) as [|x q]; [by injection Hb as <-|].
    destruct (pq_extract x q) as [curr rest].
    eapply (foldM_inv _ (λ s1 s2, wire_bind (fs_a s2) = wire_bind (fs_a s1)
                                  ∧ pip_bind (fs_a s2) = pip_bind (fs_a s1)))
      in Hb; [exact Hb | | |].
    + done.
    + intros ? ? ? [? ?] [? ?]. split; congruence.
    + intros ? ? ? Hp. by eapply astar_pip_arch.
Qed.

Lemma route_arc_soft fuel ctx a r t net i is_mt is_bb res a' r' t' :
  route_arc fuel ctx a r t net i is_mt is_bb = Ok (res, a', r', t') →
  wire_bind a' = wire_bind a ∧ pip_bind a' = pip_bind a
  ∧ unrouted r' = unrouted r.
Proof.
  unfold route_arc. intros (ad & _ & H)%bind_Ok.
  apply bind_Ok in H as (usr & _ & H).
  case_bool_decide.
  { unfold ARC_LOG_ERR in H. destruct is_mt; [|done].
    by injection H as <- <- <- <-. }
  case_bool_decide.
  { unfold ARC_LOG_ERR in H. destruct is_mt; [|done].
    by injection H as <- <- <- <-. }
  case_bool_decide; [by injection H as <- <- <- <-|].
  apply bind_Ok in H as (b & _ & H). case_bool_decide.
  - apply bind_Ok in H as (r1 & Hb1%bind_pip_internal_unrouted & H).
    apply bind_Ok in H as ([r2 c] & Hb2%bwd_bind_unrouted & H).
    case_bool_decide; [|done]. injection H as <- <- <- <-.
    split; [done|]. split; [done|]. congruence.
  - unfold route_arc_forward in H.
    apply bind_Ok in H as (s0 & Hi & H). apply bind_Ok in H as (s & Hl & H).
    apply astar_loop_arch in Hl as [Hl1 Hl2].
    unfold astar_init in Hi. apply bind_Ok in Hi as (tg & _ & Hi).
    injection Hi as <-. simpl in *.
    case_bool_decide.
    + apply bind_Ok in H as (r1 & Hb%fwd_bind_unrouted & H).
      by injection H as <- <- <- <-.
    + by injection H as <- <- <- <-.
Qed.

Lemma route_net_ripup_unrouted fuel ctx a net : ∀ idx r t ret r' t',
  route_net_ripup fuel ctx a r t net idx = Ok (ret, r', t') →
  unrouted r' = unrouted r.
Proof.
  induction idx as [|i idx IH]; intros r t ret r' t' H; simpl in H.
  - by injection H as <- <- <-.
  - apply bind_Ok in H as (ok & _ & H). destruct ok; [by eapply IH|].
    apply bind_Ok in H as (usr & _ & H).
    destruct (match net_wires a net !! _ with Some _ => _ | None => _ end).
    + by injection H as <- <- <-.
    + apply bind_Ok in H as (r1 & Hr%ripup_arc_unrouted & H).
      apply IH in H. congruence.
Qed.

Lemma route_net_arcs_soft fuel ctx net is_mt : ∀ todo a r t hf b a' r' t',
  route_net_arcs fuel ctx a r t net is_mt hf todo = Ok (b, a', r', t') →
  wire_bind a' = wire_bind a ∧ pip_bind a' = pip_bind a
  ∧ unrouted r' = unrouted r.
Proof.
  induction todo as [|i todo IH]; intros a r t hf b a' r' t' H; simpl in H.
  - by injection H as <- <- <- <-.
  - apply bind_Ok in H as ([[[res1 a1] r1] t1] & (H1 & H1' & H1'')%route_arc_soft & H).
    destruct res1.
    + apply IH in H as (? & ? & ?). repeat split; congruence.
    + destruct is_mt.
      * apply IH in H as (? & ? & ?). repeat split; congruence.
      * apply bind_Ok in H as ([[[res2 a2] r2] t2] & (H2 & H2' & H2'')%route_arc_soft & H).
        destruct res2; try done.
        apply IH in H as (? & ? & ?). repeat split; congruence.
    + by injection H as <- <- <- <-.
Qed.

Lemma route_net_unrouted fuel ctx a r t net is_mt b a' r' t' :
  route_net fuel ctx a r t net is_mt = Ok (b, a', r', t') →
  wire_bind a' = wire_bind a ∧ pip_bind a' = pip_bind a
  ∧ unrouted r' = unrouted r.
Proof.
  unfold route_net. intros H.
  destruct (ARCH_ECP5 ctx && is_global net); [by injection H as <- <- <- <-|].
  destruct (driver_cell net); [|by injection H as <- <- <- <-].
  apply bind_Ok in H as ([[ret r1] t1] & H1%route_net_ripup_unrouted & H).
  destruct ret as [b0|].
  - by injection H as <- <- <- <-.
  - apply route_net_arcs_soft in H as (? & ? & ?). repeat split; congruence.
Qed.

Lemma do_route_unrouted fuel ctx a r a' r' :
  do_route fuel ctx a r = Ok (a', r') →
  wire_bind a' = wire_bind a ∧ pip_bind a' = pip_bind a
  ∧ unrouted r' = unrouted r.
Proof.
  unfold do_route. destruct (_ <? _)%nat; [|done].
  intros ([[a1 r1] st] & Hf & H)%bind_Ok. injection H as <- <-.
  apply (foldM_inv _ (λ s s' : ArchState * Router * ThreadContext,
           wire_bind s'.1.1 = wire_bind s.1.1
           ∧ pip_bind s'.1.1 = pip_bind s.1.1
           ∧ unrouted s'.1.2 = unrouted s.1.2)) in Hf; [done | | |].
  - done.
  - intros ? ? ? (? & ? & ?) (? & ? & ?). repeat split; congruence.
  - intros [[a0 r0] st0] uid [[a2 r2] st2] H. simpl.
    apply bind_Ok in H as (net & _ & H).
    apply bind_Ok in H as ([[[b a3] r3] st3] & Hr%route_net_unrouted & H).
    by injection H as <- <- <-.
Qed.

(** X8.  Routing a net is soft: [route_net] leaves the binding tables of
    the device as they are, and in the router it writes routes only, the
    nets bound on the wires and the wires of the arcs.  No wire and no arc
    is added or lost, and the histories, locks, reservations, bounding
    boxes, weights, counters and queues are those from before. *)
Theorem route_net_soft (fuel : nat) (ctx : Context) (a a' : ArchState)
    (r r' : Router) (t t' : ThreadContext) (net : NetInfo) (is_mt b : bool) :
  route_net fuel ctx a r t net is_mt = Ok (b, a', r', t') →
  wire_bind a' = wire_bind a ∧ pip_bind a' = pip_bind a
  ∧ unrouted r' = unrouted r.
Proof. apply route_net_unrouted. Qed.

Lemma route_net_soft_witness :
  ∃ b a' r' t', route_net 100 ctx0 arch0 router_line tc0 net0 false
                = Ok (b, a', r', t')
              ∧ unrouted r' = unrouted router_line.
Proof.
  eexists _, _, _, _. split; [vm_compute; reflexivity|].
  refine (proj2 (proj2 (route_net_soft 100 ctx0 arch0 _ router_line _ tc0 _ net0
                          false _ _))).
  vm_compute. reflexivity.
Defined.

(** ** Exceptions in a worker thread *)

Lemma thread_safe_OutOfRange : thread_safe_error OutOfRange.
Proof. by split. Qed.
Lemma thread_safe_AssertionFailure : thread_safe_error AssertionFailure.
Proof. by split. Qed.
Lemma thread_safe_OutOfFuel : thread_safe_error OutOfFuel.
Proof. by split. Qed.

Create HintDb thread_safe.
#[local] Hint Resolve thread_safe_OutOfRange thread_safe_AssertionFailure
  thread_safe_OutOfFuel : thread_safe.

Lemma vec_at_Err {A} (v : list A) i e :
  vec_at v i = Err e → thread_safe_error e.
Proof. unfold vec_at. destruct (v !! i); [done|]. intros [= <-]. by split. Qed.

Lemma vec_at_int_Err {A} (v : list A) i e :
  vec_at_int v i = Err e → thread_safe_error e.
Proof.
  unfold vec_at_int. destruct (i <? 0); [intros [= <-]; by split|].
  apply vec_at_Err.
Qed.

Lemma map_at_Err {A} (m : gmap Z A) k e :
  map_at m k = Err e → thread_safe_error e.
Proof. unfold map_at. destruct (m !! k); [done|]. intros [= <-]. by split. Qed.

#[local] Hint Resolve vec_at_Err vec_at_int_Err map_at_Err : thread_safe.

(** One step through a failing computation: the failure is in the first
    part of a sequence or in what follows it. *)
Ltac err_step H :=
  match type of H with
  | (_ ≫= _) = Err _ =>
      let a := fresh "a" in let Ha := fresh "Ha" in
      apply bind_Err in H as [H|(a & Ha & H)]
  | (if ?c then _ else _) = Err _ => destruct c eqn:?
  | (let '(_, _) := ?x in _) = Err _ => destruct x eqn:?
  | match ?x with _ => _ end = Err _ => destruct x eqn:?
  | Ok _ = Err _ => discriminate H
  | Err _ = Err _ => injection H as <-
  end.

Ltac err_crush H := repeat (err_step H; simpl in * ); eauto with thread_safe.

Lemma arc_at_Err r uid user e :
  arc_at r uid user = Err e → thread_safe_error e.
Proof. unfold arc_at. intros H. err_crush H. Qed.

Lemma arc_update_Err r uid user f e :
  arc_update r uid user f = Err e → thread_safe_error e.
Proof. unfold arc_update. intros H. err_crush H. Qed.

#[local] Hint Resolve arc_at_Err arc_update_Err : thread_safe.

Lemma bind_pip_internal_Err r net user wire pip e :
  bind_pip_internal r net user wire pip = Err e → thread_safe_error e.
Proof. unfold bind_pip_internal. intros H. err_crush H. Qed.

Lemma unbind_pip_internal_Err r net user wire d e :
  unbind_pip_internal r net user wire d = Err e → thread_safe_error e.
Proof. unfold unbind_pip_internal. intros H. err_crush H. Qed.

#[local] Hint Resolve bind_pip_internal_Err unbind_pip_internal_Err : thread_safe.

Lemma ripup_arc_Err r net user e :
  ripup_arc r net user = Err e → thread_safe_error e.
Proof.
  unfold ripup_arc. intros H. err_step H; [eauto with thread_safe|].
  err_step H; [|eauto with thread_safe].
  eapply foldM_Err in H; [exact H|]. simpl. eauto with thread_safe.
Qed.

Lemma score_wire_for_arc_Err ctx r net user wire pip e :
  score_wire_for_arc ctx r net user wire pip = Err e → thread_safe_error e.
Proof. unfold score_wire_for_arc. intros H. err_crush H. Qed.

Lemma get_togo_cost_Err ctx r net user wire sink e :
  get_togo_cost ctx r net user wire sink = Err e → thread_safe_error e.
Proof. unfold get_togo_cost. intros H. err_crush H. Qed.

#[local] Hint Resolve ripup_arc_Err score_wire_for_arc_Err get_togo_cost_Err
  : thread_safe.

Lemma check_arc_walk_Err ctx r ad : ∀ fuel cursor e,
  check_arc_walk fuel ctx r ad cursor = Err e → thread_safe_error e.
Proof.
  induction fuel as [|fuel IH]; intros cursor e H; simpl in H.
  - err_crush H.
  - err_crush H.
Qed.

Lemma check_arc_routing_Err fuel ctx r net usr e :
  check_arc_routing fuel ctx r net usr = Err e → thread_safe_error e.
Proof.
  unfold check_arc_routing. intros H.
  err_crush H. by eapply check_arc_walk_Err.
Qed.

Lemma bwd_merge_check_Err ctx r uid : ∀ fuel cursor e,
  bwd_merge_check fuel ctx r uid cursor = Err e → thread_safe_error e.
Proof.
  induction fuel as [|fuel IH]; intros cursor e H; simpl in H; err_crush H.
Qed.

Lemma bwd_merge_record_Err ctx r uid : ∀ fuel cursor bp e,
  bwd_merge_record fuel ctx r uid cursor bp = Err e → thread_safe_error e.
Proof.
  induction fuel as [|fuel IH]; intros cursor bp e H; simpl in H; err_crush H.
Qed.

Lemma bwd_pip_Err ctx a r uid cpip t uh e :
  bwd_pip ctx a r uid cpip t uh = Err e → thread_safe_error e.
Proof. unfold bwd_pip. intros H. err_crush H. Qed.

#[local] Hint Resolve check_arc_routing_Err bwd_merge_check_Err
  bwd_merge_record_Err bwd_pip_Err : thread_safe.

Lemma bwd_pips_Err ctx a r uid cpip l t e :
  foldM (bwd_pip ctx a r uid cpip) t l = Err e → thread_safe_error e.
Proof. apply foldM_Err. intros ? ? ?. apply bwd_pip_Err. Qed.

#[local] Hint Resolve bwd_pips_Err : thread_safe.

Lemma bwd_body_Err fuel ctx a r net src_wire s e :
  bwd_body fuel ctx a r net src_wire s = Err e → thread_safe_error e.
Proof. unfold bwd_body. intros H. err_crush H. Qed.

Lemma bwd_loop_Err fuel ctx a r net src_wire : ∀ n s e,
  bwd_loop fuel ctx a r net src_wire n s = Err e → thread_safe_error e.
Proof.
  induction n as [|n IH]; intros s e H; simpl in H.
  - err_crush H.
  - err_step H; [|done]. err_step H; [by eapply bwd_body_Err | eauto].
Qed.

Lemma bwd_bind_Err ctx net i bp : ∀ fuel r cursor e,
  bwd_bind fuel ctx r net i bp cursor = Err e → thread_safe_error e.
Proof.
  induction fuel as [|fuel IH]; intros r cursor e H; simpl in H; err_crush H.
Qed.

Lemma astar_pip_Err ctx r net i dst_wire is_bb abb curr s dh e :
  astar_pip ctx r net i dst_wire is_bb abb curr s dh = Err e →
  thread_safe_error e.
Proof. unfold astar_pip. intros H. err_crush H. Qed.

Lemma astar_body_Err ctx r net i dst_wire is_bb abb s e :
  astar_body ctx r net i dst_wire is_bb abb s = Err e → thread_safe_error e.
Proof.
  unfold astar_body. intros H. err_step H; [done|]. err_step H.
  eapply foldM_Err in H; [exact H|]. intros ? ? ?. apply astar_pip_Err.
Qed.

Lemma astar_loop_Err ctx r net i dst_wire is_bb abb : ∀ fuel s e,
  astar_loop fuel ctx r net i dst_wire is_bb abb s = Err e →
  thread_safe_error e.
Proof.
  induction fuel as [|fuel IH]; intros s e H; simpl in H.
  - err_crush H.
  - err_step H; [|done]. err_step H; [by eapply astar_body_Err | eauto].
Qed.

Lemma fwd_bind_Err ctx net i vis src_wire : ∀ fuel r cursor e,
  fwd_bind fuel ctx r net i vis src_wire cursor = Err e → thread_safe_error e.
Proof.
  induction fuel as [|fuel IH]; intros r cursor e H; simpl in H; err_crush H.
Qed.

#[local] Hint Resolve bwd_loop_Err bwd_bind_Err astar_loop_Err fwd_bind_Err
  : thread_safe.

Lemma route_arc_forward_Err fuel ctx a r t net i is_bb abb src_wire dst_wire e :
  route_arc_forward fuel ctx a r t net i is_bb abb src_wire dst_wire = Err e →
  thread_safe_error e.
Proof.
  unfold route_arc_forward, astar_init. intros H. err_crush H.
Qed.

Lemma route_arc_mt_Err fuel ctx a r t net i is_bb e :
  route_arc fuel ctx a r t net i true is_bb = Err e → thread_safe_error e.
Proof.
  unfold route_arc, ARC_LOG_ERR. intros H.
  repeat (err_step H; simpl in * );
    eauto using route_arc_forward_Err with thread_safe.
Qed.

Lemma route_net_ripup_Err fuel ctx a net : ∀ idx r t e,
  route_net_ripup fuel ctx a r t net idx = Err e → thread_safe_error e.
Proof.
  induction idx as [|i idx IH]; intros r t e H; simpl in H; err_crush H.
Qed.

Lemma route_net_arcs_mt_Err fuel ctx net : ∀ todo a r t hf e,
  route_net_arcs fuel ctx a r t net true hf todo = Err e → thread_safe_error e.
Proof.
  induction todo as [|i todo IH]; intros a r t hf e H; simpl in H; [done|].
  err_step H; [by eapply route_arc_mt_Err|].
  destruct a0 as [[[res1 a1] r1] t1]. destruct res1; eauto. done.
Qed.

(** X9.  In a worker thread [route_net] never calls [log_error]: with
    [is_mt] set, a failure of [route_net] is a failed [at], a failed
    assertion or the bound of the model's loops, never the exception of
    [log_error]. *)
Theorem route_net_mt_no_log_error (fuel : nat) (ctx : Context) (a : ArchState)
    (r : Router) (t : ThreadContext) (net : NetInfo) (e : error) :
  route_net fuel ctx a r t net true = Err e → e ≠ LogError.
Proof.
  unfold route_net. intros H.
  destruct (ARCH_ECP5 ctx && is_global net); [done|].
  destruct (driver_cell net); [|done].
  err_step H; [by apply route_net_ripup_Err in H as [? ?]|].
  destruct a0 as [[ret r1] t1]. destruct ret; [done|].
  by apply route_net_arcs_mt_Err in H as [? ?].
Qed.

Lemma route_net_mt_no_log_error_witness :
  ∃ e, route_net 100 ctx0 arch0 router_empty tc0 net0 true = Err e
       ∧ e ≠ LogError.
Proof.
  eexists. split; [vm_compute; reflexivity|].
  apply (route_net_mt_no_log_error 100 ctx0 arch0 router_empty tc0 net0).
  vm_compute. reflexivity.
Defined.

(** ** The counters of the congestion *)

Lemma update_congestion_count (r : Router) :
  let r' := update_congestion r in
  (overused_wires r' = 0
   ↔ ∀ w wd, wires r !! w = Some wd → (size (bound_nets wd) ≤ 1)%nat)
  ∧ (failed_nets r' = ∅ ↔ overused_wires r' = 0)
  ∧ (total_overuse r' = 0 ↔ overused_wires r' = 0)
  ∧ 0 ≤ overused_wires r' ≤ total_overuse r'
  ∧ total_overuse r' ≤ total_wire_use r'
  ∧ overused_wires r' ≤ Z.of_nat (size (wires r)).
Proof.
  unfold update_congestion.
  set (r0 := mkRouter _ _ _ _ _ _ _ _ _ _ _).
  set (P := λ (acc : Router) (m : gmap Z PerWireData),
    (overused_wires acc = 0
     ↔ ∀ w wd, m !! w = Some wd → (size (bound_nets wd) ≤ 1)%nat)
    ∧ (failed_nets acc = ∅ ↔ overused_wires acc = 0)
    ∧ (total_overuse acc = 0 ↔ overused_wires acc = 0)
    ∧ 0 ≤ overused_wires acc ≤ total_overuse acc
    ∧ total_overuse acc ≤ total_wire_use acc
    ∧ overused_wires acc ≤ Z.of_nat (size m)).
  apply (map_fold_weak_ind P); unfold P; clear P.
  - simpl. split; [|split; [|split; [|split; [|split]]]]; done.
  - intros i x m acc Hi (Hov & Hf & Hto & Hle & Htw & Hsz).
    rewrite map_size_insert_None by done.
    unfold update_congestion_wire.
    destruct (Z.ltb_spec 0 (Z.of_nat (size (bound_nets x)) - 1)) as [Ho|Ho];
      simpl.
    + split; [|split; [|split; [|split; [|split]]]]; try lia.
      * split; [lia|]. intros H.
        specialize (H i x (lookup_insert_eq _ _ _)). lia.
      * split; [|lia]. intros He. exfalso.
        assert (bound_nets x ≠ ∅) as Hne.
        { intros E. rewrite E, map_size_empty in Ho. lia. }
        apply map_choose in Hne as (k & v & Hk).
        assert (k ∈ dom (bound_nets x) ∪ failed_nets acc) as Hin.
        { apply elem_of_union_l, elem_of_dom. eauto. }
        rewrite He in Hin. by apply not_elem_of_empty in Hin.
    + split; [|split; [|split; [|split; [|split]]]]; try lia; try done.
      rewrite Hov. split.
      * intros H w wd Hw. destruct (decide (w = i)) as [->|Hne].
        -- rewrite lookup_insert_eq in Hw. injection Hw as <-. lia.
        -- rewrite lookup_insert_ne in Hw by done. eauto.
      * intros H w wd Hw. apply (H w). rewrite lookup_insert_ne; [done|].
        intros ->. by rewrite Hi in Hw.
Qed.

(** X10.  After [update_congestion] the count of overused wires is 0
    exactly when no wire carries more than one net, and exactly then no net
    has failed and the total overuse is 0: the device is tried in the passes
    that leave no net to route again for congestion.  The counters are
    ordered, and no more wires are overused than there are wires. *)
Theorem update_congestion_counters (r : Router) :
  let r' := update_congestion r in
  (overused_wires r' = 0
   ↔ ∀ w wd, wires r !! w = Some wd → (size (bound_nets wd) ≤ 1)%nat)
  ∧ (failed_nets r' = ∅ ↔ overused_wires r' = 0)
  ∧ (total_overuse r' = 0 ↔ overused_wires r' = 0)
  ∧ 0 ≤ overused_wires r' ≤ total_overuse r'
  ∧ total_overuse r' ≤ total_wire_use r'
  ∧ overused_wires r' ≤ Z.of_nat (size (wires r)).
Proof. apply update_congestion_count. Qed.

(** ** Commit to the device *)

Lemma unrouted_failed_nets r r' :
  unrouted r' = unrouted r →
  failed_nets r' = failed_nets r ∧ arch_fail r' = arch_fail r
  ∧ nets_by_udata r' = nets_by_udata r ∧ route_queue r' = route_queue r
  ∧ curr_cong_weight r' = curr_cong_weight r.
Proof.
  intros H.
  split; [exact (f_equal failed_nets H)|].
  split; [exact (f_equal arch_fail H)|].
  split; [exact (f_equal nets_by_udata H)|].
  split; [exact (f_equal route_queue H)|].
  exact (f_equal curr_cong_weight H).
Qed.

Lemma ripup_arc_empties r net i r' :
  ripup_arc r net i = Ok r' →
  ∃ ad, arc_at r' (udata net) i = Ok ad ∧ ad_wires ad = ∅.
Proof.
  unfold ripup_arc. intros (ad & _ & H)%bind_Ok.
  apply bind_Ok in H as (r1 & _ & H).
  apply arc_update_Ok in H as (nd & ad1 & Huid & Hnd & Had & ->).
  exists (set_ad_wires ad1 ∅). split; [|done].
  apply arc_at_Ok. eexists. split; [done|]. simpl. split.
  - apply list_lookup_insert_eq. by eapply lookup_lt_Some.
  - simpl. apply list_lookup_insert_eq. by eapply lookup_lt_Some.
Qed.

(** What the binding of pips adds to the tables of the device. *)
Lemma bindPip_fold_tables ctx uid : ∀ l a,
  let a' := fold_left (λ a0 tb, bindPip ctx a0 tb uid STRENGTH_WEAK) l a in
  (∀ w, wire_bind a' !! w = wire_bind a !! w
        ∨ ∃ p, wire_bind a' !! w = Some (mkPipMap uid p STRENGTH_WEAK))
  ∧ (∀ p, pip_bind a' !! p = pip_bind a !! p
          ∨ pip_bind a' !! p = Some (uid, STRENGTH_WEAK))
  ∧ (∀ p, p ∈ l → pip_bind a' !! p = Some (uid, STRENGTH_WEAK)).
Proof.
  induction l as [|tb l IH]; intros a; simpl.
  - split; [by left|]. split; [by left|]. intros p Hp. by apply not_elem_of_nil in Hp.
  - destruct (IH (bindPip ctx a tb uid STRENGTH_WEAK)) as (Hw & Hp & Hb).
    simpl in *. split; [|split].
    + intros w. destruct (Hw w) as [E|E]; [|by right]. rewrite E.
      destruct (decide (w = getPipDstWire ctx tb)) as [->|Hne].
      * right. rewrite lookup_insert_eq. eauto.
      * left. by rewrite lookup_insert_ne.
    + intros p. destruct (Hp p) as [E|E]; [|by right]. rewrite E.
      destruct (decide (p = tb)) as [->|Hne].
      * right. by rewrite lookup_insert_eq.
      * left. by rewrite lookup_insert_ne.
    + intros p [->|Hin]%elem_of_cons; [|by apply Hb].
      destruct (Hp tb) as [E|E]; [|done]. rewrite E. by rewrite lookup_insert_eq.
Qed.

Lemma bind_and_check_result fuel ctx a r net i ok a' r' :
  bind_and_check fuel ctx a r net i = Ok (ok, a', r') →
  if ok
  then r' = r
       ∧ (∀ w, wire_bind a' !! w = wire_bind a !! w
               ∨ ∃ p, wire_bind a' !! w
                      = Some (mkPipMap (udata net) p STRENGTH_WEAK))
       ∧ (∀ p, pip_bind a' !! p = pip_bind a !! p
               ∨ pip_bind a' !! p = Some (udata net, STRENGTH_WEAK))
  else a' = a
       ∧ failed_nets r' = {[udata net]} ∪ failed_nets r
       ∧ arch_fail r' = arch_fail r
       ∧ nets_by_udata r' = nets_by_udata r
       ∧ route_queue r' = route_queue r
       ∧ curr_cong_weight r' = curr_cong_weight r
       ∧ ∃ ad, arc_at r' (udata net) i = Ok ad ∧ ad_wires ad = ∅.
Proof.
  unfold bind_and_check. intros H.
  assert (∀ x : ArchState,
    (∀ w, wire_bind x !! w = wire_bind x !! w
          ∨ ∃ p, wire_bind x !! w = Some (mkPipMap (udata net) p STRENGTH_WEAK))
    ∧ (∀ p, pip_bind x !! p = pip_bind x !! p
            ∨ pip_bind x !! p = Some (udata net, STRENGTH_WEAK))) as Hrefl.
  { intros x. split; intros ?; by left. }
  destruct (ARCH_ECP5 ctx && is_global net);
    [injection H as <- <- <-; split; [done | apply Hrefl]|].
  apply bind_Ok in H as (ad & _ & H). apply bind_Ok in H as (usr & _ & H).
  case_bool_decide; [injection H as <- <- <-; split; [done | apply Hrefl]|].
  destruct (_ || _); [injection H as <- <- <-; split; [done | apply Hrefl]|].
  case_bool_decide; [injection H as <- <- <-; split; [done | apply Hrefl]|].
  apply bind_Ok in H as ([to_bind success] & _ & H). destruct success.
  - injection H as <- <- <-. split; [done|].
    set (a1 := match getBoundWireNet a _ with Some _ => _ | None => _ end).
    destruct (bindPip_fold_tables ctx (udata net) to_bind a1) as (Hw & Hp & _).
    split.
    + intros w. destruct (Hw w) as [E|E]; [|by right]. rewrite E.
      unfold a1. destruct (getBoundWireNet a _); [by left|]. simpl.
      destruct (decide (w = getNetinfoSourceWire ctx net)) as [->|Hne].
      * right. rewrite lookup_insert_eq. eauto.
      * left. by rewrite lookup_insert_ne.
    + intros p. destruct (Hp p) as [E|E]; [|by right]. rewrite E.
      unfold a1. destruct (getBoundWireNet a _); by left.
  - apply bind_Ok in H as (r1 & Hr & H). injection H as <- <- <-.
    destruct (unrouted_failed_nets _ _ (ripup_arc_unrouted _ _ _ _ Hr))
      as (Hf & Haf & Hn & Hq & Hc).
    simpl. rewrite Hf. split_and!; try done.
    apply ripup_arc_empties in Hr as (ad1 & Had1 & He).
    exists ad1. split; [|done]. apply arc_at_Ok in Had1 as (nd & ? & ? & ?).
    apply arc_at_Ok. eauto.
Qed.

(** X11.  [bind_and_check] either commits or gives the arc up.  When it
    returns true the router is unchanged and the device has gained bindings
    for this net only, all of strength WEAK; an arc without wires counts as
    bound and nothing is done for it.  When it returns false the device is
    untouched, the arc has lost its wires, and the net is among the failed
    nets. *)
Theorem bind_and_check_outcome (fuel : nat) (ctx : Context) (a a' : ArchState)
    (r r' : Router) (net : NetInfo) (i : nat) (ok : bool) (ad : PerArcData)
    (usr : PortRef) :
  arc_at r (udata net) i = Ok ad → users net !! i = Some usr →
  (ad_wires ad = ∅ → bind_and_check fuel ctx a r net i = Ok (true, a, r))
  ∧ (bind_and_check fuel ctx a r net i = Ok (ok, a', r') →
     if ok
     then r' = r
          ∧ (∀ w, wire_bind a' !! w = wire_bind a !! w
                  ∨ ∃ p, wire_bind a' !! w
                         = Some (mkPipMap (udata net) p STRENGTH_WEAK))
          ∧ (∀ p, pip_bind a' !! p = pip_bind a !! p
                  ∨ pip_bind a' !! p = Some (udata net, STRENGTH_WEAK))
     else a' = a
          ∧ failed_nets r' = {[udata net]} ∪ failed_nets r
          ∧ ∃ ad', arc_at r' (udata net) i = Ok ad' ∧ ad_wires ad' = ∅).
Proof.
  intros Harc Hu. split.
  - intros He. unfold bind_and_check. rewrite Harc. simpl.
    rewrite (proj2 (vec_at_Ok _ _ _) Hu). simpl.
    destruct (ARCH_ECP5 ctx && is_global net); [done|].
    case_bool_decide; [done|]. destruct (_ || _); [done|].
    by rewrite bool_decide_true.
  - intros H. apply bind_and_check_result in H. destruct ok; [done|].
    destruct H as (? & ? & _ & _ & _ & _ & ?). done.
Qed.

Lemma bind_and_check_outcome_witness :
  ∃ a', bind_and_check 20 ctx0 arch0 router_routed net0 0
        = Ok (true, a', router_routed)
        ∧ ∀ p, pip_bind a' !! p = pip_bind arch0 !! p
               ∨ pip_bind a' !! p = Some (udata net0, STRENGTH_WEAK).
Proof.
  eexists. split; [vm_compute; reflexivity|].
  refine (proj2 (proj2 (proj2 (bind_and_check_outcome 20 ctx0 arch0 _
            router_routed router_routed net0 0 true arc_routed
            (mkPortRef (mkCellInfo 2) 0) eq_refl eq_refl) _))).
  vm_compute. reflexivity.
Defined.

Lemma commit_step_refl (b : bool) (r : Router) :
  commit_step (b, r) (b, r).
Proof.
  unfold commit_step. simpl. split_and!; try done. intros ->. by left.
Qed.

Lemma commit_step_trans s1 s2 s3 :
  commit_step s1 s2 → commit_step s2 s3 → commit_step s1 s3.
Proof.
  destruct s1 as [b1 r1], s2 as [b2 r2], s3 as [b3 r3].
  unfold commit_step. simpl.
  intros (H1 & H2 & H3 & H4 & H5 & H6 & H7 & H8)
         (G1 & G2 & G3 & G4 & G5 & G6 & G7 & G8).
  split_and!; try congruence.
  - lia.
  - by etrans.
  - intros Hb. destruct (G6 Hb) as [Hb2 E]. destruct (H6 Hb2) as [Hb1 E'].
    split; congruence.
  - auto.
  - intros Hb. destruct (G8 Hb) as [Hb2|[Hlt Hne]].
    + destruct (H8 Hb2) as [?|[Hlt Hne]]; [by left|]. right. split; [lia|].
      intros He. apply Hne. rewrite He in G2. by apply equiv_empty_L.
    + right. split; [lia | done].
Qed.

Lemma bind_and_check_net_result fuel ctx net b a r b' a' r' :
  bind_and_check_net fuel ctx net (b, a, r) = Ok (b', a', r') →
  commit_step (b, r) (b', r').
Proof.
  unfold bind_and_check_net. intros H.
  destruct (ARCH_ECP5 ctx && is_global net).
  { injection H as <- <- <-. apply commit_step_refl. }
  apply (foldM_inv _ (λ s s' : bool * ArchState * Router,
           commit_step (s.1.1, s.2) (s'.1.1, s'.2))) in H; [exact H | | |].
  - intros [[b0 a0] r0]. apply commit_step_refl.
  - intros ? ? ?. apply commit_step_trans.
  - intros [[b1 a1] r1] j [[b2 a2] r2] Hs. simpl.
    apply bind_Ok in Hs as ([[ok a3] r3] & Hc%bind_and_check_result & Hs).
    destruct ok; injection Hs as <- <- <-.
    + destruct Hc as (E & _). subst r3. apply commit_step_refl.
    + destruct Hc as (_ & Hf & Haf & Hn & Hq & Hcw & _).
      unfold commit_step. simpl. split_and!; try done.
      * lia.
      * rewrite Hf. apply union_subseteq_r.
      * intros _. right. split; [lia|]. rewrite Hf. intros He.
        assert (udata net ∈ ({[udata net]} ∪ failed_nets r1 : gset Z)) as Hin.
        { apply elem_of_union_l. by apply elem_of_singleton. }
        rewrite He in Hin. by apply not_elem_of_empty in Hin.
Qed.

Lemma bind_and_check_all_result fuel ctx a r b a' r' :
  bind_and_check_all fuel ctx a r = Ok (b, a', r') →
  commit_step (true, r) (b, r').
Proof.
  unfold bind_and_check_all. intros H.
  apply (foldM_inv _ (λ s s' : bool * ArchState * Router,
           commit_step (s.1.1, s.2) (s'.1.1, s'.2))) in H; [exact H | | |].
  - intros [[b0 a0] r0]. apply commit_step_refl.
  - intros ? ? ?. apply commit_step_trans.
  - intros [[b1 a1] r1] net [[b2 a2] r2] Hs. simpl.
    by eapply bind_and_check_net_result.
Qed.

(** X12.  [bind_and_check_all] returns true exactly when no arc failed to
    bind, and then the router is as before.  When it returns false the
    counter [arch_fail] has gone up and some net is among the failed nets,
    so that the loop of the router goes on.  The counter never goes down and
    no failed net is forgotten. *)
Theorem bind_and_check_all_outcome (fuel : nat) (ctx : Context)
    (a a' : ArchState) (r r' : Router) (b : bool) :
  bind_and_check_all fuel ctx a r = Ok (b, a', r') →
  arch_fail r ≤ arch_fail r'
  ∧ failed_nets r ⊆ failed_nets r'
  ∧ (b = true ↔ arch_fail r' = arch_fail r)
  ∧ (b = true → r' = r)
  ∧ (b = false → failed_nets r' ≠ ∅).
Proof.
  intros (H1 & H2 & _ & _ & _ & H6 & _ & H8)%bind_and_check_all_result.
  simpl in *. split_and!; try done.
  - split.
    + intros Hb. destruct (H6 Hb) as [_ E]. by rewrite E.
    + destruct b; [done|]. intros E.
      destruct H8 as [?|[? _]]; [done | done | lia].
  - intros Hb. by destruct (H6 Hb).
  - intros Hb. destruct (H8 Hb) as [?|[_ ?]]; done.
Qed.

Lemma bind_and_check_all_outcome_witness :
  ∃ a' r', bind_and_check_all 20 ctx0 arch0 router_routed_queued
           = Ok (true, a', r')
           ∧ r' = router_routed_queued.
Proof.
  eexists _, _. split; [vm_compute; reflexivity|].
  refine (proj1 (proj2 (proj2 (proj2 (bind_and_check_all_outcome 20 ctx0 arch0 _
            router_routed_queued _ true _)))) eq_refl).
  vm_compute. reflexivity.
Defined.

(** ** One pass of the router *)

Import Router2Pass.

Lemma update_congestion_kept (r : Router) :
  let r' := update_congestion r in
  arch_fail r' = arch_fail r ∧ route_queue r' = route_queue r
  ∧ curr_cong_weight r' = curr_cong_weight r
  ∧ nets_by_udata r' = nets_by_udata r.
Proof.
  unfold update_congestion.
  set (r0 := mkRouter _ _ _ _ _ _ _ _ _ _ _).
  apply (map_fold_weak_ind (λ (acc : Router) (_ : gmap Z PerWireData),
    arch_fail acc = arch_fail r ∧ route_queue acc = route_queue r
    ∧ curr_cong_weight acc = curr_cong_weight r
    ∧ nets_by_udata acc = nets_by_udata r)); [done|].
  intros i x m acc _ IH. unfold update_congestion_wire.
  by destruct (0 <? _).
Qed.

Lemma congest_bound_nets hcw wd : bound_nets (congest hcw wd) = bound_nets wd.
Proof. unfold congest. by destruct (1 <? _). Qed.

Lemma router_pass_rest_result fuel ctx a1 r1 a' r' :
  router_pass_rest fuel ctx a1 r1 = Ok (a', r') →
  route_queue r' = merge_sort Z.le (elements (failed_nets r'))
  ∧ (curr_cong_weight r' == 2 * curr_cong_weight r1)%Q
  ∧ arch_fail r1 ≤ arch_fail r'
  ∧ (failed_nets r' = ∅ →
     overused_wires r' = 0
     ∧ arch_fail r' = arch_fail r1
     ∧ ∀ w wd, wires r' !! w = Some wd → (size (bound_nets wd) ≤ 1)%nat).
Proof.
  unfold router_pass_rest. intros H.
  set (r2 := update_congestion (set_route_queue r1 [])) in *.
  destruct (update_congestion_kept (set_route_queue r1 []))
    as (Haf2 & Hq2 & Hcw2 & _).
  destruct (update_congestion_count (set_route_queue r1 []))
    as (Hov & Hfe & _).
  destruct (update_congestion_spec (set_route_queue r1 [])) as (_ & Hws & _).
  fold r2 in Haf2, Hq2, Hcw2, Hov, Hfe, Hws. simpl in *.
  apply bind_Ok in H as ([a3 r3] & H3 & H). injection H as <- <-. simpl.
  assert (arch_fail r2 ≤ arch_fail r3
          ∧ route_queue r3 = []
          ∧ curr_cong_weight r3 = curr_cong_weight r1
          ∧ (failed_nets r3 = ∅ → r3 = r2 ∧ overused_wires r2 = 0))
    as (Hle & Hq3 & Hcw3 & Hend).
  { destruct (Z.eqb_spec (overused_wires r2) 0) as [E|E].
    - apply bind_Ok in H3 as ([[b a4] r4] & Hc%bind_and_check_all_result & H3).
      injection H3 as <- <-.
      destruct Hc as (H1 & _ & _ & H4 & H5 & H6 & _ & H8). simpl in *.
      split; [done|]. split; [congruence|]. split; [congruence|].
      intros He. destruct b.
      + destruct H6 as [_ ->]; done.
      + destruct H8 as [?|[_ ?]]; done.
    - injection H3 as <- <-. split; [lia|]. split; [done|].
      split; [congruence|]. intros He. by apply Hfe in He. }
  rewrite Hq3. simpl. split; [done|]. split; [rewrite Hcw3; lra|].
  split; [lia|]. intros He. destruct (Hend He) as [-> Ho].
  split; [done|]. split; [congruence|].
  intros w wd Hw. rewrite Hws in Hw.
  destruct (wires r1 !! w) as [wd1|] eqn:E1; [|done]. injection Hw as <-.
  rewrite congest_bound_nets. by eapply (proj1 Hov Ho).
Qed.

(** X13.  The end of a pass of the router, after [do_route] in whichever of
    its branches and whatever router [do_route] has left: the queue holds
    the failed nets, each once and in ascending order, and the weight of the
    present congestion has doubled.  The loop of [router_test] ends after a
    pass that leaves no failed net, and then no wire carries more than one
    net and every arc was committed to the device without a failure.  The
    pass of the model, for a queue that is routed in one thread, is
    [do_route] followed by this end. *)
Theorem router_iteration_outcome (fuel : nat) (ctx : Context) :
  (∀ a1 r1 a' r',
     router_pass_rest fuel ctx a1 r1 = Ok (a', r') →
     (∀ n, n ∈ route_queue r' ↔ n ∈ failed_nets r')
     ∧ NoDup (route_queue r')
     ∧ Sorted Z.le (route_queue r')
     ∧ (route_queue r' = [] ↔ failed_nets r' = ∅)
     ∧ (curr_cong_weight r' == 2 * curr_cong_weight r1)%Q
     ∧ (failed_nets r' = ∅ →
        overused_wires r' = 0
        ∧ arch_fail r' = arch_fail r1
        ∧ ∀ w wd, wires r' !! w = Some wd → (size (bound_nets wd) ≤ 1)%nat))
  ∧ (∀ a r,
       router_iteration fuel ctx a r
       = '(a1, r1) ← do_route fuel ctx
                       (set_rngstate a (sorted_shuffle ctx (rngstate a)
                                          (route_queue r)).2)
                       (set_route_queue r (sorted_shuffle ctx (rngstate a)
                                             (route_queue r)).1);
         router_pass_rest fuel ctx a1 r1).
Proof.
  split.
  - intros a1 r1 a' r' (Hq & Hcw & _ & Hend)%router_pass_rest_result.
    assert (route_queue r' ≡ₚ elements (failed_nets r')) as Hp.
    { rewrite Hq. apply merge_sort_Permutation. }
    split_and!; try done.
    + intros n. rewrite Hp. apply elem_of_elements.
    + rewrite Hp. apply NoDup_elements.
    + rewrite Hq. apply Sorted_merge_sort. intros x y. lia.
    + split.
      * intros E. rewrite E in Hp. symmetry in Hp.
        apply Permutation_nil_r in Hp.
        by apply elements_empty_inv, leibniz_equiv in Hp.
      * intros E. rewrite E, elements_empty in Hp. by apply Permutation_nil_r.
  - intros a r. unfold router_iteration, router_pass_rest.
    destruct (sorted_shuffle ctx (rngstate a) (route_queue r)) as [q rs]. simpl.
    destruct (do_route fuel ctx _ _) as [[a1 r1]|e]; reflexivity.
Qed.

Lemma router_iteration_outcome_witness :
  ∃ a' r', router_pass_rest 20 ctx0 arch0 router_routed_queued = Ok (a', r')
           ∧ (route_queue r' = [] ↔ failed_nets r' = ∅)
           ∧ (curr_cong_weight r' == 2 * curr_cong_weight router_routed_queued)%Q.
Proof.
  eexists _, _. split; [vm_compute; reflexivity|].
  refine (let H := proj1 (router_iteration_outcome 20 ctx0) arch0
                     router_routed_queued _ _ _ in
          conj (proj1 (proj2 (proj2 (proj2 H))))
               (proj1 (proj2 (proj2 (proj2 (proj2 H)))))).
  vm_compute. reflexivity.
Defined.

(** ** The estimate of the cost to go *)

Lemma Qmax_spec x y : (Qmax x y == x ∧ y <= x)%Q ∨ (Qmax x y == y ∧ x <= y)%Q.
Proof.
  unfold Qmax. destruct (Qle_bool x y) eqn:E.
  - right. split; [reflexivity | by apply Qle_bool_iff].
  - left. split; [reflexivity|].
    apply Qlt_le_weak, Qnot_le_lt. intros H%Qle_bool_iff. congruence.
Qed.

(** X14.  The cost to go of a wire lies between the cost of the sink's
    pin and the larger of that cost and the estimate of the delay to the
    sink.  On a wire the net does not use yet it is the larger of the two;
    every arc of the net that shares the wire brings the part above the pin
    cost down, to a half, a third and so on.  This is for costs read as
    exact numbers. *)
Theorem get_togo_cost_bounds (ctx : Context) (r : Router) (net : NetInfo)
    (user : nat) (wire sink : WireId) (wd : PerWireData) :
  wires r !! wire = Some wd →
  0 ≤ source_uses wd (udata net) →
  let ipin := getDelayNS ctx (getWireDelay ctx sink + getDelayEpsilon ctx) in
  let est := getDelayNS ctx (estimateDelay ctx wire sink) in
  ∃ c, get_togo_cost ctx r net user wire sink = Ok c
    ∧ (ipin <= c)%Q ∧ (c <= Qmax ipin est)%Q
    ∧ ((c - ipin) * inject_Z (1 + source_uses wd (udata net))
       == Qmax ipin est - ipin)%Q.
Proof.
  intros Hw Hsu ipin est. unfold get_togo_cost.
  rewrite (proj2 (map_at_Ok _ _ _) Hw). simpl. fold ipin est.
  eexists. split; [done|].
  set (k := inject_Z (1 + source_uses wd (udata net))).
  assert (1 <= k)%Q as Hk.
  { unfold k. change 1%Q with (inject_Z 1). rewrite <- Zle_Qle. lia. }
  set (m := Qmax 0 (est - ipin)).
  assert (0 <= m)%Q as Hm.
  { unfold m. destruct (Qmax_spec 0 (est - ipin)) as [[-> ?]|[-> ?]]; lra. }
  assert (m == Qmax ipin est - ipin)%Q as Hmm.
  { unfold m. destruct (Qmax_spec 0 (est - ipin)) as [[-> ?]|[-> ?]];
      destruct (Qmax_spec ipin est) as [[-> ?]|[-> ?]]; lra. }
  assert (0 <= m / k)%Q as Hq.
  { apply Qle_shift_div_l; lra. }
  assert (m / k <= m)%Q as Hq'.
  { apply Qle_shift_div_r; [lra|]. nra. }
  split; [lra|]. split; [lra|].
  rewrite <- Hmm. field. lra.
Qed.

Lemma get_togo_cost_bounds_witness :
  ∃ c, get_togo_cost ctx0 router_routed net0 0 3 5 = Ok c
       ∧ (getDelayNS ctx0 (getWireDelay ctx0 5 + getDelayEpsilon ctx0) <= c)%Q
       ∧ (c <= Qmax (getDelayNS ctx0 (getWireDelay ctx0 5 + getDelayEpsilon ctx0))
                 (getDelayNS ctx0 (estimateDelay ctx0 3 5)))%Q
       ∧ ((c - getDelayNS ctx0 (getWireDelay ctx0 5 + getDelayEpsilon ctx0))
          * inject_Z (1 + source_uses (wire_routed 2) (udata net0))
          == Qmax (getDelayNS ctx0 (getWireDelay ctx0 5 + getDelayEpsilon ctx0))
               (getDelayNS ctx0 (estimateDelay ctx0 3 5))
             - getDelayNS ctx0 (getWireDelay ctx0 5 + getDelayEpsilon ctx0))%Q.
Proof.
  apply (get_togo_cost_bounds ctx0 router_routed net0 0 3 5 (wire_routed 2)).
  - reflexivity.
  - vm_compute. discriminate.
Defined.

(** ** The route of a successful search *)

Lemma bind_pip_internal_arc_Ok r net i w pip r' :
  bind_pip_internal r net i w pip = Ok r' → is_Ok (arc_at r (udata net) i).
Proof.
  unfold bind_pip_internal. intros H.
  apply bind_Ok in H as (wd & _ & H). apply bind_Ok in H as (second & _ & H).
  apply arc_update_Ok in H as (nd & ad0 & Huid & Hnd & Had0 & ->).
  exists ad0. apply arc_at_Ok. eauto.
Qed.

Lemma bind_pip_internal_pins r net i w pip r' :
  counts_nonneg r (udata net) →
  bind_pip_internal r net i w pip = Ok r' →
  pinned r' (udata net) i w pip ∧ counts_nonneg r' (udata net).
Proof.
  intros Hnn H.
  destruct (bind_pip_internal_arc_Ok _ _ _ _ _ _ H) as [ad Had].
  pose proof (bind_pip_internal_arc _ _ _ _ _ _ _ H Had) as Had'.
  apply bind_pip_internal_wire in H as (wd & Hwd & Hor & Hws).
  pose proof (Hnn _ _ Hwd) as Hsu.
  split; [split|].
  - eexists. split; [exact Had'|]. simpl. apply lookup_insert_eq.
  - rewrite Hws. eexists _, (source_uses wd (udata net) + 1).
    rewrite lookup_insert_eq. split; [done|].
    simpl. rewrite lookup_insert_eq. split; [|lia]. f_equal. f_equal.
    destruct (Z.eqb_spec (source_uses wd (udata net)) 0); [done|].
    by destruct Hor.
  - intros w' wd'. rewrite Hws.
    destruct (decide (w' = w)) as [->|Hne].
    + rewrite lookup_insert_eq. intros [= <-]. unfold source_uses at 1. simpl.
      rewrite lookup_insert_eq. simpl. lia.
    + rewrite lookup_insert_ne by done. apply Hnn.
Qed.

Lemma bind_pip_internal_keeps r net i w pip r' w0 p0 :
  pinned r (udata net) i w0 p0 →
  bind_pip_internal r net i w pip = Ok r' →
  pinned r' (udata net) i w0 p0.
Proof.
  intros [(ad & Had & Hp) (wd0 & k & Hwd0 & Hb & Hk)] H.
  pose proof (bind_pip_internal_arc _ _ _ _ _ _ _ H Had) as Had'.
  apply bind_pip_internal_wire in H as (wd & Hwd & Hor & Hws).
  destruct (decide (w0 = w)) as [->|Hne].
  - assert (wd = wd0) as -> by congruence.
    assert (source_uses wd0 (udata net) = k) as Hsu.
    { unfold source_uses. by rewrite Hb. }
    assert ((bound_entry wd0 (udata net)).2 = p0) as Hb2.
    { unfold bound_entry. by rewrite Hb. }
    assert (pip = p0) as ->.
    { destruct Hor as [Hor|Hor].
      - rewrite Hsu in Hor. lia.
      - by rewrite <- Hor, Hb2. }
    split.
    + eexists. split; [exact Had'|]. simpl. apply lookup_insert_eq.
    + rewrite Hws. eexists _, (k + 1). rewrite lookup_insert_eq. split; [done|].
      simpl. rewrite lookup_insert_eq. split; [|lia].
      rewrite Hsu, Hb2. by destruct (k =? 0).
  - split.
    + eexists. split; [exact Had'|]. simpl. by rewrite lookup_insert_ne.
    + rewrite Hws. exists wd0, k. by rewrite lookup_insert_ne.
Qed.

Lemma pinned_chain_keeps ctx r r' uid i src w :
  (∀ w0 p0, pinned r uid i w0 p0 → pinned r' uid i w0 p0) →
  pinned_chain ctx r uid i src w → pinned_chain ctx r' uid i src w.
Proof.
  intros Hk. induction 1 as [Hs|w p Hp Hn _ IH].
  - constructor. by apply Hk.
  - econstructor; [by apply Hk | done | done].
Qed.

Lemma pinned_chain_routed ctx r uid i src w ad :
  arc_at r uid i = Ok ad →
  pinned_chain ctx r uid i src w → routed_chain ctx (ad_wires ad) src w.
Proof.
  intros Had. induction 1 as [[(ad' & Had' & Hs) _]|w p [(ad' & Had' & Hp) _] Hn _ IH].
  - constructor. congruence.
  - econstructor; [|done|done]. congruence.
Qed.

(** *** Forwards *)

Lemma astar_pip_closed ctx r net i dst_wire is_bb abb curr s dh s' :
  getPipSrcWire ctx dh = qw_wire curr →
  is_Some (visited (fs_t s) !! qw_wire curr) →
  astar_pip ctx r net i dst_wire is_bb abb curr s dh = Ok s' →
  visited_closed ctx (fs_t s) →
  visited_closed ctx (fs_t s')
  ∧ is_Some (visited (fs_t s') !! qw_wire curr).
Proof.
  intros Hsrc Hcur H Hinv. unfold astar_pip in H.
  destruct (is_bb && _); [by injection H as <-|].
  destruct (negb _ && _); [by injection H as <-|].
  apply bind_Ok in H as (nwd & Hnwd%map_at_Ok & H).
  destruct (unavailable nwd); [by injection H as <-|].
  destruct (reserved_for_other nwd (udata net)); [by injection H as <-|].
  destruct (match bound_nets nwd !! udata net with Some _ => _ | None => _ end);
    [by injection H as <-|].
  apply bind_Ok in H as (sc & _ & H). apply bind_Ok in H as (tg & _ & H).
  destruct (match visited (fs_t s) !! getPipDstWire ctx dh with
            | Some _ => _ | None => _ end); [|by injection H as <-].
  destruct (rng_step ctx (rngstate (fs_a s))) as [tag rs]. injection H as <-.
  simpl.
  assert (∀ w, is_Some (visited (fs_t s) !! w) →
               is_Some (<[getPipDstWire ctx dh := mkVisitInfo
                            (mkWireScore (cost (qw_score curr) + sc)%Q
                               ((7 # 4) * tg)%Q
                               (delay (qw_score curr) + getPipDelay ctx dh
                                + getWireDelay ctx (getPipDstWire ctx dh))) dh]>
                          (visited (fs_t s)) !! w)) as Hmono.
  { intros w Hw. destruct (decide (getPipDstWire ctx dh = w)) as [<-|Hne].
    - rewrite lookup_insert_eq. eauto.
    - by rewrite lookup_insert_ne. }
  destruct Hinv as [Hc Hq]. split; [split|]; simpl.
  - intros w v Hw Hn. apply Hmono.
    destruct (decide (getPipDstWire ctx dh = w)) as [<-|Hne].
    + rewrite lookup_insert_eq in Hw. injection Hw as <-. simpl in *.
      by rewrite Hsrc.
    + rewrite lookup_insert_ne in Hw by done. by eapply Hc.
  - intros q [Hin|Hin]%elem_of_app.
    + apply Hmono. by apply Hq.
    + apply list_elem_of_singleton in Hin as ->. simpl.
      rewrite lookup_insert_eq. eauto.
  - by apply Hmono.
Qed.

Lemma astar_body_closed ctx r net i dst_wire is_bb abb s s' :
  downhill_consistent ctx →
  astar_body ctx r net i dst_wire is_bb abb s = Ok s' →
  visited_closed ctx (fs_t s) → visited_closed ctx (fs_t s').
Proof.
  intros Hadj H Hinv. unfold astar_body in H.
  destruct (queue (fs_t s)) as [|x q] eqn:Eq; [by injection H as <-|].
  destruct (pq_extract x q) as [curr rest] eqn:Ep.
  assert (curr ∈ queue (fs_t s)) as Hcur.
  { rewrite Eq. eapply pq_extract_elem; [exact Ep|]. apply list_elem_of_here. }
  eapply (λ Hstep Hinit, foldM_preserves _
            (λ s, visited_closed ctx (fs_t s)
                  ∧ is_Some (visited (fs_t s) !! qw_wire curr)) _ Hstep _ s' Hinit H).
  - intros s1 dh s2 Hdh [H1 H1'] H2.
    eapply astar_pip_closed; eauto.
  - destruct Hinv as [Hc Hq]. split; [split|]; simpl.
    + done.
    + intros y Hy. apply Hq. rewrite Eq.
      eapply pq_extract_elem; [exact Ep|]. by apply list_elem_of_further.
    + by apply Hq.
Qed.

Lemma astar_run_closed ctx r net i dst_wire is_bb abb n s0 s :
  downhill_consistent ctx →
  astar_run ctx r net i dst_wire is_bb abb n s0 s →
  visited_closed ctx (fs_t s0) → visited_closed ctx (fs_t s).
Proof.
  intros Hadj. induction 1 as [s|n s s' s'' Hrun IH Hc Hb]; [done|].
  intros H0. eapply astar_body_closed; eauto.
Qed.

Lemma fwd_bind_chain ctx net i vis src_wire :
  (∀ w v, vis !! w = Some v → vi_pip v ≠ PipId_null →
          is_Some (vis !! getPipSrcWire ctx (vi_pip v))) →
  ∀ fuel r cursor r',
    counts_nonneg r (udata net) →
    is_Some (vis !! cursor) →
    fwd_bind fuel ctx r net i vis src_wire cursor = Ok r' →
    (∀ w0 p0, pinned r (udata net) i w0 p0 → pinned r' (udata net) i w0 p0)
    ∧ pinned_chain ctx r' (udata net) i src_wire cursor.
Proof.
  intros Hclosed.
  induction fuel as [|fuel IH]; intros r cursor r' Hnn [v Hv] H; simpl in H;
    rewrite Hv in H; [done|].
  apply bind_Ok in H as (r1 & Hb & H).
  destruct (bind_pip_internal_pins _ _ _ _ _ _ Hnn Hb) as [Hpin Hnn1].
  case_bool_decide as Hnull.
  - case_bool_decide as Hsrc; [|done]. injection H as <-. subst cursor.
    split.
    + intros w0 p0 Hp. by eapply bind_pip_internal_keeps.
    + constructor. by rewrite <- Hnull.
  - destruct (IH _ _ _ Hnn1 (Hclosed _ _ Hv Hnull) H) as [Hk Hch].
    split.
    + intros w0 p0 Hp. apply Hk. by eapply bind_pip_internal_keeps.
    + econstructor; [by apply Hk | done | done].
Qed.

(** *** Backwards *)

Lemma bwd_merge_record_pip_ok ctx r uid : ∀ fuel cursor2 bp bp',
  bwd_merge_record fuel ctx r uid cursor2 bp = Ok bp' →
  backwards_pip_ok ctx bp → backwards_pip_ok ctx bp'.
Proof.
  induction fuel as [|fuel IH]; intros cursor2 bp bp' H Hinv; simpl in H; [done|].
  apply bind_Ok in H as (wd & Hwd%map_at_Ok & H).
  destruct (bound_nets wd !! uid) as [b|] eqn:Eb; [|by injection H as <-].
  case_bool_decide as Hnull; [by injection H as <-|].
  eapply IH; [exact H|]. intros k v Hk.
  destruct (decide (getPipSrcWire ctx b.2 = k)) as [<-|Hne].
  - rewrite lookup_insert_eq in Hk. by injection Hk as <-.
  - rewrite lookup_insert_ne in Hk by done. by eapply Hinv.
Qed.

Lemma bwd_body_pip_ok fuel ctx a r net src_wire s s' :
  uphill_pips_valid ctx →
  bwd_body fuel ctx a r net src_wire s = Ok s' →
  backwards_pip_ok ctx (backwards_pip (bs_t s)) →
  backwards_pip_ok ctx (backwards_pip (bs_t s')).
Proof.
  intros Hval H Hinv. unfold bwd_body in H.
  destruct (backwards_queue (bs_t s)) as [|cursor q] eqn:Eq;
    [by injection H as <-|].
  set (t := set_backwards (bs_t s) q _) in *.
  assert (∀ cpip s',
    (foldM (bwd_pip ctx a r (udata net) cpip) t (getPipsUphill ctx cursor)
     ≫= λ t', Ok (mkBwdState t'
                    (if bool_decide (getPipsUphill ctx cursor = [])
                     then backwards_iter s else backwards_iter s + 1) false))
    = Ok s' → backwards_pip_ok ctx (backwards_pip (bs_t s'))) as Hexp.
  { intros cpip s1 (t' & Hf & H1)%bind_Ok. injection H1 as <-. simpl.
    eapply (λ Hstep, foldM_preserves _
              (λ t, backwards_pip_ok ctx (backwards_pip t)) _ Hstep t t' Hinv Hf).
    intros t1 uh t2 Huh Ht1 [->|(wd & _ & _ & ->)]%bwd_pip_Ok; [done|].
    simpl. intros k v Hk.
    destruct (decide (getPipSrcWire ctx uh = k)) as [<-|Hne].
    - rewrite lookup_insert_eq in Hk. injection Hk as <-.
      split; [done|]. by eapply Hval.
    - rewrite lookup_insert_ne in Hk by done. by eapply Ht1. }
  apply bind_Ok in H as (cwd & _ & H).
  destruct (bound_nets cwd !! udata net) as [b|]; [|by eapply Hexp].
  apply bind_Ok in H as ([fail cursor2] & _ & H).
  destruct (negb fail && _); [|by eapply Hexp].
  apply bind_Ok in H as (bp & Hrec & H). injection H as <-. simpl.
  by eapply bwd_merge_record_pip_ok.
Qed.

Lemma bwd_run_pip_ok fuel ctx a r net src_wire n s0 s :
  uphill_pips_valid ctx →
  bwd_run fuel ctx a r net src_wire n s0 s →
  backwards_pip_ok ctx (backwards_pip (bs_t s0)) →
  backwards_pip_ok ctx (backwards_pip (bs_t s)).
Proof.
  intros Hval. induction 1 as [s|n s s' s'' Hrun IH Hc Hb]; [done|].
  intros Hp. eapply bwd_body_pip_ok; eauto.
Qed.

Lemma bwd_bind_chain ctx net i bp src_wire :
  backwards_pip_ok ctx bp →
  ∀ fuel r cursor r' c',
    counts_nonneg r (udata net) →
    pinned_chain ctx r (udata net) i src_wire cursor →
    bwd_bind fuel ctx r net i bp cursor = Ok (r', c') →
    pinned_chain ctx r' (udata net) i src_wire c'.
Proof.
  intros Hbp.
  induction fuel as [|fuel IH]; intros r cursor r' c' Hnn Hch H; simpl in H.
  - destruct (bp !! cursor); [done|]. by injection H as <- <-.
  - destruct (bp !! cursor) as [v|] eqn:Ev; [|by injection H as <- <-].
    apply bind_Ok in H as (r1 & Hb & H).
    destruct (bind_pip_internal_pins _ _ _ _ _ _ Hnn Hb) as [Hpin Hnn1].
    destruct (Hbp _ _ Ev) as [Hsrc Hnull].
    eapply IH; [exact Hnn1| |exact H].
    econstructor; [exact Hpin | done|]. rewrite Hsrc.
    eapply pinned_chain_keeps; [|exact Hch].
    intros w0 p0 Hp. by eapply bind_pip_internal_keeps.
Qed.

Lemma route_arc_chain fuel ctx a r t net i is_mt is_bb usr a' r' t' :
  downhill_consistent ctx → uphill_pips_valid ctx →
  counts_nonneg r (udata net) →
  users net !! i = Some usr →
  getNetinfoSinkWire ctx net usr ∉ processed_sinks t →
  route_arc fuel ctx a r t net i is_mt is_bb = Ok (ARC_SUCCESS, a', r', t') →
  pinned_chain ctx r' (udata net) i (getNetinfoSourceWire ctx net)
    (getNetinfoSinkWire ctx net usr)
  ∧ getNetinfoSinkWire ctx net usr ∈ processed_sinks t'.
Proof.
  intros Hdown Hup Hnn Hu Hps. unfold route_arc. intros (ad & Had & H)%bind_Ok.
  rewrite (proj2 (vec_at_Ok _ _ _) Hu) in H. simpl in H.
  set (src_wire := getNetinfoSourceWire ctx net) in *.
  set (dst_wire := getNetinfoSinkWire ctx net usr) in *.
  case_bool_decide.
  { unfold ARC_LOG_ERR in H. by destruct is_mt. }
  case_bool_decide.
  { unfold ARC_LOG_ERR in H. by destruct is_mt. }
  rewrite bool_decide_false in H by done.
  apply bind_Ok in H as (b & Hloop & H).
  apply bwd_loop_run in Hloop as [n Hrun].
  case_bool_decide as Hsrc.
  - apply bind_Ok in H as (r1 & Hb1 & H).
    apply bind_Ok in H as ([r2 c] & Hb2 & H).
    case_bool_decide as Hc; [|done]. injection H as <- <- <-. subst c.
    split; [|apply elem_of_union_l; by apply elem_of_singleton].
    destruct (bind_pip_internal_pins _ _ _ _ _ _ Hnn Hb1) as [Hpin Hnn1].
    eapply bwd_bind_chain; [|exact Hnn1| |exact Hb2].
    + eapply bwd_run_pip_ok; [done|exact Hrun|]. simpl. intros k v Hk.
      by rewrite lookup_empty in Hk.
    + by constructor.
  - unfold route_arc_forward in H.
    apply bind_Ok in H as (s0 & Hinit & H). apply bind_Ok in H as (s & Hl & H).
    apply astar_loop_run in Hl as [m Hrunf].
    pose proof (bwd_run_queue _ _ _ _ _ _ _ _ _ Hrun) as Hq. simpl in Hq.
    apply astar_init_Ok in Hinit as (_ & _ & _ & sc & Hv0 & Hq0).
    simpl in Hq0. rewrite Hq in Hq0. simpl in Hq0.
    assert (visited_closed ctx (fs_t s0)) as Hc0.
    { split.
      - intros w v. rewrite Hv0. intros [<- <-]%lookup_singleton_Some. done.
      - intros q. rewrite Hq0. intros ->%list_elem_of_singleton. simpl.
        rewrite Hv0, lookup_singleton_eq. eauto. }
    pose proof (astar_run_closed _ _ _ _ _ _ _ _ _ _ Hdown Hrunf Hc0) as [Hcl _].
    case_bool_decide as Hvis; [|done].
    apply bind_Ok in H as (r1 & Hbind & H). injection H as <- <- <-.
    split; [|apply elem_of_union_l; by apply elem_of_singleton].
    by eapply fwd_bind_chain.
Qed.

(** X15.  On a device whose pips are consistent, and with no negative
    count for the net on any wire, an arc that [route_arc] routes with
    success (the sink not yet done in this pass) has a route: the pips
    recorded for the arc lead from the sink wire back to the source wire,
    on which the null pip is recorded, and the sink is entered among the
    processed sinks.  Every wire of that route has the net bound with the
    same pip, with a count of at least 1. *)
Theorem route_arc_connects (fuel : nat) (ctx : Context) (a a' : ArchState)
    (r r' : Router) (t t' : ThreadContext) (net : NetInfo) (i : nat)
    (is_mt is_bb : bool) (usr : PortRef) :
  downhill_consistent ctx → uphill_pips_valid ctx →
  counts_nonneg r (udata net) →
  users net !! i = Some usr →
  getNetinfoSinkWire ctx net usr ∉ processed_sinks t →
  route_arc fuel ctx a r t net i is_mt is_bb = Ok (ARC_SUCCESS, a', r', t') →
  ∃ ad', arc_at r' (udata net) i = Ok ad'
    ∧ routed_chain ctx (ad_wires ad') (getNetinfoSourceWire ctx net)
        (getNetinfoSinkWire ctx net usr)
    ∧ pinned_chain ctx r' (udata net) i (getNetinfoSourceWire ctx net)
        (getNetinfoSinkWire ctx net usr)
    ∧ getNetinfoSinkWire ctx net usr ∈ processed_sinks t'.
Proof.
  intros Hdown Hup Hnn Hu Hps H.
  destruct (route_arc_chain _ _ _ _ _ _ _ _ _ _ _ _ _ Hdown Hup Hnn Hu Hps H)
    as [Hch Hin].
  assert (∃ ad', arc_at r' (udata net) i = Ok ad') as [ad' Had'].
  { inversion Hch as [[(ad' & ? & _) _]|w p [(ad' & ? & _) _] _ _]; eauto. }
  exists ad'. split; [done|]. split; [|done].
  by eapply pinned_chain_routed.
Qed.

Lemma downhill_consistent_sample : downhill_consistent ctx0.
Proof.
  intros w dh. simpl. case_bool_decide; [|by intros ?%not_elem_of_nil].
  by intros ->%list_elem_of_singleton.
Qed.

Lemma uphill_pips_valid_sample : uphill_pips_valid ctx0.
Proof.
  intros w uh. simpl. case_bool_decide; [|by intros ?%not_elem_of_nil].
  intros ->%list_elem_of_singleton. unfold PipId_null. lia.
Qed.

Lemma counts_nonneg_sample : counts_nonneg router_line (udata net0).
Proof.
  assert (map_Forall (λ _ wd, 0 ≤ source_uses wd (udata net0)) (wires router_line))
    as Hall by (apply (bool_decide_unpack _); vm_compute; exact I).
  intros w wd Hw. by apply Hall in Hw.
Qed.

Lemma route_arc_connects_witness :
  ∃ a' r' t', route_arc 100 ctx0 arch0 router_line tc0 net0 0 false true
              = Ok (ARC_SUCCESS, a', r', t')
    ∧ ∃ ad', arc_at r' (udata net0) 0 = Ok ad'
        ∧ routed_chain ctx0 (ad_wires ad') (getNetinfoSourceWire ctx0 net0)
            (getNetinfoSinkWire ctx0 net0 (mkPortRef (mkCellInfo 2) 0))
        ∧ pinned_chain ctx0 r' (udata net0) 0 (getNetinfoSourceWire ctx0 net0)
            (getNetinfoSinkWire ctx0 net0 (mkPortRef (mkCellInfo 2) 0))
        ∧ getNetinfoSinkWire ctx0 net0 (mkPortRef (mkCellInfo 2) 0)
          ∈ processed_sinks t'.
Proof.
  eexists _, _, _. split; [vm_compute; reflexivity|].
  refine (route_arc_connects 100 ctx0 arch0 _ router_line _ tc0 _ net0 0 false
            true (mkPortRef (mkCellInfo 2) 0) downhill_consistent_sample
            uphill_pips_valid_sample counts_nonneg_sample eq_refl _ _).
  - apply not_elem_of_empty.
  - vm_compute. reflexivity.
Defined.

(** ** The partition between the threads *)

Import Router2Threads.

Lemma net_bin_range pt nd : (net_bin pt nd ≤ N)%nat.
Proof.
  unfold net_bin, N.
  repeat (destruct (_ && _); [lia|]). lia.
Qed.

(** X16.  The bins of [do_route] keep the worker threads apart.  Two nets
    that go to different worker threads have search windows that do not
    meet: no location passes [hit_test_pip] for an arc of the one and for an
    arc of the other, the bounding box of an arc lying within that of its
    net. *)
Theorem net_bin_windows_disjoint (pt : Partition) (nd1 nd2 : PerNetData)
    (b1 b2 : ArcBounds) (l : Loc) :
  (net_bin pt nd1 < N)%nat → (net_bin pt nd2 < N)%nat →
  net_bin pt nd1 ≠ net_bin pt nd2 →
  box_within b1 (bb nd1) → box_within b2 (bb nd2) →
  ¬ (in_window b1 l ∧ in_window b2 l).
Proof.
  unfold net_bin, N, box_within, in_window, hit_test_pip, bb_margin_x, bb_margin_y.
  intros H1 H2 Hne (A1 & A2 & A3 & A4) (B1 & B2 & B3 & B4) [W1 W2].
  apply andb_true_iff in W1 as [W1 W1d]. apply andb_true_iff in W1 as [W1 W1c].
  apply andb_true_iff in W1 as [W1a W1b].
  apply andb_true_iff in W2 as [W2 W2d]. apply andb_true_iff in W2 as [W2 W2c].
  apply andb_true_iff in W2 as [W2a W2b].
  apply Z.leb_le in W1a, W1b, W1c, W1d, W2a, W2b, W2c, W2d.
  repeat match goal with
         | H : context [if ?c then _ else _] |- _ => destruct c eqn:?
         end; try lia;
    repeat match goal with
           | E : _ && _ = true |- _ => apply andb_true_iff in E as [? ?]
           | E : (_ <? _) = true |- _ => apply Z.ltb_lt in E
           | E : (_ <=? _) = true |- _ => apply Z.leb_le in E
           end; lia.
Qed.

Lemma net_bin_windows_disjoint_witness :
  net_bin (mkPartition 10 10) (mkPerNetData [] (mkArcBounds 0 0 2 2) 1 1 1)
  ≠ net_bin (mkPartition 10 10) (mkPerNetData [] (mkArcBounds 20 0 22 2) 21 1 1)
  ∧ ¬ (in_window (mkArcBounds 0 0 2 2) (mkLoc 1 1 0)
       ∧ in_window (mkArcBounds 20 0 22 2) (mkLoc 1 1 0)).
Proof.
  assert (net_bin (mkPartition 10 10) (mkPerNetData [] (mkArcBounds 0 0 2 2) 1 1 1)
          ≠ net_bin (mkPartition 10 10)
              (mkPerNetData [] (mkArcBounds 20 0 22 2) 21 1 1)) as Hne
    by (vm_compute; discriminate).
  split; [exact Hne|].
  apply (net_bin_windows_disjoint (mkPartition 10 10)
           (mkPerNetData [] (mkArcBounds 0 0 2 2) 1 1 1)
           (mkPerNetData [] (mkArcBounds 20 0 22 2) 21 1 1)).
  - vm_compute. lia.
  - vm_compute. lia.
  - exact Hne.
  - unfold box_within. simpl. lia.
  - unfold box_within. simpl. lia.
Defined.

Lemma do_route_bins_step pt r tcs n tcs' :
  length tcs = S N →
  (nd ← vec_at_int (nets r) n;
   ni ← vec_at_int (nets_by_udata r) n;
   let bin := net_bin pt nd in
   route_nets ← vec_at tcs bin;
   Ok (<[bin := route_nets ++ [ni]]> tcs)) = Ok tcs' →
  ∃ nd ni, 0 ≤ n ∧ nets r !! Z.to_nat n = Some nd
    ∧ nets_by_udata r !! Z.to_nat n = Some ni
    ∧ length tcs' = S N
    ∧ concat tcs' ≡ₚ concat tcs ++ [ni]
    ∧ ∀ k, tcs' !! k = if decide (k = net_bin pt nd)
                       then (λ l, l ++ [ni]) <$> tcs !! k else tcs !! k.
Proof.
  intros Hlen H.
  apply bind_Ok in H as (nd & [Hn Hnd]%vec_at_int_Ok & H).
  apply bind_Ok in H as (ni & [_ Hni]%vec_at_int_Ok & H). simpl in H.
  apply bind_Ok in H as (rn & Hrn%vec_at_Ok & H). injection H as <-.
  exists nd, ni. split_and!; try done.
  - by rewrite length_insert.
  - rewrite <- (take_drop_middle _ _ _ Hrn) at 2.
    rewrite insert_take_drop by (by eapply lookup_lt_Some).
    rewrite !concat_app. simpl.
    rewrite <- !app_assoc. do 2 apply Permutation_app_head.
    apply Permutation_app_comm.
  - intros k. destruct (decide (k = net_bin pt nd)) as [->|Hne].
    + rewrite list_lookup_insert_eq by (by eapply lookup_lt_Some).
      by rewrite Hrn.
    + by rewrite list_lookup_insert_ne.
Qed.

(** X17.  The threaded branch of [do_route] hands every net of the queue
    to exactly one thread context: there are [N + 1] contexts, their nets
    taken together are the nets of the queue, each as often as it is queued,
    and a net is in the context of its bin. *)
Theorem do_route_bins_partition (pt : Partition) (r : Router)
    (tcs : list (list NetInfo)) :
  do_route_bins pt r = Ok tcs →
  length tcs = S N
  ∧ (∃ queued, Forall2 (λ n ni, 0 ≤ n ∧ nets_by_udata r !! Z.to_nat n = Some ni)
                 (route_queue r) queued
               ∧ concat tcs ≡ₚ queued)
  ∧ ∀ k rn ni, tcs !! k = Some rn → ni ∈ rn →
      ∃ n nd, n ∈ route_queue r ∧ 0 ≤ n
        ∧ nets_by_udata r !! Z.to_nat n = Some ni
        ∧ nets r !! Z.to_nat n = Some nd ∧ net_bin pt nd = k.
Proof.
  unfold do_route_bins.
  assert (∀ q tcs0 tcs,
    length tcs0 = S N →
    foldM (λ tcs n,
             nd ← vec_at_int (nets r) n;
             ni ← vec_at_int (nets_by_udata r) n;
             let bin := net_bin pt nd in
             route_nets ← vec_at tcs bin;
             Ok (<[bin := route_nets ++ [ni]]> tcs)) tcs0 q = Ok tcs →
    length tcs = S N
    ∧ (∃ queued, Forall2 (λ n ni, 0 ≤ n ∧ nets_by_udata r !! Z.to_nat n = Some ni)
                   q queued
                 ∧ concat tcs ≡ₚ concat tcs0 ++ queued)
    ∧ ∀ k rn ni, tcs !! k = Some rn → ni ∈ rn →
        (∃ rn0, tcs0 !! k = Some rn0 ∧ ni ∈ rn0)
        ∨ ∃ n nd, n ∈ q ∧ 0 ≤ n
            ∧ nets_by_udata r !! Z.to_nat n = Some ni
            ∧ nets r !! Z.to_nat n = Some nd ∧ net_bin pt nd = k) as Hgen.
  { induction q as [|n q IH]; intros tcs0 tcs1 Hlen H; simpl in H.
    - injection H as <-. split; [done|]. split.
      + exists []. split; [constructor|]. by rewrite app_nil_r.
      + intros k rn ni Hk Hin. left. eauto.
    - apply bind_Ok in H as (tcs2 & Hstep & H).
      apply do_route_bins_step in Hstep
        as (nd & ni & Hn & Hnd & Hni & Hlen2 & Hperm & Hlk); [|done].
      destruct (IH _ _ Hlen2 H) as (Hl & (queued & Hq & Hp) & Hin).
      split; [done|]. split.
      + exists (ni :: queued). split; [by constructor|].
        rewrite Hp, Hperm, <- app_assoc. done.
      + intros k rn ni' Hk Hni'.
        destruct (Hin k rn ni' Hk Hni') as [(rn0 & Hrn0 & Hin0)|(m & nd' & ? & ?)].
        * rewrite Hlk in Hrn0. destruct (decide (k = net_bin pt nd)) as [->|Hne].
          -- destruct (tcs0 !! net_bin pt nd) as [rn1|] eqn:E1; [|done].
             injection Hrn0 as <-.
             apply elem_of_app in Hin0 as [Hin0|Hin0%list_elem_of_singleton].
             ++ left. eauto.
             ++ subst ni'. right. exists n, nd.
                split; [apply list_elem_of_here|]. done.
          -- left. eauto.
        * right. exists m, nd'. split; [by apply list_elem_of_further | tauto]. }
  intros H. apply Hgen in H as (Hl & (queued & Hq & Hp) & Hin).
  - split; [done|]. split.
    + exists queued. split; [done|]. rewrite Hp.
      assert (concat (replicate (N + 1) ([] : list NetInfo)) = []) as -> by done.
      done.
    + intros k rn ni Hk Hni.
      destruct (Hin k rn ni Hk Hni) as [(rn0 & Hrn0 & Hin0)|?]; [|done].
      apply lookup_replicate in Hrn0 as [-> _]. by apply not_elem_of_nil in Hin0.
  - by rewrite length_replicate.
Qed.

Lemma do_route_bins_partition_witness :
  ∃ tcs, do_route_bins (mkPartition 10 10) router_queued = Ok tcs
         ∧ length tcs = S N.
Proof.
  eexists. split; [vm_compute; reflexivity|].
  refine (proj1 (do_route_bins_partition (mkPartition 10 10) router_queued _ _)).
  vm_compute. reflexivity.
Defined.

Lemma router_thread_loop fuel ctx : ∀ route_nets a r t f0 a' r' t' failed,
  foldM (λ '(a, r, t, failed) n,
           '(result, a', r', t') ← route_net fuel ctx a r t n true;
           Ok (a', r', t', if (result : bool) then failed else failed ++ [n]))
    (a, r, t, f0) route_nets = Ok (a', r', t', failed) →
  wire_bind a' = wire_bind a ∧ pip_bind a' = pip_bind a
  ∧ unrouted r' = unrouted r
  ∧ ∀ n, n ∈ failed → n ∈ f0 ∨ n ∈ route_nets.
Proof.
  induction route_nets as [|n l IH]; intros a r t f0 a' r' t' failed H;
    simpl in H.
  - injection H as <- <- <- <-. split_and!; try done. intros n Hn. by left.
  - apply bind_Ok in H as ([[[a1 r1] t1] f1] & Hs & H).
    apply bind_Ok in Hs as ([[[res a2] r2] t2] & Hr & Hs).
    injection Hs as <- <- <- <-.
    apply route_net_unrouted in Hr as (E1 & E2 & E3).
    apply IH in H as (F1 & F2 & F3 & F4).
    split_and!; try congruence.
    intros m Hm. destruct (F4 m Hm) as [Hf|Hl].
    + destruct res; [by left|].
      apply elem_of_app in Hf as [?|Hf%list_elem_of_singleton]; [by left|].
      subst m. right. apply list_elem_of_here.
    + right. by apply list_elem_of_further.
Qed.

Lemma route_net_mt_Err fuel ctx a r t net e :
  route_net fuel ctx a r t net true = Err e → thread_safe_error e.
Proof.
  unfold route_net. intros H.
  destruct (ARCH_ECP5 ctx && is_global net); [done|].
  destruct (driver_cell net); [|done].
  err_step H; [by apply route_net_ripup_Err in H|].
  destruct a0 as [[ret r1] t1]. destruct ret; [done|].
  by apply route_net_arcs_mt_Err in H.
Qed.

(** X18.  A worker thread routes softly and without [log_error]:
    [router_thread] leaves the binding tables of the device as they are and
    writes routes only in the router, its failed nets are nets it was given,
    and when it fails it is not with the exception of [log_error]. *)
Theorem router_thread_soft (fuel : nat) (ctx : Context) (a : ArchState)
    (r : Router) (t : ThreadContext) (route_nets : list NetInfo) :
  (∀ a' r' t' failed,
     router_thread fuel ctx (a, r, t) route_nets = Ok (a', r', t', failed) →
     wire_bind a' = wire_bind a ∧ pip_bind a' = pip_bind a
     ∧ unrouted r' = unrouted r
     ∧ failed ⊆ route_nets)
  ∧ (∀ e, router_thread fuel ctx (a, r, t) route_nets = Err e → e ≠ LogError).
Proof.
  unfold router_thread. split.
  - intros a' r' t' failed (? & ? & ? & Hf)%router_thread_loop.
    split_and!; try done. intros n Hn.
    destruct (Hf n Hn) as [Hn0|?]; [|done]. by apply not_elem_of_nil in Hn0.
  - intros e H. eapply (foldM_Err _ thread_safe_error) in H; [by destruct H|].
    intros [[[a0 r0] t0] f0] n e0 Hs.
    err_step Hs; [by eapply route_net_mt_Err|].
    by destruct a1 as [[[? ?] ?] ?].
Qed.

(** ** The split points of [partition_nets] *)

Lemma filter_none {A} (P : A → Prop) `{∀ x, Decision (P x)} (l : list A) :
  (∀ x, x ∈ l → ¬ P x) → filter P l = [].
Proof.
  induction l as [|x l IH]; intros Hn; [done|].
  rewrite filter_cons, decide_False by (apply Hn, list_elem_of_here).
  apply IH. intros y Hy. by apply Hn, list_elem_of_further.
Qed.

Lemma histogram_counts c : ∀ ns k,
  histogram c ns !! k
  = if decide (k ∈ centres c ns) then Some (count_of k (centres c ns)) else None.
Proof.
  assert (∀ ns m cs,
    (∀ k, m !! k = if decide (k ∈ cs) then Some (count_of k cs) else None) →
    ∀ k, fold_left (λ m n, if bool_decide (c n ≠ -1) then count_up m (c n) else m)
           ns m !! k
         = if decide (k ∈ cs ++ centres c ns)
           then Some (count_of k (cs ++ centres c ns)) else None) as Hgen.
  { unfold count_of. induction ns as [|n ns IH]; intros m cs Hm k.
    - cbn [fold_left]. unfold centres. simpl. rewrite app_nil_r. apply Hm.
    - cbn [fold_left]. unfold centres. rewrite fmap_cons, filter_cons.
      fold (centres c ns). destruct (decide (c n ≠ -1)) as [Hc|Hc].
      + rewrite (bool_decide_true (c n ≠ -1)) by done.
        replace (cs ++ c n :: centres c ns) with ((cs ++ [c n]) ++ centres c ns)
          by (by rewrite <- app_assoc).
        apply IH. intros k'. unfold count_up. rewrite Hm.
        rewrite filter_app, length_app, filter_cons, filter_nil.
        destruct (decide (k' = c n)) as [->|Hne].
        * rewrite lookup_insert_eq.
          rewrite (decide_True (P := c n = c n)) by done.
          rewrite (decide_True (P := c n ∈ cs ++ [c n]))
            by (apply elem_of_app; right; apply list_elem_of_here).
          f_equal. simpl.
          destruct (decide (c n ∈ cs)) as [Hin|Hnin]; simpl; [lia|].
          assert (filter (λ c0, c0 = c n) cs = []) as ->; [|simpl; lia].
          apply filter_none. by intros x Hx ->.
        * rewrite lookup_insert_ne, Hm by done.
          rewrite (decide_False (P := c n = k')) by done. simpl.
          destruct (decide (k' ∈ cs)) as [Hin|Hnin].
          -- rewrite decide_True by (apply elem_of_app; by left).
             do 2 f_equal. lia.
          -- rewrite decide_False; [done|].
             by intros [?|?%list_elem_of_singleton]%elem_of_app.
      + rewrite (bool_decide_false (c n ≠ -1)) by done. by apply IH. }
  intros ns k. unfold histogram.
  rewrite (Hgen ns ∅ []); [done|]. intros k'. by rewrite lookup_empty.
Qed.

Lemma cnt_pos k cs : k ∈ cs → 0 < count_of k cs.
Proof.
  unfold count_of.
  induction cs as [|x cs IH]; [by intros ?%elem_of_nil|].
  rewrite filter_cons. intros [->|Hin]%elem_of_cons.
  - rewrite decide_True by done. simpl. lia.
  - destruct (decide (x = k)); simpl; [lia | by apply IH].
Qed.

Lemma split_scan_spec halfway : ∀ h mid acc,
  Forall (λ p : Z * Z, 0 < p.2) h →
  (fold_left (split_scan halfway) h (mid, acc)).2 = acc + total_of h
  ∧ (acc < halfway ≤ acc + total_of h →
     ∃ pre p post, h = pre ++ p :: post
       ∧ (fold_left (split_scan halfway) h (mid, acc)).1 = p.1
       ∧ acc + total_of pre < halfway ≤ acc + total_of pre + p.2)
  ∧ (halfway ≤ acc ∨ acc + total_of h < halfway →
     (fold_left (split_scan halfway) h (mid, acc)).1 = mid).
Proof.
  unfold total_of.
  induction h as [|p h IH]; intros mid acc Hpos.
  - simpl. split; [lia|]. split; [lia | done].
  - apply Forall_cons in Hpos as [Hp Hpos]. cbn [fold_left foldr].
    assert (0 ≤ total_of h) as Hnn.
    { clear -Hpos. induction Hpos; simpl; lia. }
    unfold total_of in Hnn. unfold split_scan at 2 4 6. cbn [fst snd].
    destruct (IH (if (acc <? halfway) && (halfway <=? acc + p.2) then p.1 else mid)
                (acc + p.2) Hpos) as (E1 & E2 & E3).
    split; [rewrite E1; lia|]. split.
    + intros Hr. destruct (Z.leb_spec halfway (acc + p.2)) as [Hle|Hgt].
      * exists [], p, h. split; [done|]. split; [|simpl; lia].
        rewrite E3 by lia.
        destruct (Z.ltb_spec acc halfway); [done | lia].
      * destruct E2 as (pre & q & post & -> & Eq & Hq); [lia|].
        exists (p :: pre), q, post. split; [done|]. split; [|simpl; lia].
        rewrite <- Eq. by rewrite andb_false_r.
    + intros Hout. rewrite E3 by lia.
      destruct Hout as [Hge|Hlt].
      * by destruct (Z.ltb_spec acc halfway); [lia|].
      * destruct (Z.leb_spec halfway (acc + p.2)); [lia|].
        by rewrite andb_false_r.
Qed.

Lemma filter_length_ext {A} (P Q : A → Prop) `{∀ x, Decision (P x)}
    `{∀ x, Decision (Q x)} (l : list A) :
  (∀ x, x ∈ l → P x ↔ Q x) → length (filter P l) = length (filter Q l).
Proof.
  induction l as [|x l IH]; intros Hext; [done|].
  rewrite !filter_cons.
  assert (length (filter P l) = length (filter Q l)) as IH'.
  { apply IH. intros y Hy. apply Hext. by right. }
  pose proof (Hext x (list_elem_of_here _ _)) as Hx.
  destruct (decide (P x)), (decide (Q x)); simpl; tauto || lia.
Qed.

Lemma total_of_counts (cs : list Z) : ∀ ks,
  NoDup ks →
  total_of ((λ k, (k, count_of k cs)) <$> ks)
  = Z.of_nat (length (filter (λ c, c ∈ ks) cs)).
Proof.
  unfold total_of, count_of.
  induction ks as [|k ks IH]; intros Hnd.
  - simpl. assert (filter (λ c : Z, c ∈ []) cs = []) as ->; [|done].
    apply filter_none. by intros x _ ?%elem_of_nil.
  - apply NoDup_cons in Hnd as [Hk Hnd]. rewrite fmap_cons. cbn [foldr snd].
    rewrite IH by done. clear IH.
    induction cs as [|x cs IHcs]; [done|]. rewrite !filter_cons.
    destruct (decide (x = k)) as [->|Hne].
    + rewrite (decide_True (P := k ∈ k :: ks)) by apply list_elem_of_here.
      rewrite (decide_False (P := k ∈ ks)) by done. simpl in *. lia.
    + destruct (decide (x ∈ ks)) as [Hin|Hnin].
      * rewrite (decide_True (P := x ∈ k :: ks)) by (by right). simpl in *. lia.
      * rewrite (decide_False (P := x ∈ k :: ks)); [done|].
        by intros [?|?]%elem_of_cons.
Qed.

Lemma sorted_split (pre : list Z) k post :
  StronglySorted Z.le (pre ++ k :: post) → NoDup (pre ++ k :: post) →
  (∀ x, x ∈ pre → x < k) ∧ (∀ x, x ∈ post → k < x).
Proof.
  induction pre as [|a pre IH]; simpl; intros Hs Hnd.
  - apply StronglySorted_inv in Hs as [_ Hall].
    apply NoDup_cons in Hnd as [Hk _].
    split; [by intros x ?%elem_of_nil|]. intros x Hx.
    pose proof (proj1 (Forall_forall _ _) Hall x Hx).
    assert (x ≠ k) by (intros ->; done). lia.
  - apply StronglySorted_inv in Hs as [Hs Hall].
    apply NoDup_cons in Hnd as [Ha Hnd].
    destruct (IH Hs Hnd) as [IH1 IH2]. split; [|done].
    intros x [->|Hx]%elem_of_cons; [|by apply IH1].
    pose proof (proj1 (Forall_forall _ _) Hall k) as Hle.
    assert (k ∈ pre ++ k :: post) as Hin
      by (apply elem_of_app; right; apply list_elem_of_here).
    assert (a ≠ k) by (by intros ->).
    assert (a ≤ k) by (by apply Hle). lia.
Qed.

Lemma split_point_median c ns halfway mid :
  (0 < halfway ≤ Z.of_nat (length (centres c ns)) →
   is_split halfway (centres c ns)
     (split_point halfway mid (in_order (histogram c ns))))
  ∧ (halfway ≤ 0 ∨ Z.of_nat (length (centres c ns)) < halfway →
     split_point halfway mid (in_order (histogram c ns)) = mid).
Proof.
  set (cs := centres c ns). set (m := histogram c ns).
  set (ks := merge_sort Z.le (elements (dom m))).
  assert (∀ k, k ∈ ks ↔ k ∈ cs) as Hks.
  { intros k. unfold ks. rewrite merge_sort_Permutation, elem_of_elements.
    rewrite elem_of_dom. unfold m. rewrite histogram_counts. fold cs.
    destruct (decide (k ∈ cs)); [by split; eauto|].
    split; [by intros [? ?] | done]. }
  assert (NoDup ks) as Hnd.
  { unfold ks. rewrite merge_sort_Permutation. apply NoDup_elements. }
  assert (StronglySorted Z.le ks) as Hss.
  { apply (StronglySorted_merge_sort _). }
  assert (in_order m = (λ k, (k, count_of k cs)) <$> ks) as Hio.
  { unfold in_order. fold ks. apply list_fmap_ext. intros i k Hk.
    apply list_elem_of_lookup_2, Hks in Hk. unfold m.
    rewrite histogram_counts. fold cs. by rewrite decide_True. }
  assert (Forall (λ p : Z * Z, 0 < p.2) (in_order m)) as Hpos.
  { rewrite Hio. apply Forall_fmap, Forall_forall. intros k Hk. simpl.
    by apply cnt_pos, Hks. }
  assert (total_of (in_order m) = Z.of_nat (length cs)) as Htot.
  { rewrite Hio, total_of_counts by done. f_equal.
    rewrite (filter_length_ext _ (λ _, True)); [|by intros x ?%Hks].
    clear. induction cs as [|x cs IH]; [done|]. rewrite filter_cons.
    rewrite decide_True by done. simpl. by rewrite IH. }
  destruct (split_scan_spec halfway (in_order m) mid 0 Hpos) as (_ & E2 & E3).
  rewrite Htot in E2, E3. unfold split_point. split.
  - intros Hr. destruct E2 as (pre & p & post & Hh & -> & Hp); [lia|].
    rewrite Hio in Hh. apply fmap_app_inv in Hh as (kpre & krest & -> & Hrest & Hsplit).
    symmetry in Hrest. apply fmap_cons_inv in Hrest as (k & kpost & -> & -> & ->).
    simpl in *. rewrite Hsplit in Hks, Hnd, Hss.
    destruct (sorted_split _ _ _ Hss Hnd) as [Hlt Hgt].
    assert (k ∈ cs) as Hk
      by (apply Hks, elem_of_app; right; apply list_elem_of_here).
    assert (NoDup kpre) as Hndpre by (by apply NoDup_app in Hnd as [? _]).
    rewrite total_of_counts in Hp by done.
    assert (length (filter (λ c0, c0 ∈ kpre) cs) = length (filter (λ c0, c0 < k) cs))
      as Hbelow.
    { apply filter_length_ext. intros x Hx. split; [by apply Hlt|].
      intros Hxk. apply Hks in Hx.
      apply elem_of_app in Hx as [?|[->|Hx]%elem_of_cons]; [done | lia |].
      apply Hgt in Hx. lia. }
    assert (length (filter (λ c0, c0 ≤ k) cs)
            = Nat.add (length (filter (λ c0, c0 < k) cs))
                (length (filter (λ c0, c0 = k) cs))) as Hupto.
    { clear. induction cs as [|x cs IH]; [done|]. rewrite !filter_cons.
      destruct (decide (x ≤ k)), (decide (x < k)), (decide (x = k));
        simpl; lia. }
    unfold is_split, below, upto. split; [done|].
    unfold count_of in Hp. rewrite Hupto, <- Hbelow. lia.
  - intros Hout. apply E3. lia.
Qed.

(** X28.  [partition_nets] splits at a median of the centres.  With
    [halfway] half the number of nets, if at least [halfway] nets have a
    centre in x (and there are two nets or more), the new [mid_x] is the
    centre of one of them, fewer than [halfway] centres lie below it and at
    least [halfway] lie below it or at it.  Otherwise [mid_x] keeps its
    value.  The same holds for [mid_y]. *)
Theorem partition_nets_median (pt : Partition) (r : Router) :
  let halfway := Z.of_nat (length (nets r)) ÷ 2 in
  let xs := centres cx (nets r) in
  let ys := centres cy (nets r) in
  (0 < halfway ≤ Z.of_nat (length xs) →
   is_split halfway xs (mid_x (partition_nets pt r)))
  ∧ (halfway = 0 ∨ Z.of_nat (length xs) < halfway →
     mid_x (partition_nets pt r) = mid_x pt)
  ∧ (0 < halfway ≤ Z.of_nat (length ys) →
     is_split halfway ys (mid_y (partition_nets pt r)))
  ∧ (halfway = 0 ∨ Z.of_nat (length ys) < halfway →
     mid_y (partition_nets pt r) = mid_y pt).
Proof.
  intros halfway xs ys. unfold partition_nets. fold halfway. simpl.
  destruct (split_point_median cx (nets r) halfway (mid_x pt)) as [X1 X2].
  destruct (split_point_median cy (nets r) halfway (mid_y pt)) as [Y1 Y2].
  split_and!; try done.
  - intros [H|H]; apply X2; [left; lia | by right].
  - intros [H|H]; apply Y2; [left; lia | by right].
Qed.

(** * Properties of the floating-point numbers *)

Import Binary.

Lemma pow2_pos e : (0 < 2 ^ e)%Q.
Proof. by apply Qpower_0_lt. Qed.

Lemma pow2_add a b : (2 ^ (a + b) == 2 ^ a * 2 ^ b)%Q.
Proof. by apply Qpower_plus. Qed.

Lemma pow2_inject a : 0 ≤ a → (inject_Z (2 ^ a) == 2 ^ a)%Q.
Proof. intros Ha. by rewrite Zpower_Qpower. Qed.

Lemma Qlog2_spec x :
  (0 < x)%Q → (2 ^ Qlog2 x <= x)%Q ∧ (x < 2 ^ (Qlog2 x + 1))%Q.
Proof.
  intros Hx. destruct x as [n d].
  assert (0 < n) as Hn by (unfold Qlt in Hx; simpl in Hx; lia).
  unfold Qlog2. cbn [Qnum Qden].
  set (a := Z.log2 n). set (b := Z.log2 (Z.pos d)).
  destruct (Z.log2_spec n Hn) as [Ha1 Ha2]. fold a in Ha1, Ha2.
  destruct (Z.log2_spec (Z.pos d) eq_refl) as [Hb1 Hb2]. fold b in Hb1, Hb2.
  assert (0 ≤ a) as Ha0 by apply Z.log2_nonneg.
  assert (0 ≤ b) as Hb0 by apply Z.log2_nonneg.
  assert (n # d == inject_Z n / inject_Z (Z.pos d))%Q as Hq by apply Qmake_Qdiv.
  assert (0 < inject_Z (Z.pos d))%Q as Hd0.
  { change 0%Q with (inject_Z 0). by rewrite <- Zlt_Qlt. }
  assert (inject_Z (2 ^ a) <= inject_Z n)%Q as A1 by (by rewrite <- Zle_Qle).
  assert (inject_Z n < inject_Z (2 ^ Z.succ a))%Q as A2 by (by rewrite <- Zlt_Qlt).
  assert (inject_Z (2 ^ b) <= inject_Z (Z.pos d))%Q as B1 by (by rewrite <- Zle_Qle).
  assert (inject_Z (Z.pos d) < inject_Z (2 ^ Z.succ b))%Q as B2
    by (by rewrite <- Zlt_Qlt).
  rewrite pow2_inject in A1, A2, B1, B2 by lia.
  (* the two bounds that hold for the first guess of the exponent *)
  assert (2 ^ (a - b - 1) <= n # d)%Q as Hlow.
  { rewrite Hq. apply Qle_shift_div_l; [done|].
    apply Qle_trans with (2 ^ (a - b - 1) * 2 ^ Z.succ b)%Q.
    - apply Qmult_le_l; [apply pow2_pos | by apply Qlt_le_weak].
    - rewrite <- pow2_add. by replace (a - b - 1 + Z.succ b) with a by lia. }
  assert (n # d < 2 ^ (a - b + 1))%Q as Hup.
  { rewrite Hq. apply Qlt_shift_div_r; [done|].
    apply Qlt_le_trans with (2 ^ Z.succ a)%Q; [done|].
    replace (Z.succ a) with (a - b + 1 + b) by lia. rewrite pow2_add.
    apply Qmult_le_l; [apply pow2_pos | done]. }
  destruct (Qle_bool (2 ^ (a - b)) (n # d)) eqn:E.
  - apply Qle_bool_iff in E. by split.
  - split; [done|]. replace (a - b - 1 + 1) with (a - b) by lia.
    apply Qnot_le_lt. intros H. apply Qle_bool_iff in H. congruence.
Qed.

Lemma round_half_even_near y :
  (y - (1 # 2) <= inject_Z (round_half_even y))%Q
  ∧ (inject_Z (round_half_even y) <= y + (1 # 2))%Q.
Proof.
  unfold round_half_even.
  pose proof (Qfloor_le y) as H1. pose proof (Qlt_floor y) as H2.
  rewrite inject_Z_plus in H2. change (inject_Z 1) with 1%Q in H2.
  set (f := Qfloor y) in *.
  destruct (Qltb (y - inject_Z f) (1 # 2)) eqn:E1.
  { apply Qltb_lt in E1. split; lra. }
  apply Qltb_ge in E1.
  destruct (Qltb (1 # 2) (y - inject_Z f)) eqn:E2.
  { apply Qltb_lt in E2. rewrite inject_Z_plus.
    change (inject_Z 1) with 1%Q. split; lra. }
  apply Qltb_ge in E2.
  destruct (Z.even f); [split; lra|].
  rewrite inject_Z_plus. change (inject_Z 1) with 1%Q. split; lra.
Qed.

Lemma round_half_even_ge k y :
  (inject_Z k <= y)%Q → k ≤ round_half_even y.
Proof.
  intros H. assert (k ≤ Qfloor y) as Hf.
  { rewrite <- (Qfloor_Z k). by apply Qfloor_resp_le. }
  unfold round_half_even. repeat destruct (_ : bool); lia.
Qed.

Lemma round_half_even_le k y :
  (y <= inject_Z k)%Q → round_half_even y ≤ k.
Proof.
  intros H. assert (Qfloor y ≤ k) as Hf.
  { rewrite <- (Qfloor_Z k). by apply Qfloor_resp_le. }
  destruct (Z.eq_dec (Qfloor y) k) as [E|E].
  - (* [y] lies in [k, k + 1) and is at most [k] *)
    pose proof (Qfloor_le y) as H1. rewrite E in H1.
    unfold round_half_even. rewrite E.
    assert (Qltb (y - inject_Z k) (1 # 2) = true) as ->; [|done].
    apply Qltb_lt. lra.
  - unfold round_half_even. repeat destruct (_ : bool); lia.
Qed.

(** The rounding of a positive number: the result is a multiple of the
    unit in the last place, which is small against the number, and lies
    within half a unit of it. *)
Lemma round_pos_spec prec emin x :
  (0 < x)%Q →
  let u := (2 ^ ulp_exp prec emin x)%Q in
  (0 < u)%Q
  ∧ (u <= 2 ^ (1 - prec) * x + 2 ^ emin)%Q
  ∧ (x - u * (1 # 2) <= round_pos prec emin x)%Q
  ∧ (round_pos prec emin x <= x + u * (1 # 2))%Q.
Proof.
  intros Hx u. pose proof (pow2_pos (ulp_exp prec emin x)) as Hu. fold u in Hu.
  split; [done|]. split.
  - unfold u, ulp_exp. destruct (Qlog2_spec x Hx) as [Hl _].
    pose proof (pow2_pos emin). pose proof (pow2_pos (1 - prec)).
    destruct (Z.max_spec (Qlog2 x - (prec - 1)) emin) as [[_ ->]|[_ ->]].
    + assert (0 <= 2 ^ (1 - prec) * x)%Q by (apply Qmult_le_0_compat; lra). lra.
    + replace (Qlog2 x - (prec - 1)) with (1 - prec + Qlog2 x) by lia.
      rewrite pow2_add.
      assert (2 ^ (1 - prec) * 2 ^ Qlog2 x <= 2 ^ (1 - prec) * x)%Q
        by (apply Qmult_le_l; done). lra.
  - unfold round_pos. fold u.
    destruct (round_half_even_near (x / u)) as [H1 H2].
    set (m := inject_Z (round_half_even (x / u))) in *.
    assert (x == x / u * u)%Q as Hxu by (field; lra).
    assert ((x / u - (1 # 2)) * u <= m * u)%Q
      by (apply Qmult_le_compat_r; lra).
    assert (m * u <= (x / u + (1 # 2)) * u)%Q
      by (apply Qmult_le_compat_r; lra).
    split; lra.
Qed.

(** A positive number below [2^prec] is not rounded across an integer. *)
Lemma round_pos_int prec emin x k :
  emin ≤ 0 → (0 < x)%Q → (x < 2 ^ prec)%Q →
  ((inject_Z k <= x)%Q → (inject_Z k <= round_pos prec emin x)%Q)
  ∧ ((x <= inject_Z k)%Q → (round_pos prec emin x <= inject_Z k)%Q).
Proof.
  intros Hemin Hx Hlt. unfold round_pos.
  set (e := ulp_exp prec emin x).
  assert (e ≤ 0) as He.
  { unfold e, ulp_exp. destruct (Qlog2_spec x Hx) as [Hl _].
    assert (Qlog2 x < prec).
    { apply (Qpower_lt_compat_l_inv 2); [|done].
      by apply Qle_lt_trans with x. }
    lia. }
  pose proof (pow2_pos e) as Hu.
  assert (2 ^ e * inject_Z (2 ^ (- e)) == 1)%Q as Hinv.
  { rewrite pow2_inject by lia. rewrite <- pow2_add.
    by replace (e + - e) with 0 by lia. }
  set (u := (2 ^ e)%Q) in *. set (v := inject_Z (2 ^ (- e))) in *.
  assert (0 < v)%Q as Hv.
  { unfold v. change 0%Q with (inject_Z 0). rewrite <- Zlt_Qlt.
    apply Z.pow_pos_nonneg; lia. }
  assert (x / u == x * v)%Q as Hdiv by (field_simplify_eq; [nra | lra]).
  split; intros Hk.
  - assert (k * 2 ^ (- e) ≤ round_half_even (x / u)) as Hm.
    { apply round_half_even_ge. rewrite inject_Z_mult. fold v. rewrite Hdiv.
      apply Qmult_le_compat_r; lra. }
    rewrite Zle_Qle, inject_Z_mult in Hm. fold v in Hm.
    set (m := inject_Z (round_half_even (x / u))) in *.
    assert (inject_Z k * v * u <= m * u)%Q by (apply Qmult_le_compat_r; lra).
    nra.
  - assert (round_half_even (x / u) ≤ k * 2 ^ (- e)) as Hm.
    { apply round_half_even_le. rewrite inject_Z_mult. fold v. rewrite Hdiv.
      apply Qmult_le_compat_r; lra. }
    rewrite Zle_Qle, inject_Z_mult in Hm. fold v in Hm.
    set (m := inject_Z (round_half_even (x / u))) in *.
    assert (m * u <= inject_Z k * v * u)%Q by (apply Qmult_le_compat_r; lra).
    nra.
Qed.

Lemma fl_comp prec emin x y : (x == y)%Q → fl prec emin x = fl prec emin y.
Proof. intros H. unfold fl. by rewrite (Qred_complete _ _ H). Qed.

Lemma fl_zero prec emin x : (x == 0)%Q → fl prec emin x = 0%Q.
Proof. intros H. by rewrite (fl_comp _ _ _ _ H). Qed.

Lemma fl_pos prec emin x :
  (0 < x)%Q → (fl prec emin x == round_pos prec emin (Qred x))%Q.
Proof.
  intros Hx. unfold fl.
  assert (0 < Qred x)%Q as Hr by (by rewrite Qred_correct).
  destruct (Qred x) as [n d] eqn:E. unfold Qlt in Hr. simpl in Hr.
  destruct n as [|n|n]; try lia. cbn [Qnum]. apply Qred_correct.
Qed.

(** The error of a rounding, for a number that is not negative. *)
Lemma fl_near prec emin x :
  (0 <= x)%Q →
  (0 <= fl prec emin x)%Q
  ∧ (x - (2 ^ (- prec) * x + 2 ^ (emin - 1)) <= fl prec emin x)%Q
  ∧ (fl prec emin x <= x + (2 ^ (- prec) * x + 2 ^ (emin - 1)))%Q.
Proof.
  intros Hx. pose proof (pow2_pos (- prec)). pose proof (pow2_pos (emin - 1)).
  destruct (Qle_lt_or_eq _ _ Hx) as [Hpos|Hz].
  - rewrite (fl_pos _ _ _ Hpos).
    assert (0 < Qred x)%Q as Hr by (by rewrite Qred_correct).
    destruct (round_pos_spec prec emin (Qred x) Hr) as (Hu & Hub & H1 & H2).
    set (u := (2 ^ ulp_exp prec emin (Qred x))%Q) in *.
    rewrite Qred_correct in Hub. pose proof (Qred_correct x) as Hrx.
    assert (2 ^ (1 - prec) == 2 * 2 ^ (- prec))%Q as E1.
    { replace (1 - prec) with (1 + - prec) by lia. by rewrite pow2_add. }
    assert (2 ^ emin == 2 * 2 ^ (emin - 1))%Q as E2.
    { replace emin with (1 + (emin - 1)) at 1 by lia. by rewrite pow2_add. }
    rewrite E1, E2 in Hub.
    assert (0 <= round_pos prec emin (Qred x))%Q as Hnn.
    { unfold round_pos. apply Qmult_le_0_compat; [|by apply Qlt_le_weak, pow2_pos].
      change 0%Q with (inject_Z 0). rewrite <- Zle_Qle.
      apply round_half_even_ge. change (inject_Z 0) with 0%Q.
      apply Qle_shift_div_l; [apply pow2_pos|].
      rewrite Qmult_0_l. by apply Qlt_le_weak. }
    split; [done|]. split; lra.
  - rewrite fl_zero by done. rewrite <- Hz. split; [lra|].
    split; lra.
Qed.

(** A number from 0 to [2^prec] is not rounded across an integer; so an
    integer in that range is a number of the format. *)
Lemma fl_int_bounds prec emin x k :
  emin ≤ 0 → (0 <= x)%Q → (x < 2 ^ prec)%Q →
  ((inject_Z k <= x)%Q → (inject_Z k <= fl prec emin x)%Q)
  ∧ ((x <= inject_Z k)%Q → (fl prec emin x <= inject_Z k)%Q).
Proof.
  intros Hemin Hx Hlt.
  destruct (Qle_lt_or_eq _ _ Hx) as [Hpos|Hz].
  - rewrite (fl_pos _ _ _ Hpos).
    assert (0 < Qred x)%Q as Hr by (by rewrite Qred_correct).
    assert (Qred x < 2 ^ prec)%Q as Hr2 by (by rewrite Qred_correct).
    destruct (round_pos_int prec emin (Qred x) k Hemin Hr Hr2) as [H1 H2].
    pose proof (Qred_correct x) as Hrx.
    split; intros Hk; [apply H1 | apply H2]; lra.
  - rewrite fl_zero by done. rewrite <- Hz. done.
Qed.

Lemma fl_int prec emin k :
  emin ≤ 0 → 0 ≤ k → (inject_Z k < 2 ^ prec)%Q →
  (fl prec emin (inject_Z k) == inject_Z k)%Q.
Proof.
  intros Hemin Hk Hlt.
  destruct (fl_int_bounds prec emin (inject_Z k) k Hemin) as [H1 H2];
    [by rewrite <- (Zle_Qle 0) | done |].
  apply Qle_antisym; [apply H2 | apply H1]; lra.
Qed.

(** * Properties of the placer *)

Import Binary Placer PlacerSpec.

(** ** The annealing schedule *)

Lemma Qtrunc_nonneg q : (0 <= q)%Q → Qtrunc q = Qfloor q.
Proof.
  intros H. destruct q as [n d]. unfold Qtrunc, Qfloor. simpl.
  apply Z.quot_div_nonneg; [|lia].
  unfold Qle in H. simpl in H. lia.
Qed.

Lemma Qdiv_nonneg a m : 0 ≤ a → 0 < m → (0 <= inject_Z a / inject_Z m)%Q.
Proof.
  intros Ha Hm. apply Qle_shift_div_l.
  - change 0%Q with (inject_Z 0). rewrite <- Zlt_Qlt. done.
  - rewrite Qmult_0_l. change 0%Q with (inject_Z 0). rewrite <- Zle_Qle. done.
Qed.

Lemma Qdiv_le_1 a m : a ≤ m → 0 < m → (inject_Z a / inject_Z m <= 1)%Q.
Proof.
  intros Ha Hm. apply Qle_shift_div_r.
  - change 0%Q with (inject_Z 0). rewrite <- Zlt_Qlt. done.
  - rewrite Qmult_1_l. by rewrite <- Zle_Qle.
Qed.

(** The error of a rounding to [double] and to [float], with the numbers
    written out: a relative error of [2^-53] or [2^-24], and an absolute
    one far below [2^-100] for the numbers near 0. *)
Lemma fl64_near x :
  (0 <= x)%Q →
  (0 <= fl64 x)%Q
  ∧ (x - (x * (1 # 9007199254740992) + (1 # 1267650600228229401496703205376))
     <= fl64 x)%Q
  ∧ (fl64 x
     <= x + (x * (1 # 9007199254740992) + (1 # 1267650600228229401496703205376)))%Q.
Proof.
  intros Hx. destruct (fl_near 53 (-1074) x Hx) as (H0 & H1 & H2).
  assert (2 ^ (-53) == 1 # 9007199254740992)%Q as E1 by reflexivity.
  assert (0 < 2 ^ (-1074 - 1))%Q as E2 by apply pow2_pos.
  assert (2 ^ (-1074 - 1) <= 1 # 1267650600228229401496703205376)%Q as E3
    by (vm_compute; discriminate).
  rewrite E1 in H1, H2. fold fl64 in H0, H1, H2. split; [done|]. split; lra.
Qed.

Lemma fl32_near x :
  (0 <= x)%Q →
  (0 <= fl32 x)%Q
  ∧ (x - (x * (1 # 16777216) + (1 # 1267650600228229401496703205376))
     <= fl32 x)%Q
  ∧ (fl32 x
     <= x + (x * (1 # 16777216) + (1 # 1267650600228229401496703205376)))%Q.
Proof.
  intros Hx. destruct (fl_near 24 (-149) x Hx) as (H0 & H1 & H2).
  assert (2 ^ (-24) == 1 # 16777216)%Q as E1 by reflexivity.
  assert (0 < 2 ^ (-149 - 1))%Q as E2 by apply pow2_pos.
  assert (2 ^ (-149 - 1) <= 1 # 1267650600228229401496703205376)%Q as E3
    by (vm_compute; discriminate).
  rewrite E1 in H1, H2. fold fl32 in H0, H1, H2. split; [done|]. split; lra.
Qed.

(** An integer of up to 53 bits is a [double]. *)
Lemma double_of_int_exact k :
  0 ≤ k < 2 ^ 53 → (double_of_int k == inject_Z k)%Q.
Proof.
  intros Hk. apply fl_int; [lia | lia |].
  rewrite <- pow2_inject by lia. rewrite <- Zlt_Qlt. lia.
Qed.

Lemma fl64_int_le x k :
  (0 <= x)%Q → (x <= inject_Z k)%Q → k < 2 ^ 53 →
  (fl64 x <= inject_Z k)%Q.
Proof.
  intros Hx Hk Hlt. apply fl_int_bounds; [lia | done | | done].
  apply Qle_lt_trans with (inject_Z k); [done|].
  rewrite <- pow2_inject by lia. rewrite <- Zlt_Qlt. lia.
Qed.

(** The acceptance ratio, a quotient of two [int], compares with a
    threshold [p / q] as its rounding does with the rounded threshold: the
    two differ by at least [1 / (q * n_move)], far more than the
    roundings. *)
Lemma ratio_compare a m (p : Z) (q : positive) :
  0 ≤ a ≤ m → 0 < m < 2 ^ 31 → 0 ≤ p ≤ Z.pos q → Z.pos q ≤ 100 →
  Qltb (dlit (p # q))
       (ddiv (double_of_int a) (double_of_int m))
  = Qltb (p # q) (inject_Z a / inject_Z m).
Proof.
  intros Ha Hm Hp Hq. unfold ddiv, dlit.
  set (R := (inject_Z a / inject_Z m)%Q).
  assert (fl64 (double_of_int a / double_of_int m) = fl64 R) as ->.
  { apply fl_comp. by rewrite !double_of_int_exact by lia. }
  assert (0 < inject_Z m)%Q as Hm0.
  { change 0%Q with (inject_Z 0). rewrite <- Zlt_Qlt. lia. }
  assert (inject_Z m <= 2147483648)%Q as Hm1.
  { change 2147483648%Q with (inject_Z 2147483648). rewrite <- Zle_Qle. lia. }
  assert (0 <= R)%Q as HR0 by (apply Qdiv_nonneg; lia).
  assert (R <= 1)%Q as HR1 by (apply Qdiv_le_1; lia).
  assert (R * inject_Z m == inject_Z a)%Q as HRm by (unfold R; field; lra).
  set (t := (p # q)%Q).
  assert (t * inject_Z (Z.pos q) == inject_Z p)%Q as Htq.
  { unfold t. rewrite (Qmake_Qdiv p q). field.
    change 0%Q with (inject_Z 0). by intros ?%eq_sym%inject_Z_injective. }
  assert (0 < inject_Z (Z.pos q) <= 100)%Q as [Hq0 Hq1].
  { split.
    - change 0%Q with (inject_Z 0). by rewrite <- Zlt_Qlt.
    - change 100%Q with (inject_Z 100). by rewrite <- Zle_Qle. }
  assert (0 <= t <= 1)%Q as [Ht0 Ht1].
  { unfold t, Qle. simpl. lia. }
  destruct (fl64_near R HR0) as (_ & R1 & R2).
  destruct (fl64_near t Ht0) as (_ & T1 & T2).
  set (Q' := inject_Z (Z.pos q)) in *. set (M' := inject_Z m) in *.
  (* the gap between two different ratios *)
  assert (∀ u v : Z, u < v → (inject_Z u + 1 <= inject_Z v)%Q) as Hstep.
  { intros u v Huv. change 1%Q with (inject_Z 1).
    rewrite <- inject_Z_plus, <- Zle_Qle. lia. }
  assert (M' * Q' <= 214748364800)%Q as HMQ by nra.
  assert (0 < M' * Q')%Q as HMQ0 by nra.
  destruct (Q_dec t R) as [[Hlt|Hgt]|Heq].
  - (* t < R *)
    assert (p * m < a * Z.pos q) as Hz.
    { rewrite Zlt_Qlt, !inject_Z_mult. fold M' Q'.
      rewrite <- HRm, <- Htq. nra. }
    apply Hstep in Hz. rewrite !inject_Z_mult in Hz. fold M' Q' in Hz.
    rewrite <- HRm, <- Htq in Hz.
    assert ((R - t) * (M' * Q') >= 1)%Q as Hgap by nra.
    assert ((R - t) * 214748364800 >= 1)%Q as Hgap' by nra.
    rewrite (proj2 (Qltb_lt _ _)) by lra.
    symmetry. apply Qltb_lt. done.
  - (* R < t *)
    assert (a * Z.pos q < p * m) as Hz.
    { rewrite Zlt_Qlt, !inject_Z_mult. fold M' Q'.
      rewrite <- HRm, <- Htq. nra. }
    apply Hstep in Hz. rewrite !inject_Z_mult in Hz. fold M' Q' in Hz.
    rewrite <- HRm, <- Htq in Hz.
    assert ((t - R) * (M' * Q') >= 1)%Q as Hgap by nra.
    assert ((t - R) * 214748364800 >= 1)%Q as Hgap' by nra.
    rewrite (proj2 (Qltb_ge _ _)) by lra.
    symmetry. apply Qltb_ge. lra.
  - assert (fl64 t = fl64 R) as -> by (by apply fl_comp).
    rewrite (proj2 (Qltb_ge _ _)) by lra.
    symmetry. apply Qltb_ge. lra.
Qed.

(** The literals of the schedule, as [double]s. *)
Lemma dlit_095 : dlit (95 # 100) = 4278419646001971 # 4503599627370496.
Proof. vm_compute. reflexivity. Qed.

Lemma dlit_half : dlit (1 # 2) = 1 # 2.
Proof. vm_compute. reflexivity. Qed.

Lemma dsub_056 : dsub 1 (dlit (44 # 100)) = 1261007895663739 # 2251799813685248.
Proof. vm_compute. reflexivity. Qed.

Lemma dlit_08 : dlit (8 # 10) = 3602879701896397 # 4503599627370496.
Proof. vm_compute. reflexivity. Qed.

Lemma dlit_02 : dlit (2 # 10) = 3602879701896397 # 18014398509481984.
Proof. vm_compute. reflexivity. Qed.

Lemma inject_Z_bounds k lo hi :
  lo ≤ k ≤ hi → (inject_Z lo <= inject_Z k <= inject_Z hi)%Q.
Proof. intros [??]. by rewrite <- !Zle_Qle. Qed.

(** The test of the wirelength against 95% of the running average is the
    one of the exact numbers: the two sides are at least 1/20 apart unless
    they are equal, and then the [double] product is not above the
    wirelength. *)
Lemma below_compare curr avg :
  0 ≤ curr < 2 ^ 40 → 0 ≤ avg < 2 ^ 40 →
  Qltb (double_of_int curr) (dmul (dlit (95 # 100)) (double_of_int avg))
  = Qltb (inject_Z curr) ((95 # 100) * inject_Z avg).
Proof.
  intros Hc Ha. unfold dmul. rewrite dlit_095.
  set (c := 4278419646001971 # 4503599627370496).
  assert (fl64 (c * double_of_int avg) = fl64 (c * inject_Z avg)) as ->.
  { apply fl_comp. by rewrite double_of_int_exact by lia. }
  pose proof (double_of_int_exact curr ltac:(lia)) as EC.
  set (C' := double_of_int curr) in *.
  destruct (inject_Z_bounds curr 0 (2 ^ 40) ltac:(lia)) as [C0 C1].
  destruct (inject_Z_bounds avg 0 (2 ^ 40) ltac:(lia)) as [A0 A1].
  change (inject_Z 0) with 0%Q in *.
  change (inject_Z (2 ^ 40)) with 1099511627776%Q in *.
  set (A := inject_Z avg) in *. set (C := inject_Z curr) in *.
  assert (0 <= c * A)%Q as HP by (unfold c; lra).
  destruct (fl64_near (c * A) HP) as (_ & P1 & P2).
  set (F := fl64 (c * A)) in *.
  assert ((c * A <= C)%Q → (F <= C)%Q) as Htie.
  { intros Hle. apply fl64_int_le; [done | done | lia]. }
  assert (∀ u v : Z, u < v → (inject_Z u + 1 <= inject_Z v)%Q) as Hstep.
  { intros u v Huv. change 1%Q with (inject_Z 1).
    rewrite <- inject_Z_plus, <- Zle_Qle. lia. }
  assert (20 * curr < 19 * avg → (20 * C + 1 <= 19 * A)%Q) as Hlt.
  { intros H%Hstep. by rewrite !inject_Z_mult in H. }
  assert (19 * avg < 20 * curr → (19 * A + 1 <= 20 * C)%Q) as Hgt.
  { intros H%Hstep. by rewrite !inject_Z_mult in H. }
  assert (20 * curr = 19 * avg → (20 * C == 19 * A)%Q) as Heq.
  { intros H. change 20%Q with (inject_Z 20). change 19%Q with (inject_Z 19).
    unfold A, C. rewrite <- !inject_Z_mult. by rewrite H. }
  clearbody F C' A C. subst c. clear Hstep.
  destruct (Z.lt_trichotomy (20 * curr) (19 * avg)) as [H|[H|H]].
  - specialize (Hlt H). clear Hgt Heq Htie.
    rewrite (proj2 (Qltb_lt C' F)) by lra.
    symmetry. apply Qltb_lt. lra.
  - specialize (Heq H). clear Hlt Hgt.
    assert (F <= C)%Q as Hle by (apply Htie; lra).
    rewrite (proj2 (Qltb_ge C' F)) by lra.
    symmetry. apply Qltb_ge. lra.
  - specialize (Hgt H). clear Hlt Heq Htie.
    rewrite (proj2 (Qltb_ge C' F)) by lra.
    symmetry. apply Qltb_ge. lra.
Qed.

(** The conversion to [int] of a [double] in the range of [int] that is not
    negative is its floor. *)
Lemma int_of_double_floor x :
  (0 <= x)%Q → (x < 2147483648)%Q → int_of_double x = Qfloor x.
Proof.
  intros H0 H1. unfold int_of_double. rewrite Qtrunc_nonneg by done.
  assert (0 ≤ Qfloor x).
  { change 0 with (Qfloor 0). by apply Qfloor_resp_le. }
  assert (Qfloor x < 2147483648).
  { rewrite Zlt_Qlt. apply Qle_lt_trans with x; [apply Qfloor_le | done]. }
  destruct (Z.leb_spec (-2147483648) (Qfloor x)); [|lia].
  destruct (Z.leb_spec (Qfloor x) 2147483647); [done|lia].
Qed.

Lemma int64_of_double_floor x :
  (0 <= x)%Q → (x < 9223372036854775808)%Q → int64_of_double x = Qfloor x.
Proof.
  intros H0 H1. unfold int64_of_double. rewrite Qtrunc_nonneg by done.
  assert (0 ≤ Qfloor x).
  { change 0 with (Qfloor 0). by apply Qfloor_resp_le. }
  assert (Qfloor x < 9223372036854775808).
  { rewrite Zlt_Qlt. apply Qle_lt_trans with x; [apply Qfloor_le | done]. }
  destruct (Z.leb_spec (- 2 ^ 63) (Qfloor x)); [|lia].
  destruct (Z.ltb_spec (Qfloor x) (2 ^ 63)); [done|lia].
Qed.

(** The diameter before the clamp: the rounding of the exact product, up to
    the errors of the five [double] operations, which stay below
    [tie_margin] for a diameter of up to [2^30]. *)
Lemma diam_next_bounds D a m :
  1 ≤ D ≤ 2 ^ 30 → 0 ≤ a ≤ m → 0 < m < 2 ^ 31 →
  let X := (inject_Z D * (1 - (44 # 100) + inject_Z a / inject_Z m))%Q in
  let d := int_of_double
             (dadd (dmul (double_of_int D)
                      (dadd (dsub 1 (dlit (44 # 100)))
                            (ddiv (double_of_int a) (double_of_int m))))
                   (dlit (1 # 2))) in
  round_nearest (X - tie_margin) ≤ d ≤ round_nearest (X + tie_margin).
Proof.
  intros HD Ha Hm X d. unfold d, ddiv, dmul, dadd.
  rewrite dlit_half, dsub_056.
  set (R := (inject_Z a / inject_Z m)%Q) in *.
  assert (fl64 (double_of_int a / double_of_int m) = fl64 R) as ->.
  { apply fl_comp. by rewrite !double_of_int_exact by lia. }
  assert (0 <= R)%Q as HR0 by (apply Qdiv_nonneg; lia).
  assert (R <= 1)%Q as HR1 by (apply Qdiv_le_1; lia).
  destruct (fl64_near R HR0) as (r0 & r1 & r2).
  set (r := fl64 R) in *.
  assert (0 <= (1261007895663739 # 2251799813685248) + r)%Q as Hs by lra.
  destruct (fl64_near _ Hs) as (s0 & s1 & s2).
  set (s := fl64 ((1261007895663739 # 2251799813685248) + r)) in *.
  assert (fl64 (double_of_int D * s) = fl64 (inject_Z D * s)) as ->.
  { apply fl_comp. by rewrite double_of_int_exact by lia. }
  destruct (inject_Z_bounds D 1 (2 ^ 30) ltac:(lia)) as [D0 D1].
  change (inject_Z 1) with 1%Q in *.
  change (inject_Z (2 ^ 30)) with 1073741824%Q in *.
  set (Dq := inject_Z D) in *.
  assert (0 <= Dq * s)%Q as Hy by (apply Qmult_le_0_compat; lra).
  destruct (fl64_near _ Hy) as (y0 & y1 & y2).
  set (y := fl64 (Dq * s)) in *.
  assert (0 <= y + (1 # 2))%Q as Hz by lra.
  destruct (fl64_near _ Hz) as (z0 & z1 & z2).
  set (z := fl64 (y + (1 # 2))) in *.
  (* the product against the exact one *)
  set (e := (s - ((56 # 100) + R))%Q).
  assert (- (1 # 2251799813685248) <= e <= 1 # 2251799813685248)%Q as [e1 e2]
    by (unfold e; clearbody s r R; split; lra).
  assert (Dq * s == X + Dq * e)%Q as EX by (unfold X, e; ring).
  assert (- (1 # 2097152) <= Dq * e <= 1 # 2097152)%Q as [p1 p2].
  { clearbody e Dq. split; nra. }
  assert (0 <= X <= 1675037246)%Q as [X0 X1].
  { assert (0 <= Dq * R <= Dq)%Q as [??] by (clearbody Dq R; split; nra).
    assert (X == Dq * (56 # 100) + Dq * R)%Q as -> by (unfold X; ring).
    clearbody Dq R. split; lra. }
  set (P := (Dq * s)%Q) in *. set (E := (Dq * e)%Q) in *.
  clearbody z y P E X. clear e1 e2 s0 s1 s2 r0 r1 r2 Hs.
  unfold tie_margin, round_nearest.
  rewrite int_of_double_floor by lra.
  split; apply Qfloor_resp_le; lra.
Qed.

(** The cooled temperature against the exact product. *)
Lemma cooled_near c t t' :
  (0 <= c <= 1)%Q → (0 <= t)%Q → cooled c t t' →
  (0 <= t')%Q
  ∧ (t * c - rounding_error t <= t' <= t * c + rounding_error t)%Q.
Proof.
  intros [Hc0 Hc1] Ht ->. unfold rounding_error.
  destruct (fl64_near c Hc0) as (c0 & c1 & c2).
  set (c' := fl64 c) in *.
  assert (0 <= t * c')%Q as Hu by (by apply Qmult_le_0_compat).
  destruct (fl64_near _ Hu) as (u0 & u1 & u2).
  set (u := fl64 (t * c')) in *.
  destruct (fl32_near u u0) as (v0 & v1 & v2).
  set (v := fl32 u) in *.
  split; [done|].
  clearbody v u c'.
  pose proof (Qmult_le_0_compat t (c' - c + (1 # 4503599627370496)) Ht
                ltac:(lra)).
  pose proof (Qmult_le_0_compat t ((1 # 4503599627370496) - (c' - c)) Ht
                ltac:(lra)).
  pose proof (Qmult_le_0_compat t c Ht Hc0).
  pose proof (Qmult_le_0_compat t (1 - c) Ht ltac:(lra)).
  split; lra.
Qed.

(** The running average of the branch that only updates it. *)
Lemma average_bounds curr avg :
  0 ≤ curr < 2 ^ 40 → 0 ≤ avg < 2 ^ 40 →
  let E := ((8 # 10) * inject_Z avg + (2 # 10) * inject_Z curr)%Q in
  let a := int64_of_double
             (dadd (dmul (dlit (8 # 10)) (double_of_int avg))
                   (dmul (dlit (2 # 10)) (double_of_int curr))) in
  Qfloor (E - average_margin) ≤ a ≤ Qfloor (E + average_margin).
Proof.
  intros Hc Ha E a. unfold a, dadd, dmul. rewrite dlit_08, dlit_02.
  assert (fl64 ((3602879701896397 # 4503599627370496) * double_of_int avg)
          = fl64 ((3602879701896397 # 4503599627370496) * inject_Z avg)) as ->.
  { apply fl_comp. by rewrite double_of_int_exact by lia. }
  assert (fl64 ((3602879701896397 # 18014398509481984) * double_of_int curr)
          = fl64 ((3602879701896397 # 18014398509481984) * inject_Z curr)) as ->.
  { apply fl_comp. by rewrite double_of_int_exact by lia. }
  destruct (inject_Z_bounds curr 0 (2 ^ 40) ltac:(lia)) as [C0 C1].
  destruct (inject_Z_bounds avg 0 (2 ^ 40) ltac:(lia)) as [A0 A1].
  change (inject_Z 0) with 0%Q in *.
  change (inject_Z (2 ^ 40)) with 1099511627776%Q in *.
  unfold E, average_margin.
  set (A := inject_Z avg) in *. set (C := inject_Z curr) in *.
  clearbody A C.
  assert (0 <= (3602879701896397 # 4503599627370496) * A)%Q as H1 by lra.
  destruct (fl64_near _ H1) as (u0 & u1 & u2).
  set (u := fl64 ((3602879701896397 # 4503599627370496) * A)) in *.
  assert (0 <= (3602879701896397 # 18014398509481984) * C)%Q as H2 by lra.
  destruct (fl64_near _ H2) as (v0 & v1 & v2).
  set (v := fl64 ((3602879701896397 # 18014398509481984) * C)) in *.
  assert (0 <= u + v)%Q as H3 by lra.
  destruct (fl64_near _ H3) as (w0 & w1 & w2).
  set (w := fl64 (u + v)) in *.
  clearbody u v w.
  rewrite int64_of_double_floor by lra.
  split; apply Qfloor_resp_le; lra.
Qed.

Lemma round_nearest_spec q :
  (inject_Z (round_nearest q) - (1 # 2) <= q)%Q
  ∧ (q < inject_Z (round_nearest q) + (1 # 2))%Q.
Proof.
  unfold round_nearest.
  pose proof (Qfloor_le (q + (1 # 2))) as H1.
  pose proof (Qlt_floor (q + (1 # 2))) as H2.
  rewrite inject_Z_plus in H2. change (inject_Z 1) with 1%Q in H2.
  split; lra.
Qed.

Lemma round_nearest_mono q r : (q <= r)%Q → round_nearest q ≤ round_nearest r.
Proof. intros H. unfold round_nearest. apply Qfloor_resp_le. lra. Qed.

Lemma clamp_max_min M v : 1 ≤ M → Z.max 1 (Z.min M v) = clamp 1 M v.
Proof.
  intros HM. unfold clamp.
  destruct (Z.ltb_spec v 1); destruct (Z.ltb_spec M v); lia.
Qed.

Lemma clamp_mono M v w : 1 ≤ M → v ≤ w → clamp 1 M v ≤ clamp 1 M w.
Proof. intros HM H. rewrite <- !clamp_max_min by done. lia. Qed.

Lemma int_wrap_grid x y :
  0 ≤ x < 2 ^ 31 - 1 → 0 ≤ y < 2 ^ 31 - 1 →
  int_wrap (Z.max x y + 1) = Z.max x y + 1.
Proof. intros Hx Hy. unfold int_wrap. rewrite Z.mod_small by lia. lia. Qed.

(** The temperature of the branch that cools: the factor is chosen by the
    exact acceptance ratio. *)
Lemma cool_factor (t : Q) a m d :
  0 ≤ a ≤ m → 0 < m < 2 ^ 31 →
  let Raccept := ddiv (double_of_int a) (double_of_int m) in
  let cool c := fl32 (dmul t (dlit c)) in
  cooled (cooling_factor (inject_Z a / inject_Z m) d) t
    (if Qltb (dlit (96 # 100)) Raccept then cool (5 # 10)
     else if Qltb (dlit (8 # 10)) Raccept then cool (9 # 10)
     else if Qltb (dlit (15 # 100)) Raccept && (1 <? d) then cool (95 # 100)
     else cool (8 # 10)).
Proof.
  intros Ha Hm Raccept cool. unfold Raccept.
  rewrite !ratio_compare by lia.
  unfold cooling_factor, cooled, cool, dmul.
  assert (dlit (5 # 10) = fl64 (1 # 2)) as -> by (by apply fl_comp).
  by repeat case_match.
Qed.

Lemma cooling_factor_range R d : (0 <= cooling_factor R d <= 1)%Q.
Proof.
  unfold cooling_factor. repeat case_match; split; unfold Qle; simpl; lia.
Qed.

(** C8.  The schedule block of [place], for a diameter from 1 to [2^30],
    counts of moves with [0 <= n_accept <= n_move] and [0 < n_move], a grid
    within [int], a temperature that is not negative and wirelengths from 0
    and below [2^40]; [R = n_accept / n_move], [M = max(max_x, max_y) + 1]
    and [X = diameter * (1 - 0.44 + R)] are the exact numbers.  When
    [curr_wirelen_cost] is not below 95% of the running average: the
    diameter lies between the clamps to [1 .. M] of the roundings of
    [X - tie_margin] and of [X + tie_margin], so it is
    [clamp(1, M, round(X))] unless [X] is within [tie_margin] of a half;
    the temperature is the one before times the [double] nearest to the
    factor, rounded to [double] and then to [float], which is within
    [rounding_error] of the exact product, and the factor is 0.5 if
    [R > 0.96], else 0.9 if [R > 0.8], else 0.95 if [R > 0.15] and the
    diameter just set is above 1, else 0.8; the running average and the
    rest of the placer is kept.  When it is below: the placer is unchanged,
    diameter and temperature included, and the running average becomes
    [0.8 * avg_wirelen + 0.2 * curr_wirelen_cost] cut to an integer, up to
    an error of [average_margin] before the cut. *)
Theorem place_schedule_spec (p : Placer) (avg_wirelen : Z) :
  1 ≤ diameter p ≤ 2 ^ 30 →
  0 ≤ n_accept p ≤ n_move p → 0 < n_move p < 2 ^ 31 →
  0 ≤ max_x p < 2 ^ 31 - 1 → 0 ≤ max_y p < 2 ^ 31 - 1 →
  (0 <= temp p)%Q →
  0 ≤ curr_wirelen_cost p < 2 ^ 40 → 0 ≤ avg_wirelen < 2 ^ 40 →
  let R := (inject_Z (n_accept p) / inject_Z (n_move p))%Q in
  let M := Z.max (max_x p) (max_y p) + 1 in
  let X := (inject_Z (diameter p) * (1 - (44 # 100) + R))%Q in
  let E := ((8 # 10) * inject_Z avg_wirelen
            + (2 # 10) * inject_Z (curr_wirelen_cost p))%Q in
  let below := (inject_Z (curr_wirelen_cost p)
                < (95 # 100) * inject_Z avg_wirelen)%Q in
  let p' := (place_schedule p avg_wirelen).1 in
  let avg' := (place_schedule p avg_wirelen).2 in
  (¬ below →
     clamp 1 M (round_nearest (X - tie_margin)) ≤ diameter p'
       ≤ clamp 1 M (round_nearest (X + tie_margin))
     ∧ (round_nearest (X - tie_margin) = round_nearest (X + tie_margin) →
        diameter p' = clamp 1 M (round_nearest X))
     ∧ cooled (cooling_factor R (diameter p')) (temp p) (temp p')
     ∧ (temp p * cooling_factor R (diameter p') - rounding_error (temp p)
        <= temp p'
        <= temp p * cooling_factor R (diameter p') + rounding_error (temp p))%Q
     ∧ ((96 # 100 < R)%Q → cooled (1 # 2) (temp p) (temp p'))
     ∧ (¬ (96 # 100 < R)%Q → (8 # 10 < R)%Q →
        cooled (9 # 10) (temp p) (temp p'))
     ∧ (¬ (8 # 10 < R)%Q → (15 # 100 < R)%Q → 1 < diameter p' →
        cooled (95 # 100) (temp p) (temp p'))
     ∧ (¬ (8 # 10 < R)%Q → ¬ ((15 # 100 < R)%Q ∧ 1 < diameter p') →
        cooled (8 # 10) (temp p) (temp p'))
     ∧ avg' = avg_wirelen
     ∧ cells p' = cells p ∧ bel_to_cell p' = bel_to_cell p
     ∧ curr_wirelen_cost p' = curr_wirelen_cost p)
  ∧ (below →
     p' = p ∧ diameter p' = diameter p ∧ temp p' = temp p
     ∧ Qfloor (E - average_margin) ≤ avg' ≤ Qfloor (E + average_margin)
     ∧ (Qfloor (E - average_margin) = Qfloor (E + average_margin) →
        avg' = Qtrunc E)).
Proof.
  intros Hd Ha Hm Hx Hy Ht Hc Hv R M X E below p' avg'.
  unfold p', avg', place_schedule.
  rewrite below_compare by done.
  destruct (Qltb (inject_Z (curr_wirelen_cost p)) ((95 # 100) * inject_Z avg_wirelen))
    eqn:Eb.
  - apply Qltb_lt in Eb. split; [intros Hn; contradiction|]. intros _.
    cbn [fst snd]. split_and!; try done.
    + by apply average_bounds.
    + by apply average_bounds.
    + intros Heq.
      destruct (average_bounds (curr_wirelen_cost p) avg_wirelen Hc Hv) as [B1 B2].
      fold E in B1, B2.
      assert (0 <= E)%Q as HE.
      { unfold E.
        destruct (inject_Z_bounds (curr_wirelen_cost p) 0 (2 ^ 40) ltac:(lia)).
        destruct (inject_Z_bounds avg_wirelen 0 (2 ^ 40) ltac:(lia)).
        change (inject_Z 0) with 0%Q in *. lra. }
      rewrite Qtrunc_nonneg by done.
      assert (Qfloor (E - average_margin) ≤ Qfloor E ≤ Qfloor (E + average_margin))
        by (unfold average_margin; split; apply Qfloor_resp_le; lra).
      lia.
  - apply Qltb_ge in Eb. split; [|intros Hb; unfold below in Hb; lra].
    intros _. cbn [fst snd diameter temp cells bel_to_cell curr_wirelen_cost].
    rewrite (int_wrap_grid (max_x p) (max_y p)) by done.
    fold M.
    destruct (diam_next_bounds (diameter p) (n_accept p) (n_move p) Hd Ha Hm)
      as [B1 B2].
    fold R X in B1, B2.
    set (d := int_of_double _) in *.
    rewrite (clamp_max_min M d) by lia.
    assert (clamp 1 M (round_nearest (X - tie_margin)) ≤ clamp 1 M d
            ≤ clamp 1 M (round_nearest (X + tie_margin))) as Hcl
      by (split; apply clamp_mono; lia).
    pose proof (cool_factor (temp p) (n_accept p) (n_move p) (clamp 1 M d) Ha Hm)
      as Hcool.
    cbv zeta in Hcool. fold R in Hcool.
    set (t' := if Qltb _ _ then _ else _) in *.
    split; [done|]. split.
    { intros Heq.
      assert (round_nearest (X - tie_margin) ≤ round_nearest X
              ≤ round_nearest (X + tie_margin))
        by (unfold tie_margin; split; apply round_nearest_mono; lra).
      f_equal. lia. }
    split; [done|]. split.
    { eapply cooled_near; [apply cooling_factor_range | done | done]. }
    clearbody t' d. unfold cooling_factor in Hcool.
    split_and!; try done.
    + intros H%Qltb_lt. by rewrite H in Hcool.
    + intros H1 H2%Qltb_lt.
      destruct (Qltb (96 # 100) R) eqn:E1; [by apply Qltb_lt in E1|].
      by rewrite H2 in Hcool.
    + intros H1 H2%Qltb_lt H3%Z.ltb_lt.
      destruct (Qltb (8 # 10) R) eqn:E2; [by apply Qltb_lt in E2|].
      destruct (Qltb (96 # 100) R) eqn:E1;
        [apply Qltb_lt in E1; exfalso; apply H1; lra|].
      by rewrite H2, H3 in Hcool.
    + intros H1 H2.
      destruct (Qltb (8 # 10) R) eqn:E2; [by apply Qltb_lt in E2|].
      destruct (Qltb (96 # 100) R) eqn:E1;
        [apply Qltb_lt in E1; exfalso; apply H1; lra|].
      destruct (Qltb (15 # 100) R) eqn:E3; [|done].
      destruct (Z.ltb_spec 1 (clamp 1 M d)); [|done].
      exfalso. apply H2. by apply Qltb_lt in E3.
Qed.

Lemma place_schedule_spec_witness :
  diameter (place_schedule SamplePlacer.placer0 100).1 = 37
  ∧ temp (place_schedule SamplePlacer.placer0 100).1 = 19 # 2.
Proof.
  destruct (place_schedule_spec SamplePlacer.placer0 100
              ltac:(simpl; lia) ltac:(simpl; lia) ltac:(simpl; lia)
              ltac:(simpl; lia) ltac:(simpl; lia)
              ltac:(unfold Qle; simpl; lia)
              ltac:(simpl; lia) ltac:(lia)) as [H _].
  destruct H as (_ & Hd & _ & _ & _ & _ & Ht & _).
  - unfold Qlt. simpl. lia.
  - split.
    + rewrite Hd; reflexivity.
    + rewrite Ht; [reflexivity | unfold Qlt; simpl; lia..
                   | rewrite Hd; reflexivity].
Defined.

(** The rounding of the diameter is not the one of the exact product: for
    a diameter of 50 with 59 accepted moves of 100 the exact
    [diameter * (1 - 0.44 + R)] is 57.5, which rounds to 58 with halves
    upwards as with halves to even, while the [double] product is below
    57.5 and the diameter becomes 57. *)
Lemma place_schedule_tie_rounds_down :
  ¬ (inject_Z (curr_wirelen_cost SamplePlacer.placer_tie)
     < (95 # 100) * inject_Z 100)%Q
  ∧ (inject_Z (diameter SamplePlacer.placer_tie)
     * (1 - (44 # 100)
        + inject_Z (n_accept SamplePlacer.placer_tie)
          / inject_Z (n_move SamplePlacer.placer_tie)) == 115 # 2)%Q
  ∧ clamp 1 (Z.max (max_x SamplePlacer.placer_tie)
                   (max_y SamplePlacer.placer_tie) + 1)
      (round_nearest (115 # 2)) = 58
  ∧ round_half_even (115 # 2) = 58
  ∧ diameter (place_schedule SamplePlacer.placer_tie 100).1 = 57.
Proof.
  split_and!; [| reflexivity | reflexivity | reflexivity | by vm_compute].
  unfold Qlt. simpl. lia.
Qed.

(** ** Acceptance of a swap *)

Lemma unbindBel_Some p b c :
  bel_to_cell p !! b = Some c →
  unbindBel p b = set_binding p (delete b (bel_to_cell p)) (delete c (cells p)).
Proof. intros H. unfold unbindBel. by rewrite H. Qed.

Lemma unbindBel_None p b : bel_to_cell p !! b = None → unbindBel p b = p.
Proof. intros H. unfold unbindBel. by rewrite H. Qed.

Lemma swapped_scalars p cell newBel :
  temp (swapped p cell newBel) = temp p
  ∧ rngstate (swapped p cell newBel) = rngstate p.
Proof.
  unfold swapped, unbindBel, bindBel.
  destruct (getBoundBelCell p newBel);
    repeat (match goal with
            | |- context [match ?x with _ => _ end] => destruct x
            end; simpl); done.
Qed.

Lemma sa_accept_spec e p delta :
  (sa_accept e p delta).1 = true ↔
  (delta < 0)%Q
  ∨ ((1 # 100000000 < temp p)%Q
     ∧ (rng_unit (rng_step e (rngstate p)).1 <= std_exp e (- delta / temp p))%Q).
Proof.
  unfold sa_accept.
  destruct (Qltb delta 0) eqn:E1; [apply Qltb_lt in E1 | apply Qltb_ge in E1].
  { simpl. split; [by left | done]. }
  destruct (Qltb (1 # 100000000) (temp p)) eqn:E2;
    [apply Qltb_lt in E2 | apply Qltb_ge in E2].
  - destruct (rng_step e (rngstate p)) as [v s]. simpl.
    rewrite Qle_bool_iff. split; [by right|].
    intros [H|[_ H]]; [lra | done].
  - simpl. split; [done|]. intros [H|[H _]]; lra.
Qed.

Lemma sa_accept_binding e p delta :
  bel_to_cell (sa_accept e p delta).2 = bel_to_cell p
  ∧ cells (sa_accept e p delta).2 = cells p.
Proof.
  unfold sa_accept. destruct (Qltb delta 0); [done|].
  destruct (Qltb _ (temp p)); [|done].
  by destruct (rng_step e (rngstate p)).
Qed.

(** Past the two gates, [try_swap_position] is the legality check followed
    by the acceptance test on the swapped placement. *)
Lemma try_swap_position_unfold e p cell newBel :
  is_constrained e cell = false →
  other_movable e p newBel →
  try_swap_position e p cell newBel =
    let oldBel := cell_bel_of p cell in
    let other_cell := getBoundBelCell p newBel in
    let p4 := swapped p cell newBel in
    if negb (isBelLocationValid e p4 newBel)
       || (bool_decide (is_Some other_cell) && negb (isBelLocationValid e p4 oldBel))
    then
      let p5 := unbindBel p4 newBel in
      let p6 := if other_cell is Some _ then unbindBel p5 oldBel else p5 in
      (false, swap_fail p6 cell oldBel newBel other_cell)
    else
      let c := cost_changes e p4 cell oldBel other_cell newBel in
      let acc := sa_accept e p4 (swap_cost_delta e p cell newBel) in
      if acc.1 then (true, commit_cost_changes acc.2 c.1 c.2)
      else
        let p6 := if other_cell is Some _ then unbindBel acc.2 oldBel else acc.2 in
        let p7 := unbindBel p6 newBel in
        (false, swap_fail p7 cell oldBel newBel other_cell).
Proof.
  intros Hc Ho. unfold try_swap_position. rewrite Hc.
  unfold other_movable in Ho.
  replace (match getBoundBelCell p newBel with
           | Some oc => is_constrained e oc
                        || match cells p !! oc with
                           | Some bs => strength_gt bs.2 STRENGTH_WEAK
                           | None => false
                           end
           | None => false
           end) with false.
  2:{ destruct (getBoundBelCell p newBel) as [oc|]; [|done].
      destruct Ho as [-> Ho]. simpl. destruct (cells p !! oc); done. }
  fold (swapped p cell newBel). cbv zeta.
  destruct (negb _ || _); [done|].
  unfold swap_cost_delta, swap_dist. cbv zeta.
  destruct (cost_changes e _ _ _ _ _) as [td wd]. simpl.
  by destruct (sa_accept e _ _) as [[] ?].
Qed.

Lemma same_binding_unbindBel q q' b :
  same_binding q q' → same_binding (unbindBel q b) (unbindBel q' b).
Proof.
  intros [H1 H2]. unfold unbindBel. rewrite H1.
  destruct (bel_to_cell q' !! b); [|done].
  unfold same_binding. simpl. by rewrite ?H1, ?H2.
Qed.

Lemma same_binding_bindBel q q' b c s :
  same_binding q q' → same_binding (bindBel q b c s) (bindBel q' b c s).
Proof. intros [H1 H2]. unfold same_binding. simpl. by rewrite H1, H2. Qed.

Lemma same_binding_reverted p q q' :
  same_binding q q' → reverted p q' → reverted p q.
Proof.
  intros [H1 H2] [H3 H4]. split; [congruence|].
  intros c. rewrite <- H4. unfold cell_bel_of. by rewrite H2.
Qed.

Ltac map_simp :=
  repeat first [ rewrite lookup_insert_eq | rewrite lookup_delete_eq
               | rewrite lookup_insert_ne by done
               | rewrite lookup_delete_ne by done ].

Ltac unbind_step :=
  match goal with
  | |- context [unbindBel ?q ?b] =>
      first [ erewrite (unbindBel_Some q b) by (simpl; simplify_map_eq; reflexivity)
            | rewrite (unbindBel_None q b) by (simpl; simplify_map_eq; reflexivity) ]
  end.

(** Undoing the swap, in either order of the two [unbindBel], puts the
    cells back. *)
Lemma swapped_undo p cell newBel (first_new : bool) :
  placement_ok p → is_Some (cells p !! cell) → cell_bel_of p cell ≠ newBel →
  let oldBel := cell_bel_of p cell in
  let other_cell := getBoundBelCell p newBel in
  let p4 := swapped p cell newBel in
  let p6 :=
    if first_new then
      let p5 := unbindBel p4 newBel in
      if other_cell is Some _ then unbindBel p5 oldBel else p5
    else
      let p5 := if other_cell is Some _ then unbindBel p4 oldBel else p4 in
      unbindBel p5 newBel in
  reverted p (swap_fail p6 cell oldBel newBel other_cell).
Proof.
  intros Hok [[ob s] Hcell] Hne. unfold cell_bel_of in *. rewrite Hcell in *.
  simpl in *.
  assert (bel_to_cell p !! ob = Some cell) as Hob by (apply Hok; eauto).
  unfold swapped, getBoundBelCell, cell_bel_of. rewrite Hcell. simpl.
  destruct (bel_to_cell p !! newBel) as [oc|] eqn:Hnew.
  - assert (oc ≠ cell) as Hoc.
    { intros ->. apply Hok in Hnew as [s' Hs']. congruence. }
    apply Hok in Hnew as Hcoc. destruct Hcoc as [s' Hcoc].
    destruct first_new; unfold swap_fail, bindBel; repeat unbind_step;
      (split; simpl; [apply map_eq; intros k|intros c; unfold cell_bel_of; simpl]).
    1,3: destruct (decide (k = newBel)) as [->|];
           [|destruct (decide (k = ob)) as [->|]]; map_simp; congruence.
    1,2: destruct (decide (c = oc)) as [->|];
           [|destruct (decide (c = cell)) as [->|]]; map_simp;
           rewrite ?Hcoc, ?Hcell; done.
  - destruct first_new; unfold swap_fail, bindBel; repeat unbind_step;
      (split; simpl; [apply map_eq; intros k|intros c; unfold cell_bel_of; simpl]).
    1,3: destruct (decide (k = ob)) as [->|];
           [|destruct (decide (k = newBel)) as [->|]]; map_simp; congruence.
    1,2: destruct (decide (c = cell)) as [->|]; map_simp;
           rewrite ?Hcell; done.
Qed.

(** C7, as the code has it.  For a cell that may move to another bel
    ([cell] and the cell on the target are not constrained, the latter bound
    no stronger than WEAK), once the swap has passed the legality check,
    [try_swap_position] accepts it if and only if the combined cost change
    [D] is negative, or the temperature is above 1e-8 and the random draw in
    [0,1] is at most [exp(-D / temp)]: below that temperature no swap that
    does not lower the cost is accepted, whatever the draw.  Whenever the
    function returns [false] the swap is undone: every bel has the cell it
    had, every cell the bel it had. *)
Theorem try_swap_position_metropolis (e : Env) (p : Placer) (cell : Z)
    (newBel : BelId) :
  placement_ok p →
  is_Some (cells p !! cell) →
  cell_bel_of p cell ≠ newBel →
  is_constrained e cell = false →
  other_movable e p newBel →
  let D := swap_cost_delta e p cell newBel in
  (swap_legal e p cell newBel →
   ((try_swap_position e p cell newBel).1 = true ↔
    (D < 0)%Q
    ∨ ((1 # 100000000 < temp p)%Q
       ∧ (swap_draw e p <= std_exp e (- D / temp p))%Q)))
  ∧ ((try_swap_position e p cell newBel).1 = false →
     reverted p (try_swap_position e p cell newBel).2).
Proof.
  intros Hok Hcell Hne Hc Ho D.
  rewrite (try_swap_position_unfold e p cell newBel Hc Ho). cbv zeta.
  destruct (swapped_scalars p cell newBel) as [Ht Hr].
  split.
  - intros [Hl1 Hl2]. rewrite Hl1. simpl.
    replace (bool_decide (is_Some (getBoundBelCell p newBel))
             && negb (isBelLocationValid e (swapped p cell newBel)
                        (cell_bel_of p cell))) with false.
    2:{ case_bool_decide as Hs; [|done]. by rewrite (Hl2 Hs). }
    unfold swap_draw. rewrite <- Ht, <- Hr. fold D.
    rewrite <- sa_accept_spec.
    by destruct (sa_accept e (swapped p cell newBel) D) as [[] ?].
  - destruct (negb _ || _).
    + intros _. simpl.
      apply (swapped_undo p cell newBel true Hok Hcell Hne).
    + fold D. destruct (sa_accept_binding e (swapped p cell newBel) D) as [Hb Hcs].
      destruct (sa_accept e (swapped p cell newBel) D) as [[] p5]; [done|].
      intros _. simpl in *.
      eapply same_binding_reverted;
        [|apply (swapped_undo p cell newBel false Hok Hcell Hne)].
      cbv zeta. unfold swap_fail.
      assert (same_binding p5 (swapped p cell newBel)) as Hsb by done.
      destruct (getBoundBelCell p newBel);
        repeat first [ apply same_binding_bindBel
                     | apply same_binding_unbindBel ]; done.
Qed.

Lemma placement_ok_sample p :
  bel_to_cell p = {[10 := 1; 20 := 2]} →
  cells p = {[1 := (10, STRENGTH_WEAK); 2 := (20, STRENGTH_WEAK)]} →
  placement_ok p.
Proof.
  intros Hb Hc b c. rewrite Hb, Hc. split.
  - intros H. destruct (decide (b = 10)) as [->|]; [|destruct (decide (b = 20)) as [->|]].
    + rewrite lookup_insert_eq in H. injection H as <-. by eexists.
    + rewrite lookup_insert_ne, lookup_singleton_eq in H by done.
      injection H as <-. by eexists.
    + by rewrite lookup_insert_ne, lookup_singleton_ne in H by done.
  - intros [s H]. destruct (decide (c = 1)) as [->|]; [|destruct (decide (c = 2)) as [->|]].
    + rewrite lookup_insert_eq in H. by injection H as <- <-.
    + rewrite lookup_insert_ne, lookup_singleton_eq in H by done.
      by injection H as <- <-.
    + by rewrite lookup_insert_ne, lookup_singleton_ne in H by done.
Qed.

Lemma try_swap_position_metropolis_witness :
  (try_swap_position SamplePlacer.env0 SamplePlacer.placer0 1 20).1 = true.
Proof.
  destruct (try_swap_position_metropolis SamplePlacer.env0 SamplePlacer.placer0
              1 20) as [H _].
  - apply placement_ok_sample; reflexivity.
  - eexists. reflexivity.
  - vm_compute. discriminate.
  - reflexivity.
  - split; reflexivity.
  - apply H.
    + split; [reflexivity | intros _; reflexivity].
    + right. split; vm_compute; [reflexivity | discriminate].
Defined.

(** The claim C7 as it is written fails below the temperature of 1e-8: the
    swap is legal, its cost change is 0, the draw is 0 and so at most
    [exp(0) = 1], and the swap is turned down. *)
Lemma try_swap_position_cold_counterexample :
  swap_legal SamplePlacer.env0 SamplePlacer.placer_cold 1 20
  ∧ (swap_cost_delta SamplePlacer.env0 SamplePlacer.placer_cold 1 20 == 0)%Q
  ∧ (std_exp SamplePlacer.env0
       (- swap_cost_delta SamplePlacer.env0 SamplePlacer.placer_cold 1 20
        / temp SamplePlacer.placer_cold) == 1)%Q
  ∧ (swap_draw SamplePlacer.env0 SamplePlacer.placer_cold
     <= std_exp SamplePlacer.env0
          (- swap_cost_delta SamplePlacer.env0 SamplePlacer.placer_cold 1 20
           / temp SamplePlacer.placer_cold))%Q
  ∧ (try_swap_position SamplePlacer.env0 SamplePlacer.placer_cold 1 20).1 = false.
Proof.
  split; [split; [reflexivity | intros _; reflexivity]|].
  split; [vm_compute; reflexivity|].
  split; [vm_compute; reflexivity|].
  split; [vm_compute; discriminate | vm_compute; reflexivity].
Qed.

(** * Further properties of the placer *)

(** ** The generator of a worker *)

Import PlacerWorkers.

(** One step of the smearing: the bits that are set reach [s] places
    further down. *)
Lemma smear_step (k j s m : Z) :
  0 ≤ k → 0 < j → 0 ≤ s ≤ j →
  (∀ i, k < i → Z.testbit m i = false) →
  (∀ i, 0 ≤ i → k - j < i ≤ k → Z.testbit m i = true) →
  let m' := Z.lor m (Z.shiftr m s) in
  (∀ i, k < i → Z.testbit m' i = false)
  ∧ (∀ i, 0 ≤ i → k - (j + s) < i ≤ k → Z.testbit m' i = true).
Proof.
  intros Hk Hj Hs Hhi Hlo m'. unfold m'. split.
  - intros i Hi. rewrite Z.lor_spec, Z.shiftr_spec by lia.
    rewrite !Hhi by lia. done.
  - intros i Hi0 Hi. rewrite Z.lor_spec, Z.shiftr_spec by lia.
    destruct (Z_lt_le_dec (k - j) i).
    + rewrite Hlo by lia. done.
    + rewrite (Hlo (i + s)) by lia. apply orb_true_r.
Qed.

Lemma rng_round_up_log2 (n : Z) :
  2 ≤ n ≤ 2 ^ 30 → rng_round_up n = 2 ^ (Z.log2 (n - 1) + 1).
Proof.
  intros Hn. unfold rng_round_up.
  set (k := Z.log2 (n - 1)).
  assert (0 ≤ k < 30) as Hk.
  { unfold k. split; [apply Z.log2_nonneg|].
    apply Z.log2_lt_pow2; lia. }
  assert (∀ i, k < i → Z.testbit (n - 1) i = false) as H0.
  { intros i Hi. apply Z.bits_above_log2; [lia | done]. }
  assert (∀ i, 0 ≤ i → k - 1 < i ≤ k → Z.testbit (n - 1) i = true) as H1.
  { intros i _ Hi. assert (i = k) as -> by lia. apply Z.bit_log2. lia. }
  destruct (smear_step k 1 1 _ ltac:(lia) ltac:(lia) ltac:(lia) H0 H1) as [A0 A1].
  destruct (smear_step k 2 2 _ ltac:(lia) ltac:(lia) ltac:(lia) A0 A1) as [B0 B1].
  destruct (smear_step k 4 4 _ ltac:(lia) ltac:(lia) ltac:(lia) B0 B1) as [C0 C1].
  destruct (smear_step k 8 8 _ ltac:(lia) ltac:(lia) ltac:(lia) C0 C1) as [D0 D1].
  destruct (smear_step k 16 16 _ ltac:(lia) ltac:(lia) ltac:(lia) D0 D1) as [E0 E1].
  simpl in *.
  match goal with |- ?m + 1 = _ => assert (m = Z.ones (k + 1)) as -> end.
  { apply Z.bits_inj'. intros i Hi.
    destruct (Z_lt_le_dec k i).
    - rewrite E0 by lia. rewrite Z.ones_spec_high by lia. done.
    - rewrite E1 by lia. rewrite Z.ones_spec_low by lia. done. }
  rewrite Z.ones_equiv. lia.
Qed.

Lemma rng_round_up_bounds (n : Z) :
  1 ≤ n ≤ 2 ^ 30 →
  ∃ k, 0 ≤ k ≤ 30 ∧ rng_round_up n = 2 ^ k ∧ n ≤ 2 ^ k < 2 * n.
Proof.
  intros Hn. destruct (decide (n = 1)) as [->|Hne].
  { exists 0. by vm_compute. }
  rewrite rng_round_up_log2 by lia.
  pose proof (Z.log2_spec (n - 1) ltac:(lia)) as [Hlo Hhi].
  assert (0 ≤ Z.log2 (n - 1) < 30) as Hk.
  { split; [apply Z.log2_nonneg|]. apply Z.log2_lt_pow2; lia. }
  exists (Z.log2 (n - 1) + 1). split; [lia|]. split; [done|].
  rewrite Z.pow_succ_r in * by lia.
  replace (Z.succ (Z.log2 (n - 1))) with (Z.log2 (n - 1) + 1) in Hhi by lia.
  rewrite Z.pow_add_r in * by lia. lia.
Qed.

(** X19.  The bound of [rng] is rounded up to the least power of two that
    is not below it: for [n] from 1 to [2^30] the smearing of the bits of
    [n - 1] gives a power of two [m] with [n <= m < 2 n], so that a draw is
    turned down with a chance of less than a half. *)
Theorem rng_round_up_pow2 (n : Z) :
  1 ≤ n ≤ 2 ^ 30 →
  ∃ k, 0 ≤ k ≤ 30 ∧ rng_round_up n = 2 ^ k ∧ n ≤ 2 ^ k < 2 * n.
Proof. apply rng_round_up_bounds. Qed.

Lemma rng_round_up_pow2_witness :
  ∃ k, 0 ≤ k ≤ 30 ∧ rng_round_up 5 = 2 ^ k ∧ 5 ≤ 2 ^ k < 2 * 5.
Proof. apply (rng_round_up_pow2 5). lia. Defined.

Lemma rng64_range s :
  0 ≤ s < 2 ^ 64 → 0 ≤ (rng64 s).1 < 2 ^ 64 ∧ 0 ≤ (rng64 s).2 < 2 ^ 64.
Proof.
  intros Hs. unfold rng64, u64. simpl fst. simpl snd.
  split; [apply Z.mod_pos_bound; lia|].
  assert (∀ x y, 0 ≤ x < 2 ^ 64 → 0 ≤ y < 2 ^ 64 → 0 ≤ Z.lxor x y < 2 ^ 64) as Hx.
  { intros x y Hx Hy. split; [apply Z.lxor_nonneg; lia|].
    destruct (decide (Z.lxor x y = 0)) as [->|Hne]; [lia|].
    apply Z.log2_lt_pow2; [|].
    - assert (0 ≤ Z.lxor x y) by (apply Z.lxor_nonneg; lia). lia.
    - eapply Z.le_lt_trans; [apply Z.log2_lxor; lia|].
      destruct (decide (x = 0)) as [->|?]; destruct (decide (y = 0)) as [->|?];
        simpl; try lia.
      + rewrite Z.max_r by apply Z.log2_nonneg. apply Z.log2_lt_pow2; lia.
      + rewrite Z.max_l by apply Z.log2_nonneg. apply Z.log2_lt_pow2; lia.
      + apply Z.max_lub_lt; apply Z.log2_lt_pow2; lia. }
  assert (∀ x k, 0 ≤ k → 0 ≤ x < 2 ^ 64 → 0 ≤ Z.shiftr x k < 2 ^ 64) as Hr.
  { intros x k Hk Hx'. rewrite Z.shiftr_div_pow2 by done. split.
    - apply Z.div_pos; lia.
    - eapply Z.le_lt_trans; [|apply Hx'].
      apply Z.div_le_upper_bound; [lia|].
      assert (1 ≤ 2 ^ k) by (apply Z.pow_le_mono_r with (b := 0) (c := k); lia).
      nia. }
  apply Hx; [apply Hx; [apply Hx; [done|by apply Hr]|apply Z.mod_pos_bound; lia]|].
  apply Hr; [lia|]. apply Hx; [apply Hx; [done|by apply Hr]|apply Z.mod_pos_bound; lia].
Qed.

Lemma rng_loop_range n k : ∀ fuel s x s',
  0 ≤ k → 0 ≤ s < 2 ^ 64 →
  rng_loop fuel n (2 ^ k) s = Ok (x, s') →
  0 ≤ x < n ∧ x < 2 ^ k ∧ 0 ≤ s' < 2 ^ 64.
Proof.
  induction fuel as [|fuel IH]; intros s x s' Hk Hs H; [done|].
  cbn [rng_loop] in H.
  pose proof (rng64_range s Hs) as [Hv Hs1].
  destruct (rng64 s) as [v s1] eqn:E. cbn [fst snd] in Hv, Hs1.
  replace (2 ^ k - 1) with (Z.ones k) in H by (rewrite Z.ones_equiv; lia).
  rewrite Z.land_ones in H by done.
  pose proof (Z.mod_pos_bound v (2 ^ k) ltac:(lia)) as Hmod.
  destruct (v `mod` 2 ^ k <? n) eqn:El.
  - apply Z.ltb_lt in El. injection H as <- <-. lia.
  - by eapply IH.
Qed.

(** X20.  What [rng(n)] returns is in range: for [n] from 1 to [2^30] a
    value returned lies from 0 to [n - 1], and the state stays a 64-bit
    value.  The state 0 is a fixed point of the generator: from it every
    value drawn is 0. *)
Theorem rng_in_range (fuel : nat) (n s x s' : Z) :
  1 ≤ n ≤ 2 ^ 30 → 0 ≤ s < 2 ^ 64 →
  (rng fuel n s = Ok (x, s') → 0 ≤ x < n ∧ 0 ≤ s' < 2 ^ 64)
  ∧ rng64 0 = (0, 0)
  ∧ rng (S fuel) n 0 = Ok (0, 0).
Proof.
  intros Hn Hs. unfold rng.
  destruct (Z.ltb_spec 0 n); [|lia]. split; [|split; [done|]].
  - intros Hr. destruct (rng_round_up_bounds n Hn) as (k & Hk & Hm & Hb).
    rewrite Hm in Hr.
    apply rng_loop_range in Hr as (? & _ & ?); [done | lia | done].
  - simpl. rewrite Z.land_0_l. destruct (Z.ltb_spec 0 n); [done | lia].
Qed.

Lemma rng_in_range_witness :
  ∃ x s', rng 10 5 12345 = Ok (x, s') ∧ 0 ≤ x < 5 ∧ 0 ≤ s' < 2 ^ 64.
Proof.
  eexists _, _. split; [vm_compute; reflexivity|].
  refine (proj1 (rng_in_range 10 5 12345 _ _ _ _) _).
  - lia.
  - lia.
  - vm_compute. reflexivity.
Defined.

(** ** The batches of the workers *)

Lemma eval_cells_loop (autoplaced : list Z) : ∀ n start acc,
  (start + n ≤ length autoplaced)%nat →
  foldM (λ evalCells k, c ← vec_at autoplaced k; Ok (evalCells ++ [(c, BelId_null)]))
    acc (seq start n)
  = Ok (acc ++ ((λ c, (c, BelId_null)) <$> take n (drop start autoplaced))).
Proof.
  induction n as [|n IH]; intros start acc Hlen; simpl.
  - by rewrite app_nil_r.
  - destruct (lookup_lt_is_Some_2 autoplaced start ltac:(lia)) as [c Hc].
    rewrite (proj2 (vec_at_Ok _ _ _) Hc). simpl.
    rewrite IH by lia. f_equal. rewrite <- app_assoc. f_equal.
    rewrite (drop_S _ _ _ Hc). simpl. done.
Qed.

Lemma batch_bound_mono (len threads j : nat) :
  (0 < threads)%nat →
  ((j * len) `div` threads ≤ ((j + 1) * len) `div` threads)%nat.
Proof. intros Ht. apply Nat.Div0.div_le_mono. lia. Qed.

Lemma batch_bound_le (len threads j : nat) :
  (0 < threads)%nat → (j ≤ threads)%nat →
  ((j * len) `div` threads ≤ len)%nat.
Proof.
  intros Ht Hj. apply Nat.Div0.div_le_upper_bound. nia.
Qed.

Lemma eval_cells_slice (autoplaced : list Z) (threads i j : nat) :
  (0 < threads)%nat → (i ≤ length autoplaced)%nat → (j < threads)%nat →
  let len := ((i + batch_size) `min` length autoplaced - i)%nat in
  eval_cells autoplaced threads i j
  = Ok ((λ c, (c, BelId_null))
        <$> take (((j + 1) * len) `div` threads - (j * len) `div` threads)
              (drop (i + (j * len) `div` threads) autoplaced)).
Proof.
  intros Ht Hi Hj len. unfold eval_cells. fold len.
  pose proof (batch_bound_mono len threads j Ht).
  pose proof (batch_bound_le len threads (j + 1) Ht ltac:(lia)).
  rewrite eval_cells_loop.
  - simpl. do 3 f_equal. lia.
  - unfold len in *. lia.
Qed.

Lemma take_drop_concat {A} (l : list A) (f : nat → nat) (lb : nat) : ∀ n,
  f 0%nat = 0%nat → (∀ j, (j < n)%nat → (f j ≤ f (S j))%nat) →
  concat ((λ j, take (f (S j) - f j) (drop (lb + f j) l)) <$> seq 0 n)
  = take (f n) (drop lb l).
Proof.
  intros n H0. induction n as [|n IH]; intros Hmono.
  - simpl. by rewrite H0.
  - rewrite seq_S, fmap_app, concat_app, IH by (intros; apply Hmono; lia).
    simpl. rewrite app_nil_r.
    assert (f n ≤ f (S n))%nat as Hle by (apply Hmono; lia).
    rewrite <- drop_drop, take_take_drop. f_equal. lia.
Qed.

Lemma concat_fmap_fmap {A B C} (g : B → C) (h : A → list B) (l : list A) :
  concat ((λ j, g <$> h j) <$> l) = g <$> concat (h <$> l).
Proof.
  induction l as [|j l IH]; [done|].
  rewrite !fmap_cons. cbn [concat]. rewrite fmap_app. by f_equal.
Qed.

(** X21.  A batch of [run_threadpool] is shared out without loss: with at
    least one worker, the cells given to the workers, taken in the order of
    the workers, are the cells of the batch in their order, each with the
    null bel as the proposal; so every cell of the batch is evaluated by
    exactly one worker, and no [at] fails. *)
Theorem eval_cells_partition (autoplaced : list Z) (threads i : nat) :
  (0 < threads)%nat → (i ≤ length autoplaced)%nat →
  ∃ parts,
    Forall2 (λ j cells, eval_cells autoplaced threads i j = Ok cells)
      (seq 0 threads) parts
    ∧ concat parts
      = (λ c, (c, BelId_null))
        <$> take ((i + batch_size) `min` length autoplaced - i) (drop i autoplaced).
Proof.
  intros Ht Hi.
  set (len := ((i + batch_size) `min` length autoplaced - i)%nat).
  set (f := λ j : nat, ((j * len) `div` threads)%nat).
  exists ((λ j, (λ c, (c, BelId_null))
                <$> take (f (S j) - f j) (drop (i + f j) autoplaced))
          <$> seq 0 threads).
  split.
  - apply Forall2_fmap_r, Forall_Forall2_diag, Forall_forall.
    intros j Hj%elem_of_seq. unfold compose.
    assert (j < threads)%nat as Hjt by (clear -Hj; lia).
    rewrite (eval_cells_slice autoplaced threads i j Ht Hi Hjt).
    unfold f. fold len. by replace (S j) with (j + 1)%nat by lia.
  - assert (f threads = len) as Hft.
    { unfold f. rewrite Nat.mul_comm. apply Nat.div_mul. lia. }
    fold len. rewrite <- Hft.
    rewrite <- (take_drop_concat autoplaced f i threads).
    + apply (concat_fmap_fmap (λ c, (c, BelId_null))
               (λ j, take (f (S j) - f j) (drop (i + f j) autoplaced))).
    + unfold f. apply Nat.Div0.div_0_l.
    + intros j Hj. unfold f.
      replace (S j) with (j + 1)%nat by lia. by apply batch_bound_mono.
Qed.

Lemma eval_cells_partition_witness :
  ∃ parts,
    Forall2 (λ j cells, eval_cells [1; 2; 3; 4; 5] 2 0 j = Ok cells)
      (seq 0 2) parts
    ∧ concat parts
      = (λ c, (c, BelId_null))
        <$> take ((0 + batch_size) `min` length [1; 2; 3; 4; 5] - 0)
              (drop 0 [1; 2; 3; 4; 5]).
Proof. apply (eval_cells_partition [1; 2; 3; 4; 5] 2 0); simpl; lia. Defined.

(** ** Swaps of the cells of a chain *)

Import PlacerMoves.

Lemma swap_cell_bels_maps e p cell newBel ob s :
  placement_ok p → cells p !! cell = Some (ob, s) → ob ≠ newBel →
  let p' := (swap_cell_bels e p cell newBel).2 in
  (swap_cell_bels e p cell newBel).1 = ob
  ∧ bel_to_cell p'
    = match bel_to_cell p !! newBel with
      | Some oc => <[ob := oc]> (<[newBel := cell]> (bel_to_cell p))
      | None => delete ob (<[newBel := cell]> (bel_to_cell p))
      end
  ∧ cells p'
    = match bel_to_cell p !! newBel with
      | Some oc => <[oc := (ob, swap_strength e oc)]>
                     (<[cell := (newBel, swap_strength e cell)]> (cells p))
      | None => <[cell := (newBel, swap_strength e cell)]> (cells p)
      end.
Proof.
  intros Hok Hcell Hne.
  assert (bel_to_cell p !! ob = Some cell) as Hob by (apply Hok; eauto).
  unfold swap_cell_bels, getBoundBelCell, cell_bel_of. rewrite Hcell. simpl.
  split; [done|].
  destruct (bel_to_cell p !! newBel) as [oc|] eqn:Hnew.
  - assert (oc ≠ cell) as Hoc.
    { intros ->. apply Hok in Hnew as [s' Hs']. congruence. }
    apply Hok in Hnew as Hcoc. destruct Hcoc as [s' Hcoc].
    unfold bindBel; repeat unbind_step. simpl. split.
    + apply map_eq. intros k.
      destruct (decide (k = ob)) as [->|];
        [|destruct (decide (k = newBel)) as [->|]]; map_simp; done.
    + apply map_eq. intros c.
      destruct (decide (c = oc)) as [->|];
        [|destruct (decide (c = cell)) as [->|]]; map_simp; done.
  - unfold bindBel; repeat unbind_step. simpl. split.
    + apply map_eq. intros k.
      destruct (decide (k = ob)) as [->|];
        [|destruct (decide (k = newBel)) as [->|]]; map_simp; done.
    + apply map_eq. intros c.
      destruct (decide (c = cell)) as [->|]; map_simp; done.
Qed.

Lemma placement_ok_inj p b1 b2 c :
  placement_ok p → bel_to_cell p !! b1 = Some c → bel_to_cell p !! b2 = Some c →
  b1 = b2.
Proof. intros Hok [s1 H1]%Hok [s2 H2]%Hok. congruence. Qed.

Lemma swap_cell_bels_ok e p cell newBel ob s :
  placement_ok p → cells p !! cell = Some (ob, s) → ob ≠ newBel →
  placement_ok (swap_cell_bels e p cell newBel).2.
Proof.
  intros Hok Hcell Hne.
  destruct (swap_cell_bels_maps e p cell newBel ob s Hok Hcell Hne)
    as (_ & Hb & Hc).
  assert (bel_to_cell p !! ob = Some cell) as Hob by (apply Hok; eauto).
  assert (∀ b c s', cells p !! c = Some (b, s') → bel_to_cell p !! b = Some c)
    as Hback by (intros; apply Hok; eauto).
  intros b c. rewrite Hb, Hc.
  destruct (bel_to_cell p !! newBel) as [oc|] eqn:Hnew.
  - assert (oc ≠ cell) as Hoc.
    { intros ->. apply Hok in Hnew as [s' Hs']. congruence. }
    destruct (decide (b = ob)) as [->|Hb1];
      [|destruct (decide (b = newBel)) as [->|Hb2]];
      (destruct (decide (c = oc)) as [->|Hc1];
        [|destruct (decide (c = cell)) as [->|Hc2]]); map_simp.
    + split; eauto.
    + split; [congruence|]. intros [s' [= ?]]. congruence.
    + split; [congruence|]. intros [s' E%Hback]. congruence.
    + split; [congruence|]. intros [s' [= ?]]. congruence.
    + split; eauto.
    + split; [congruence|]. intros [s' E%Hback]. congruence.
    + split; [|intros [s' [= ?]]; congruence]. intros E.
      destruct Hb2. by eapply placement_ok_inj.
    + split; [|intros [s' [= ?]]; congruence]. intros E.
      destruct Hb1. by eapply placement_ok_inj.
    + apply Hok.
  - destruct (decide (b = ob)) as [->|Hb1];
      [|destruct (decide (b = newBel)) as [->|Hb2]];
      (destruct (decide (c = cell)) as [->|Hc2]); map_simp.
    + split; [done|]. intros [s' [= ?]]. congruence.
    + split; [done|]. intros [s' E%Hback]. congruence.
    + split; eauto.
    + split; [congruence|]. intros [s' E%Hback]. congruence.
    + split; [|intros [s' [= ?]]; congruence]. intros E.
      destruct Hb1. by eapply placement_ok_inj.
    + apply Hok.
Qed.

(** X22.  [swap_cell_bels] swaps and can be undone by itself.  For a
    placed cell and another bel it returns the bel of the cell, puts the
    cell on the other bel and the cell that was there, if any, on the bel
    left; every other bel keeps its cell and the placement stays
    consistent.  Calling it again for the cell and the bel returned puts
    every cell back on its bel; only the strengths may differ, which are
    set from the constraints. *)
Theorem swap_cell_bels_undo (e : Env) (p : Placer) (cell : Z)
    (newBel ob : BelId) (s : PlaceStrength) :
  placement_ok p → cells p !! cell = Some (ob, s) → ob ≠ newBel →
  let p' := (swap_cell_bels e p cell newBel).2 in
  (swap_cell_bels e p cell newBel).1 = ob
  ∧ placement_ok p'
  ∧ bel_to_cell p' !! newBel = Some cell
  ∧ bel_to_cell p' !! ob = bel_to_cell p !! newBel
  ∧ (∀ b, b ≠ ob → b ≠ newBel → bel_to_cell p' !! b = bel_to_cell p !! b)
  ∧ reverted p (swap_cell_bels e p' cell ob).2.
Proof.
  intros Hok Hcell Hne p'.
  destruct (swap_cell_bels_maps e p cell newBel ob s Hok Hcell Hne)
    as (H1 & Hb & Hc). fold p' in Hb, Hc.
  pose proof (swap_cell_bels_ok e p cell newBel ob s Hok Hcell Hne) as Hok'.
  fold p' in Hok'.
  assert (bel_to_cell p !! ob = Some cell) as Hob by (apply Hok; eauto).
  assert (cells p' !! cell = Some (newBel, swap_strength e cell)) as Hcell'.
  { rewrite Hc. destruct (bel_to_cell p !! newBel) as [oc|] eqn:Hnew.
    - assert (oc ≠ cell) as Hoc.
      { intros ->. apply Hok in Hnew as [s' Hs']. congruence. }
      by map_simp.
    - by map_simp. }
  split; [done|]. split; [done|].
  split; [|split; [|split]].
  - rewrite Hb. destruct (bel_to_cell p !! newBel); by map_simp.
  - rewrite Hb. destruct (bel_to_cell p !! newBel); by map_simp.
  - intros b Hb1 Hb2. rewrite Hb.
    destruct (bel_to_cell p !! newBel); by map_simp.
  - destruct (swap_cell_bels_maps e p' cell ob newBel _ Hok' Hcell' ltac:(done))
      as (_ & Hb' & Hc').
    split.
    + rewrite Hb', Hb.
      destruct (bel_to_cell p !! newBel) as [oc|] eqn:Hnew; map_simp.
      * apply map_eq. intros k.
        destruct (decide (k = newBel)) as [->|];
          [|destruct (decide (k = ob)) as [->|]]; map_simp; done.
      * apply map_eq. intros k.
        destruct (decide (k = newBel)) as [->|];
          [|destruct (decide (k = ob)) as [->|]]; map_simp; done.
    + intros c. unfold cell_bel_of. rewrite Hc', Hb, Hc.
      destruct (bel_to_cell p !! newBel) as [oc|] eqn:Hnew; map_simp.
      * assert (oc ≠ cell) as Hoc.
        { intros ->. apply Hok in Hnew as [s' Hs']. congruence. }
        apply Hok in Hnew as [s' Hcoc].
        destruct (decide (c = oc)) as [->|];
          [|destruct (decide (c = cell)) as [->|]]; map_simp;
          rewrite ?Hcoc, ?Hcell; done.
      * destruct (decide (c = cell)) as [->|]; map_simp; rewrite ?Hcell; done.
Qed.

Lemma swap_cell_bels_undo_witness :
  (swap_cell_bels SamplePlacer.env0 SamplePlacer.placer0 1 20).1 = 10
  ∧ placement_ok (swap_cell_bels SamplePlacer.env0 SamplePlacer.placer0 1 20).2.
Proof.
  destruct (swap_cell_bels_undo SamplePlacer.env0 SamplePlacer.placer0 1 20 10
              STRENGTH_WEAK) as (H1 & H2 & _).
  - apply placement_ok_sample; reflexivity.
  - reflexivity.
  - lia.
  - split; [exact H1 | exact H2].
Defined.

(** ** The bounding box of a net *)

Import PlacerCost PlacerCostSpec SampleCost.

Lemma bounding_box_extend ls b l :
  bounding_box_of ls b → bounding_box_of (ls ++ [l]) (extend b l).
Proof.
  unfold bounding_box_of, is_inside_inc, extend. simpl.
  intros (Hin & (l0 & Hl0 & E0) & (l1 & Hl1 & E1) & (l2 & Hl2 & E2)
          & (l3 & Hl3 & E3)).
  assert (∀ x, x ∈ ls → x ∈ ls ++ [l]) as Hmono.
  { intros x Hx. apply elem_of_app. by left. }
  assert (l ∈ ls ++ [l]) as Hl.
  { apply elem_of_app. right. by apply list_elem_of_singleton. }
  split; [|split; [|split; [|split]]].
  - intros x [Hx|Hx%list_elem_of_singleton]%elem_of_app; [|subst x].
    + specialize (Hin x Hx).
      apply andb_true_iff in Hin as [Hin H4]. apply andb_true_iff in Hin as [Hin H3].
      apply andb_true_iff in Hin as [H1 H2].
      apply Z.leb_le in H1, H2, H3, H4.
      repeat (apply andb_true_iff; split); apply Z.leb_le; lia.
    + repeat (apply andb_true_iff; split); apply Z.leb_le; lia.
  - destruct (Z.min_spec (x0 b) (loc_x l)) as [[_ ->]|[_ ->]]; eauto.
  - destruct (Z.max_spec (x1 b) (loc_x l)) as [[_ ->]|[_ ->]]; eauto.
  - destruct (Z.min_spec (y0 b) (loc_y l)) as [[_ ->]|[_ ->]]; eauto.
  - destruct (Z.max_spec (y1 b) (loc_y l)) as [[_ ->]|[_ ->]]; eauto.
Qed.

Lemma get_net_bounds_fold ctx p moved : ∀ us ls b,
  bounding_box_of ls b →
  bounding_box_of
    (ls ++ ((λ u, getBelLocation ctx (cell_bel p (pr_cell u) moved))
            <$> filter (λ u, cell_bel_of p (pr_cell u) ≠ BelId_null) us))
    (fold_left
       (λ bb user,
          if bool_decide (cell_bel_of p (pr_cell user) = BelId_null) then bb
          else extend bb (getBelLocation ctx (cell_bel p (pr_cell user) moved)))
       us b).
Proof.
  induction us as [|u us IH]; intros ls b Hb; simpl.
  - by rewrite app_nil_r.
  - rewrite filter_cons. case_bool_decide as Hu.
    + rewrite decide_False by (intros H; by apply H). by apply IH.
    + rewrite decide_True by done. rewrite fmap_cons.
      rewrite (cons_middle _ ls), app_assoc. apply IH.
      by apply bounding_box_extend.
Qed.

(** X23.  [get_net_bounds] gives the bounding box of the cells of a net:
    for a net with a driver it returns the box that holds the location of
    the driver and of every placed user, a moved cell counted at the bel it
    was moved to, and each edge of the box goes through one of these
    locations.  So the box is not empty and its half perimeter is not
    negative.  For a net without driver the assertion fails. *)
Theorem get_net_bounds_box (ctx : Context) (p : Placer) (net : NetInfo)
    (movedCells : gmap Z BelId) :
  match net_driver net with
  | None => get_net_bounds ctx p net movedCells = Err AssertionFailure
  | Some d =>
      ∃ b, get_net_bounds ctx p net movedCells = Ok b
        ∧ bounding_box_of (net_locs ctx p net d movedCells) b
        ∧ x0 b ≤ x1 b ∧ y0 b ≤ y1 b ∧ 0 ≤ hpwl b
  end.
Proof.
  unfold get_net_bounds. destruct (net_driver net) as [d|]; [|done].
  eexists. split; [done|].
  set (dloc := getBelLocation ctx (cell_bel p (pr_cell d) movedCells)).
  assert (bounding_box_of [dloc]
            (mkBoundingBox (loc_x dloc) (loc_x dloc) (loc_y dloc) (loc_y dloc)))
    as H0.
  { unfold bounding_box_of, is_inside_inc. simpl.
    assert (dloc ∈ [dloc]) as Hd by apply list_elem_of_here.
    split; [|split_and!; exists dloc; split; done].
    intros l ->%list_elem_of_singleton.
    repeat (apply andb_true_iff; split); apply Z.leb_le; lia. }
  apply (get_net_bounds_fold ctx p movedCells (net_users net)) in H0.
  split; [exact H0|].
  destruct H0 as (Hin & (l0 & Hl0 & E0) & _ & (l2 & Hl2 & E2) & _).
  pose proof (Hin l0 Hl0) as H1. pose proof (Hin l2 Hl2) as H2.
  unfold is_inside_inc in H1, H2.
  apply andb_true_iff in H1 as [H1 _]. apply andb_true_iff in H1 as [H1 _].
  apply andb_true_iff in H1 as [_ H1].
  apply andb_true_iff in H2 as [_ H2].
  apply Z.leb_le in H1, H2. unfold hpwl. lia.
Qed.

(** ** The marks of a move *)

Lemma vec_set_Ok {A} (v : list A) i x v' :
  vec_set v i x = Ok v' ↔
  0 ≤ i ∧ (Z.to_nat i < length v)%nat ∧ v' = <[Z.to_nat i := x]> v.
Proof.
  unfold vec_set. split.
  - intros (y & [Hi Hy]%vec_at_int_Ok & H)%bind_Ok. injection H as <-.
    split; [done|]. split; [by eapply lookup_lt_Some | done].
  - intros (Hi & Hlt & ->).
    destruct (lookup_lt_is_Some_2 v _ Hlt) as [y Hy].
    by rewrite (proj2 (vec_at_int_Ok _ _ _) (conj Hi Hy)).
Qed.

Lemma vec_set2_Ok {A} (v : list (list A)) i j x v' :
  vec_set2 v i j x = Ok v' ↔
  0 ≤ i ∧ ∃ row, v !! Z.to_nat i = Some row ∧ (j < length row)%nat
                 ∧ v' = <[Z.to_nat i := <[j := x]> row]> v.
Proof.
  unfold vec_set2. split.
  - intros (row & [Hi Hrow]%vec_at_int_Ok & H)%bind_Ok.
    apply bind_Ok in H as (y & Hy%vec_at_Ok & H). injection H as <-.
    split; [done|]. exists row. split; [done|]. split; [by eapply lookup_lt_Some | done].
  - intros (Hi & row & Hrow & Hlt & ->).
    rewrite (proj2 (vec_at_int_Ok _ _ _) (conj Hi Hrow)). simpl.
    destruct (lookup_lt_is_Some_2 row _ Hlt) as [y Hy].
    by rewrite (proj2 (vec_at_Ok _ _ _) Hy).
Qed.

Lemma same_shape_refl mc : same_shape mc mc.
Proof. by split. Qed.

Lemma marks_only_refl mc : marks_only mc mc.
Proof.
  unfold marks_only. split_and!; try done; try (exists []; by rewrite app_nil_r).
Qed.

Lemma marks_only_trans mc1 mc2 mc3 :
  marks_only mc1 mc2 → marks_only mc2 mc3 → marks_only mc1 mc3.
Proof.
  intros ([l1 H1] & [l2 H2] & H3 & H4 & H5 & H6 & H7 & H8)
         ([k1 G1] & [k2 G2] & G3 & G4 & G5 & G6 & G7 & G8).
  unfold marks_only, same_shape. split_and!; try congruence.
  - exists (l1 ++ k1). by rewrite G1, H1, app_assoc.
  - exists (l2 ++ k2). by rewrite G2, H2, app_assoc.
Qed.

Lemma mark_bounds_ok mc n mc' :
  flags_ok mc → mark_bounds mc n = Ok mc' →
  flags_ok mc' ∧ marks_only mc mc'.
Proof.
  intros (Hnd & Hfl & Hnd2 & Hfl2) H. unfold mark_bounds in H.
  apply bind_Ok in H as (f & [Hn Hf]%vec_at_int_Ok & H).
  destruct f; injection H as <-; [split; [done | apply marks_only_refl]|].
  pose proof (lookup_lt_Some _ _ _ Hf) as Hlt.
  split.
  - split_and!; simpl; try done.
    + apply NoDup_app. split; [done|]. split; [|apply NoDup_singleton].
      intros x Hx ->%list_elem_of_singleton.
      apply Hfl in Hx as [_ Hx]. congruence.
    + intros m. rewrite elem_of_app, list_elem_of_singleton, Hfl. split.
      * intros [[Hm Hm']| ->].
        -- split; [done|]. destruct (decide (Z.to_nat m = Z.to_nat n)) as [E|E].
           ++ rewrite E in Hm'. congruence.
           ++ by rewrite list_lookup_insert_ne.
        -- split; [done|]. by apply list_lookup_insert_eq.
      * intros [Hm Hm']. destruct (decide (m = n)) as [->|E]; [by right|].
        left. split; [done|]. rewrite list_lookup_insert_ne in Hm' by lia. done.
  - unfold marks_only, same_shape. simpl. split_and!; try done.
    + eauto.
    + exists []. by rewrite app_nil_r.
    + by rewrite length_insert.
Qed.

Lemma mark_arc_ok mc n i mc' :
  flags_ok mc → mark_arc mc n i = Ok mc' →
  flags_ok mc' ∧ marks_only mc mc'.
Proof.
  intros (Hnd & Hfl & Hnd2 & Hfl2) H. unfold mark_arc in H.
  apply bind_Ok in H as (row & [Hn Hrow]%vec_at_int_Ok & H).
  apply bind_Ok in H as (f & Hf%vec_at_Ok & H).
  destruct f; injection H as <-; [split; [done | apply marks_only_refl]|].
  pose proof (lookup_lt_Some _ _ _ Hrow) as Hlt.
  pose proof (lookup_lt_Some _ _ _ Hf) as Hlt'.
  split.
  - split_and!; simpl; try done.
    + apply NoDup_app. split; [done|]. split; [|apply NoDup_singleton].
      intros x Hx ->%list_elem_of_singleton.
      apply Hfl2 in Hx as [_ (row' & Hr' & Hx)]. congruence.
    + intros m j. rewrite elem_of_app, list_elem_of_singleton, Hfl2. split.
      * intros [[Hm (row' & Hr' & Hj)]|[= -> ->]].
        -- split; [done|]. destruct (decide (Z.to_nat m = Z.to_nat n)) as [E|E].
           ++ rewrite E in *. rewrite list_lookup_insert_eq by done.
              eexists. split; [done|]. assert (row' = row) as -> by congruence.
              destruct (decide (j = i)) as [->|]; [congruence|].
              by rewrite list_lookup_insert_ne.
           ++ rewrite list_lookup_insert_ne by done. eauto.
        -- split; [done|]. rewrite list_lookup_insert_eq by done.
           eexists. split; [done|]. by apply list_lookup_insert_eq.
      * intros [Hm (row' & Hr' & Hj)].
        destruct (decide (Z.to_nat m = Z.to_nat n)) as [E|E].
        -- assert (m = n) as -> by lia.
           rewrite list_lookup_insert_eq in Hr' by done. injection Hr' as <-.
           destruct (decide (j = i)) as [->|Hne]; [by right|].
           rewrite list_lookup_insert_ne in Hj by done. left. eauto.
        -- rewrite list_lookup_insert_ne in Hr' by done. left. eauto.
  - unfold marks_only, same_shape. simpl. split_and!; try done.
    + exists []. by rewrite app_nil_r.
    + eauto.
    + rewrite list_fmap_insert. rewrite length_insert.
      apply list_insert_id. by rewrite list_lookup_fmap, Hrow.
Qed.

Lemma foldM_marks {A} (f : MoveChangeData → A → result MoveChangeData) l :
  (∀ m x m', flags_ok m → f m x = Ok m' → flags_ok m' ∧ marks_only m m') →
  ∀ m m', flags_ok m → foldM f m l = Ok m' → flags_ok m' ∧ marks_only m m'.
Proof.
  intros Hstep. induction l as [|x l IH]; intros m m' Hm H; simpl in H.
  - injection H as <-. split; [done | apply marks_only_refl].
  - apply bind_Ok in H as (m1 & H1 & H2).
    destruct (Hstep _ _ _ Hm H1) as [Hm1 Hk1].
    destruct (IH _ _ Hm1 H2) as [Hm' Hk']. split; [done|].
    by eapply marks_only_trans.
Qed.

Lemma add_move_port_ok e p c cell curr_loc old_loc mc port mc' :
  flags_ok mc → add_move_port e p c cell curr_loc old_loc mc port = Ok mc' →
  flags_ok mc' ∧ marks_only mc mc'.
Proof.
  intros Hok H. unfold add_move_port in H.
  destruct (port_net port) as [pn|];
    [|injection H as <-; split; [done | apply marks_only_refl]].
  destruct (ignore_net e p pn);
    [injection H as <-; split; [done | apply marks_only_refl]|].
  apply bind_Ok in H as (cb & _ & H). apply bind_Ok in H as (mc1 & H1 & H).
  assert (flags_ok mc1 ∧ marks_only mc mc1) as [Hok1 Hm1].
  { destruct (_ || _); [by eapply mark_bounds_ok|].
    injection H1 as <-. split; [done | apply marks_only_refl]. }
  destruct (_ && _);
    [|injection H as <-; by split].
  destruct (port_type port).
  - destruct (fast_port_to_user e !! _); [|done].
    apply mark_arc_ok in H as [? ?]; [|done].
    split; [done | by eapply marks_only_trans].
  - destruct (port_timing_ignored e cell (port_name port));
      [injection H as <-; by split|].
    eapply foldM_marks in H as [? ?]; [| |done].
    + split; [done | by eapply marks_only_trans].
    + intros m j m' Hm Hs. by eapply mark_arc_ok.
  - injection H as <-. by split.
Qed.

(** X24.  [add_move_cell] only marks: starting from flags that agree with
    the lists, it leaves flags that agree with the lists, so that no net and
    no arc is entered twice however many ports of the moved cells share a
    net; the lists grow at the end, the vectors of flags keep their sizes,
    and the results of an evaluation are not touched. *)
Theorem add_move_cell_marks (e : CostEnv) (ctx : Context) (p : Placer)
    (c : Costs) (mc mc' : MoveChangeData) (cell : Z) (old_bel : BelId)
    (movedCells : gmap Z BelId) :
  flags_ok mc →
  add_move_cell e ctx p c mc cell old_bel movedCells = Ok mc' →
  flags_ok mc' ∧ marks_only mc mc'.
Proof.
  intros Hok H. unfold add_move_cell in H.
  eapply foldM_marks in H; [done| |done].
  intros m port m' Hm Hs. by eapply add_move_port_ok.
Qed.

Lemma flags_ok_sample : flags_ok md0.
Proof.
  unfold flags_ok, md0. simpl. split_and!; try apply NoDup_nil_2.
  - intros n. split; [by intros ?%elem_of_nil|]. intros [_ H].
    by destruct (Z.to_nat n) as [|[|?]].
  - intros n i. split; [by intros ?%elem_of_nil|]. intros [_ (row & Hr & Hi)].
    destruct (Z.to_nat n) as [|[|?]]; try done. injection Hr as <-.
    by destruct i as [|[|?]].
Qed.

Lemma add_move_cell_marks_witness :
  ∃ mc', add_move_cell env Sample.ctx0 SamplePlacer.placer0 costs0 md0 1 10 moved
         = Ok mc'
         ∧ flags_ok mc' ∧ marks_only md0 mc'.
Proof.
  eexists. split; [vm_compute; reflexivity|].
  refine (add_move_cell_marks env Sample.ctx0 SamplePlacer.placer0 costs0 md0 _
            1 10 moved flags_ok_sample _).
  vm_compute. reflexivity.
Defined.

(** ** The wirelength after a move *)

Lemma total_wirelen_cost_sum c : total_wirelen_cost c = sum_hpwl (net_bounds c).
Proof.
  unfold total_wirelen_cost, sum_hpwl.
  assert (∀ l a, fold_left (λ cost net, cost + hpwl net) l a
                 = a + foldr (λ b acc, hpwl b + acc) 0 l) as H.
  { induction l as [|b l IH]; intros a; simpl; [lia|]. rewrite IH. lia. }
  rewrite H. lia.
Qed.

Lemma sum_hpwl_insert l i b old :
  l !! i = Some old →
  sum_hpwl (<[i := b]> l) = sum_hpwl l + (hpwl b - hpwl old).
Proof.
  revert i. induction l as [|x l IH]; intros [|i] H; simpl in *; try done.
  - injection H as ->. lia.
  - rewrite (IH _ H). lia.
Qed.

Lemma delta_of_insert cur nbs k b :
  Forall (λ nb : Z * BoundingBox, Z.to_nat nb.1 ≠ k) nbs →
  delta_of (<[k := b]> cur) nbs = delta_of cur nbs.
Proof.
  induction 1 as [|nb nbs Hne _ IH]; simpl; [done|].
  rewrite IH. by rewrite list_lookup_insert_ne.
Qed.

(** The first loop of [compute_cost_changes]. *)
Lemma compute_bounds_loop e ctx p c movedCells l : ∀ md md1,
  foldM (compute_bounds_change e ctx p c movedCells) md l = Ok md1 →
  ∃ nbs, new_net_bounds md1 = new_net_bounds md ++ nbs
       ∧ nbs.*1 = l
       ∧ wirelen_delta md1 = wirelen_delta md + delta_of (net_bounds c) nbs
       ∧ Forall (λ nb : Z * BoundingBox,
                   0 ≤ nb.1 ∧ (Z.to_nat nb.1 < length (net_bounds c))%nat
                   ∧ ∃ net, net_by_udata e !! Z.to_nat nb.1 = Some net
                            ∧ get_net_bounds ctx p net movedCells = Ok nb.2) nbs
       ∧ bounds_changed_nets md1 = bounds_changed_nets md
       ∧ changed_arcs md1 = changed_arcs md
       ∧ new_arc_costs md1 = new_arc_costs md
       ∧ already_changed_arcs md1 = already_changed_arcs md.
Proof.
  induction l as [|bc l IH]; intros md md1 H; simpl in H.
  - injection H as <-. exists []. rewrite app_nil_r. simpl.
    split_and!; try done. lia.
  - apply bind_Ok in H as (md0 & H0 & H).
    apply IH in H as (nbs & E1 & E2 & E3 & E4 & E5 & E6 & E7 & E8).
    unfold compute_bounds_change in H0.
    apply bind_Ok in H0 as (old & [Hbc Hold]%vec_at_int_Ok & H0).
    apply bind_Ok in H0 as (net & [_ Hnet]%vec_at_int_Ok & H0).
    apply bind_Ok in H0 as (b & Hb & H0).
    apply bind_Ok in H0 as (abc & _ & H0). injection H0 as <-. simpl in *.
    exists ((bc, b) :: nbs). simpl. split_and!; try done.
    + by rewrite E1, <- app_assoc.
    + f_equal. exact E2.
    + rewrite E3, Hold. simpl. lia.
    + constructor; [|done]. simpl. split; [done|].
      split; [by eapply lookup_lt_Some | eauto].
Qed.

(** The second loop of [compute_cost_changes]. *)
Lemma compute_arcs_loop e ctx p c movedCells l : ∀ md md1,
  foldM (compute_arc_change e ctx p c movedCells) md l = Ok md1 →
  ∃ acs, new_arc_costs md1 = new_arc_costs md ++ acs
       ∧ Forall (λ a : Z * nat * Q,
                   0 ≤ a.1.1
                   ∧ ∃ n, (length <$> net_arc_tcost c) !! Z.to_nat a.1.1 = Some n
                          ∧ (a.1.2 < n)%nat) acs
       ∧ new_net_bounds md1 = new_net_bounds md
       ∧ wirelen_delta md1 = wirelen_delta md
       ∧ bounds_changed_nets md1 = bounds_changed_nets md
       ∧ already_bounds_changed md1 = already_bounds_changed md.
Proof.
  induction l as [|tc l IH]; intros md md1 H; simpl in H.
  - injection H as <-. exists []. by rewrite app_nil_r.
  - apply bind_Ok in H as (md0 & H0 & H).
    apply IH in H as (acs & E1 & E2 & E3 & E4 & E5 & E6).
    unfold compute_arc_change in H0.
    apply bind_Ok in H0 as (row & [Htc Hrow]%vec_at_int_Ok & H0).
    apply bind_Ok in H0 as (old & Hold%vec_at_Ok & H0).
    apply bind_Ok in H0 as (net & _ & H0).
    apply bind_Ok in H0 as (nc & _ & H0).
    apply bind_Ok in H0 as (aca & _ & H0). injection H0 as <-. simpl in *.
    exists ((tc, nc) :: acs). split_and!; try done.
    + by rewrite E1, <- app_assoc.
    + constructor; [|done]. simpl. split; [done|].
      exists (length row). rewrite list_lookup_fmap, Hrow. split; [done|].
      by eapply lookup_lt_Some.
Qed.

(** The first loop of [commit_cost_changes]. *)
Lemma commit_bounds_loop nbs : ∀ cur,
  NoDup nbs.*1 →
  Forall (λ nb : Z * BoundingBox,
            0 ≤ nb.1 ∧ (Z.to_nat nb.1 < length cur)%nat) nbs →
  ∃ cur', foldM (λ nb (bc : Z * BoundingBox), vec_set nb bc.1 bc.2) cur nbs
            = Ok cur'
        ∧ length cur' = length cur
        ∧ sum_hpwl cur' = sum_hpwl cur + delta_of cur nbs
        ∧ (∀ nb, nb ∈ nbs → cur' !! Z.to_nat nb.1 = Some nb.2)
        ∧ (∀ k, (∀ nb, nb ∈ nbs → Z.to_nat nb.1 ≠ k) → cur' !! k = cur !! k).
Proof.
  induction nbs as [|[bc b] nbs IH]; intros cur Hnd Hall; simpl.
  - exists cur. split_and!; try done; [lia|]. by intros nb ?%elem_of_nil.
  - apply NoDup_cons in Hnd as [Hnotin Hnd].
    apply Forall_cons in Hall as [[Hbc Hlt] Hall]. simpl in *.
    assert (Forall (λ nb : Z * BoundingBox, Z.to_nat nb.1 ≠ Z.to_nat bc) nbs)
      as Hne.
    { apply Forall_forall. intros nb Hnb E.
      pose proof (proj1 (Forall_forall _ _) Hall _ Hnb) as [Hnb0 _].
      apply Hnotin. apply list_elem_of_fmap. exists nb. split; [lia | done]. }
    destruct (lookup_lt_is_Some_2 cur _ Hlt) as [old Hold].
    rewrite (proj2 (vec_set_Ok cur bc b _)) by done. simpl.
    destruct (IH (<[Z.to_nat bc := b]> cur) Hnd) as (cur' & H1 & H2 & H3 & H4 & H5).
    { eapply Forall_impl; [exact Hall|]. intros nb [? ?].
      by rewrite length_insert. }
    exists cur'. split; [done|]. split; [by rewrite H2, length_insert|].
    split; [|split].
    + rewrite H3, (sum_hpwl_insert _ _ _ _ Hold), delta_of_insert by done.
      rewrite Hold. simpl. lia.
    + intros nb [->|Hnb]%elem_of_cons; [|by apply H4]. simpl.
      rewrite H5; [by apply list_lookup_insert_eq|].
      intros nb Hnb. by apply (proj1 (Forall_forall _ _) Hne).
    + intros k Hk. rewrite H5.
      * apply list_lookup_insert_ne. apply (Hk (bc, b)), list_elem_of_here.
      * intros nb Hnb. by apply Hk, list_elem_of_further.
Qed.

(** The second loop of [commit_cost_changes] writes where the evaluation
    has read. *)
Lemma commit_arcs_loop (acs : list (Z * nat * Q)) : ∀ tc,
  Forall (λ a : Z * nat * Q,
            0 ≤ a.1.1 ∧ ∃ n, (length <$> tc) !! Z.to_nat a.1.1 = Some n
                             ∧ (a.1.2 < n)%nat) acs →
  ∃ tc', foldM (λ tc (a : Z * nat * Q), vec_set2 tc a.1.1 a.1.2 a.2) tc acs
           = Ok tc'.
Proof.
  induction acs as [|[[n i] q] acs IH]; intros tc Hall; simpl; [eauto|].
  apply Forall_cons in Hall as [(Hn & len & Hlen & Hi) Hall]. simpl in *.
  rewrite list_lookup_fmap in Hlen.
  destruct (tc !! Z.to_nat n) as [row|] eqn:Hrow; [|done].
  injection Hlen as <-.
  rewrite (proj2 (vec_set2_Ok tc n i q _)) by eauto 10. simpl.
  apply IH. eapply Forall_impl; [exact Hall|].
  intros a (? & m & Hm & ?). split; [done|]. exists m. split; [|done].
  rewrite list_fmap_insert, length_insert.
  rewrite list_insert_id; [done|]. by rewrite list_lookup_fmap, Hrow.
Qed.

(** X25.  Evaluating a move and committing it keeps the running wirelength
    right.  For a move whose list of changed nets has no net twice and whose
    results are still empty, if [compute_cost_changes] returns then
    [commit_cost_changes] returns as well; every changed net then has the
    box that [get_net_bounds] gives for the moved cells, every other net the
    box it had; the total wirelength has changed by exactly [wirelen_delta],
    so that [curr_wirelen_cost] equals [total_wirelen_cost] afterwards if it
    did before. *)
Theorem compute_commit_wirelen (e : CostEnv) (ctx : Context) (p : Placer)
    (c : Costs) (md md' : MoveChangeData) (movedCells : gmap Z BelId) :
  NoDup (bounds_changed_nets md) →
  new_net_bounds md = [] → new_arc_costs md = [] → wirelen_delta md = 0 →
  compute_cost_changes e ctx p c md movedCells = Ok md' →
  ∃ c', commit_cost_changes c md' = Ok c'
      ∧ total_wirelen_cost c' = total_wirelen_cost c + wirelen_delta md'
      ∧ (curr_wirelen_cost c = total_wirelen_cost c →
         curr_wirelen_cost c' = total_wirelen_cost c')
      ∧ length (net_bounds c') = length (net_bounds c)
      ∧ (∀ bc, bc ∈ bounds_changed_nets md →
           ∃ net b, net_by_udata e !! Z.to_nat bc = Some net
                  ∧ get_net_bounds ctx p net movedCells = Ok b
                  ∧ net_bounds c' !! Z.to_nat bc = Some b)
      ∧ (∀ k, (∀ bc, bc ∈ bounds_changed_nets md → Z.to_nat bc ≠ k) →
           net_bounds c' !! k = net_bounds c !! k).
Proof.
  intros Hnd Hnb Hac Hwd H. unfold compute_cost_changes in H.
  apply bind_Ok in H as (md1 & H1 & H).
  apply compute_bounds_loop in H1
    as (nbs & E1 & E2 & E3 & E4 & E5 & E6 & E7 & E8).
  rewrite Hnb in E1. simpl in E1. rewrite Hwd in E3. rewrite Hac in E7.
  assert (∃ acs, new_arc_costs md' = acs
            ∧ Forall (λ a : Z * nat * Q,
                        0 ≤ a.1.1
                        ∧ ∃ n, (length <$> net_arc_tcost c) !! Z.to_nat a.1.1
                               = Some n ∧ (a.1.2 < n)%nat) acs
            ∧ new_net_bounds md' = nbs
            ∧ wirelen_delta md' = delta_of (net_bounds c) nbs)
    as (acs & A1 & A2 & A3 & A4).
  { destruct (timing_driven e).
    - apply compute_arcs_loop in H as (acs & G1 & G2 & G3 & G4 & _).
      exists acs. rewrite G1, E7, G3, G4, E1, E3. split_and!; done || lia.
    - injection H as <-. exists []. rewrite E7, E1, E3.
      split_and!; done || lia. }
  destruct (commit_bounds_loop nbs (net_bounds c))
    as (nb' & B1 & B2 & B3 & B4 & B5).
  { by rewrite E2. }
  { eapply Forall_impl; [exact E4|]. by intros nb (? & ? & _). }
  destruct (commit_arcs_loop acs (net_arc_tcost c) A2) as [tc' T1].
  unfold commit_cost_changes. rewrite A3, B1, A1. simpl. rewrite T1. simpl.
  eexists. split; [done|].
  rewrite !total_wirelen_cost_sum. simpl. split_and!.
  - rewrite B3, A4. done.
  - intros ->. rewrite B3, A4. done.
  - done.
  - intros bc Hbc. rewrite <- E2 in Hbc.
    apply list_elem_of_fmap in Hbc as (nb & -> & Hnb').
    pose proof (proj1 (Forall_forall _ _) E4 _ Hnb') as (_ & _ & net & Hn & Hg).
    exists net, nb.2. split_and!; try done. by apply B4.
  - intros k Hk. apply B5. intros nb Hnb'. apply Hk.
    rewrite <- E2. apply list_elem_of_fmap. eauto.
Qed.

Lemma compute_commit_wirelen_witness :
  ∃ md', compute_cost_changes env Sample.ctx0 SamplePlacer.placer0 costs0
           md_marked moved = Ok md'
         ∧ ∃ c', commit_cost_changes costs0 md' = Ok c'
                 ∧ curr_wirelen_cost c' = total_wirelen_cost c'.
Proof.
  eexists. split; [vm_compute; reflexivity|].
  match goal with
  | |- ∃ c', commit_cost_changes _ ?md' = _ ∧ _ =>
      assert (compute_cost_changes env Sample.ctx0 SamplePlacer.placer0 costs0
                md_marked moved = Ok md') as Hc by (vm_compute; reflexivity);
      destruct (compute_commit_wirelen env Sample.ctx0 SamplePlacer.placer0
                  costs0 md_marked md' moved (NoDup_singleton 0) eq_refl eq_refl
                  eq_refl Hc) as (c' & H1 & _ & H3 & _)
  end.
  exists c'. split; [exact H1 | apply H3; reflexivity].
Defined.

(** ** Clearing the marks *)

Lemma clear_bounds_flags l : ∀ abc abc',
  foldM (λ abc (bc : Z), vec_set abc bc false) abc l = Ok abc' →
  length abc' = length abc
  ∧ (∀ k, abc' !! k = Some true →
          abc !! k = Some true ∧ ∀ bc, bc ∈ l → Z.to_nat bc ≠ k).
Proof.
  induction l as [|bc l IH]; intros abc abc' H; simpl in H.
  - injection H as <-. split; [done|]. intros k Hk. split; [done|].
    by intros bc ?%elem_of_nil.
  - apply bind_Ok in H as (abc1 & (Hbc & Hlt & ->)%vec_set_Ok & H).
    apply IH in H as [Hlen Hfl]. split; [by rewrite Hlen, length_insert|].
    intros k Hk. apply Hfl in Hk as [Hk Hnot].
    destruct (decide (Z.to_nat bc = k)) as [<-|Hne].
    + rewrite list_lookup_insert_eq in Hk by done. done.
    + rewrite list_lookup_insert_ne in Hk by done. split; [done|].
      intros bc' [->|?]%elem_of_cons; [done | by apply Hnot].
Qed.

Lemma clear_arc_flags (l : list (Z * nat)) : ∀ aca aca',
  foldM (λ aca (tc : Z * nat), vec_set2 aca tc.1 tc.2 false) aca l = Ok aca' →
  length <$> aca' = length <$> aca
  ∧ (∀ k row' i, aca' !! k = Some row' → row' !! i = Some true →
       (∃ row, aca !! k = Some row ∧ row !! i = Some true)
       ∧ ∀ tc, tc ∈ l → ¬ (Z.to_nat tc.1 = k ∧ tc.2 = i)).
Proof.
  induction l as [|[n j] l IH]; intros aca aca' H; simpl in H.
  - injection H as <-. split; [done|]. intros k row' i Hk Hi.
    split; [eauto|]. by intros tc ?%elem_of_nil.
  - apply bind_Ok in H as (aca1 & (Hn & row & Hrow & Hlt & ->)%vec_set2_Ok & H).
    apply IH in H as [Hlen Hfl]. split.
    { rewrite Hlen, list_fmap_insert, length_insert.
      apply list_insert_id. by rewrite list_lookup_fmap, Hrow. }
    intros k row' i Hk Hi.
    destruct (Hfl _ _ _ Hk Hi) as [(row1 & Hr1 & Hi1) Hnot].
    pose proof (lookup_lt_Some _ _ _ Hrow) as Hlt'.
    destruct (decide (Z.to_nat n = k)) as [<-|Hne].
    + rewrite list_lookup_insert_eq in Hr1 by done. injection Hr1 as <-.
      destruct (decide (j = i)) as [->|Hji].
      * rewrite list_lookup_insert_eq in Hi1 by done. done.
      * rewrite list_lookup_insert_ne in Hi1 by done. split; [eauto|].
        intros tc [->|?]%elem_of_cons; [simpl; intros [_ ?]; done|].
        by apply Hnot.
    + rewrite list_lookup_insert_ne in Hr1 by done. split; [eauto|].
      intros tc [->|?]%elem_of_cons; [simpl; intros [? _]; done|].
      by apply Hnot.
Qed.

(** X26.  [reset] leaves a clean move.  If the flags agree with the lists
    and [reset] returns, then no net and no arc is flagged any more, the
    lists and the results are empty, the deltas are zero, and the vectors
    of flags have the sizes they had: the next move starts as the first
    one did. *)
Theorem reset_clean (mc mc' : MoveChangeData) :
  flags_ok mc → reset mc = Ok mc' →
  bounds_flags_clear mc' ∧ arc_flags_clear mc'
  ∧ flags_ok mc' ∧ same_shape mc mc'
  ∧ bounds_changed_nets mc' = [] ∧ changed_arcs mc' = []
  ∧ new_net_bounds mc' = [] ∧ new_arc_costs mc' = []
  ∧ wirelen_delta mc' = 0 ∧ timing_delta mc' = 0%Q.
Proof.
  intros (Hnd & Hfl & Hnd2 & Hfl2) H. unfold reset in H.
  apply bind_Ok in H as (abc & Habc & H).
  apply bind_Ok in H as (aca & Haca & H). injection H as <-.
  apply clear_bounds_flags in Habc as [Hlen Hb].
  apply clear_arc_flags in Haca as [Hlen2 Ha].
  assert (∀ k, abc !! k ≠ Some true) as Hbc.
  { intros k Hk. apply Hb in Hk as [Hk Hnot].
    apply (Hnot (Z.of_nat k)); [|lia].
    apply Hfl. rewrite Nat2Z.id. split; [lia | done]. }
  assert (∀ k row i, aca !! k = Some row → row !! i ≠ Some true) as Hac.
  { intros k row' i Hk Hi. destruct (Ha _ _ _ Hk Hi) as [(row & Hr & Hi') Hnot].
    apply (Hnot (Z.of_nat k, i)); [|simpl; split; [lia | done]].
    apply Hfl2. rewrite Nat2Z.id. split; [lia | eauto]. }
  unfold bounds_flags_clear, arc_flags_clear, flags_ok, same_shape. simpl.
  split_and!; try done; try apply NoDup_nil_2.
  - intros n. split; [by intros ?%elem_of_nil|]. intros [_ Hn]. destruct (Hbc _ Hn).
  - intros n i. split; [by intros ?%elem_of_nil|].
    intros [_ (row & Hr & Hi)]. destruct (Hac _ _ _ Hr Hi).
Qed.

Lemma flags_ok_marked_sample : flags_ok md_marked.
Proof.
  unfold flags_ok, md_marked. simpl. split_and!; try apply NoDup_singleton.
  - intros n. rewrite list_elem_of_singleton. split; [by intros ->|].
    intros [Hn H]. destruct (Z.to_nat n) as [|[|?]] eqn:E; try done. lia.
  - intros n i. rewrite list_elem_of_singleton. split.
    + intros [= -> ->]. split; [done|]. by exists [true].
    + intros [Hn (row & Hr & Hi)].
      destruct (Z.to_nat n) as [|[|?]] eqn:E; try done. injection Hr as <-.
      destruct i as [|[|?]]; try done. f_equal. lia.
Qed.

Lemma reset_clean_witness :
  ∃ mc', reset md_marked = Ok mc' ∧ bounds_flags_clear mc' ∧ arc_flags_clear mc'.
Proof.
  eexists. split; [vm_compute; reflexivity|].
  refine (let H := reset_clean md_marked _ flags_ok_marked_sample eq_refl in
          conj (proj1 H) (proj1 (proj2 H))).
Defined.

Lemma compute_bounds_flags e ctx p c movedCells l : ∀ md md1,
  foldM (compute_bounds_change e ctx p c movedCells) md l = Ok md1 →
  (∀ n, n ∈ l ↔ 0 ≤ n ∧ already_bounds_changed md !! Z.to_nat n = Some true) →
  bounds_flags_clear md1.
Proof.
  intros md md1 H Hfl.
  assert (∃ abc', foldM (λ abc (bc : Z), vec_set abc bc false)
                    (already_bounds_changed md) l = Ok abc'
                  ∧ already_bounds_changed md1 = abc') as (abc' & Habc & E).
  { clear Hfl. revert md md1 H.
    induction l as [|bc l IH]; intros md md1 H; simpl in H.
    - injection H as <-. by eexists.
    - apply bind_Ok in H as (md0 & H0 & H). apply IH in H as (abc' & H & E).
      unfold compute_bounds_change in H0.
      apply bind_Ok in H0 as (old & _ & H0).
      apply bind_Ok in H0 as (net & _ & H0).
      apply bind_Ok in H0 as (b & _ & H0).
      apply bind_Ok in H0 as (abc & Hset & H0). injection H0 as <-.
      simpl in *. rewrite Hset. simpl. eauto. }
  apply clear_bounds_flags in Habc as [_ Hb].
  intros k Hk. rewrite E in Hk. apply Hb in Hk as [Hk Hnot].
  apply (Hnot (Z.of_nat k)); [|lia].
  apply Hfl. rewrite Nat2Z.id. split; [lia | done].
Qed.

Lemma compute_arcs_flags e ctx p c movedCells l : ∀ md md1,
  foldM (compute_arc_change e ctx p c movedCells) md l = Ok md1 →
  changed_arcs md1 = changed_arcs md
  ∧ ∀ k row' i, already_changed_arcs md1 !! k = Some row' →
      row' !! i = Some true →
      (∃ row, already_changed_arcs md !! k = Some row ∧ row !! i = Some true)
      ∧ ∀ tc, tc ∈ l → ¬ (Z.to_nat tc.1 = k ∧ tc.2 = i).
Proof.
  intros md md1 H.
  assert (∃ aca', foldM (λ aca (tc : Z * nat), vec_set2 aca tc.1 tc.2 false)
                    (already_changed_arcs md) l = Ok aca'
                  ∧ already_changed_arcs md1 = aca'
                  ∧ changed_arcs md1 = changed_arcs md) as (aca' & Haca & E & E').
  { revert md md1 H.
    induction l as [|tc l IH]; intros md md1 H; simpl in H.
    - injection H as <-. by eexists.
    - apply bind_Ok in H as (md0 & H0 & H). apply IH in H as (aca' & H & E & E').
      unfold compute_arc_change in H0.
      apply bind_Ok in H0 as (row & _ & H0).
      apply bind_Ok in H0 as (old & _ & H0).
      apply bind_Ok in H0 as (net & _ & H0).
      apply bind_Ok in H0 as (nc & _ & H0).
      apply bind_Ok in H0 as (aca & Hset & H0). injection H0 as <-.
      simpl in *. rewrite Hset. simpl. eauto. }
  split; [done|]. rewrite E.
  by apply clear_arc_flags in Haca as [_ Ha].
Qed.

(** X27.  An evaluation clears the marks of the nets.  If the flags agree
    with the lists and [compute_cost_changes] returns, no net is flagged
    afterwards, and in a timing-driven run no arc either; the lists
    themselves are kept for [reset]. *)
Theorem compute_cost_changes_clears (e : CostEnv) (ctx : Context) (p : Placer)
    (c : Costs) (md md' : MoveChangeData) (movedCells : gmap Z BelId) :
  flags_ok md →
  compute_cost_changes e ctx p c md movedCells = Ok md' →
  bounds_flags_clear md'
  ∧ (timing_driven e = true → arc_flags_clear md')
  ∧ bounds_changed_nets md' = bounds_changed_nets md
  ∧ changed_arcs md' = changed_arcs md.
Proof.
  intros (Hnd & Hfl & Hnd2 & Hfl2) H. unfold compute_cost_changes in H.
  apply bind_Ok in H as (md1 & H1 & H).
  assert (bounds_flags_clear md1 ∧ already_changed_arcs md1 = already_changed_arcs md
          ∧ bounds_changed_nets md1 = bounds_changed_nets md
          ∧ changed_arcs md1 = changed_arcs md) as (C1 & C2 & C3 & C4).
  { pose proof (compute_bounds_loop _ _ _ _ _ _ _ _ H1)
      as (_ & _ & _ & _ & _ & E5 & E6 & _ & E8).
    split; [|done].
    apply (compute_bounds_flags _ _ _ _ _ _ _ _ H1) in Hfl. done. }
  destruct (timing_driven e).
  - pose proof (compute_arcs_loop _ _ _ _ _ _ _ _ H) as (_ & _ & _ & _ & _ & E5 & E6).
    rewrite C4 in H.
    pose proof (compute_arcs_flags _ _ _ _ _ _ _ _ H) as [G1 G2].
    split_and!.
    + unfold bounds_flags_clear. by rewrite E6.
    + intros _ k row' i Hk Hi.
      destruct (G2 _ _ _ Hk Hi) as [(row & Hr & Hi') Hnot].
      rewrite C2 in Hr.
      apply (Hnot (Z.of_nat k, i)); [|simpl; split; [lia | done]].
      apply Hfl2. rewrite Nat2Z.id. split; [lia | eauto].
    + congruence.
    + by rewrite G1, C4.
  - injection H as <-. by split_and!.
Qed.

Lemma compute_cost_changes_clears_witness :
  ∃ md', compute_cost_changes env Sample.ctx0 SamplePlacer.placer0 costs0
           md_marked moved = Ok md'
         ∧ bounds_flags_clear md'.
Proof.
  eexists. split; [vm_compute; reflexivity|].
  refine (proj1 (compute_cost_changes_clears env Sample.ctx0 SamplePlacer.placer0
                   costs0 md_marked _ moved flags_ok_marked_sample _)).
  vm_compute. reflexivity.
Defined.
